(* ===== verification/_CoqProject ===== *)
-Q . S2P
Prelude.v
GoStrings.v
GoPath.v
GoUrl.v
World.v
Metrics.v
Template.v
Kube.v
SimNode.v
Zerofs.v
S3.v
Controller.v
Nbd.v
NbdReserve.v
Node.v
NodeFrame.v
SimRun.v
NodeTrace.v
NodeState.v
NbdRefine.v
NodeRefine.v
Conc.v
NodeConc.v
NodeConcProps.v
NodeConcSafe.v
NodeRaces.v
ZerofsProps.v
NodeUnpublish.v
PodProps.v
S3Props.v
ControllerProps.v
StatsProps.v
Driver.v
CmdLine.v
