(* ===== verification/Prelude.v ===== *)
(** * Verification of the ZeroFS CSI driver

    The program is a Kubernetes CSI driver.  A volume is a disk file inside a ZeroFS
    file system kept in an S3 prefix; on the node that uses it, a per-volume ZeroFS
    pod serves the disk over NBD and the driver connects, formats and mounts it.

    ** The parts of the program and the files that model them

    - [pkg/csi/nbd.go], the bookkeeping of NBD devices: [Nbd] (the operations, from
      [listNBDDevices] to [reserveNBDDevice] and [clearVolumeNBDState]).  Its state
      is the files under [/run/zerofs-csi], one per volume and one per reserved
      device, in the file system of [World].
    - [pkg/csi/node.go], the node service: [Node].  [NodePublishVolume] is split into
      the stages of the Go function ([clearStale], [makeTarget], [createPodStage],
      [waitSocket], [mount9p], [createDisk], [umount9p], [reserveStage],
      [connectNBD], [formatIfBlank], [mountDevice]) and its deferred cleanup
      ([publishCleanup]); [NodeUnpublishVolume], [NodeGetVolumeStats] and the startup
      reconciler are there too.
    - [pkg/csi/zerofs.go], the per-volume pods: [Zerofs], with the rendering of the
      configuration by [text/template] in [Template].
    - [pkg/csi/controller.go] and [controller_delete.go], the controller service:
      [Controller].  [pkg/csi/s3_cleanup.go], the deletion of a volume's objects: [S3].
    - [pkg/csi/metrics.go]: [Metrics].  [pkg/csi/driver.go]: [Driver].
      [cmd/driver/main.go]: [CmdLine], with the part of Go's [flag] package it uses.

    The node service calls the bookkeeping under its mutex and the pods' operations;
    the controller calls [RemovePod] and the S3 cleanup; the driver registers both
    and starts the reconciler, and gRPC runs every call in a goroutine of its own.
    For the last point the operations of [Nbd] and the handlers of [Node] that share
    the state files are there a second time, in [NodeConc], as programs: trees of
    steps ([Conc.Prog]) with the mutex [nbdMu] as a pair of steps.  A configuration is
    a world, the owner of the mutex and the programs of the calls; [Conc.cstep] is a
    step of one of them.  A step is one file operation, one command, one sleep, or a
    stage that only talks to the API server; two steps carry the line of node.go they
    are at ([Conc.site]).

    ** How the code is modelled

    A Go function is a function in the state monad [Go] of [World]: its state is the
    system (the file system and the state of everything outside the driver) and a
    trace of the calls the driver makes, which the code never reads.  A Go error is
    the left summand of its result; [try] is the idiom of returning on an error.
    Integers are [Z], wrapped to 64 bits where Go wraps ([wrap64], [ParseInt]).
    [GoStrings], [GoPath] and [GoUrl] model what the code uses of [strings],
    [strconv], [path/filepath] and [net/url], on byte strings.

    Code outside the repository is a parameter: [Environment] (commands, sleeping,
    the clock, input/output errors, the end of contexts), [KubeClient] (the API
    client), [QuantityParser], [S3Client], [Process] (environment variables and the
    listener), [Manager] and [ImportedFlags] (controller-runtime and its flags).
    Nothing is assumed of them except by classes named in a theorem:
    [EnvKeeps] and [KubeKeeps] (commands, sleeps, waits and API calls leave the
    driver's state files alone), [Healthy] (no input/output errors on the run
    directory), [Clock] (time does not go back), [Ticker] (when the select of a polling
    loop may take a tick and when the end of its context), [S3Store] (listing and
    deletion of objects mean what the S3 documentation says).  [SimNode] is an
    executable node, cluster and device set that satisfies them, and [SimRun] has the
    runs on it that the witnesses evaluate.

    ** Bounds

    The loops of the code that are bounded in the code have its bounds: five detach
    attempts, six looks at the socket.  A polling loop waits in a select between a
    ticker and the end of a context with a deadline, which [env_select] resolves; it has
    fuel for every second of its timeout and for the slack of the select
    ([poll_fuel]), and [waiting_ends] shows that it never runs out of it.  The loop
    over S3 pages has fuel, [None] being out of fuel; more fuel than there are objects
    is enough ([deleteS3Prefix_exact]).

    ** What is proved

    - [NbdReserve]: which device a reservation returns and what it writes; a device is
      never held by two volumes as long as no reservation in use outlives the limit of
      two hours; the sorted listing of devices.  [NbdRefine]: every history of
      reservations and releases implements an abstract allocator.  [NodeRefine]: so does
      every sequence of calls of the node service within two hours, each call doing to
      the table of devices what its specification says.
    - [NodeConc]: without interruption the programs are the functions of [Node].
      [NodeConcProps]: no schedule of calls deadlocks, and all of them return.
      [NodeConcSafe]: each program is safe against what the others may do, and so all
      together keep every device with one volume at every moment.  Two assumptions on the
      runs are in [NodeConcSafe.expected]: findmnt prints a volume's own device if any
      (node.go, line 419), and the cleanup of a failed publish finds no state file
      (line 169).  [unpublish_covering_mount] and [NodeRaces.cleanup_race] are what
      happens without them.
    - [NodeFrame] frames the operations of the node once, for all relations between
      worlds; [NodeTrace] uses it for what holds of every trace (mkfs only after a silent
      blkid, the mutex, idempotence, rejection of bad requests, the reconciler),
      [NodeState] for the state files (success, failure and unpublishing of a volume,
      independence of volumes).  [NodeUnpublish]: the whole trace of an unpublish, and
      what it leaks when findmnt prints a foreign source.
    - [ZerofsProps]: the configuration names the sockets the node uses; pods are
      created, awaited and removed as promised; the waits end; resource settings and
      timeouts.
      [PodProps]: the requests CreatePod makes, and that its pods are well formed.
    - [S3Props]: the deletion loop ends and deletes exactly the prefix; the prefix is
      the one the server was configured with.  [ControllerProps]: the deletion needs
      the opt-in, and with it DeleteVolume removes the pod and deletes exactly the
      volume's objects, from the request to the store; the context of a created volume.  [StatsProps]: df
      output and mkfs commands.  [Driver]: what is registered and started.
      [CmdLine]: which manager and driver main runs, and its exit codes.
    - Some theorems show what the code does not do: [unwritten_reservation_shared] (why
      [Healthy] is needed), [expired_reservation_shared], [cleanup_race],
      [reconciler_race], [sibling_volume_deleted] and [refused_delete_ignored] are
      closed runs, [unpublish_covering_mount] and [silent_blkid_formats] hold of every
      run with their premise; smaller ones are [failed_publish_unlocked],
      [podReadyTimeout_overflow], [default_url_not_deletable], [unclean_url_differs] and
      [mixed_case_filesystem_fails].

    ** What is not modelled

    Logging; the gRPC transport; the Prometheus registry; the inside of the
    controller-runtime manager, its cache and signals; symbolic links; a [/dev] that
    cannot be listed; letters outside ASCII in the name of a file system (which
    [strings.ToLower] would change).  A Get of the API client answers with the object
    asked for, so a deletion of what was read is of that name.  In the
    interleavings the calls of the controller and of [NodeGetVolumeStats] do not take
    part: they touch neither the state files nor the mutex.  Two concurrent calls for
    the same volume are outside [concurrent_exclusive]; the container orchestrator is
    asked not to make them, and the code does not guard against them.

    ** Plan

    Next: concurrent calls for one volume; what a successful publish guarantees under
    interleaving; publish, unpublish and publish again as a life cycle. *)

From Stdlib Require Export Ascii.
From stdpp Require Export sorting.
From stdpp Require Export base numbers gmap strings list.

Declare Scope go_scope.
Delimit Scope go_scope with go.

(** ** Effects: a state monad with Go's error-value convention *)

(** A computation over a world [W]. *)
Definition M (W A : Type) : Type := W → A * W.

Definition ret {W A} (a : A) : M W A := λ w, (a, w).

Definition bind {W A B} (m : M W A) (f : A → M W B) : M W B :=
  λ w, let r := m w in f r.1 r.2.

(** [bindE] is the Go idiom [x, err := m(); if err != nil { return err }]: the
    left summand is an early return. *)
Definition bindE {W E A B} (m : M W (E + A)) (f : A → M W (E + B)) : M W (E + B) :=
  bind m (λ r, match r with inl e => ret (inl e) | inr a => f a end).

(** [liftE] runs a computation that cannot return early. *)
Definition liftE {W E A} (m : M W A) : M W (E + A) := bind m (λ a, ret (inr a)).

Definition get {W} : M W W := λ w, (w, w).
Definition modify {W} (f : W → W) : M W unit := λ w, (tt, f w).

Notation "'do' x <- m ; k" := (bind m (λ x, k))
  (at level 10, x pattern, m at level 100, k at level 200,
   format "'[v' 'do'  x  <-  m ; '/' k ']'") : go_scope.
Notation "'try' x <- m ; k" := (bindE m (λ x, k))
  (at level 10, x pattern, m at level 100, k at level 200,
   format "'[v' 'try'  x  <-  m ; '/' k ']'") : go_scope.
Notation "'run' m ; k" := (bind m (λ _, k))
  (at level 10, m at level 100, k at level 200,
   format "'[v' 'run'  m ; '/' k ']'") : go_scope.
Open Scope go_scope.

(** ** Pairs *)

Lemma pair_eta {A B} (p : A * B) a : p.1 = a → p = (a, p.2).
Proof. by destruct p; intros <-. Qed.

(** [by_compute] closes a closed equation by evaluation. *)
Ltac by_compute := vm_compute; reflexivity.

(** ** Unary program logic

    [wp m Q w]: running [m] in [w] returns a value and a world that satisfy [Q].
    Every computation of the model is total, so [wp] is total correctness. *)

Definition wp {W A} (m : M W A) (Q : A → W → Prop) (w : W) : Prop :=
  Q (m w).1 (m w).2.

(** [respects R m]: every run of [m] moves the world along [R]. *)
Definition respects {W A} (R : relation W) (m : M W A) : Prop :=
  ∀ w, R w (m w).2.

Create HintDb go.

Section program_logic.
Context {W : Type}.
Implicit Types (R : relation W).

Lemma wp_ret {A} (a : A) (Q : A → W → Prop) w : Q a w → wp (ret a) Q w.
Proof. done. Qed.

Lemma wp_bind {A B} (m : M W A) (f : A → M W B) Q w :
  wp m (λ a w', wp (f a) Q w') w → wp (bind m f) Q w.
Proof. done. Qed.

Lemma wp_bindE {E A B} (m : M W (E + A)) (f : A → M W (E + B)) Q w :
  wp m (λ r w', match r with inl e => Q (inl e) w' | inr a => wp (f a) Q w' end) w →
  wp (bindE m f) Q w.
Proof. unfold wp, bindE, bind. by destruct (m w) as [[e|a] w']. Qed.

Lemma wp_mono {A} (m : M W A) (Q Q' : A → W → Prop) w :
  wp m Q w → (∀ a w', Q a w' → Q' a w') → wp m Q' w.
Proof. unfold wp. eauto. Qed.

Lemma wp_and {A} (m : M W A) (Q Q' : A → W → Prop) w :
  wp m Q w → wp m Q' w → wp m (λ a w', Q a w' ∧ Q' a w') w.
Proof. by split. Qed.

Lemma wp_any {A} (m : M W A) (Q : A → W → Prop) w : (∀ a w', Q a w') → wp m Q w.
Proof. unfold wp. auto. Qed.

Lemma respects_wp {A} R (m : M W A) w : respects R m → wp m (λ _ w', R w w') w.
Proof. intros H. apply H. Qed.

Lemma respects_ret {A} R `{!Reflexive R} (a : A) : respects R (ret a).
Proof. intros w. simpl. reflexivity. Qed.

Lemma respects_bind {A B} R `{!Transitive R} (m : M W A) (f : A → M W B) :
  respects R m → (∀ a, respects R (f a)) → respects R (bind m f).
Proof. intros Hm Hf w. etrans; [apply Hm | apply Hf]. Qed.

Lemma respects_bindE {E A B} R `{!PreOrder R} (m : M W (E + A)) (f : A → M W (E + B)) :
  respects R m → (∀ a, respects R (f a)) → respects R (bindE m f).
Proof.
  intros Hm Hf. apply respects_bind; [apply _ | done |].
  intros [e|a]; [apply respects_ret; apply _ | apply Hf].
Qed.

Lemma respects_liftE {E A} R `{!PreOrder R} (m : M W A) :
  respects R m → respects R (liftE (E:=E) m).
Proof.
  intros Hm. apply respects_bind; [apply _ | done |].
  intros a. apply respects_ret, _.
Qed.

Lemma respects_get R `{!Reflexive R} : respects R get.
Proof. intros w. simpl. reflexivity. Qed.

Lemma respects_mono {A} R R' (m : M W A) :
  (∀ w w', R w w' → R' w w') → respects R m → respects R' m.
Proof. intros HR Hm w. apply HR, Hm. Qed.

End program_logic.

#[export] Hint Resolve respects_ret respects_get : go.

(** [solve_respects] walks a computation: it splits binds, case analyses the
    branches the code takes, and closes each primitive with the [go] hints. *)
Ltac respects_step :=
  intros;
  lazymatch goal with
  | |- respects _ (bindE _ _) => eapply respects_bindE; [apply _ | ..]
  | |- respects _ (bind _ _) => eapply respects_bind; [apply _ | ..]
  | |- respects _ (liftE _) => eapply respects_liftE; [apply _ | ..]
  | |- respects _ (match ?x with _ => _ end) => destruct x eqn:?
  end.

Ltac solve_respects :=
  intros; cbv zeta;
  first [ solve [eauto 8 with go typeclass_instances]
        | respects_step; solve_respects
        | idtac ].

(** [wp_step] exposes one effect of a [wp] goal; [wp_frame R w H] runs it along
    [R], to a world [w]. *)
Ltac wp_step :=
  lazymatch goal with
  | |- wp (bindE _ _) _ _ => apply wp_bindE
  | |- wp (bind _ _) _ _ => apply wp_bind
  | |- wp (ret _) _ _ => apply wp_ret
  end.

Ltac wp_frame R w H :=
  wp_step; eapply wp_mono; [apply (respects_wp R); solve [solve_respects] | cbv beta; intros ? w H].

(** [wp_skip w] runs one effect to any world [w]. *)
Ltac wp_skip w := wp_step; apply wp_any; intros ? w.
