(* ===== verification/GoStrings.v ===== *)
(** * Go's [strings], [strconv], [cmp] and [fmt] functions

    Byte-level models of the standard-library string functions the driver calls.
    A Go string is a byte string, here [string].  White space is Go's
    [unicode.IsSpace] on UTF-8 input: the six ASCII characters and the UTF-8
    encodings of the other white-space runes.  [ToLower] and [EqualFold] act on
    the ASCII letters; for the arguments the driver compares with (["true"], the
    names of file systems) no non-ASCII rune folds to one of their letters, so
    the comparisons the driver makes are exact. *)

From S2P Require Import Prelude.
From stdpp Require Import pretty.

Local Open Scope Z_scope.

Module GoStrings.

(** ** Bytes *)

Definition bytes (s : string) : list ascii := String.list_ascii_of_string s.
Definition of_bytes (l : list ascii) : string := String.string_of_list_ascii l.
Definition byte (n : nat) : ascii := ascii_of_nat n.
Definition code (c : ascii) : Z := Z.of_nat (nat_of_ascii c).
Definition newline : string := String (byte 10) EmptyString.

Definition HasPrefix (s p : string) : bool := String.prefix p s.

Fixpoint drop_str (n : nat) (s : string) : string :=
  match n, s with
  | O, _ => s
  | S n', String _ s' => drop_str n' s'
  | S _, EmptyString => EmptyString
  end.

Definition TrimPrefix (s p : string) : string :=
  if HasPrefix s p then drop_str (String.length p) s else s.

Fixpoint Contains (s sub : string) : bool :=
  HasPrefix s sub ||
  match s with String _ s' => Contains s' sub | EmptyString => false end.

(** ** White space *)

Definition is_ascii_space (c : ascii) : bool :=
  bool_decide (code c ∈ [9; 10; 11; 12; 13; 32]).

(** The UTF-8 encodings of the non-ASCII runes of Unicode's White_Space:
    U+0085, U+00A0, U+1680, U+2000..U+200A, U+2028, U+2029, U+202F, U+205F, U+3000. *)
Definition wide_spaces : list (list ascii) :=
  List.map (List.map byte)
  ([ [194; 133]; [194; 160]; [225; 154; 128] ] ++
   List.map (λ k, [226; 128; 128 + k]) (seq 0 11) ++
   [ [226; 128; 168]; [226; 128; 169]; [226; 128; 175]; [226; 129; 159]; [227; 128; 128] ])%nat.

Fixpoint strip_bytes (p l : list ascii) : option (list ascii) :=
  match p, l with
  | [], _ => Some l
  | x :: p', y :: l' => if decide (x = y) then strip_bytes p' l' else None
  | _ :: _, [] => None
  end.

(** [cut_space seqs l]: the rest of [l] after one leading white-space rune, the
    wide ones being given by their encodings [seqs]. *)
Definition cut_space (seqs : list (list ascii)) (l : list ascii) : option (list ascii) :=
  match l with
  | [] => None
  | c :: l' =>
      if is_ascii_space c then Some l'
      else foldr (λ p acc, match strip_bytes p l with Some r => Some r | None => acc end) None seqs
  end.

(** One rune is at least one byte: [length l] rounds are enough. *)
Fixpoint trim_left_fuel (seqs : list (list ascii)) (n : nat) (l : list ascii) : list ascii :=
  match n with
  | O => l
  | S n' => match cut_space seqs l with Some r => trim_left_fuel seqs n' r | None => l end
  end.

Definition trim_left (seqs : list (list ascii)) (l : list ascii) : list ascii :=
  trim_left_fuel seqs (length l) l.

(** [strings.TrimSpace]. *)
Definition TrimSpace (s : string) : string :=
  of_bytes (reverse (trim_left (reverse <$> wide_spaces) (reverse (trim_left wide_spaces (bytes s))))).

(** [strings.Trim(s, cutset)] for a one-byte cutset. *)
Fixpoint drop_byte (c : ascii) (l : list ascii) : list ascii :=
  match l with
  | x :: l' => if decide (x = c) then drop_byte c l' else l
  | [] => []
  end.

Definition TrimByte (c : ascii) (s : string) : string :=
  of_bytes (reverse (drop_byte c (reverse (drop_byte c (bytes s))))).

(** ** Splitting and joining *)

(** [strings.Split(s, sep)] for a one-byte separator. *)
Fixpoint split_bytes (c : ascii) (l : list ascii) : list (list ascii) :=
  match l with
  | [] => [[]]
  | x :: l' =>
      if decide (x = c) then [] :: split_bytes c l'
      else match split_bytes c l' with
           | w :: ws => (x :: w) :: ws
           | [] => [[x]]
           end
  end.

Definition Split (s : string) (c : ascii) : list string := of_bytes <$> split_bytes c (bytes s).

(** [strings.Fields]: the maximal runs of non-white-space runes. *)
Fixpoint fields_fuel (n : nat) (word l : list ascii) : list (list ascii) :=
  let flush := match word with [] => [] | _ => [reverse word] end in
  match n with
  | O => flush
  | S n' =>
      match l with
      | [] => flush
      | c :: l' =>
          match cut_space wide_spaces l with
          | Some r => flush ++ fields_fuel n' [] r
          | None => fields_fuel n' (c :: word) l'
          end
      end
  end.

Definition Fields (s : string) : list string :=
  let l := bytes s in of_bytes <$> fields_fuel (S (length l)) [] l.

(** [strings.Join]. *)
Definition Join (l : list string) (sep : string) : string := String.concat sep l.

(** ** Case *)

Definition lower_byte (c : ascii) : ascii :=
  if decide (65 ≤ code c ≤ 90) then byte (nat_of_ascii c + 32)%nat else c.

Definition ToLower (s : string) : string := of_bytes (lower_byte <$> bytes s).

Definition EqualFold (s t : string) : bool := bool_decide (ToLower s = ToLower t).

(** [cmp.Or] on strings: the first argument that is not the zero value. *)
Definition cmp_Or (a b : string) : string := if decide (a = EmptyString) then b else a.

(** ** Numbers *)

Definition max_int64 : Z := 2 ^ 63 - 1.
Definition min_int64 : Z := - 2 ^ 63.

(** Two's complement wrap-around of [int64] arithmetic. *)
Definition wrap64 (z : Z) : Z := (z + 2 ^ 63) `mod` 2 ^ 64 - 2 ^ 63.

Definition digit (c : ascii) : option Z :=
  if decide (48 ≤ code c ≤ 57) then Some (code c - 48) else None.

Fixpoint parse_digits (acc : Z) (s : string) : option Z :=
  match s with
  | EmptyString => Some acc
  | String c s' => match digit c with Some d => parse_digits (10 * acc + d) s' | None => None end
  end.

Inductive num_error := ErrSyntax | ErrRange.

(** The decimal numeral of [strconv.ParseInt(s, 10, 64)]: an optional sign and at
    least one digit. *)
Definition parse_signed (s : string) : option Z :=
  match s with
  | EmptyString => None
  | String c s' =>
      if decide (c = byte 43) then
        match s' with EmptyString => None | _ => parse_digits 0 s' end
      else if decide (c = byte 45) then
        match s' with EmptyString => None | _ => Z.opp <$> parse_digits 0 s' end
      else parse_digits 0 s
  end.

(** [strconv.ParseInt(s, 10, 64)] and, on a 64-bit platform, [strconv.Atoi]: the
    value Go returns with the error is kept, since the driver reads it (the
    nearest bound on a range error, 0 on a syntax error). *)
Definition ParseInt (s : string) : Z * option num_error :=
  match parse_signed s with
  | None => (0, Some ErrSyntax)
  | Some z =>
      if decide (max_int64 < z) then (max_int64, Some ErrRange)
      else if decide (z < min_int64) then (min_int64, Some ErrRange)
      else (z, None)
  end.

Definition Atoi (s : string) : Z * option num_error := ParseInt s.

(** [fmt.Sprintf] with the percent-d verb. *)
Definition Sprint_d (z : Z) : string := pretty z.

(** ** Laws *)

Lemma bytes_of_bytes l : bytes (of_bytes l) = l.
Proof. apply String.list_ascii_of_string_of_list_ascii. Qed.

Lemma of_bytes_bytes s : of_bytes (bytes s) = s.
Proof. apply String.string_of_list_ascii_of_string. Qed.

Lemma append_cons c s t : String c s +:+ t = String c (s +:+ t).
Proof. done. Qed.

Lemma append_nil t : EmptyString +:+ t = t.
Proof. done. Qed.

Lemma append_nil_r t : t +:+ EmptyString = t.
Proof. induction t as [|c t IH]; [done|]. by rewrite append_cons, IH. Qed.

#[global] Instance append_assoc : Assoc (=) String.append.
Proof. intros s t u. induction s as [|c s IH]; [done|]. by rewrite !append_cons, IH. Qed.

#[global] Instance append_inj s : Inj (=) (=) (String.append s).
Proof. intros t u. induction s as [|c s IH]; [done|]. rewrite !append_cons. intros [= H]. auto. Qed.

Lemma bytes_app s t : bytes (s +:+ t) = bytes s ++ bytes t.
Proof. induction s as [|c s IH]; [done|]. rewrite append_cons. simpl. by f_equal. Qed.

Lemma of_bytes_app l k : of_bytes (l ++ k) = of_bytes l +:+ of_bytes k.
Proof. induction l as [|c l IH]; [done|]. simpl. by rewrite append_cons, IH. Qed.

#[global] Instance bytes_inj : Inj (=) (=) bytes.
Proof. intros s t H. by rewrite <- (of_bytes_bytes s), H, of_bytes_bytes. Qed.

Lemma HasPrefix_app p s : HasPrefix (p +:+ s) p = true.
Proof.
  unfold HasPrefix. induction p as [|c p IH]; [by destruct s|].
  rewrite append_cons. simpl. by destruct (ascii_dec c c).
Qed.

Lemma HasPrefix_spec s p : HasPrefix s p = true ↔ ∃ r, s = p +:+ r.
Proof.
  split; [|intros [r ->]; apply HasPrefix_app].
  unfold HasPrefix. revert s. induction p as [|c p IH]; intros s H; [by exists s|].
  destruct s as [|d s]; [done|]. simpl in H.
  destruct (ascii_dec c d) as [->|]; [|done].
  destruct (IH s H) as [r ->]. by exists r.
Qed.

Lemma drop_str_app p s : drop_str (String.length p) (p +:+ s) = s.
Proof. by induction p. Qed.

Lemma TrimPrefix_app p s : TrimPrefix (p +:+ s) p = s.
Proof. unfold TrimPrefix. by rewrite HasPrefix_app, drop_str_app. Qed.

(** A byte that starts or ends no white-space rune. *)
Definition visible (c : ascii) : bool := bool_decide (33 ≤ code c ≤ 126).

Definition wide (seqs : list (list ascii)) : bool :=
  forallb (λ p, match p with c :: _ => bool_decide (127 < code c) | [] => false end) seqs.

Lemma cut_space_visible seqs c l :
  visible c = true → wide seqs = true → cut_space seqs (c :: l) = None.
Proof.
  intros Hc Hw. unfold visible in Hc. apply bool_decide_eq_true in Hc. simpl.
  assert (is_ascii_space c = false) as ->.
  { apply bool_decide_eq_false. rewrite !elem_of_cons, elem_of_nil. lia. }
  induction seqs as [|[|d p] seqs IH]; [done|done|].
  simpl in Hw. apply andb_prop in Hw as [Hd Hw]. apply bool_decide_eq_true in Hd.
  simpl. rewrite IH by done. by destruct (decide (d = c)) as [->|]; [lia|].
Qed.

Lemma trim_left_visible seqs c l :
  visible c = true → wide seqs = true → trim_left seqs (c :: l) = c :: l.
Proof. intros. unfold trim_left. cbn [length trim_left_fuel]. by rewrite cut_space_visible. Qed.

Definition visible_edges (s : string) : bool :=
  match bytes s with
  | [] => true
  | c :: l => visible c && visible (default c (last (c :: l)))
  end.

Lemma TrimSpace_id s : visible_edges s = true → TrimSpace s = s.
Proof.
  intros H. unfold TrimSpace, visible_edges in *.
  destruct (bytes s) as [|c l] eqn:E; [by apply (inj bytes)|].
  apply andb_prop in H as [Hc Hl].
  rewrite trim_left_visible by done.
  destruct (last (c :: l)) as [d|] eqn:Hlast; [|by apply last_None in Hlast].
  apply last_Some in Hlast as [l' Hl']. rewrite Hl', reverse_snoc.
  rewrite trim_left_visible by done.
  rewrite reverse_cons, reverse_involutive, <- Hl', <- E. apply of_bytes_bytes.
Qed.

Lemma visible_edges_app s t :
  s ≠ EmptyString → t ≠ EmptyString →
  visible_edges s = true → visible_edges t = true → visible_edges (s +:+ t) = true.
Proof.
  unfold visible_edges. rewrite bytes_app. intros Hs Ht H1 H2.
  destruct s as [|c s]; [done|]. destruct t as [|d t]; [done|]. simpl in *.
  apply andb_prop in H1 as [-> _]. apply andb_prop in H2 as [_ H2]. simpl.
  rewrite app_comm_cons, last_app. by rewrite !last_cons in *; destruct (last (bytes t)).
Qed.

(** *** Decimal numerals *)

Definition is_digit (c : ascii) : bool := bool_decide (48 ≤ code c ≤ 57).

Fixpoint all_digits (s : string) : bool :=
  match s with EmptyString => true | String c s' => is_digit c && all_digits s' end.

Lemma visible_digit c : is_digit c = true → visible c = true.
Proof. unfold is_digit, visible. rewrite !bool_decide_eq_true. lia. Qed.

Lemma all_digits_bytes s : all_digits s = true ↔ Forall (λ c, is_digit c = true) (bytes s).
Proof.
  induction s as [|c s IH]; simpl; [by split; constructor|].
  by rewrite andb_true_iff, Forall_cons, IH.
Qed.

Lemma visible_edges_digits s : all_digits s = true → visible_edges s = true.
Proof.
  rewrite all_digits_bytes. unfold visible_edges. intros H.
  destruct (bytes s) as [|c l]; [done|].
  assert (Hall : ∀ d, d ∈ c :: l → visible d = true).
  { intros d Hd. rewrite Forall_forall in H. by apply visible_digit, H. }
  rewrite Hall by left. destruct (last (c :: l)) as [d|] eqn:E; simpl.
  - apply Hall. apply last_Some in E as [l' ->]. apply elem_of_app. right. by left.
  - apply Hall. by left.
Qed.

Lemma digit_pretty (x : N) : (x < 10)%N → digit (pretty_N_char x) = Some (Z.of_N x).
Proof.
  intros Hx. assert (x ∈ [0;1;2;3;4;5;6;7;8;9]%N) as H.
  { rewrite !elem_of_cons, elem_of_nil. lia. }
  rewrite !elem_of_cons, elem_of_nil in H.
  by destruct_or! H; subst; vm_compute.
Qed.

Lemma parse_digits_pretty_go x s :
  parse_digits 0 (pretty_N_go x s) = parse_digits (Z.of_N x) s.
Proof.
  revert s. induction (N.lt_wf_0 x) as [x _ IH]. intros s.
  destruct (decide (x = 0)%N) as [->|Hx]; [by rewrite pretty_N_go_0|].
  rewrite pretty_N_go_step by lia. rewrite IH by (apply N.div_lt; lia). simpl.
  rewrite digit_pretty by (apply N.mod_lt; lia). f_equal.
  rewrite N2Z.inj_div, N2Z.inj_mod. pose proof (Z.div_mod (Z.of_N x) 10). lia.
Qed.

Lemma parse_digits_pretty (x : N) : parse_digits 0 (pretty x) = Some (Z.of_N x).
Proof.
  unfold pretty, pretty_N. case_decide as Hx; [by subst|].
  by rewrite parse_digits_pretty_go.
Qed.

(** The numeral of a natural number starts with a digit. *)
Lemma pretty_N_head (x : N) : ∃ c s, (pretty x : string) = String c s ∧ is_digit c = true.
Proof.
  destruct (pretty x : string) as [|c s] eqn:E.
  - pose proof (parse_digits_pretty x) as H. rewrite E in H. simpl in H.
    assert (x = 0%N) as -> by (injection H; lia). by vm_compute in E.
  - exists c, s. split; [done|]. pose proof (parse_digits_pretty x) as H. rewrite E in H.
    simpl in H. unfold digit in H. unfold is_digit. case_decide; [|done].
    by apply bool_decide_eq_true.
Qed.

Lemma parse_signed_Sprint_d z : parse_signed (Sprint_d z) = Some z.
Proof.
  unfold Sprint_d. destruct z as [|p|p]; [done| |].
  - change (parse_signed (pretty (N.pos p)) = Some (Z.of_N (N.pos p))).
    rewrite <- parse_digits_pretty.
    destruct (pretty_N_head (N.pos p)) as (c & s & -> & Hc).
    unfold is_digit in Hc. apply bool_decide_eq_true in Hc. unfold parse_signed.
    rewrite !decide_False; [done| |]; intros ->; destruct Hc as [Hc _]; by apply Hc.
  - change (parse_signed (String (byte 45) (pretty (N.pos p))) = Some (Z.neg p)).
    destruct (pretty_N_head (N.pos p)) as (c & s & E & _).
    pose proof (parse_digits_pretty (N.pos p)) as Hp. rewrite E in *.
    unfold parse_signed. rewrite decide_False by done. rewrite decide_True by done.
    by rewrite Hp.
Qed.

(** [strconv.ParseInt] reads back what the percent-d verb prints. *)
Lemma ParseInt_Sprint_d z :
  min_int64 ≤ z ≤ max_int64 → ParseInt (Sprint_d z) = (z, None).
Proof.
  intros Hz. unfold ParseInt. rewrite parse_signed_Sprint_d.
  by rewrite !decide_False by lia.
Qed.

Lemma wrap64_id z : min_int64 ≤ z ≤ max_int64 → wrap64 z = z.
Proof. unfold wrap64, min_int64, max_int64. intros. rewrite Z.mod_small; lia. Qed.

Lemma ParseInt_range s : min_int64 ≤ (ParseInt s).1 ≤ max_int64.
Proof.
  unfold ParseInt. destruct (parse_signed s); repeat case_decide; simpl;
    unfold min_int64, max_int64 in *; lia.
Qed.

End GoStrings.
Export GoStrings.
