(* ===== verification/GoPath.v ===== *)
(** * Go's [path/filepath] on a Unix system

    [Clean], [Join], [Base] and [Dir] as the driver uses them, with the laws that
    turn a cleaned join of a plain component into plain concatenation. *)

From S2P Require Import Prelude GoStrings.

Module GoPath.

Definition slash : ascii := byte 47.
Definition slash_s : string := String slash EmptyString.

(** One element of the path, processed left to right; the stack holds the
    elements kept so far, the last one first. *)
Definition clean_step (rooted : bool) (stack : list string) (e : string) : list string :=
  if bool_decide (e = EmptyString ∨ e = ".") then stack
  else if bool_decide (e = "..") then
    match stack with
    | [] => if rooted then [] else [".."]
    | top :: rest => if bool_decide (top = "..") then ".." :: stack else rest
    end
  else e :: stack.

Definition clean_stack (rooted : bool) (es : list string) : list string :=
  foldl (clean_step rooted) [] es.

Definition is_rooted (p : string) : bool := HasPrefix p slash_s.

(** [filepath.Clean]. *)
Definition Clean (p : string) : string :=
  let st := reverse (clean_stack (is_rooted p) (Split p slash)) in
  if is_rooted p then slash_s +:+ GoStrings.Join st slash_s
  else match st with [] => "." | _ => GoStrings.Join st slash_s end.

(** [filepath.Join] ([path.Join] has the same result). *)
Fixpoint PathJoin (elems : list string) : string :=
  match elems with
  | [] => EmptyString
  | e :: rest =>
      if decide (e = EmptyString) then PathJoin rest else Clean (GoStrings.Join elems slash_s)
  end.

(** [filepath.Base]. *)
Definition Base (p : string) : string :=
  if decide (p = EmptyString) then "."
  else
    match reverse (drop_byte slash (reverse (bytes p))) with
    | [] => slash_s
    | l => of_bytes (default [] (last (split_bytes slash l)))
    end.

Fixpoint drop_to_slash (l : list ascii) : list ascii :=
  match l with
  | c :: l' => if decide (c = slash) then l else drop_to_slash l'
  | [] => []
  end.

(** [filepath.Dir]. *)
Definition Dir (p : string) : string :=
  Clean (of_bytes (reverse (drop_to_slash (reverse (bytes p))))).

(** ** Plain path elements *)

Definition no_slash (s : string) : bool := bool_decide (slash ∉ bytes s).

(** A file name: not empty, without a slash, neither [.] nor [..]. *)
Definition plain (s : string) : bool :=
  no_slash s && bool_decide (s ≠ EmptyString ∧ s ≠ "." ∧ s ≠ "..").

(** ** Laws *)

Lemma split_bytes_app l r :
  split_bytes slash (l ++ slash :: r) = split_bytes slash l ++ split_bytes slash r.
Proof.
  induction l as [|c l IH]; simpl; [done|].
  case_decide; simpl; rewrite IH; [done|].
  destruct (split_bytes slash l) as [|w ws] eqn:E; [|done].
  exfalso. destruct l; simpl in E; [done|]. repeat case_match; done.
Qed.

Lemma split_bytes_no_slash l : slash ∉ l → split_bytes slash l = [l].
Proof.
  induction l as [|c l IH]; simpl; [done|]. intros H.
  apply not_elem_of_cons in H as [Hc Hl]. rewrite decide_False by done.
  by rewrite IH.
Qed.

Lemma Split_join p x :
  Split (p +:+ slash_s +:+ x) slash = Split p slash ++ Split x slash.
Proof.
  unfold Split. rewrite !bytes_app. simpl.
  by rewrite split_bytes_app, fmap_app.
Qed.

Lemma Split_no_slash x : no_slash x = true → Split x slash = [x].
Proof.
  unfold no_slash, Split. intros H%bool_decide_eq_true.
  rewrite split_bytes_no_slash by done. simpl. by rewrite of_bytes_bytes.
Qed.

Lemma Join_snoc l x sep :
  l ≠ [] → GoStrings.Join (l ++ [x]) sep = GoStrings.Join l sep +:+ sep +:+ x.
Proof.
  unfold GoStrings.Join. induction l as [|a [|b l] IH]; intros Hl; [done|done|].
  change ((a :: b :: l) ++ [x]) with (a :: (b :: l) ++ [x]).
  change (String.concat sep (a :: (b :: l) ++ [x]))
    with (a +:+ sep +:+ String.concat sep ((b :: l) ++ [x])).
  rewrite IH by done.
  change (String.concat sep (a :: b :: l)) with (a +:+ sep +:+ String.concat sep (b :: l)).
  by rewrite <- !(assoc_L String.append).
Qed.

Lemma is_rooted_app p x : is_rooted p = true → is_rooted (p +:+ x) = true.
Proof.
  unfold is_rooted. rewrite !HasPrefix_spec. intros [r ->]. exists (r +:+ x).
  by rewrite (assoc_L String.append).
Qed.

Lemma clean_step_plain rooted st x : plain x = true → clean_step rooted st x = x :: st.
Proof.
  unfold plain, clean_step. intros [_ H%bool_decide_eq_true]%andb_prop.
  by rewrite !bool_decide_eq_false_2 by tauto.
Qed.

Lemma plain_no_slash x : plain x = true → no_slash x = true.
Proof. unfold plain. by intros [? _]%andb_prop. Qed.

(** Joining a file name to a cleaned absolute directory is concatenation. *)
Lemma PathJoin_plain base x :
  is_rooted base = true → Clean base = base → base ≠ slash_s → plain x = true →
  PathJoin [base; x] = base +:+ slash_s +:+ x.
Proof.
  intros Hr Hc Hb Hx. unfold PathJoin.
  rewrite decide_False by (by intros ->).
  change (GoStrings.Join [base; x] slash_s) with (base +:+ slash_s +:+ x).
  unfold Clean at 1. rewrite is_rooted_app by done.
  rewrite Split_join, (Split_no_slash x) by (by apply plain_no_slash).
  unfold clean_stack. rewrite foldl_snoc, clean_step_plain by done.
  rewrite reverse_cons.
  unfold Clean in Hc. rewrite Hr in Hc. unfold clean_stack in Hc.
  rewrite Join_snoc.
  - rewrite (assoc_L String.append). by rewrite Hc.
  - intros E. rewrite E in Hc. by apply Hb.
Qed.

(** The same for a cleaned relative directory. *)
Lemma PathJoin_plain_rel base x :
  is_rooted base = false → Clean base = base → base ≠ EmptyString → base ≠ "." → plain x = true →
  PathJoin [base; x] = base +:+ slash_s +:+ x.
Proof.
  intros Hr Hc Hb Hd Hx. unfold PathJoin. rewrite decide_False by done.
  change (GoStrings.Join [base; x] slash_s) with (base +:+ slash_s +:+ x).
  assert (is_rooted (base +:+ slash_s +:+ x) = false) as Hr'.
  { apply not_true_iff_false. intros [r Hr']%HasPrefix_spec. apply not_true_iff_false in Hr. apply Hr.
    apply HasPrefix_spec. destruct base as [|c base]; [done|]. unfold slash_s in *.
    rewrite !append_cons in Hr'. injection Hr' as -> _. exists base. done. }
  unfold Clean in *. rewrite Hr in Hc. rewrite Hr'.
  rewrite Split_join, (Split_no_slash x) by (by apply plain_no_slash).
  unfold clean_stack in *. rewrite foldl_snoc, clean_step_plain, reverse_cons by done.
  destruct (reverse (foldl _ [] (Split base slash))) as [|e st] eqn:Hst; [congruence|].
  change ((e :: st) ++ [x]) with (e :: (st ++ [x])). cbv iota.
  change (e :: st ++ [x]) with ((e :: st) ++ [x]). rewrite Join_snoc by done. by rewrite Hc.
Qed.

Lemma Clean_join base x :
  is_rooted base = true → Clean base = base → base ≠ slash_s → plain x = true →
  Clean (base +:+ slash_s +:+ x) = base +:+ slash_s +:+ x.
Proof.
  intros Hr Hc Hb Hx. etrans; [|by apply PathJoin_plain].
  unfold PathJoin. by rewrite decide_False by (by intros ->).
Qed.

Lemma PathJoin_plain3 base x y :
  is_rooted base = true → Clean base = base → base ≠ slash_s → plain x = true → plain y = true →
  PathJoin [base; x; y] = base +:+ slash_s +:+ x +:+ slash_s +:+ y.
Proof.
  intros Hr Hc Hb Hx Hy. unfold PathJoin. rewrite decide_False by (by intros ->).
  change (GoStrings.Join [base; x; y] slash_s) with (base +:+ slash_s +:+ x +:+ slash_s +:+ y).
  assert (base +:+ slash_s +:+ x +:+ slash_s +:+ y = (base +:+ slash_s +:+ x) +:+ slash_s +:+ y) as ->
    by (by rewrite <- !(assoc_L String.append)).
  apply Clean_join; [by apply is_rooted_app|by apply Clean_join| |done].
  intros Heq. destruct base as [|c base]; [done|]. rewrite append_cons in Heq.
  injection Heq as _ Heq. by destruct base.
Qed.

Lemma drop_byte_last_ne l c : c ≠ slash → drop_byte slash (reverse (l ++ [c])) = reverse (l ++ [c]).
Proof. intros Hc. rewrite reverse_snoc. simpl. by rewrite decide_False. Qed.

Lemma last_bytes_ne x : plain x = true → ∃ l c, bytes x = l ++ [c] ∧ c ≠ slash.
Proof.
  unfold plain, no_slash. intros [Hs%bool_decide_eq_true [Hx _]%bool_decide_eq_true]%andb_prop.
  destruct (bytes x) as [|c l _] eqn:E using rev_ind; [by destruct x|].
  exists l, c. split; [done|]. intros ->. apply Hs, elem_of_app. right. by left.
Qed.

Lemma Base_join p x : plain x = true → Base (p +:+ slash_s +:+ x) = x.
Proof.
  intros Hx. unfold Base. rewrite decide_False by (by destruct p).
  assert (reverse (drop_byte slash (reverse (bytes (p +:+ slash_s +:+ x))))
          = bytes p ++ slash :: bytes x) as ->.
  { destruct (last_bytes_ne x Hx) as (l & c & E & Hc).
    rewrite !bytes_app, E, !app_assoc, drop_byte_last_ne, reverse_involutive by done.
    by rewrite <- !app_assoc. }
  assert (slash ∉ bytes x) by (by apply plain_no_slash, bool_decide_eq_true in Hx).
  destruct (bytes p ++ slash :: bytes x) eqn:E'; [by destruct (bytes p)|]. rewrite <- E'.
  rewrite split_bytes_app, (split_bytes_no_slash (bytes x)) by done.
  rewrite last_snoc. simpl. apply of_bytes_bytes.
Qed.

Lemma drop_to_slash_app l r : slash ∉ l → drop_to_slash (l ++ slash :: r) = slash :: r.
Proof.
  induction l as [|c l IH]; simpl; intros H; [done|].
  apply not_elem_of_cons in H as [Hc Hl]. rewrite decide_False by done. auto.
Qed.

Lemma Dir_join base x :
  is_rooted base = true → Clean base = base → plain x = true →
  Dir (base +:+ slash_s +:+ x) = base.
Proof.
  intros Hr Hc Hx. unfold Dir.
  assert (slash ∉ bytes x) as Hs by (by apply plain_no_slash, bool_decide_eq_true in Hx).
  rewrite !bytes_app, !reverse_app. simpl. rewrite <- app_assoc. simpl.
  rewrite drop_to_slash_app by (by rewrite elem_of_reverse).
  rewrite reverse_cons, reverse_involutive, of_bytes_app, of_bytes_bytes.
  change (of_bytes [slash]) with (slash_s +:+ EmptyString).
  rewrite <- Hc at 2. unfold Clean. rewrite is_rooted_app, Hr by done.
  rewrite Split_join. change (Split EmptyString slash) with [EmptyString].
  unfold clean_stack. by rewrite foldl_snoc.
Qed.

End GoPath.
Export GoPath.
