(* ===== verification/GoUrl.v ===== *)
(** * Go's [net/url]: parsing (Go 1.25.1)

    [url.Parse] with the components the driver reads: scheme, host and path.  The
    query, the fragment and the user information are checked as [Parse] checks them
    and dropped. *)

From S2P Require Import Prelude GoStrings GoPath.

Local Open Scope Z_scope.

Module GoUrl.

Record URL := mkURL { u_scheme : string; u_host : string; u_path : string }.

(** ** Bytes *)

Definition is_alpha (c : ascii) : bool :=
  bool_decide (97 ≤ code c ≤ 122) || bool_decide (65 ≤ code c ≤ 90).
Definition is_num (c : ascii) : bool := bool_decide (48 ≤ code c ≤ 57).
Definition alnum (c : ascii) : bool := is_alpha c || is_num c.

Definition one_of (s : string) (c : ascii) : bool := bool_decide (c ∈ bytes s).

Definition unhex (c : ascii) : option Z :=
  if decide (48 ≤ code c ≤ 57) then Some (code c - 48)
  else if decide (97 ≤ code c ≤ 102) then Some (code c - 97 + 10)
  else if decide (65 ≤ code c ≤ 70) then Some (code c - 65 + 10)
  else None.

(** Up to the first [c], and the rest if there is one ([strings.Cut]). *)
Fixpoint cut_byte (c : ascii) (l : list ascii) : list ascii * option (list ascii) :=
  match l with
  | [] => ([], None)
  | x :: l' =>
      if decide (x = c) then ([], Some l')
      else let (a, b) := cut_byte c l' in (x :: a, b)
  end.

(** Up to the last [c], and the rest after it. *)
Definition cut_last (c : ascii) (l : list ascii) : option (list ascii * list ascii) :=
  match cut_byte c (reverse l) with
  | (a, Some b) => Some (reverse b, reverse a)
  | (_, None) => None
  end.

(** ** Escapes *)

Inductive encoding := encodePath | encodeHost | encodeZone | encodeUserPassword | encodeFragment.

#[global] Instance encoding_eq_dec : EqDecision encoding.
Proof. solve_decision. Defined.

(** [shouldEscape] for the host and the zone. *)
Definition shouldEscape_host (c : ascii) : bool :=
  negb (alnum c || one_of "!$&'()*+,;=:[]<>" c || bool_decide (c = byte 34) || one_of "-_.~" c).

(** The escape with the two hexadecimal digits [h] and [l] is allowed. *)
Definition escape_ok (mode : encoding) (h l : ascii) (vh vl : Z) : bool :=
  let pct25 := bool_decide (h = byte 50 ∧ l = byte 53) in
  match mode with
  | encodeHost => bool_decide (8 ≤ vh) || pct25
  | encodeZone =>
      let v := byte (Z.to_nat (16 * vh + vl)) in
      pct25 || bool_decide (v = byte 32) || negb (shouldEscape_host v)
  | _ => true
  end.

Definition plain_ok (mode : encoding) (c : ascii) : bool :=
  match mode with
  | encodeHost | encodeZone => bool_decide (128 ≤ code c) || negb (shouldEscape_host c)
  | _ => true
  end.

(** [unescape]; [None] is an error. *)
Fixpoint unescape (mode : encoding) (s : list ascii) : option (list ascii) :=
  match s with
  | [] => Some []
  | c :: s' =>
      if decide (c = byte 37) then
        match s' with
        | h :: (l :: s'') =>
            match unhex h, unhex l with
            | Some vh, Some vl =>
                if escape_ok mode h l vh vl
                then cons (byte (Z.to_nat (16 * vh + vl))) <$> unescape mode s''
                else None
            | _, _ => None
            end
        | _ => None
        end
      else if plain_ok mode c then cons c <$> unescape mode s' else None
  end.

(** ** The parts of a URL *)

(** [getScheme]: the scheme and the rest, or an error for a leading colon. *)
Fixpoint scheme_loop (acc l : list ascii) : option (list ascii * list ascii) :=
  let all := reverse acc ++ l in
  match l with
  | [] => Some ([], all)
  | c :: l' =>
      if is_alpha c then scheme_loop (c :: acc) l'
      else if is_num c || one_of "+-." c then
        match acc with [] => Some ([], all) | _ => scheme_loop (c :: acc) l' end
      else if decide (c = byte 58) then
        match acc with [] => None | _ => Some (reverse acc, l') end
      else Some ([], all)
  end.

Definition getScheme (l : list ascii) : option (list ascii * list ascii) := scheme_loop [] l.

Definition validOptionalPort (p : list ascii) : bool :=
  match p with
  | [] => true
  | c :: p' => bool_decide (c = byte 58) && forallb is_num p'
  end.

(** The position of the zone in a bracketed host: up to the first [%25]. *)
Fixpoint cut_zone (l : list ascii) : option (list ascii * list ascii) :=
  match l with
  | [] => None
  | c :: l' =>
      match strip_bytes (bytes "%25") l with
      | Some _ => Some ([], l)
      | None => match cut_zone l' with Some (a, b) => Some (c :: a, b) | None => None end
      end
  end.

Definition unescape3 (a b c : list ascii) : option (list ascii) :=
  match unescape encodeHost a, unescape encodeZone b, unescape encodeHost c with
  | Some a', Some b', Some c' => Some (a' ++ b' ++ c')
  | _, _, _ => None
  end.

Definition parseHost (host : list ascii) : option (list ascii) :=
  match host with
  | c :: _ =>
      if decide (c = byte 91) then
        match cut_last (byte 93) host with
        | None => None
        | Some (inside, colonPort) =>
            if validOptionalPort colonPort then
              match cut_zone inside with
              | Some (h1, zone) => unescape3 h1 zone (byte 93 :: colonPort)
              | None => unescape encodeHost host
              end
            else None
        end
      else
        match cut_last (byte 58) host with
        | Some (_, port) => if forallb is_num port then unescape encodeHost host else None
        | None => unescape encodeHost host
        end
  | [] => Some []
  end.

Definition validUserinfo (l : list ascii) : bool := forallb (λ c, alnum c || one_of "-._:~!$&'()*+,;=%@" c) l.

Definition userinfo_ok (l : list ascii) : bool :=
  validUserinfo l &&
  match cut_byte (byte 58) l with
  | (u, None) => bool_decide (is_Some (unescape encodeUserPassword u))
  | (u, Some p) =>
      bool_decide (is_Some (unescape encodeUserPassword u)) && bool_decide (is_Some (unescape encodeUserPassword p))
  end.

(** The host of an authority. *)
Definition parseAuthority (a : list ascii) : option (list ascii) :=
  match cut_last (byte 64) a with
  | None => parseHost a
  | Some (user, host) =>
      match parseHost host with
      | Some h => if userinfo_ok user then Some h else None
      | None => None
      end
  end.

Definition is_ctl (c : ascii) : bool := bool_decide (code c < 32) || bool_decide (code c = 127).

(** The path after the authority, or the whole of the rest. *)
Definition finish (scheme host : list ascii) (path : list ascii) : option URL :=
  match unescape encodePath path with
  | Some p => Some (mkURL (ToLower (of_bytes scheme)) (of_bytes host) (of_bytes p))
  | None => None
  end.

Definition has_prefix (p : string) (l : list ascii) : bool := bool_decide (is_Some (strip_bytes (bytes p) l)).

(** [parse(rawURL, false)]. *)
Definition parse_url (l : list ascii) : option URL :=
  if existsb is_ctl l then None
  else if decide (l = bytes "*") then Some (mkURL EmptyString EmptyString "*")
  else
    match getScheme l with
    | None => None
    | Some (scheme, rest) =>
        let rest := (cut_byte (byte 63) rest).1 in
        if has_prefix "/" rest then
          if (bool_decide (scheme ≠ []) || negb (has_prefix "///" rest)) && has_prefix "//" rest then
            let a := drop 2 rest in
            let (authority, path) := cut_byte slash a in
            match parseAuthority authority with
            | None => None
            | Some host => finish scheme host (match path with Some p => slash :: p | None => [] end)
            end
          else finish scheme [] rest
        else
          match scheme with
          | _ :: _ => Some (mkURL (ToLower (of_bytes scheme)) EmptyString EmptyString)
          | [] =>
              if bool_decide (byte 58 ∈ (cut_byte slash rest).1) then None else finish scheme [] rest
          end
    end.

(** [url.Parse]; [None] is an error. *)
Definition Parse_url (s : string) : option URL :=
  let (u, frag) := cut_byte (byte 35) (bytes s) in
  match parse_url u with
  | None => None
  | Some url =>
      match frag with
      | Some (c :: f) => if bool_decide (is_Some (unescape encodeFragment (c :: f))) then Some url else None
      | _ => Some url
      end
  end.

(** ** Laws *)

Lemma cut_byte_none c l : c ∉ l → cut_byte c l = (l, None).
Proof.
  induction l as [|x l IH]; simpl; [done|]. intros [Hx Hl]%not_elem_of_cons.
  rewrite decide_False by congruence. by rewrite IH.
Qed.

Lemma cut_byte_some c l r : c ∉ l → cut_byte c (l ++ c :: r) = (l, Some r).
Proof.
  induction l as [|x l IH]; simpl; [by rewrite decide_True|]. intros [Hx Hl]%not_elem_of_cons.
  rewrite decide_False by congruence. by rewrite IH.
Qed.

Lemma cut_last_none c l : c ∉ l → cut_last c l = None.
Proof. intros Hc. unfold cut_last. by rewrite cut_byte_none by (by rewrite elem_of_reverse). Qed.

Lemma unescape_id mode l :
  byte 37 ∉ l → Forall (λ c, plain_ok mode c = true) l → unescape mode l = Some l.
Proof.
  induction l as [|x l IH]; simpl; [done|]. intros [Hx Hl]%not_elem_of_cons [Hp Hf]%Forall_cons.
  rewrite decide_False by congruence. by rewrite Hp, IH.
Qed.

(** Bytes of a bucket name. *)
Definition host_safe (c : ascii) : bool := alnum c || one_of "-." c.

(** Bytes of a path that needs no escapes. *)
Definition path_safe (c : ascii) : bool := alnum c || one_of "-_.~/" c.

Lemma host_path_safe c : host_safe c = true → path_safe c = true.
Proof.
  unfold host_safe, path_safe, one_of. rewrite !orb_true_iff, !bool_decide_eq_true. intros [H|H]; [by left|right].
  simpl in *. rewrite !elem_of_cons in *. tauto.
Qed.

Lemma path_safe_not c x : path_safe c = true → path_safe x = false → c ≠ x.
Proof. congruence. Qed.

Lemma safe_not_in (x : ascii) l : Forall (λ c, path_safe c = true) l → path_safe x = false → x ∉ l.
Proof. rewrite Forall_forall. intros Hf Hx Hin. apply Hf in Hin. congruence. Qed.

Lemma path_safe_no_ctl l : Forall (λ c, path_safe c = true) l → existsb is_ctl l = false.
Proof.
  induction 1 as [|c l Hc Hl IH]; simpl; [done|]. rewrite IH, orb_false_r.
  unfold is_ctl. apply orb_false_intro; apply bool_decide_eq_false; intros Hctl.
  - assert (∀ n, (n < 32)%nat → path_safe (byte n) = false) as Hall.
    { intros n Hn. do 32 (destruct n as [|n]; [by_compute|]). lia. }
    unfold code in Hctl. rewrite <- (ascii_nat_embedding c) in Hc. unfold byte in Hall. rewrite Hall in Hc; [done|]. lia.
  - unfold code in Hctl. rewrite <- (ascii_nat_embedding c) in Hc.
    assert (nat_of_ascii c = 127%nat) as Heq by lia. by rewrite Heq in Hc.
Qed.

Lemma host_safe_plain c : host_safe c = true → plain_ok encodeHost c = true.
Proof.
  unfold host_safe, plain_ok, shouldEscape_host. intros H. rewrite negb_involutive. apply orb_true_intro. right.
  apply orb_true_iff in H as [->|H]; [done|]. unfold one_of in *. apply bool_decide_eq_true in H.
  simpl in H. rewrite !elem_of_cons, elem_of_nil in H. by destruct_or! H; subst.
Qed.

Lemma parseAuthority_safe b :
  Forall (λ c, host_safe c = true) b → parseAuthority b = Some b.
Proof.
  intros Hb. assert (Forall (λ c, path_safe c = true) b) as Hp by (eapply Forall_impl; [exact Hb|apply host_path_safe]).
  unfold parseAuthority. rewrite cut_last_none by (by eapply safe_not_in). unfold parseHost.
  destruct b as [|c b']; [done|]. rewrite decide_False.
  - rewrite cut_last_none by (by eapply safe_not_in). apply unescape_id; [by eapply safe_not_in|].
    eapply Forall_impl; [exact Hb|apply host_safe_plain].
  - intros ->. by apply Forall_cons in Hp as [? _].
Qed.

(** An absolute path, or none. *)
Definition abs_or_empty (p : list ascii) : Prop := p = [] ∨ ∃ q, p = slash :: q.

Lemma Parse_url_s3 b p :
  Forall (λ c, host_safe c = true) (bytes b) → Forall (λ c, path_safe c = true) (bytes p) →
  abs_or_empty (bytes p) →
  Parse_url ("s3://" +:+ b +:+ p) = Some (mkURL "s3" b p).
Proof.
  intros Hb Hp Habs.
  assert (Forall (λ c, path_safe c = true) (bytes b ++ bytes p)) as Hbp.
  { apply Forall_app_2; [|done]. eapply Forall_impl; [exact Hb|apply host_path_safe]. }
  assert (slash ∉ bytes b) as Hs.
  { rewrite Forall_forall in Hb. intros Hin%Hb. done. }
  unfold Parse_url. rewrite !bytes_app. rewrite cut_byte_none.
  2: { rewrite !not_elem_of_app. split; [by apply (bool_decide_unpack (byte 35 ∉ bytes "s3://"))|].
       rewrite <- not_elem_of_app. by eapply safe_not_in. }
  assert (parse_url (bytes "s3://" ++ bytes b ++ bytes p) = Some (mkURL "s3" b p)) as ->; [|done].
  unfold parse_url. rewrite existsb_app, (path_safe_no_ctl (bytes b ++ bytes p)) by done. simpl existsb.
  rewrite decide_False by done.
  assert (getScheme (bytes "s3://" ++ bytes b ++ bytes p) = Some (bytes "s3", bytes "//" ++ bytes b ++ bytes p)) as ->
    by done.
  cbv zeta. rewrite cut_byte_none.
  2: { rewrite not_elem_of_app. split; [by apply (bool_decide_unpack (byte 63 ∉ bytes "//"))|]. by eapply safe_not_in. }
  cbn [fst]. change (has_prefix "/" (bytes "//" ++ bytes b ++ bytes p)) with true.
  change (has_prefix "//" (bytes "//" ++ bytes b ++ bytes p)) with true. cbv iota.
  rewrite (bool_decide_eq_true_2 (bytes "s3" ≠ [])) by done. cbn [orb andb].
  change (drop 2 (bytes "//" ++ bytes b ++ bytes p)) with (bytes b ++ bytes p).
  assert (ToLower (of_bytes (bytes "s3")) = "s3") as Hs3 by by_compute.
  destruct Habs as [Hnil|[q Hq]].
  - rewrite Hnil, app_nil_r, cut_byte_none by done. rewrite parseAuthority_safe by done.
    unfold finish. cbn [unescape]. rewrite Hs3, of_bytes_bytes. by destruct p.
  - rewrite Hq, cut_byte_some by done. rewrite parseAuthority_safe by done. rewrite <- Hq.
    unfold finish. rewrite unescape_id; [by rewrite Hs3, !of_bytes_bytes|by eapply safe_not_in|by apply Forall_true].
Qed.

End GoUrl.
Export GoUrl.
