(* ===== verification/World.v ===== *)
(** * The world of the driver

    The state the driver's code acts on and the operations of Go's [os],
    [os/exec] and [time] packages on it.

    - The node's file system is a finite map from paths to files ([Sys]); paths are
      compared as strings (no symbolic links).
    - Everything outside the driver is the parameter [Environment]: the commands it
      executes, the passing of time, the input/output errors of the file system and
      the scheduler.  The environment owns a state of its own, [ext], and may change
      files too (a mounted file system, [/sys/block], sockets).
    - The world also records, in order, the calls the driver makes ([event]); the
      trace is only written, never read, by the modelled code. *)

From S2P Require Import Prelude GoStrings GoPath.

Local Open Scope Z_scope.

(** ** Files *)

Record File := mkFile { f_data : string; f_dir : bool; f_mtime : Z }.

Record Sys (X : Type) := mkSys { sys_fs : gmap string File; sys_ext : X }.
Arguments mkSys {X} _ _.
Arguments sys_fs {X} _.
Arguments sys_ext {X} _.

Inductive fsop := OpRead | OpWrite | OpRemove | OpStat | OpMkdir | OpCreate.

#[export] Instance fsop_eq_dec : EqDecision fsop.
Proof. solve_decision. Defined.

Inductive errno := ENOENT | EEXIST | EOther (text : string).

#[export] Instance errno_eq_dec : EqDecision errno.
Proof. solve_decision. Defined.

(** [*fs.PathError]. *)
Record PathError := mkPathError { pe_op : string; pe_path : string; pe_err : errno }.

Definition errno_text (e : errno) : string :=
  match e with
  | ENOENT => "no such file or directory"
  | EEXIST => "file exists"
  | EOther t => t
  end.

(** The [Error] method of [*fs.PathError]. *)
Definition pe_error (e : PathError) : string :=
  pe_op e +:+ " " +:+ pe_path e +:+ ": " +:+ errno_text (pe_err e).

(** [os.IsNotExist]. *)
Definition IsNotExist (e : PathError) : bool := bool_decide (pe_err e = ENOENT).

(** The result of [cmd.CombinedOutput()]. *)
Record CmdOut := mkCmdOut { co_out : string; co_err : option string }.

(** ** The trace *)

Inductive event :=
| EvExec (cmd : string) (args : list string) (out : CmdOut)
| EvSleep (d : Z)
| EvFs (op : fsop) (path : string)
| EvLock
| EvUnlock
| EvKube (verb kind namespace name : string) (err : option string)  (** a call of the API client *)
| EvObserve (operation stage : string) (d : Z)
| EvStageError (operation stage : string)
| EvS3 (call bucket : string) (keys : list string) (err : option string).

(** ** The environment *)

Class Environment := {
  ext : Type;
  (** a command run to completion: its output, its exit error, what it did *)
  env_exec : string → list string → Sys ext → CmdOut * Sys ext;
  (** what happens on the node while the driver sleeps for a duration *)
  env_sleep : Z → Sys ext → Sys ext;
  (** an input/output error, other than a missing or an existing file *)
  env_fault : fsop → string → ext → option string;
  (** the clock, in nanoseconds *)
  env_now : ext → Z;
  (** whether the driver's context is cancelled *)
  env_ctx_done : ext → bool;
  (** the [select] of a polling loop, between the end of a context with the given
      deadline and a one-second ticker started at the given time, of which so many
      ticks have been received: whether it is a tick, and what happens meanwhile *)
  env_select : Z → Z → nat → Sys ext → bool * Sys ext;
  (** how many ticks a [select] may still prefer to a context that has ended *)
  env_slack : nat;
}.

Section world.
Context `{E : !Environment}.

Record World := mkWorld { w_sys : Sys ext; w_trace : list event }.

Definition w_fs (w : World) : gmap string File := sys_fs (w_sys w).

Definition Go (A : Type) : Type := M World A.

Definition emit (e : event) : Go unit :=
  modify (λ w, mkWorld (w_sys w) (w_trace w ++ [e])).

(** A step that changes the system only. *)
Definition sys_step {A} (f : Sys ext → A * Sys ext) : Go A :=
  λ w, let r := f (w_sys w) in (r.1, mkWorld r.2 (w_trace w)).

Definition sys_read {A} (f : Sys ext → A) : Go A := λ w, (f (w_sys w), w).

(** ** Commands and time *)

(** [exec.Command(cmd, args...).CombinedOutput()]; the driver's only use of [Run]
    ignores the output. *)
Definition exec_Command (cmd : string) (args : list string) : Go CmdOut :=
  do out <- sys_step (env_exec cmd args);
  run emit (EvExec cmd args out);
  ret out.

Definition time_Sleep (d : Z) : Go unit :=
  run sys_step (λ s, (tt, env_sleep d s));
  emit (EvSleep d).

Definition time_Now : Go Z := sys_read (λ s, env_now (sys_ext s)).

Definition time_Since (t : Z) : Go Z := sys_read (λ s, env_now (sys_ext s) - t).

Definition second : Z := 1000000000.
Definition millisecond : Z := 1000000.
Definition hour : Z := 3600 * second.

(** ** Files

    Each operation of [os] is a function on the system; the lifted version also
    records the operations that change files. *)

Definition set_file (p : string) (f : option File) (s : Sys ext) : Sys ext :=
  mkSys (partial_alter (λ _, f) p (sys_fs s)) (sys_ext s).

Definition read_file (p : string) (s : Sys ext) : PathError + string :=
  match env_fault OpRead p (sys_ext s), sys_fs s !! p with
  | Some t, _ => inl (mkPathError "open" p (EOther t))
  | None, None => inl (mkPathError "open" p ENOENT)
  | None, Some f =>
      if f_dir f then inl (mkPathError "read" p (EOther "is a directory")) else inr (f_data f)
  end.

(** [os.Stat]: of the file's attributes the driver reads the modification time. *)
Definition stat_file (p : string) (s : Sys ext) : PathError + Z :=
  match env_fault OpStat p (sys_ext s), sys_fs s !! p with
  | Some t, _ => inl (mkPathError "stat" p (EOther t))
  | None, None => inl (mkPathError "stat" p ENOENT)
  | None, Some f => inr (f_mtime f)
  end.

(** The directory a new file goes to exists. *)
Definition parent_is_dir (fs : gmap string File) (p : string) : bool :=
  match fs !! Dir p with Some f => f_dir f | None => false end.

Definition write_file (p data : string) (s : Sys ext) : option PathError * Sys ext :=
  let s' := set_file p (Some (mkFile data false (env_now (sys_ext s)))) s in
  match env_fault OpWrite p (sys_ext s), sys_fs s !! p with
  | Some t, _ => (Some (mkPathError "open" p (EOther t)), s)
  | None, Some f =>
      if f_dir f then (Some (mkPathError "open" p (EOther "is a directory")), s) else (None, s')
  | None, None =>
      if parent_is_dir (sys_fs s) p then (None, s') else (Some (mkPathError "open" p ENOENT), s)
  end.

Definition has_entries (fs : gmap string File) (p : string) : bool :=
  bool_decide (Exists (λ q, HasPrefix q (p +:+ slash_s) = true) (elements (dom fs))).

Definition remove_file (p : string) (s : Sys ext) : option PathError * Sys ext :=
  match env_fault OpRemove p (sys_ext s), sys_fs s !! p with
  | Some t, _ => (Some (mkPathError "remove" p (EOther t)), s)
  | None, None => (Some (mkPathError "remove" p ENOENT), s)
  | None, Some f =>
      if f_dir f && has_entries (sys_fs s) p
      then (Some (mkPathError "remove" p (EOther "directory not empty")), s)
      else (None, set_file p None s)
  end.

(** [os.OpenFile(p, O_CREATE|O_EXCL|O_WRONLY, 0644)]: creates an empty file. *)
Definition create_excl (p : string) (s : Sys ext) : option PathError * Sys ext :=
  match env_fault OpCreate p (sys_ext s), sys_fs s !! p with
  | Some t, _ => (Some (mkPathError "open" p (EOther t)), s)
  | None, Some _ => (Some (mkPathError "open" p EEXIST), s)
  | None, None =>
      if parent_is_dir (sys_fs s) p
      then (None, set_file p (Some (mkFile EmptyString false (env_now (sys_ext s)))) s)
      else (Some (mkPathError "open" p ENOENT), s)
  end.

(** [f.WriteString(data)] on a file just created at [p]. *)
Definition append_file (p data : string) (s : Sys ext) : unit * Sys ext :=
  match env_fault OpWrite p (sys_ext s), sys_fs s !! p with
  | None, Some f => (tt, set_file p (Some (mkFile (f_data f +:+ data) (f_dir f) (env_now (sys_ext s)))) s)
  | _, _ => (tt, s)
  end.

(** The directories [os.MkdirAll] makes sure of, outermost first. *)
Fixpoint ancestors (acc l : list ascii) : list string :=
  match l with
  | [] => [of_bytes (reverse acc)]
  | c :: l' =>
      if decide (c = slash) then
        match acc with
        | [] => ancestors [c] l'
        | a :: _ => if decide (a = slash) then ancestors (c :: acc) l'
                    else of_bytes (reverse acc) :: ancestors (c :: acc) l'
        end
      else ancestors (c :: acc) l'
  end.

Definition mkdir_one (p : string) (s : Sys ext) : option PathError * Sys ext :=
  match sys_fs s !! p, env_fault OpMkdir p (sys_ext s) with
  | Some f, _ => (if f_dir f then None else Some (mkPathError "mkdir" p (EOther "not a directory")), s)
  | None, Some t => (Some (mkPathError "mkdir" p (EOther t)), s)
  | None, None => (None, set_file p (Some (mkFile EmptyString true (env_now (sys_ext s)))) s)
  end.

Fixpoint mkdir_each (ps : list string) (s : Sys ext) : option PathError * Sys ext :=
  match ps with
  | [] => (None, s)
  | p :: ps' =>
      match mkdir_one p s with
      | (Some e, s') => (Some e, s')
      | (None, s') => mkdir_each ps' s'
      end
  end.

Definition os_ReadFile (p : string) : Go (PathError + string) := sys_read (read_file p).
Definition os_Stat (p : string) : Go (PathError + Z) := sys_read (stat_file p).

Definition os_WriteFile (p data : string) : Go (option PathError) :=
  run emit (EvFs OpWrite p); sys_step (write_file p data).
Definition os_Remove (p : string) : Go (option PathError) :=
  run emit (EvFs OpRemove p); sys_step (remove_file p).
Definition os_OpenExcl (p : string) : Go (option PathError) :=
  run emit (EvFs OpCreate p); sys_step (create_excl p).
Definition f_WriteString (p data : string) : Go unit :=
  run emit (EvFs OpWrite p); sys_step (append_file p data).
Definition os_MkdirAll (p : string) : Go (option PathError) :=
  run emit (EvFs OpMkdir p); sys_step (mkdir_each (ancestors [] (bytes p))).

(** [filepath.Glob] of a prefix followed by a star, the prefix having no other meta
    character: the entries of the prefix's directory whose names extend it, sorted
    as the directory listing is. *)
Definition glob_match (prefix p : string) : bool :=
  HasPrefix p prefix && no_slash (TrimPrefix p prefix).

Definition glob (prefix : string) (s : Sys ext) : list string :=
  merge_sort String.le (filter (λ p, glob_match prefix p = true) (elements (dom (sys_fs s)))).

Definition filepath_Glob (prefix : string) : Go (list string) := sys_read (glob prefix).

(** ** Relations between worlds *)

(** The events a computation adds satisfy [P]. *)
Definition emits (P : list event → Prop) : relation World :=
  λ w w', ∃ evs, w_trace w' = w_trace w ++ evs ∧ P evs.

(** A property of event sequences that concatenation preserves. *)
Class Stackable (P : list event → Prop) := {
  stackable_nil : P [];
  stackable_app l k : P l → P k → P (l ++ k);
}.

#[export] Instance Stackable_Forall (Q : event → Prop) : Stackable (Forall Q).
Proof. split; [by constructor|]. intros. by apply Forall_app_2. Qed.

#[export] Instance emits_preorder P `{!Stackable P} : PreOrder (emits P).
Proof.
  split.
  - intros w. exists []. rewrite app_nil_r. split; [done|apply stackable_nil].
  - intros w1 w2 w3 (l & H1 & Hl) (k & H2 & Hk). exists (l ++ k).
    rewrite H2, H1, app_assoc. split; [done|by apply stackable_app].
Qed.

(** The files that satisfy [K] are as before. *)
Definition keeps (K : string → Prop) : relation World :=
  λ w w', ∀ p, K p → w_fs w' !! p = w_fs w !! p.

#[export] Instance keeps_preorder K : PreOrder (keeps K).
Proof. split; [by intros w p|]. intros w1 w2 w3 H1 H2 p Hp. by rewrite H2, H1. Qed.

(** The commands the driver executes, and the other processes of the node, leave
    the files that satisfy [K] alone. *)
Class EnvKeeps (K : string → Prop) := {
  exec_keeps cmd args s p : K p → sys_fs (env_exec cmd args s).2 !! p = sys_fs s !! p;
  sleep_keeps d s p : K p → sys_fs (env_sleep d s) !! p = sys_fs s !! p;
  select_keeps deadline start i s p : K p → sys_fs (env_select deadline start i s).2 !! p = sys_fs s !! p;
}.

(** Input and output on the files that satisfy [K] does not fail. *)
Class Healthy (K : string → Prop) :=
  healthy op p x : K p → env_fault op p x = None.

(** *** Big-step view

    [runs m s a s']: whatever the trace so far, [m] takes the system [s] to [s'] and
    returns [a]. *)
Definition runs {A} (m : Go A) (s : Sys ext) (a : A) (s' : Sys ext) : Prop :=
  ∀ w, w_sys w = s → (m w).1 = a ∧ w_sys (m w).2 = s'.

Lemma runs_result {A} (m : Go A) w a s' : runs m (w_sys w) a s' → (m w).1 = a.
Proof. intros H. by apply H. Qed.

Lemma runs_sys {A} (m : Go A) w a s' : runs m (w_sys w) a s' → w_sys (m w).2 = s'.
Proof. intros H. by apply H. Qed.

Lemma runs_ret {A} (a : A) s : runs (ret a) s a s.
Proof. by intros w <-. Qed.

Lemma runs_bind {A B} (m : Go A) (f : A → Go B) s a s1 b s2 :
  runs m s a s1 → runs (f a) s1 b s2 → runs (bind m f) s b s2.
Proof. intros Hm Hf w Hw. destruct (Hm w Hw) as [<- Hs]. by apply Hf. Qed.

Lemma runs_emit e s : runs (emit e) s tt s.
Proof. by intros w <-. Qed.

Lemma runs_step {A} (f : Sys ext → A * Sys ext) s a s' : f s = (a, s') → runs (sys_step f) s a s'.
Proof. intros H w <-. simpl. by rewrite H. Qed.

Lemma runs_read {A} (f : Sys ext → A) s a : f s = a → runs (sys_read f) s a s.
Proof. by intros <- w <-. Qed.

Lemma runs_emit_step {A} e (f : Sys ext → A * Sys ext) s a s' :
  f s = (a, s') → runs (run emit e; sys_step f) s a s'.
Proof. intros. eapply runs_bind; [apply runs_emit|by apply runs_step]. Qed.

Lemma runs_exec cmd args s out s' :
  env_exec cmd args s = (out, s') → runs (exec_Command cmd args) s out s'.
Proof.
  intros H. eapply runs_bind; [by apply runs_step|].
  eapply runs_bind; [apply runs_emit|apply runs_ret].
Qed.

Lemma os_MkdirAll_eq p w :
  os_MkdirAll p w =
  let r := mkdir_each (ancestors [] (bytes p)) (w_sys w) in
  (r.1, mkWorld r.2 (w_trace w ++ [EvFs OpMkdir p])).
Proof. done. Qed.

(** *** Laws of the primitives *)

Lemma respects_read {A} R `{!Reflexive R} (f : Sys ext → A) : respects R (sys_read f).
Proof. intros w. simpl. reflexivity. Qed.

Lemma emits_emit P e : P [e] → respects (emits P) (emit e).
Proof. intros HP w. by exists [e]. Qed.

Lemma emits_sys_step {A} P `{!Stackable P} (f : Sys ext → A * Sys ext) :
  respects (emits P) (sys_step f).
Proof. intros w. exists []. rewrite app_nil_r. split; [done|apply stackable_nil]. Qed.

Lemma emits_exec P `{!Stackable P} cmd args :
  (∀ out, P [EvExec cmd args out]) → respects (emits P) (exec_Command cmd args).
Proof.
  intros HP. apply respects_bind; [apply _|by apply emits_sys_step|intros out].
  apply respects_bind; [apply _|by apply emits_emit|]. intros _. apply respects_ret, _.
Qed.

Lemma emits_Sleep P `{!Stackable P} d : P [EvSleep d] → respects (emits P) (time_Sleep d).
Proof.
  intros HP. apply respects_bind; [apply _|by apply emits_sys_step|intros _].
  by apply emits_emit.
Qed.

Lemma emits_then_step {A} P `{!Stackable P} e (f : Sys ext → A * Sys ext) :
  P [e] → respects (emits P) (run emit e; sys_step f).
Proof.
  intros HP. apply respects_bind; [apply _|by apply emits_emit|intros _].
  by apply emits_sys_step.
Qed.

Lemma keeps_emit K e : respects (keeps K) (emit e).
Proof. by intros w p. Qed.

Lemma keeps_exec K `{!EnvKeeps K} cmd args : respects (keeps K) (exec_Command cmd args).
Proof. intros w p Hp. unfold w_fs. simpl. by apply exec_keeps. Qed.

Lemma keeps_Sleep K `{!EnvKeeps K} d : respects (keeps K) (time_Sleep d).
Proof. intros w p Hp. unfold w_fs. simpl. by apply sleep_keeps. Qed.

Lemma set_file_ne p q f s : p ≠ q → sys_fs (set_file p f s) !! q = sys_fs s !! q.
Proof. intros. simpl. by rewrite lookup_partial_alter_ne. Qed.

Lemma set_file_eq p f s : sys_fs (set_file p f s) !! p = f.
Proof. simpl. by rewrite lookup_partial_alter_eq. Qed.

Lemma write_file_ne p q d s : p ≠ q → sys_fs (write_file p d s).2 !! q = sys_fs s !! q.
Proof. intros. unfold write_file. repeat case_match; try done; by apply set_file_ne. Qed.

Lemma remove_file_ne p q s : p ≠ q → sys_fs (remove_file p s).2 !! q = sys_fs s !! q.
Proof. intros. unfold remove_file. repeat case_match; try done; by apply set_file_ne. Qed.

Lemma create_excl_ne p q s : p ≠ q → sys_fs (create_excl p s).2 !! q = sys_fs s !! q.
Proof. intros. unfold create_excl. repeat case_match; try done; by apply set_file_ne. Qed.

Lemma append_file_ne p q d s : p ≠ q → sys_fs (append_file p d s).2 !! q = sys_fs s !! q.
Proof. intros. unfold append_file. repeat case_match; try done; by apply set_file_ne. Qed.

(** Making directories changes no file that is there, and adds directories only. *)
Lemma mkdir_each_keeps ps s q f :
  sys_fs s !! q = Some f → sys_fs (mkdir_each ps s).2 !! q = Some f.
Proof.
  revert s. induction ps as [|p ps IH]; intros s Hq; [done|]. simpl.
  unfold mkdir_one. repeat case_match; simplify_eq/=; try done; apply IH; try done.
  rewrite set_file_ne; [done|]. congruence.
Qed.

Lemma mkdir_each_ne ps s q : q ∉ ps → sys_fs (mkdir_each ps s).2 !! q = sys_fs s !! q.
Proof.
  revert s. induction ps as [|p ps IH]; intros s Hq; [done|]. simpl.
  apply not_elem_of_cons in Hq as [Hp Hq].
  unfold mkdir_one. repeat case_match; simplify_eq/=; try done; rewrite IH by done; [done|].
  by apply set_file_ne.
Qed.

Lemma mkdir_each_new ps s q f :
  sys_fs (mkdir_each ps s).2 !! q = Some f → sys_fs s !! q = Some f ∨ f_dir f = true.
Proof.
  revert s. induction ps as [|p ps IH]; intros s Hq; [by left|]. simpl in Hq.
  unfold mkdir_one in Hq. repeat case_match; simplify_eq/=; auto.
  apply IH in Hq as [Hq|Hq]; [|by right]. destruct (decide (p = q)) as [->|Hne].
  - rewrite set_file_eq in Hq. simplify_eq/=. by right.
  - rewrite set_file_ne in Hq by done. by left.
Qed.

(** After a successful [MkdirAll] every directory it names is there. *)
Lemma mkdir_each_ok ps s p :
  (mkdir_each ps s).1 = None → p ∈ ps →
  ∃ f, sys_fs (mkdir_each ps s).2 !! p = Some f ∧ f_dir f = true.
Proof.
  revert s. induction ps as [|q ps IH]; intros s Hok Hp; [by apply elem_of_nil in Hp|].
  simpl in *. destruct (mkdir_one q s) as [[e|] s'] eqn:Hone; [done|].
  apply elem_of_cons in Hp as [->|Hp]; [|by apply IH].
  assert (∃ f, sys_fs s' !! q = Some f ∧ f_dir f = true) as (f & Hf & Hd).
  { unfold mkdir_one in Hone. repeat case_match; simplify_eq/=.
    - eauto.
    - rewrite lookup_partial_alter_eq. eauto. }
  exists f. split; [|done]. by apply mkdir_each_keeps.
Qed.

Lemma keeps_sys_step {A} K (f : Sys ext → A * Sys ext) :
  (∀ s p, K p → sys_fs (f s).2 !! p = sys_fs s !! p) → respects (keeps K) (sys_step f).
Proof. intros H w p Hp. unfold w_fs. simpl. by apply H. Qed.

Lemma keeps_fs_op {A} K p e (f : Sys ext → A * Sys ext) :
  ¬ K p → (∀ q s, p ≠ q → sys_fs (f s).2 !! q = sys_fs s !! q) →
  respects (keeps K) (run emit e; sys_step f).
Proof.
  intros Hp Hf. apply respects_bind; [apply _|apply keeps_emit|intros _].
  apply keeps_sys_step. intros s q Hq. apply Hf. by intros ->.
Qed.

Lemma keeps_Remove K p : ¬ K p → respects (keeps K) (os_Remove p).
Proof. intros. apply (keeps_fs_op K p); [done|]. intros. by apply remove_file_ne. Qed.

Lemma keeps_WriteFile K p d : ¬ K p → respects (keeps K) (os_WriteFile p d).
Proof. intros. apply (keeps_fs_op K p); [done|]. intros. by apply write_file_ne. Qed.

Lemma keeps_OpenExcl K p : ¬ K p → respects (keeps K) (os_OpenExcl p).
Proof. intros. apply (keeps_fs_op K p); [done|]. intros. by apply create_excl_ne. Qed.

Lemma keeps_WriteString K p d : ¬ K p → respects (keeps K) (f_WriteString p d).
Proof. intros. apply (keeps_fs_op K p); [done|]. intros. by apply append_file_ne. Qed.

End world.

Arguments World {E}.
Arguments Go {E} A.
Arguments EnvKeeps {E} K.
Arguments Healthy {E} K.

#[export] Hint Resolve respects_read emits_emit emits_sys_step emits_exec emits_Sleep
  emits_then_step keeps_emit keeps_exec keeps_Sleep : go.
