(* ===== verification/Metrics.v ===== *)
(** * Stage timers and error counters (pkg/csi/metrics.go)

    The Prometheus vectors are third-party objects: a call on them is an event of
    the trace, with its labels and, for a histogram, the observed duration. *)

From S2P Require Import Prelude GoStrings GoPath World.

Module Metrics.

Record stageTimer := mkTimer { st_operation : string; st_stage : string; st_start : Z }.

Section metrics.
Context `{E : !Environment}.

Definition startStage (operation stage : string) : Go stageTimer :=
  do now <- time_Now;
  ret (mkTimer operation stage now).

Definition observe (t : stageTimer) : Go unit :=
  do d <- time_Since (st_start t);
  emit (EvObserve (st_operation t) (st_stage t) d).

Definition recordStageError (operation stage : string) : Go unit :=
  emit (EvStageError operation stage).

(** ** Laws *)

Lemma respects_startStage R `{!PreOrder R} op st : respects R (startStage op st).
Proof. apply respects_bind; [apply _|apply respects_read, _|]. intros. apply respects_ret, _. Qed.

Lemma emits_observe P `{!Stackable P} t :
  (∀ d, P [EvObserve (st_operation t) (st_stage t) d]) → respects (emits P) (observe t).
Proof. intros HP. apply respects_bind; [apply _|apply respects_read, _|]. intros d. by apply emits_emit. Qed.

Lemma keeps_observe K t : respects (keeps K) (observe t).
Proof. by intros w p. Qed.

Lemma runs_startStage op st s : runs (startStage op st) s (mkTimer op st (env_now (sys_ext s))) s.
Proof. by intros w <-. Qed.

Lemma runs_observe t s : runs (observe t) s tt s.
Proof. by intros w <-. Qed.

Lemma runs_recordStageError op st s : runs (recordStageError op st) s tt s.
Proof. by intros w <-. Qed.

End metrics.

#[export] Hint Resolve respects_startStage emits_observe keeps_observe : go.

End Metrics.
Export Metrics.
