(* ===== verification/Template.v ===== *)
(** * The fragment of [text/template] the driver uses

    The template of pkg/csi/zerofs.go has plain text and field actions only.
    [Parse] splits a template at its actions; [Execute] prints each field's
    value, which [text/template] does without any quoting. *)

From S2P Require Import Prelude GoStrings.

Module Template.

Inductive node := TText (s : string) | TField (name : string).

Definition lbrace : ascii := byte 123.
Definition rbrace : ascii := byte 125.
Definition dot : ascii := byte 46.

(** The name of a field, up to the closing braces. *)
Fixpoint parse_name (acc l : list ascii) : option (string * list ascii) :=
  match l with
  | c :: l' =>
      match l' with
      | d :: r =>
          if decide (c = rbrace ∧ d = rbrace) then Some (of_bytes (reverse acc), r)
          else parse_name (c :: acc) l'
      | [] => None
      end
  | [] => None
  end.

Definition flush (acc : list ascii) : list node :=
  match acc with [] => [] | _ => [TText (of_bytes (reverse acc))] end.

(** [n] bounds the number of bytes and actions still to read; the length of the
    template is enough. *)
Fixpoint parse_nodes (n : nat) (acc l : list ascii) : option (list node) :=
  match n with
  | O => None
  | S n' =>
      match l with
      | [] => Some (flush acc)
      | c :: l' =>
          match l' with
          | d :: (e :: r) =>
              if decide (c = lbrace ∧ d = lbrace) then
                if decide (e = dot) then
                  match parse_name [] r with
                  | Some (name, rest) =>
                      (λ ns, flush acc ++ TField name :: ns) <$> parse_nodes n' [] rest
                  | None => None
                  end
                else None
              else parse_nodes n' (c :: acc) l'
          | _ => parse_nodes n' (c :: acc) l'
          end
      end
  end.

(** [template.New("zerofs").Parse]; [None] is a parse error. *)
Definition Parse (t : string) : option (list node) :=
  parse_nodes (S (String.length t)) [] (bytes t).

(** [tmpl.Execute] on a map: a missing key prints as [<no value>]. *)
Definition print_node (values : gmap string string) (n : node) : string :=
  match n with
  | TText s => s
  | TField name => default "<no value>" (values !! name)
  end.

Definition Execute (ns : list node) (values : gmap string string) : string :=
  Join (print_node values <$> ns) EmptyString.

Lemma Execute_cons n ns values : Execute (n :: ns) values = print_node values n +:+ Execute ns values.
Proof. unfold Execute, Join. simpl. destruct ns; simpl; [by rewrite append_nil_r|done]. Qed.

Lemma Execute_app ns ms values : Execute (ns ++ ms) values = Execute ns values +:+ Execute ms values.
Proof.
  induction ns as [|n ns IH]; [done|].
  change ((n :: ns) ++ ms) with (n :: (ns ++ ms)). by rewrite !Execute_cons, IH, (assoc_L String.append).
Qed.

End Template.
Export Template.
