(* ===== verification/Kube.v ===== *)
(** * The Kubernetes API client

    The objects the driver reads and writes, with the fields it uses, and the
    controller-runtime client as a parameter: [kube_do] answers an operation and
    may change the system.  The client is third-party code, so nothing is assumed
    of its answers except by the laws of [KubeKeeps] where a theorem asks for them.
    A Go error is its message. *)

From S2P Require Import Prelude GoStrings GoPath World.

Module Kube.

(** ** Objects *)

Record OwnerReference := mkOwner {
  or_apiVersion : string; or_kind : string; or_name : string; or_uid : string;
  or_controller : option bool; or_blockOwnerDeletion : option bool }.

Record ObjectMeta := mkMeta {
  om_name : string; om_namespace : string; om_labels : gmap string string;
  om_owners : list OwnerReference; om_resourceVersion : string }.

Record ConfigMap := mkConfigMap { cm_data : gmap string string }.

Record Secret := mkSecret { sec_meta : ObjectMeta; sec_type : string; sec_data : gmap string string }.

Record DaemonSet := mkDaemonSet { ds_uid : string }.

(** A resource quantity is what [resource.ParseQuantity] returns; its value is not
    looked at. *)
Record ResourceRequirements := mkResources {
  rr_requests : option (gmap string string); rr_limits : option (gmap string string) }.

Record VolumeMount := mkVolumeMount {
  vm_name : string; vm_mountPath : string; vm_readOnly : bool; vm_propagation : option string }.

Record Probe := mkProbe { pr_exec : list string; pr_initialDelaySeconds : Z }.

Record Container := mkContainer {
  ct_name : string; ct_image : string; ct_args : list string; ct_env : list (string * string);
  ct_mounts : list VolumeMount; ct_privileged : option bool; ct_readiness : option Probe;
  ct_resources : option ResourceRequirements; ct_restartPolicy : option string }.

Inductive VolumeSource :=
| VSSecret (secretName : string)
| VSHostPath (path type : string)
| VSConfigMap (name : string).

Record Volume := mkVolume { vol_name : string; vol_source : VolumeSource }.

Record PodSpec := mkPodSpec {
  ps_nodeName : string; ps_terminationGrace : option Z; ps_runAsUser : option Z; ps_runAsGroup : option Z;
  ps_initContainers : list Container; ps_containers : list Container; ps_volumes : list Volume }.

Record PodCondition := mkCondition { pc_type : string; pc_status : string }.

Record Pod := mkPod { pod_meta : ObjectMeta; pod_spec : PodSpec; pod_conditions : list PodCondition }.

Record PersistentVolume := mkPV {
  pv_storageClassName : string; pv_claimRef : option (string * string); pv_csiHandle : option string }.

Record PersistentVolumeClaim := mkPVC { pvc_storageClassName : option string }.

Record StorageClass := mkSC { sc_parameters : gmap string string }.

(** A Go map read with a missing key is the zero value. *)
Definition go_get (m : gmap string string) (k : string) : string := default EmptyString (m !! k).

(** ** The client *)

Inductive kube_op : Type → Type :=
| GetConfigMap (ns name : string) : kube_op (string + ConfigMap)
| GetSecret (ns name : string) : kube_op (string + Secret)
| CreateSecret (s : Secret) : kube_op (string + unit)
| UpdateSecret (s : Secret) : kube_op (string + unit)
| DeleteSecret (ns name : string) : kube_op (string + unit)
| GetPod (ns name : string) : kube_op (string + Pod)
| CreatePodOp (p : Pod) : kube_op (string + unit)
| DeletePod (ns name : string) (grace : option Z) (propagation : option string) : kube_op (string + unit)
| GetDaemonSet (ns name : string) : kube_op (string + DaemonSet)
| GetPV (name : string) : kube_op (string + PersistentVolume)
| ListPV : kube_op (string + list PersistentVolume)
| GetPVC (ns name : string) : kube_op (string + PersistentVolumeClaim)
| GetStorageClass (name : string) : kube_op (string + StorageClass).

(** What an operation is recorded as: verb, kind, namespace, name. *)
Definition op_label {A} (op : kube_op A) : string * string * string * string :=
  match op with
  | GetConfigMap ns n => ("get", "ConfigMap", ns, n)
  | GetSecret ns n => ("get", "Secret", ns, n)
  | CreateSecret s => ("create", "Secret", om_namespace (sec_meta s), om_name (sec_meta s))
  | UpdateSecret s => ("update", "Secret", om_namespace (sec_meta s), om_name (sec_meta s))
  | DeleteSecret ns n => ("delete", "Secret", ns, n)
  | GetPod ns n => ("get", "Pod", ns, n)
  | CreatePodOp p => ("create", "Pod", om_namespace (pod_meta p), om_name (pod_meta p))
  | DeletePod ns n None _ => ("delete", "Pod", ns, n)
  | DeletePod ns n (Some _) _ => ("force-delete", "Pod", ns, n)
  | GetDaemonSet ns n => ("get", "DaemonSet", ns, n)
  | GetPV n => ("get", "PersistentVolume", "", n)
  | ListPV => ("list", "PersistentVolume", "", "")
  | GetPVC ns n => ("get", "PersistentVolumeClaim", ns, n)
  | GetStorageClass n => ("get", "StorageClass", "", n)
  end.

Class KubeClient `{E : !Environment} :=
  kube_do : ∀ {A : Type}, kube_op (string + A) → Sys ext → (string + A) * Sys ext.

(** [resource.ParseQuantity] of apimachinery; [None] is its error. *)
Class QuantityParser := ParseQuantity : string → option string.

Section client.
Context `{E : !Environment, C : !KubeClient}.

Definition kube_event {A} (op : kube_op (string + A)) (r : string + A) : event :=
  let l := op_label op in
  EvKube l.1.1.1 l.1.1.2 l.1.2 l.2 (match r with inl e => Some e | inr _ => None end).

Definition kube {A} (op : kube_op (string + A)) : Go (string + A) :=
  do r <- sys_step (kube_do op);
  run emit (kube_event op r);
  ret r.

(** The client's calls leave the node's files that satisfy [K] alone. *)
Class KubeKeeps (K : string → Prop) :=
  kube_keeps A (op : kube_op (string + A)) s p : K p → sys_fs (kube_do op s).2 !! p = sys_fs s !! p.

Lemma keeps_kube K `{!KubeKeeps K} {A} (op : kube_op (string + A)) : respects (keeps K) (kube op).
Proof. intros w p Hp. unfold w_fs. simpl. by apply kube_keeps. Qed.

Lemma emits_kube P `{!Stackable P} {A} (op : kube_op (string + A)) :
  (∀ r, P [kube_event op r]) → respects (emits P) (kube op).
Proof.
  intros HP. apply respects_bind; [apply _|by apply emits_sys_step|intros r].
  apply respects_bind; [apply _|by apply emits_emit|]. intros _. apply respects_ret, _.
Qed.

End client.

Arguments KubeKeeps {E C} K.

#[export] Hint Resolve keeps_kube emits_kube : go.

End Kube.
Export Kube.
