(* ===== verification/SimNode.v ===== *)
(** * A concrete node

    An executable environment: a node with a mount table, NBD devices and a
    Kubernetes API server, on which the modelled code can be run.  It models no
    code of the driver; the examples and the witnesses of the other files use it to
    show that their hypotheses hold of a node that behaves as the manual pages of
    findmnt, mount, umount, nbd-client, blkid and truncate say. *)

From S2P Require Import Prelude GoStrings GoPath World Kube.

Module SimNode.

Record Cluster := mkCluster {
  cl_pods : gmap (string * string) Pod;
  cl_secrets : gmap (string * string) Secret;
  cl_configmaps : gmap (string * string) ConfigMap;
  cl_daemonsets : gmap (string * string) DaemonSet;
  cl_pvs : list (string * PersistentVolume);
  cl_pvcs : gmap (string * string) PersistentVolumeClaim;
  cl_scs : gmap string StorageClass }.

Record Node := mkNode {
  nd_mounts : list (string * string);  (* mount point, source; the last mount first *)
  nd_clock : Z;
  nd_fstype : gmap string string;      (* what blkid finds on a device *)
  nd_disks : gmap string string;       (* size of the disk file behind a 9P socket *)
  nd_broken : list string;             (* commands that fail, by name or name and first argument *)
  nd_cluster : Cluster;
  nd_objects : list (string * string) }. (* bucket and key of the objects in S3 *)

Abbreviation sys := (Sys Node).

Definition with_node (f : Node → Node) (s : sys) : sys := mkSys (sys_fs s) (f (sys_ext s)).

(** The commands and the cluster write no file under the driver's run directory. *)
Definition run_file (p : string) : bool := HasPrefix p "/run/zerofs-csi".

Definition put (p : string) (f : option File) (s : sys) : sys :=
  if run_file p then s else mkSys (partial_alter (λ _, f) p (sys_fs s)) (sys_ext s).

Definition set_mounts l n :=
  mkNode l (nd_clock n) (nd_fstype n) (nd_disks n) (nd_broken n) (nd_cluster n) (nd_objects n).
Definition set_fstype m n :=
  mkNode (nd_mounts n) (nd_clock n) m (nd_disks n) (nd_broken n) (nd_cluster n) (nd_objects n).
Definition set_disks m n :=
  mkNode (nd_mounts n) (nd_clock n) (nd_fstype n) m (nd_broken n) (nd_cluster n) (nd_objects n).
Definition set_cluster c n :=
  mkNode (nd_mounts n) (nd_clock n) (nd_fstype n) (nd_disks n) (nd_broken n) c (nd_objects n).
Definition set_clock t n :=
  mkNode (nd_mounts n) t (nd_fstype n) (nd_disks n) (nd_broken n) (nd_cluster n) (nd_objects n).
Definition set_objects l n :=
  mkNode (nd_mounts n) (nd_clock n) (nd_fstype n) (nd_disks n) (nd_broken n) (nd_cluster n) l.
Definition set_pods m c :=
  mkCluster m (cl_secrets c) (cl_configmaps c) (cl_daemonsets c) (cl_pvs c) (cl_pvcs c) (cl_scs c).
Definition set_secrets m c :=
  mkCluster (cl_pods c) m (cl_configmaps c) (cl_daemonsets c) (cl_pvs c) (cl_pvcs c) (cl_scs c).

Definition ok (out : string) (s : sys) : CmdOut * sys := (mkCmdOut out None, s).
Definition failed (out err : string) (s : sys) : CmdOut * sys := (mkCmdOut out (Some err), s).

Definition pid_path (dev : string) : string := PathJoin ["/sys/block"; Base dev; "pid"].

(** findmnt --target: the mount the path lies on, that is the last mount whose mount
    point is the path or one of the directories above it. *)
Definition covers (target mnt : string) : bool :=
  bool_decide (mnt = target) || bool_decide (mnt = slash_s) || HasPrefix target (mnt +:+ slash_s).

Fixpoint find_target (target : string) (l : list (string * string)) (best : option (string * string))
    : option (string * string) :=
  match l with
  | [] => best
  | (m, src) :: l' =>
      let better := match best with
                    | Some (b, _) => bool_decide (String.length b < String.length m)%nat
                    | None => true
                    end in
      find_target target l' (if covers target m && better then Some (m, src) else best)
  end.

Definition disk_entry (target : string) : string := target +:+ "/.nbd/disk".

Definition mount_9p (sock target : string) (s : sys) : CmdOut * sys :=
  match sys_fs s !! sock with
  | None => failed "mount: special device does not exist" "exit status 32" s
  | Some _ =>
      let s := with_node (λ n, set_mounts ((target, sock) :: nd_mounts n) n) s in
      let s := put (target +:+ "/.nbd") (Some (mkFile "" true 0%Z)) s in
      ok "" (match nd_disks (sys_ext s) !! sock with
             | Some size => put (disk_entry target) (Some (mkFile size false 0%Z)) s
             | None => s
             end)
  end.

Definition mount_dev (fs dev target : string) (s : sys) : CmdOut * sys :=
  if bool_decide (is_Some (sys_fs s !! pid_path dev) ∧ nd_fstype (sys_ext s) !! dev = Some fs)
  then ok "" (with_node (λ n, set_mounts ((target, dev) :: nd_mounts n) n) s)
  else failed "mount: wrong fs type" "exit status 32" s.

Fixpoint pop_mount (target : string) (l : list (string * string)) : option (list (string * string)) :=
  match l with
  | [] => None
  | (m, src) :: l' =>
      if decide (m = target) then Some l' else cons (m, src) <$> pop_mount target l'
  end.

Definition umount (target : string) (s : sys) : CmdOut * sys :=
  match pop_mount target (nd_mounts (sys_ext s)) with
  | None => failed ("umount: " +:+ target +:+ ": not mounted.") "exit status 32" s
  | Some l =>
      ok "" (put (disk_entry target) None (put (target +:+ "/.nbd") None (with_node (set_mounts l) s)))
  end.

Definition source_of (target : string) (s : sys) : option string :=
  snd <$> find_target target (nd_mounts (sys_ext s)) None.

Definition not_run (cmd : string) (s : sys) : CmdOut * sys :=
  failed (cmd +:+ ": not found") "executable file not found" s.

Definition findmnt (args : list string) (s : sys) : CmdOut * sys :=
  match args with
  | [_; _; _; _; t] =>     (* -n -o SOURCE --target t *)
      match source_of t s with Some src => ok (src +:+ newline) s | None => failed "" "exit status 1" s end
  | [_; _; dev] =>         (* -n -S dev *)
      match filter (λ m, m.2 = dev) (nd_mounts (sys_ext s)) with
      | [] => failed "" "exit status 1" s
      | m :: _ => ok (m.1 +:+ " " +:+ dev +:+ newline) s
      end
  | _ => not_run "findmnt" s
  end.

Definition mount (args : list string) (s : sys) : CmdOut * sys :=
  match args with
  | [_; fs; _; _; src; t] => if decide (fs = "9p") then mount_9p src t s else mount_dev fs src t s
  | [_; fs; dev; t] => mount_dev fs dev t s
  | _ => not_run "mount" s
  end.

Definition truncate (args : list string) (s : sys) : CmdOut * sys :=
  match args with
  | [_; size; f] =>
      match sys_fs s !! Dir f with
      | None => failed "truncate: cannot open" "exit status 1" s
      | Some _ =>
          let s := put f (Some (mkFile size false (nd_clock (sys_ext s)))) s in
          ok "" (match source_of (Dir f) s with
                 | Some sock => with_node (λ n, set_disks (<[sock := size]> (nd_disks n)) n) s
                 | None => s
                 end)
      end
  | _ => not_run "truncate" s
  end.

Definition nbd_client (args : list string) (s : sys) : CmdOut * sys :=
  match args with
  | [_; _; _; _; _; _; _; _; _; dev] =>
      match sys_fs s !! dev, sys_fs s !! pid_path dev with
      | Some _, None => ok "" (put (pid_path dev) (Some (mkFile ("4242" +:+ newline) false 0%Z)) s)
      | _, _ => failed "nbd-client: device busy" "exit status 1" s
      end
  | [_; dev] => ok "" (put (pid_path dev) None s)
  | _ => not_run "nbd-client" s
  end.

Definition blkid (args : list string) (s : sys) : CmdOut * sys :=
  match nd_fstype (sys_ext s) !! default "" (last args) with
  | Some t => ok (t +:+ newline) s
  | None => failed "" "exit status 2" s
  end.

Definition mkfs (cmd : string) (args : list string) (s : sys) : CmdOut * sys :=
  let dev := default "" (last args) in
  ok "" (with_node (λ n, set_fstype (<[dev := TrimPrefix cmd "mkfs."]> (nd_fstype n)) n) s).

Definition df_output (t : string) : string :=
  "Filesystem 1B-blocks Used Available Use% Mounted on" +:+ newline +:+
  "/dev/nbd0 1000 400 600 40% " +:+ t +:+ newline.

Definition sim_exec (cmd : string) (args : list string) (s : sys) : CmdOut * sys :=
  let key := match args with a :: _ => cmd +:+ " " +:+ a | [] => cmd end in
  if bool_decide (cmd ∈ nd_broken (sys_ext s) ∨ key ∈ nd_broken (sys_ext s))
  then failed (cmd +:+ ": failed") "exit status 1" s
  else if decide (cmd = "findmnt") then findmnt args s
  else if decide (cmd = "mount") then mount args s
  else if decide (cmd = "umount") then umount (default "" (last args)) s
  else if decide (cmd = "truncate") then truncate args s
  else if decide (cmd = "nbd-client") then nbd_client args s
  else if decide (cmd = "blkid") then blkid args s
  else if HasPrefix cmd "mkfs" then mkfs cmd args s
  else if decide (cmd = "df") then ok (df_output (default "" (last args))) s
  else not_run cmd s.

Definition sim_fault (op : fsop) (p : string) (n : Node) : option string :=
  if run_file p then None
  else if bool_decide (p ∈ nd_broken n) then Some "input/output error" else None.

#[export] Instance sim_env : Environment := {|
  ext := Node;
  env_exec := sim_exec;
  env_sleep d s := with_node (λ n, set_clock (nd_clock n + Z.max 0 d)%Z n) s;
  env_fault := sim_fault;
  env_now := nd_clock;
  env_ctx_done _ := false;
  env_select deadline start i s :=
    let t := Z.max (nd_clock (sys_ext s)) (start + (Z.of_nat i + 1) * second)%Z in
    if (t <=? deadline)%Z then (true, with_node (set_clock t) s)
    else (false, with_node (set_clock (Z.max (nd_clock (sys_ext s)) deadline)) s);
  env_slack := 1;
|}.

(** ** The API server *)

Definition not_found : string := "the object is not found".

Definition get_obj {A} (o : option A) (s : sys) : (string + A) * sys :=
  (match o with Some a => inr a | None => inl not_found end, s).

(** The socket a ZeroFS pod makes once it runs. *)
Definition pod_socket (podName : string) : string :=
  "/var/lib/kubelet/plugins/zerofs.csi.driver/zerofs-" +:+ TrimPrefix podName "zerofs-volume-" +:+ ".9p.sock".

Definition run_pod (p : Pod) : Pod := mkPod (pod_meta p) (pod_spec p) [mkCondition "Ready" "True"].

Definition on_cluster (f : Cluster → Cluster) (s : sys) : sys :=
  with_node (λ n, set_cluster (f (nd_cluster n)) n) s.

Definition sim_kube {T} (op : kube_op T) (s : sys) : T * sys :=
  let c := nd_cluster (sys_ext s) in
  match op in kube_op T return T * sys with
  | GetConfigMap ns n => get_obj (cl_configmaps c !! (ns, n)) s
  | GetSecret ns n => get_obj (cl_secrets c !! (ns, n)) s
  | CreateSecret x =>
      let k := (om_namespace (sec_meta x), om_name (sec_meta x)) in
      match cl_secrets c !! k with
      | Some _ => (inl "already exists", s)
      | None => (inr tt, on_cluster (λ c, set_secrets (<[k := x]> (cl_secrets c)) c) s)
      end
  | UpdateSecret x =>
      let k := (om_namespace (sec_meta x), om_name (sec_meta x)) in
      match cl_secrets c !! k with
      | Some _ => (inr tt, on_cluster (λ c, set_secrets (<[k := x]> (cl_secrets c)) c) s)
      | None => (inl not_found, s)
      end
  | DeleteSecret ns n =>
      match cl_secrets c !! (ns, n) with
      | Some _ => (inr tt, on_cluster (λ c, set_secrets (delete (ns, n) (cl_secrets c)) c) s)
      | None => (inl not_found, s)
      end
  | GetPod ns n => get_obj (cl_pods c !! (ns, n)) s
  | CreatePodOp x =>
      let k := (om_namespace (pod_meta x), om_name (pod_meta x)) in
      match cl_pods c !! k with
      | Some _ => (inl "already exists", s)
      | None =>
          (inr tt, put (pod_socket (om_name (pod_meta x))) (Some (mkFile "" false 0%Z))
                     (on_cluster (λ c, set_pods (<[k := run_pod x]> (cl_pods c)) c) s))
      end
  | DeletePod ns n _ _ =>
      match cl_pods c !! (ns, n) with
      | Some _ =>
          (inr tt, put (pod_socket n) None
                     (on_cluster (λ c, set_pods (delete (ns, n) (cl_pods c)) c) s))
      | None => (inl not_found, s)
      end
  | GetDaemonSet ns n => get_obj (cl_daemonsets c !! (ns, n)) s
  | GetPV n => get_obj (snd <$> List.find (λ x, bool_decide (x.1 = n)) (cl_pvs c)) s
  | ListPV => (inr (snd <$> cl_pvs c), s)
  | GetPVC ns n => get_obj (cl_pvcs c !! (ns, n)) s
  | GetStorageClass n => get_obj (cl_scs c !! n) s
  end.

#[export] Instance sim_client : KubeClient := λ A op s, sim_kube op s.

(** ** The node respects the driver's run directory *)

Definition is_run_file (p : string) : Prop := run_file p = true.

Lemma put_keeps p f s q : is_run_file q → sys_fs (put p f s) !! q = sys_fs s !! q.
Proof.
  intros Hq. unfold put. destruct (run_file p) eqn:Hp; [done|]. simpl.
  rewrite lookup_partial_alter_ne; [done|]. intros ->. by rewrite Hq in Hp.
Qed.

Lemma with_node_fs f s : sys_fs (with_node f s) = sys_fs s.
Proof. done. Qed.

Ltac solve_keeps :=
  repeat case_match; cbn [snd]; repeat first [rewrite with_node_fs | rewrite put_keeps by done]; done.

Lemma sim_exec_keeps cmd args s q :
  is_run_file q → sys_fs (sim_exec cmd args s).2 !! q = sys_fs s !! q.
Proof.
  intros Hq.
  unfold sim_exec, findmnt, mount, umount, truncate, nbd_client, blkid, mkfs, mount_9p, mount_dev,
    not_run, ok, failed.
  solve_keeps.
Qed.

#[export] Instance sim_keeps : EnvKeeps is_run_file.
Proof. split; [apply sim_exec_keeps|done|]. intros. cbn. by case_match. Qed.

#[export] Instance sim_healthy : Healthy is_run_file.
Proof. intros op p s Hp. cbn. unfold sim_fault. by rewrite Hp. Qed.

#[export] Instance sim_kube_keeps : KubeKeeps is_run_file.
Proof.
  intros A op s q Hq. unfold kube_do, sim_client.
  cut (∀ T (op : kube_op T) (s : sys), sys_fs (sim_kube op s).2 !! q = sys_fs s !! q); [auto|].
  clear A op s. intros T op s. unfold sim_kube, get_obj.
  destruct op; unfold on_cluster; solve_keeps.
Qed.

(** ** A node with two idle devices *)

Definition dir_file : File := mkFile "" true 0%Z.
Definition plain_file (data : string) : File := mkFile data false 0%Z.

Definition fs0 : gmap string File :=
  list_to_map [("/run", dir_file); ("/dev/nbd0", plain_file ""); ("/dev/nbd1", plain_file "");
               ("/dev/nbd0p1", plain_file ""); ("/dev/nbd10", plain_file "")].

Definition config0 : gmap string string :=
  list_to_map [("encryptionPasswordSecretName", "zerofs-encryption-password");
               ("awsCredentialsSecretName", "minio-zerofs-credentials");
               ("storageURL", "s3://zerofs"); ("awsEndpoint", "http://minio:9000")].

Definition secret0 (data : list (string * string)) : Secret :=
  mkSecret (mkMeta "" "" ∅ [] "1") "Opaque" (list_to_map data).

Definition cluster0 : Cluster := mkCluster ∅
  (list_to_map [(("zerofs", "zerofs-encryption-password"), secret0 [("password", "hunter2")]);
                (("zerofs", "minio-zerofs-credentials"), secret0 [("username", "minio"); ("password", "miniosecret")])])
  (list_to_map [(("zerofs", "zerofs-config"), mkConfigMap config0)])
  (list_to_map [(("zerofs", "zerofs-csi-node"), mkDaemonSet "uid-1")])
  [] ∅ ∅.

Definition node0 : Node := mkNode [("/", "overlay")] 1000000000000 ∅ ∅ [] cluster0 [].

Definition world_of (fs : gmap string File) (n : Node) : World := mkWorld (mkSys fs n) [].
Definition world0 : World := world_of fs0 node0.

End SimNode.
