(* ===== verification/Zerofs.v ===== *)
(** * Per-volume ZeroFS pods (pkg/csi/zerofs.go)

    [CreatePod] renders the ZeroFS configuration into a secret and makes sure that
    the volume's pod runs, ready, on the node; [RemovePod] takes both away again.
    The receiver's fields are the client (a parameter) and the namespace; its
    context is part of the environment.  Logging is not modelled. *)

From S2P Require Import Prelude GoStrings GoPath World Kube Template.

Local Open Scope Z_scope.

Module Zerofs.

Definition ZeroFSBaseDir : string := "/var/lib/kubelet/plugins/zerofs.csi.driver".
Definition ZeroFSDefaultImage : string := "ghcr.io/barre/zerofs:0.16.2".
Definition EnvoyDefaultImage : string := "envoyproxy/envoy-distroless:v1.34.4".

Record zerofsMounter := mkMounter { zm_namespace : string }.

Definition NewZeroFSMounter (namespace : string) : zerofsMounter := mkMounter namespace.

(** ** The configuration file *)

(** In the lines below an apostrophe stands for a double quote. *)
Definition quoted (s : string) : string :=
  of_bytes ((λ c, if decide (c = byte 39) then byte 34 else c) <$> bytes s).

Definition template_lines : list string :=
  [ "[cache]";
    "dir = '{{.CacheDir}}'";
    "disk_size_gb = {{.CacheDiskSizeGB}}";
    "memory_size_gb = {{.CacheMemorySizeGB}}";
    "";
    "[storage]";
    "url = '{{.StorageURL}}'";
    "encryption_password = '{{.EncryptionPassword}}'";
    "";
    "[servers.ninep]";
    "addresses = []";
    "unix_socket = '{{.BaseDir}}/zerofs-{{.VolumeID}}.9p.sock'";
    "";
    "[servers.nbd]";
    "addresses = []";
    "unix_socket = '{{.BaseDir}}/zerofs-{{.VolumeID}}.nbd.sock'";
    "";
    "[aws]";
    "secret_access_key = '{{.AWSSecretAccessKey}}'";
    "access_key_id = '{{.AWSAccessKeyID}}'";
    "default_region = '{{.AWSDefaultRegion}}'";
    "allow_http = '{{.AWSAllowHTTP}}'";
    "endpoint = '{{.AWSEndpoint}}'";
    "";
    "[lsm]";
    "l0_max_ssts = {{.LsmL0MaxSsts}}";
    "max_unflushed_gb = {{.LsmMaxUnflushedGB}}";
    "max_concurrent_compactions = {{.LsmMaxConcurrentCompactions}}";
    "flush_interval_secs = {{.LsmFlushIntervalSecs}}";
    "";
    "[filesystem]";
    "max_size_gb = {{.FilesystemMaxSizeGB}}" ].

Definition templateContent : string := quoted (Join template_lines newline +:+ newline).

Definition storageURL (cm : gmap string string) (volumeID : string) : string :=
  cmp_Or (go_get cm "storageURL") "s3://zerofs" +:+ "/" +:+ volumeID.

Definition configValues (cm : gmap string string) (volumeID password accessKey secretKey : string)
    : gmap string string :=
  list_to_map
  [ ("VolumeID", volumeID);
    ("BaseDir", ZeroFSBaseDir);
    ("CacheDir", cmp_Or (go_get cm "cacheDir") "/tmp");
    ("CacheDiskSizeGB", cmp_Or (go_get cm "cacheDiskSizeGB") "1.0");
    ("CacheMemorySizeGB", cmp_Or (go_get cm "cacheMemorySizeGB") "1.0");
    ("StorageURL", storageURL cm volumeID);
    ("EncryptionPassword", password);
    ("AWSAccessKeyID", accessKey);
    ("AWSSecretAccessKey", secretKey);
    ("AWSDefaultRegion", go_get cm "awsDefaultRegion");
    ("AWSAllowHTTP", go_get cm "awsAllowHTTP");
    ("AWSEndpoint", go_get cm "awsEndpoint");
    ("LsmL0MaxSsts", cmp_Or (go_get cm "lsmL0MaxSsts") "16");
    ("LsmMaxUnflushedGB", cmp_Or (go_get cm "lsmMaxUnflushedGB") "1.0");
    ("LsmMaxConcurrentCompactions", cmp_Or (go_get cm "lsmMaxConcurrentCompactions") "8");
    ("LsmFlushIntervalSecs", cmp_Or (go_get cm "lsmFlushIntervalSecs") "30");
    ("FilesystemMaxSizeGB", cmp_Or (go_get cm "filesystemMaxSizeGB") "100.0") ].

(** ** Object names *)

Definition secretName (volumeID : string) : string := "zerofs-config-" +:+ volumeID.
Definition podName (volumeID : string) : string := "zerofs-volume-" +:+ volumeID.

Definition configSecret (ns volumeID config : string) : Secret :=
  mkSecret (mkMeta (secretName volumeID) ns ∅ [] EmptyString) EmptyString {[ "config.toml" := config ]}.

(** ** The pod *)

Definition ownerRefs (uid : option string) : list OwnerReference :=
  match uid with
  | None => []
  | Some u =>
      if decide (u = EmptyString) then []
      else [mkOwner "apps/v1" "DaemonSet" "zerofs-csi-node" u (Some true) (Some true)]
  end.

Definition zerofsContainer (cm : gmap string string) (volumeID : string) : Container :=
  mkContainer "zerofs"
    (cmp_Or (go_get cm "zerofsImage") ZeroFSDefaultImage)
    ["run"; "--config"; "/etc/zerofs/config.toml"]
    [("RUST_LOG", cmp_Or (go_get cm "rustLog") "zerofs=debug,slatedb=debug")]
    [mkVolumeMount "zerofs-config" "/etc/zerofs" true None;
     mkVolumeMount "plugin-dir" "/var/lib/kubelet/plugins/zerofs.csi.driver" false (Some "Bidirectional");
     mkVolumeMount "pod-mount-dir" "/var/lib/kubelet/pods" false (Some "Bidirectional")]
    (Some true)
    (Some (mkProbe ["sh"; "-c"; "test -S " +:+ ZeroFSBaseDir +:+ "/zerofs-" +:+ volumeID +:+ ".9p.sock"] 10))
    None None.

Definition zerofsPod (cm : gmap string string) (ns volumeID nodeName : string)
    (owners : list OwnerReference) : Pod :=
  mkPod
    (mkMeta (podName volumeID) ns
       (list_to_map [("app", "zerofs"); ("type", "volume"); ("volume", volumeID)]) owners EmptyString)
    (mkPodSpec nodeName (Some 60) (Some 0) (Some 0) []
       [zerofsContainer cm volumeID]
       [mkVolume "zerofs-config" (VSSecret (secretName volumeID));
        mkVolume "pod-mount-dir" (VSHostPath "/var/lib/kubelet/pods" "DirectoryOrCreate");
        mkVolume "plugin-dir" (VSHostPath "/var/lib/kubelet/plugins/zerofs.csi.driver" "DirectoryOrCreate")])
    [].

(** [pod.Spec.Containers[0].Resources = r]. *)
Definition set_resources (r : ResourceRequirements) (p : Pod) : Pod :=
  let sp := pod_spec p in
  let cs := match ps_containers sp with
            | c :: rest =>
                mkContainer (ct_name c) (ct_image c) (ct_args c) (ct_env c) (ct_mounts c)
                  (ct_privileged c) (ct_readiness c) (Some r) (ct_restartPolicy c) :: rest
            | [] => []
            end in
  mkPod (pod_meta p)
    (mkPodSpec (ps_nodeName sp) (ps_terminationGrace sp) (ps_runAsUser sp) (ps_runAsGroup sp)
       (ps_initContainers sp) cs (ps_volumes sp))
    (pod_conditions p).

Definition add_envoy (cm : gmap string string) (p : Pod) : Pod :=
  if EqualFold (go_get cm "envoyEnabled") "true" then
    let sp := pod_spec p in
    let envoy := mkContainer "envoy" (cmp_Or (go_get cm "envoyImage") EnvoyDefaultImage) [] []
                   [mkVolumeMount "envoy-config" "/etc/envoy" true None] None None None (Some "Always") in
    mkPod (pod_meta p)
      (mkPodSpec (ps_nodeName sp) (ps_terminationGrace sp) (ps_runAsUser sp) (ps_runAsGroup sp)
         (ps_initContainers sp ++ [envoy]) (ps_containers sp)
         (ps_volumes sp ++
            [mkVolume "envoy-config" (VSConfigMap (cmp_Or (go_get cm "envoyConfigMapRef") "envoy-config"))]))
      (pod_conditions p)
  else p.

(** ** Timeouts *)

Definition defaultSeconds : Z := 120.

(** [time.Duration] is an [int64] of nanoseconds and its product wraps around. *)
Definition podReadyTimeout (cm : gmap string string) : Z :=
  let raw := TrimSpace (go_get cm "podReadyTimeoutSeconds") in
  if decide (raw = EmptyString) then defaultSeconds * second
  else
    match Atoi raw with
    | (_, Some _) => defaultSeconds * second
    | (secs, None) =>
        if decide (secs ≤ 0) then defaultSeconds * second else wrap64 (secs * second)
    end.

(** ** Resource requirements *)

Definition set_quantity (m : option (gmap string string)) (k q : string) : option (gmap string string) :=
  Some (<[k := q]> (default ∅ m)).

Section resources.
Context {Q : QuantityParser}.

(** One of the four settings: not set or not a quantity leaves the map alone. *)
Definition add_quantity (m : option (gmap string string)) (k raw : string) : option (gmap string string) :=
  if decide (raw = EmptyString) then m
  else match ParseQuantity raw with Some q => set_quantity m k q | None => m end.

Definition parseResourceRequirements (cm : gmap string string) : option ResourceRequirements :=
  let cpuRequest := go_get cm "cpuRequest" in
  let cpuLimit := go_get cm "cpuLimit" in
  let memoryRequest := go_get cm "memoryRequest" in
  let memoryLimit := go_get cm "memoryLimit" in
  if bool_decide (cpuRequest ≠ EmptyString ∨ cpuLimit ≠ EmptyString ∨
                  memoryRequest ≠ EmptyString ∨ memoryLimit ≠ EmptyString)
  then
    let requests := add_quantity None "cpu" cpuRequest in
    let limits := add_quantity None "cpu" cpuLimit in
    let requests := add_quantity requests "memory" memoryRequest in
    let limits := add_quantity limits "memory" memoryLimit in
    Some (mkResources requests limits)
  else None.

End resources.

(** ** Operations *)

Section mounter.
Context `{E : !Environment, C : !KubeClient, Q : !QuantityParser}.

(** [fmt.Errorf] with a message and the wrapped error. *)
Definition wrapE {A} (msg : string) (m : Go (string + A)) : Go (string + A) :=
  do r <- m;
  ret match r with inl e => inl (msg +:+ e) | inr a => inr a end.

Definition fail {A} (msg : string) : Go (string + A) := ret (inl msg).

Definition getDaemonSetUID (m : zerofsMounter) : Go (string + string) :=
  try ds <- wrapE "failed to get DaemonSet: " (kube (GetDaemonSet (zm_namespace m) "zerofs-csi-node"));
  ret (inr (ds_uid ds)).

(** [select { case <-ctx.Done(): ... case <-ticker.C: ... }] in a polling loop: whether
    it is the tick that is received, after [i] ticks. *)
Definition select (deadline start : Z) (i : nat) : Go bool := sys_step (env_select deadline start i).

(** The loops end when the select takes the end of the context.  In the model they have
    fuel: a tick for every second of the timeout and the slack of the select. *)
Definition poll_fuel (timeout : Z) : nat := S (Z.to_nat (timeout `div` second) + env_slack).

(** The result of a loop without fuel; no error of the code reads so. *)
Definition out_of_fuel : string := "(no fuel)".

Fixpoint deletionLoop (n i : nat) (deadline start : Z) (name ns : string) : Go (string + unit) :=
  match n with
  | O => fail out_of_fuel
  | S n' =>
      do tick <- select deadline start i;
      if (tick : bool) then
        do r <- kube (GetPod ns name);
        match r with
        | inl err =>
            if Contains err "not found" then ret (inr tt) else fail ("error checking pod status: " +:+ err)
        | inr _ => deletionLoop n' (S i) deadline start name ns
        end
      else fail "timeout waiting for pod to be deleted"
  end.

Definition waitForPodDeletion (name ns : string) (timeout : Z) : Go (string + unit) :=
  do start <- time_Now;
  deletionLoop (poll_fuel timeout) 0 (start + timeout) start name ns.

Definition is_ready (p : Pod) : bool :=
  existsb (λ c, bool_decide (pc_type c = "Ready") && bool_decide (pc_status c = "True")) (pod_conditions p).

Fixpoint readyLoop (n i : nat) (deadline start : Z) (name ns : string) : Go (string + unit) :=
  match n with
  | O => fail out_of_fuel
  | S n' =>
      do tick <- select deadline start i;
      if (tick : bool) then
        do r <- kube (GetPod ns name);
        match r with
        | inl _ => readyLoop n' (S i) deadline start name ns
        | inr p => if is_ready p then ret (inr tt) else readyLoop n' (S i) deadline start name ns
        end
      else fail "timeout waiting for pod to be ready"
  end.

Definition waitForPodReady (name ns : string) (timeout : Z) : Go (string + unit) :=
  do start <- time_Now;
  readyLoop (poll_fuel timeout) 0 (start + timeout) start name ns.

(** Create the configuration secret, or update the one that is there. *)
Definition applySecret (secret : Secret) : Go (string + unit) :=
  do r <- kube (GetSecret (om_namespace (sec_meta secret)) (om_name (sec_meta secret)));
  match r with
  | inl _ => wrapE "failed to create secret: " (kube (CreateSecret secret))
  | inr existing =>
      let meta := sec_meta secret in
      wrapE "failed to update secret: "
        (kube (UpdateSecret (mkSecret
           (mkMeta (om_name meta) (om_namespace meta) (om_labels meta) (om_owners meta)
              (om_resourceVersion (sec_meta existing)))
           (sec_type existing) (sec_data secret))))
  end.

(** Create the pod, keep the one on this node, or replace one on another node.  The Go
    code deletes the object that Get returned, which is the one asked for. *)
Definition applyPod (m : zerofsMounter) (pod : Pod) (name nodeName : string) (timeout : Z)
    : Go (string + unit) :=
  let ns := zm_namespace m in
  do r <- kube (GetPod ns name);
  match r with
  | inl _ =>
      try _ <- wrapE "failed to create pod: " (kube (CreatePodOp pod));
      wrapE "pod failed to become ready: " (waitForPodReady name ns timeout)
  | inr existing =>
      if decide (ps_nodeName (pod_spec existing) = nodeName) then
        wrapE "pod exists but failed to become ready: " (waitForPodReady name ns timeout)
      else
        try _ <- wrapE "failed to delete existing pod: " (kube (DeletePod ns name None None));
        run waitForPodDeletion name ns (30 * second);
        try _ <- wrapE "failed to create pod: " (kube (CreatePodOp pod));
        wrapE "pod failed to become ready: " (waitForPodReady name ns timeout)
  end.

Definition credential (s : Secret) (k1 k2 : string) : string :=
  cmp_Or (go_get (sec_data s) k1) (go_get (sec_data s) k2).

Definition CreatePod (m : zerofsMounter) (volumeID nodeName configMapName : string) : Go (string + unit) :=
  let ns := zm_namespace m in
  try configMap <- wrapE "failed to get zerofs configmap: " (kube (GetConfigMap ns configMapName));
  let cm := cm_data configMap in
  let timeout := podReadyTimeout cm in
  try pwSecret <- wrapE "failed to get zerofs password secret: "
    (kube (GetSecret ns (go_get cm "encryptionPasswordSecretName")));
  let encryptionPassword := go_get (sec_data pwSecret) "password" in
  if decide (encryptionPassword = EmptyString)
  then fail "failed to get zerofs password: 'password' is empty" else
  try aws <- wrapE "failed to get aws secret: " (kube (GetSecret ns (go_get cm "awsCredentialsSecretName")));
  let awsAccessKeyID := credential aws "AWS_ACCESS_KEY_ID" "username" in
  if decide (awsAccessKeyID = EmptyString)
  then fail "failed to get aws access key id: all checked fields are empty" else
  let awsSecretAccessKey := credential aws "AWS_SECRET_ACCESS_KEY" "password" in
  if decide (awsSecretAccessKey = EmptyString)
  then fail "failed to get aws secret access key: all checked fields are empty" else
  match Parse templateContent with
  | None => fail "failed to parse zerofs template"
  | Some tmpl =>
      let configData :=
        Execute tmpl (configValues cm volumeID encryptionPassword awsAccessKeyID awsSecretAccessKey) in
      try _ <- applySecret (configSecret ns volumeID configData);
      do uid <- getDaemonSetUID m;
      let owners := ownerRefs (match uid with inl _ => None | inr u => Some u end) in
      let pod := zerofsPod cm ns volumeID nodeName owners in
      let pod := match parseResourceRequirements cm with Some r => set_resources r pod | None => pod end in
      let pod := add_envoy cm pod in
      applyPod m pod (podName volumeID) nodeName timeout
  end.

(** The escalation when the pod does not go away. *)
Definition forceDelete (m : zerofsMounter) (name : string) : Go unit :=
  let ns := zm_namespace m in
  run kube (DeletePod ns name (Some 0) (Some "Background"));
  run waitForPodDeletion name ns (30 * second);
  ret tt.

(** The pod's part of [RemovePod]. *)
Definition removePodObject (m : zerofsMounter) (name : string) : Go (string + unit) :=
  let ns := zm_namespace m in
  do r <- kube (GetPod ns name);
  match r with
  | inl _ => ret (inr tt)
  | inr _ =>
      do d <- kube (DeletePod ns name None None);
      match d with
      | inl err => if Contains err "not found" then ret (inr tt) else fail ("failed to delete pod: " +:+ err)
      | inr _ =>
          do wt <- waitForPodDeletion name ns (45 * second);
          match wt with
          | inl _ => run forceDelete m name; ret (inr tt)
          | inr _ => ret (inr tt)
          end
      end
  end.

Definition RemovePod (m : zerofsMounter) (volumeID : string) : Go (string + unit) :=
  try _ <- removePodObject m (podName volumeID);
  run kube (DeleteSecret (zm_namespace m) (secretName volumeID));
  ret (inr tt).

End mounter.

End Zerofs.
Export Zerofs.
