(* ===== verification/S3.v ===== *)
(** * Deleting a volume's objects (pkg/csi/s3_cleanup.go)

    The AWS client is third-party code and a parameter, [S3Client]: listing one page
    with the paginator's token, and deleting a batch of keys, whose answer lists the
    keys that could not be deleted.  The loop over the pages ends when the paginator
    says so; [fuel] bounds it in the model and [None] means it ran out. *)

From S2P Require Import Prelude GoStrings GoPath GoUrl World.

Module S3.

Record s3DeleteConfig := mkS3Config {
  sc_Endpoint : string; sc_Region : string; sc_AllowHTTP : bool;
  sc_AccessKeyID : string; sc_SecretKey : string; sc_UsePathStyle : bool }.

Record s3Location := mkLocation { sl_Bucket : string; sl_Prefix : string }.

Inductive s3_error :=
| ErrURL                            (** [url.Parse] failed *)
| ErrScheme (scheme : string)
| ErrURLBucket (storageURL : string)
| ErrEndpoint
| ErrInsecure (endpoint : string)
| ErrBucket
| ErrEmptyPrefix (bucket : string)
| ErrSDK (msg : string).            (** an error of the AWS client *)

Definition parseS3Location (storageURL : string) : s3_error + s3Location :=
  match Parse_url storageURL with
  | None => inl ErrURL
  | Some u =>
      if decide (u_scheme u ≠ "s3") then inl (ErrScheme (u_scheme u))
      else
        let bucket := u_host u in
        if decide (bucket = EmptyString) then inl (ErrURLBucket storageURL)
        else inr (mkLocation bucket (TrimPrefix (u_path u) slash_s))
  end.

Definition joinS3Prefix (basePrefix volumeID : string) : string :=
  let basePrefix := TrimByte slash (TrimSpace basePrefix) in
  let volumeID := TrimByte slash (TrimSpace volumeID) in
  if decide (basePrefix = EmptyString) then volumeID else PathJoin [basePrefix; volumeID].

(** ** The client *)

(** A page of a listing: the keys (a key may be missing) and the token of the next
    page, if the paginator has more pages. *)
Record Page := mkPage { pg_contents : list (option string); pg_next : option string }.

Class S3Client `{E : !Environment} := {
  (** [config.LoadDefaultConfig] *)
  s3_load : s3DeleteConfig → ext → option string;
  (** [NextPage] of the paginator: bucket, prefix, token *)
  s3_list : s3DeleteConfig → string → string → option string → Sys ext → (string + Page) * Sys ext;
  (** [DeleteObjects]: bucket and keys; the keys of the answer's error entries *)
  s3_delete : s3DeleteConfig → string → list string → Sys ext → (string + list string) * Sys ext;
}.

Section s3.
Context `{E : !Environment, SC : !S3Client}.

Definition s3_err {A} (r : string + A) : option string := match r with inl e => Some e | inr _ => None end.

Definition NextPage (cfg : s3DeleteConfig) (bucket prefix : string) (token : option string) : Go (string + Page) :=
  do r <- sys_step (s3_list cfg bucket prefix token);
  run emit (EvS3 "list" bucket [prefix] (s3_err r));
  ret r.

Definition DeleteObjects (cfg : s3DeleteConfig) (bucket : string) (keys : list string)
    : Go (string + list string) :=
  do r <- sys_step (s3_delete cfg bucket keys);
  run emit (EvS3 "delete" bucket keys (s3_err r));
  ret r.

(** The objects of a page that have a key. *)
Definition page_keys (p : Page) : list string :=
  omap (λ k, match k with Some s => if decide (s = EmptyString) then None else Some s | None => None end)
    (pg_contents p).

(** The loop over the pages. *)
Fixpoint deletePages (fuel : nat) (cfg : s3DeleteConfig) (bucket prefix : string) (token : option string)
    : Go (option (s3_error + unit)) :=
  match fuel with
  | O => ret None
  | S fuel' =>
      do r <- NextPage cfg bucket prefix token;
      match r with
      | inl err => ret (Some (inl (ErrSDK err)))
      | inr page =>
          let next := match pg_next page with
                      | None => ret (Some (inr tt))
                      | Some t => deletePages fuel' cfg bucket prefix (Some t)
                      end in
          match pg_contents page with
          | [] => next
          | _ =>
              do d <- DeleteObjects cfg bucket (page_keys page);
              match d with
              | inl err => ret (Some (inl (ErrSDK err)))
              | inr _ => next
              end
          end
      end
  end.

Definition deleteS3Prefix (fuel : nat) (cfg : s3DeleteConfig) (loc : s3Location)
    : Go (option (s3_error + unit)) :=
  if decide (sc_Endpoint cfg = EmptyString) then ret (Some (inl ErrEndpoint)) else
  let region := if decide (sc_Region cfg = EmptyString) then "us-east-1" else sc_Region cfg in
  let cfg := mkS3Config (sc_Endpoint cfg) region (sc_AllowHTTP cfg) (sc_AccessKeyID cfg)
               (sc_SecretKey cfg) (sc_UsePathStyle cfg) in
  if negb (sc_AllowHTTP cfg) && HasPrefix (sc_Endpoint cfg) "http://"
  then ret (Some (inl (ErrInsecure (sc_Endpoint cfg)))) else
  if decide (sl_Bucket loc = EmptyString) then ret (Some (inl ErrBucket)) else
  if decide (TrimSpace (sl_Prefix loc) = EmptyString)
  then ret (Some (inl (ErrEmptyPrefix (sl_Bucket loc)))) else
  do lerr <- sys_read (λ s, s3_load cfg (sys_ext s));
  match lerr with
  | Some err => ret (Some (inl (ErrSDK err)))
  | None => deletePages fuel cfg (sl_Bucket loc) (TrimSpace (sl_Prefix loc)) None
  end.

End s3.

End S3.
Export S3.
