(* ===== verification/Controller.v ===== *)
(** * The CSI controller service (pkg/csi/controller.go, controller_delete.go)

    The handlers return Go errors, not gRPC statuses; an error is a constructor of
    [ctl_error].  [req.Parameters] is a Go map that [CreateVolume] shares with its
    response and writes to, so its value after the call is part of the result. *)

From S2P Require Import Prelude GoStrings GoPath GoUrl World Kube Zerofs S3.

Local Open Scope Z_scope.

Module Controller.

(** The mounter may be missing; the client of one that is there is the parameter
    [KubeClient], so the test for a nil client is the test for a mounter. *)
Record controllerService := mkController { cs_mounter : option zerofsMounter }.

Inductive ctl_error :=
| EmptyName | NoCapabilities | EmptyVolumeID | EmptyNodeID
| NoConfigMapName (sc : string)
| ConfigMapError (name msg : string)
| LocationError (configMap : string) (e : s3_error)
| NoCredentialsName (configMap : string)
| SecretError (name msg : string)
| NoKeys (secret : string)
| S3Error (e : s3_error)
| DataError (e : ctl_error).        (** wrapped by DeleteVolume *)

(** ** Requests and responses *)

Record CreateVolumeRequest := mkCreate {
  cr_name : string;
  cr_capabilities : option (list (option (list string)));   (** nil, or the capabilities *)
  cr_requiredBytes : option Z;                               (** of the capacity range, if any *)
  cr_parameters : option (gmap string string) }.            (** nil, or a map *)

Record CsiVolume := mkCsiVolume { cv_id : string; cv_capacity : Z; cv_context : gmap string string }.

(** [req.CapacityRange.GetRequiredBytes()]: zero when there is no range. *)
Definition GetRequiredBytes (r : CreateVolumeRequest) : Z := default 0 (cr_requiredBytes r).

(** The response and the request's parameters after the call: a map that is there is
    written to, a nil map is replaced by a new one in the response only. *)
Definition CreateVolume (req : CreateVolumeRequest)
    : (ctl_error + CsiVolume) * option (gmap string string) :=
  if decide (cr_name req = EmptyString) then (inl EmptyName, cr_parameters req)
  else match cr_capabilities req with
  | None => (inl NoCapabilities, cr_parameters req)
  | Some _ =>
      let context := <["capacity_bytes" := Sprint_d (GetRequiredBytes req)]> (default ∅ (cr_parameters req)) in
      (inr (mkCsiVolume (cr_name req) (GetRequiredBytes req) context),
       (λ _, context) <$> cr_parameters req)
  end.

Definition ControllerPublishVolume (volumeId nodeId : string) : ctl_error + gmap string string :=
  if decide (volumeId = EmptyString) then inl EmptyVolumeID
  else if decide (nodeId = EmptyString) then inl EmptyNodeID
  else inr (<["nodeName" := nodeId]> {[ "volumeId" := volumeId ]}).

Definition ControllerUnpublishVolume (volumeId : string) : ctl_error + unit :=
  if decide (volumeId = EmptyString) then inl EmptyVolumeID else inr tt.

Definition ValidateVolumeCapabilities {A} (volumeId : string) (capabilities : option (list A))
    : ctl_error + list A :=
  if decide (volumeId = EmptyString) then inl EmptyVolumeID
  else match capabilities with None => inl NoCapabilities | Some caps => inr caps end.

Definition ListVolumes : ctl_error + list CsiVolume := inr [].

Inductive controller_capability := CREATE_DELETE_VOLUME | PUBLISH_UNPUBLISH_VOLUME | LIST_VOLUMES.

Definition ControllerGetCapabilities : ctl_error + list controller_capability :=
  inr [CREATE_DELETE_VOLUME; PUBLISH_UNPUBLISH_VOLUME; LIST_VOLUMES].

Record Snapshot := mkSnapshot { sn_id : string; sn_source : string; sn_ready : bool }.

Definition CreateSnapshot (sourceVolumeId : string) : ctl_error + Snapshot :=
  inr (mkSnapshot ("snapshot-" +:+ sourceVolumeId) sourceVolumeId true).

Definition DeleteSnapshot : ctl_error + unit := inr tt.

(** ** Deleting *)

Section controller.
Context `{E : !Environment, C : !KubeClient, SC : !S3Client}.

Definition findPersistentVolume (volumeID : string) : Go (string + option PersistentVolume) :=
  do r <- kube (GetPV volumeID);
  match r with
  | inr pv => ret (inr (Some pv))
  | inl _ =>
      do l <- kube ListPV;
      match l with
      | inl err => ret (inl err)
      | inr items => ret (inr (List.find (λ pv, bool_decide (pv_csiHandle pv = Some volumeID)) items))
      end
  end.

(** The name of the storage class, from the volume or its claim. *)
Definition storageClassName (pv : PersistentVolume) : Go string :=
  let scName := TrimSpace (pv_storageClassName pv) in
  match pv_claimRef pv with
  | Some (ns, name) =>
      if decide (scName = EmptyString) then
        do r <- kube (GetPVC ns name);
        match r with
        | inr pvc =>
            match pvc_storageClassName pvc with
            | Some n => ret (TrimSpace n)
            | None => ret scName
            end
        | inl _ => ret scName
        end
      else ret scName
  | None => ret scName
  end.

(** A key of the credentials, or else another. *)
Definition credentialKey (data : gmap string string) (k1 k2 : string) : string :=
  let v := TrimSpace (go_get data k1) in
  if decide (v = EmptyString) then TrimSpace (go_get data k2) else v.

Definition deleteConfig (cm : gmap string string) (accessKey secretKey : string) : s3DeleteConfig :=
  mkS3Config (TrimSpace (go_get cm "awsEndpoint")) (TrimSpace (go_get cm "awsDefaultRegion"))
    (EqualFold (TrimSpace (go_get cm "awsAllowHTTP")) "true") accessKey secretKey true.

(** The part after the storage class asked for the deletion. *)
Definition deleteVolumeData (fuel : nat) (m : zerofsMounter) (volumeID scName : string) (sc : StorageClass)
    : Go (option (ctl_error + unit)) :=
  let ns := zm_namespace m in
  let configMapName := TrimSpace (go_get (sc_parameters sc) "configMapName") in
  if decide (configMapName = EmptyString) then ret (Some (inl (NoConfigMapName scName))) else
  do r <- kube (GetConfigMap ns configMapName);
  match r with
  | inl err => ret (Some (inl (ConfigMapError configMapName err)))
  | inr cfgMap =>
      let cm := cm_data cfgMap in
      match parseS3Location (go_get cm "storageURL") with
      | inl err => ret (Some (inl (LocationError configMapName err)))
      | inr loc =>
          let loc := mkLocation (sl_Bucket loc) (joinS3Prefix (sl_Prefix loc) volumeID) in
          let credsSecretName := TrimSpace (go_get cm "awsCredentialsSecretName") in
          if decide (credsSecretName = EmptyString)
          then ret (Some (inl (NoCredentialsName configMapName))) else
          do r <- kube (GetSecret ns credsSecretName);
          match r with
          | inl err => ret (Some (inl (SecretError credsSecretName err)))
          | inr creds =>
              let accessKey := credentialKey (sec_data creds) "AWS_ACCESS_KEY_ID" "username" in
              let secretKey := credentialKey (sec_data creds) "AWS_SECRET_ACCESS_KEY" "password" in
              if decide (accessKey = EmptyString ∨ secretKey = EmptyString)
              then ret (Some (inl (NoKeys credsSecretName))) else
              do r <- deleteS3Prefix fuel (deleteConfig cm accessKey secretKey) loc;
              ret match r with
                  | None => None
                  | Some (inl err) => Some (inl (S3Error err))
                  | Some (inr _) => Some (inr tt)
                  end
          end
      end
  end.

Definition deleteVolumeDataIfEnabled (fuel : nat) (cs : controllerService) (volumeID : string)
    : Go (option (ctl_error + unit)) :=
  match cs_mounter cs with
  | None => ret (Some (inr tt))
  | Some m =>
      do r <- findPersistentVolume volumeID;
      match r with
      | inr (Some pv) =>
          do scName <- storageClassName pv;
          if decide (scName = EmptyString) then ret (Some (inr tt)) else
          do r <- kube (GetStorageClass scName);
          match r with
          | inl _ => ret (Some (inr tt))
          | inr sc =>
              if EqualFold (TrimSpace (go_get (sc_parameters sc) "deleteDataOnPVCDelete")) "true"
              then deleteVolumeData fuel m volumeID scName sc
              else ret (Some (inr tt))
          end
      | _ => ret (Some (inr tt))
      end
  end.

Definition DeleteVolume (fuel : nat) (cs : controllerService) (volumeID : string)
    : Go (option (ctl_error + unit)) :=
  if decide (volumeID = EmptyString) then ret (Some (inl EmptyVolumeID)) else
  run match cs_mounter cs with
      | Some m => run RemovePod m volumeID; ret tt
      | None => ret tt
      end;
  do r <- deleteVolumeDataIfEnabled fuel cs volumeID;
  ret match r with
      | None => None
      | Some (inl err) => Some (inl (DataError err))
      | Some (inr _) => Some (inr tt)
      end.

End controller.

End Controller.
Export Controller.
