(* ===== verification/Nbd.v ===== *)
(** * NBD device bookkeeping (pkg/csi/nbd.go)

    The state files under [/run/zerofs-csi]: one per volume, holding the device it
    uses, and one reservation per device under [by-device], holding the volume.
    [reserveNBDDevice] picks a device under the node service's mutex. *)

From S2P Require Import Prelude GoStrings GoPath World.

Local Open Scope Z_scope.

Module Nbd.

Definition ZeroFSRunDir : string := "/run/zerofs-csi".
Definition nbdByDeviceDir : string := ZeroFSRunDir +:+ "/by-device".

(** The regular expression [^/dev/nbd\d+$]. *)
Definition nbdDevicePathRe (p : string) : bool :=
  HasPrefix p "/dev/nbd" &&
  (let n := TrimPrefix p "/dev/nbd" in bool_decide (n ≠ EmptyString) && all_digits n).

Definition volumeNBDStatePath (volumeID : string) : string := PathJoin [ZeroFSRunDir; volumeID].

Definition deviceReservationPath (nbdDevicePath : string) : string :=
  PathJoin [nbdByDeviceDir; Base (TrimSpace nbdDevicePath)].

(** The comparison of [sort.Slice]: the device numbers, conversion errors ignored. *)
Definition device_number (d : string) : Z := (Atoi (TrimPrefix (Base d) "nbd")).1.

Definition device_less (d1 d2 : string) : bool := bool_decide (device_number d1 < device_number d2).

(** [sort.Slice] as insertion sort, which is what it runs on short slices; on any
    slice with distinct keys the sorted permutation is unique. *)
Fixpoint sort_insert (less : string → string → bool) (x : string) (l : list string) : list string :=
  match l with
  | [] => [x]
  | y :: l' => if less x y then x :: l else y :: sort_insert less x l'
  end.

Definition sort_Slice (less : string → string → bool) (l : list string) : list string :=
  foldl (λ acc x, sort_insert less x acc) [] l.

Inductive conn_error := ConnRead (path : string) (e : PathError) | ConnParse (path : string) (e : num_error).

Section nbd.
Context `{E : !Environment}.

Definition ensureRunDirs : Go (option PathError) :=
  do err <- os_MkdirAll ZeroFSRunDir;
  match err with
  | Some e => ret (Some e)
  | None =>
      do err <- os_MkdirAll nbdByDeviceDir;
      match err with
      | Some e => ret (Some e)
      | None => ret None
      end
  end.

(** The pattern of the glob is well formed, so the error result is never set.  Glob
    ignores input/output errors; a [/dev] that cannot be listed is not modelled. *)
Definition listNBDDevices : Go (string + list string) :=
  do matches <- filepath_Glob "/dev/nbd";
  ret (inr (sort_Slice device_less (filter (λ m, nbdDevicePathRe m = true) matches))).

Definition isNBDConnected (nbdDevicePath : string) : Go (conn_error + bool) :=
  let dev := Base (TrimSpace nbdDevicePath) in
  let pidPath := PathJoin ["/sys/block"; dev; "pid"] in
  do r <- os_ReadFile pidPath;
  match r with
  | inl err => ret (if IsNotExist err then inr false else inl (ConnRead pidPath err))
  | inr b =>
      match Atoi (TrimSpace b) with
      | (_, Some err) => ret (inl (ConnParse pidPath err))
      | (pid, None) => ret (inr (bool_decide (0 < pid)))
      end
  end.

Definition findMountSource (targetPath : string) : Go (string * bool) :=
  do out <- exec_Command "findmnt" ["-n"; "-o"; "SOURCE"; "--target"; targetPath];
  match co_err out with
  | Some _ => ret (EmptyString, false)
  | None => let src := TrimSpace (co_out out) in ret (src, bool_decide (src ≠ EmptyString))
  end.

Definition unmountBestEffort (targetPath : string) : Go unit :=
  if decide (targetPath = EmptyString) then ret tt
  else
    do (_, mounted) <- findMountSource targetPath;
    if negb mounted then ret tt
    else run exec_Command "umount" [targetPath]; ret tt.

(** The retry loop; [n] attempts are left. *)
Fixpoint detach_attempts (n : nat) (dev : string) : Go unit :=
  match n with
  | O => ret tt
  | S n' =>
      do out <- exec_Command "nbd-client" ["-d"; dev];
      match co_err out with
      | None => ret tt
      | Some _ => run time_Sleep (500 * millisecond); detach_attempts n' dev
      end
  end.

Definition detachNBDDeviceBestEffort (nbdDevicePath : string) : Go unit :=
  let dev := TrimSpace nbdDevicePath in
  if decide (dev = EmptyString) then ret tt else detach_attempts 5 dev.

Definition readVolumeNBDState (volumeID : string) : Go (option string) :=
  do r <- os_ReadFile (volumeNBDStatePath volumeID);
  match r with
  | inl _ => ret None
  | inr b =>
      let dev := TrimSpace b in
      ret (if decide (dev = EmptyString) then None else Some dev)
  end.

Definition writeVolumeNBDState (volumeID nbdDevicePath : string) : Go (option PathError) :=
  do err <- ensureRunDirs;
  match err with
  | Some e => ret (Some e)
  | None => os_WriteFile (volumeNBDStatePath volumeID) (TrimSpace nbdDevicePath)
  end.

Definition clearVolumeNBDState (volumeID nbdDevicePath : string) : Go unit :=
  run os_Remove (volumeNBDStatePath volumeID);
  if decide (nbdDevicePath = EmptyString) then ret tt
  else run os_Remove (deviceReservationPath nbdDevicePath); ret tt.

Definition mustReadFile (path : string) : Go string :=
  do r <- os_ReadFile path;
  ret match r with inl _ => EmptyString | inr b => b end.

(** The garbage collection of a stale reservation at [resPath]. *)
Definition gcReservation (resPath : string) : Go unit :=
  do st <- os_Stat resPath;
  match st with
  | inl _ => ret tt
  | inr modTime =>
      do b <- mustReadFile resPath;
      let vol := TrimSpace b in
      if decide (vol = EmptyString) then run os_Remove resPath; ret tt
      else
        do vst <- os_Stat (volumeNBDStatePath vol);
        if (match vst with inl err => IsNotExist err | inr _ => false end)
        then run os_Remove resPath; ret tt
        else
          do age <- time_Since modTime;
          if decide (2 * hour < age) then run os_Remove resPath; ret tt else ret tt
  end.

(** The scan over the devices. *)
Fixpoint reserveScan (volumeID : string) (devs : list string) : Go (string + string) :=
  match devs with
  | [] => ret (inl "no free /dev/nbd* devices available")
  | dev :: rest =>
      do c <- isNBDConnected dev;
      match c with
      | inl _ => reserveScan volumeID rest
      | inr true => reserveScan volumeID rest
      | inr false =>
          let resPath := deviceReservationPath dev in
          run gcReservation resPath;
          do err <- os_OpenExcl resPath;
          match err with
          | Some _ => reserveScan volumeID rest
          | None =>
              run f_WriteString resPath volumeID;
              do werr <- writeVolumeNBDState volumeID dev;
              match werr with
              | Some e => run os_Remove resPath; ret (inl (pe_error e))
              | None => ret (inr dev)
              end
          end
      end
  end.

(** The part of [reserveNBDDevice] after the look at the state file. *)
Definition reserveFresh (volumeID : string) : Go (string + string) :=
  do r <- listNBDDevices;
  match r with
  | inl e => ret (inl e)
  | inr [] => ret (inl "no /dev/nbd* devices found (is the nbd module loaded and /dev mounted?)")
  | inr devs => reserveScan volumeID devs
  end.

(** The part of [reserveNBDDevice] after the directories are made. *)
Definition reserveInDirs (volumeID : string) : Go (string + string) :=
  do st <- readVolumeNBDState volumeID;
  match st with
  | Some existing =>
      do stat <- os_Stat existing;
      match stat with
      | inr _ =>
          let resPath := deviceReservationPath existing in
          do rst <- os_Stat resPath;
          run (if (match rst with inl e => IsNotExist e | inr _ => false end) then
                 do err <- os_OpenExcl resPath;
                 match err with
                 | None => f_WriteString resPath volumeID
                 | Some _ => ret tt
                 end
               else ret tt);
          ret (inr existing)
      | inl _ =>
          run clearVolumeNBDState volumeID existing;
          reserveFresh volumeID
      end
  | None => reserveFresh volumeID
  end.

Definition reserveNBDDevice (volumeID : string) : Go (string + string) :=
  do err <- ensureRunDirs;
  match err with
  | Some e => ret (inl (pe_error e))
  | None => reserveInDirs volumeID
  end.

End nbd.

(** ** Paths of the state files *)

(** A volume name as the provisioner makes them: a file name that white-space
    trimming leaves alone and that is not the directory of the reservations. *)
Definition good_volume (v : string) : bool :=
  plain v && visible_edges v && bool_decide (v ≠ "by-device").

Lemma good_volume_plain v : good_volume v = true → plain v = true.
Proof. unfold good_volume. by intros [[? _]%andb_prop _]%andb_prop. Qed.

Lemma good_volume_trim v : good_volume v = true → TrimSpace v = v.
Proof. unfold good_volume. intros [[_ ?]%andb_prop _]%andb_prop. by apply TrimSpace_id. Qed.

Lemma good_volume_nonempty v : good_volume v = true → v ≠ EmptyString.
Proof. by intros H ->. Qed.

Lemma statePath_eq v : plain v = true → volumeNBDStatePath v = ZeroFSRunDir +:+ slash_s +:+ v.
Proof. intros H. by apply PathJoin_plain. Qed.

Lemma nbdDevicePathRe_spec d :
  nbdDevicePathRe d = true ↔ ∃ n, d = "/dev/nbd" +:+ n ∧ n ≠ EmptyString ∧ all_digits n = true.
Proof.
  unfold nbdDevicePathRe. rewrite !andb_true_iff, HasPrefix_spec. split.
  - intros [[n ->] [Hn Hd]]. rewrite TrimPrefix_app in *. apply bool_decide_eq_true in Hn. eauto.
  - intros (n & -> & Hn & Hd). rewrite TrimPrefix_app. split; [eauto|].
    by rewrite bool_decide_eq_true.
Qed.

Lemma digit_ne_slash c : is_digit c = true → c ≠ slash.
Proof. by intros H ->. Qed.

Lemma plain_nbd n : all_digits n = true → plain ("nbd" +:+ n) = true.
Proof.
  intros H%all_digits_bytes. unfold plain. apply andb_true_intro. split.
  - unfold no_slash. apply bool_decide_eq_true. rewrite bytes_app, elem_of_app. intros [Hs|Hs].
    + revert Hs. by apply (bool_decide_unpack (slash ∉ bytes "nbd")).
    + rewrite Forall_forall in H. by apply H in Hs.
  - apply bool_decide_eq_true. by destruct n.
Qed.

Lemma device_trim d : nbdDevicePathRe d = true → TrimSpace d = d.
Proof.
  intros (n & -> & Hn & Hd)%nbdDevicePathRe_spec. apply TrimSpace_id.
  apply visible_edges_app; [done|done|done|by apply visible_edges_digits].
Qed.

Lemma device_base n : all_digits n = true → Base ("/dev/nbd" +:+ n) = "nbd" +:+ n.
Proof. intros H. apply (Base_join "/dev"). by apply plain_nbd. Qed.

Lemma reservationPath_eq n :
  n ≠ EmptyString → all_digits n = true →
  deviceReservationPath ("/dev/nbd" +:+ n) = nbdByDeviceDir +:+ slash_s +:+ "nbd" +:+ n.
Proof.
  intros Hn Hd. unfold deviceReservationPath.
  rewrite device_trim by (apply nbdDevicePathRe_spec; eauto).
  rewrite device_base by done. apply PathJoin_plain; try done. by apply plain_nbd.
Qed.

(** Distinct devices have distinct reservations. *)
Lemma reservationPath_inj d1 d2 :
  nbdDevicePathRe d1 = true → nbdDevicePathRe d2 = true →
  deviceReservationPath d1 = deviceReservationPath d2 → d1 = d2.
Proof.
  intros (n1 & -> & ? & ?)%nbdDevicePathRe_spec (n2 & -> & ? & ?)%nbdDevicePathRe_spec.
  rewrite !reservationPath_eq by done. intros Heq.
  do 3 apply (inj _) in Heq. by subst.
Qed.

Lemma statePath_inj v1 v2 :
  plain v1 = true → plain v2 = true →
  volumeNBDStatePath v1 = volumeNBDStatePath v2 → v1 = v2.
Proof. intros ?? Heq. rewrite !statePath_eq in Heq by done. by do 2 apply (inj _) in Heq. Qed.

(** No state file of a volume is a reservation. *)
Lemma statePath_reservationPath v d :
  plain v = true → nbdDevicePathRe d = true → volumeNBDStatePath v ≠ deviceReservationPath d.
Proof.
  intros Hv (n & -> & Hn & Hd)%nbdDevicePathRe_spec.
  rewrite statePath_eq, reservationPath_eq by done. unfold nbdByDeviceDir.
  rewrite <- (assoc_L String.append). intros H. apply (inj _) in H.
  change ("/by-device" +:+ slash_s +:+ "nbd" +:+ n) with (slash_s +:+ "by-device/nbd" +:+ n) in H.
  apply (inj _) in H. subst. apply plain_no_slash in Hv. unfold no_slash in Hv.
  apply bool_decide_eq_true in Hv. apply Hv. rewrite bytes_app. apply elem_of_app. left.
  by apply (bool_decide_unpack (slash ∈ bytes "by-device/nbd")).
Qed.

End Nbd.
Export Nbd.
