(* ===== verification/NbdReserve.v ===== *)
(** * Correctness of the device reservations

    What [listNBDDevices], the state files and [reserveNBDDevice] of
    pkg/csi/nbd.go guarantee, and the invariant that keeps two volumes off one
    device. *)

From S2P Require Import Prelude GoStrings GoPath World Kube SimNode Nbd.

Local Open Scope Z_scope.

Module NbdReserve.

(** ** The list of devices *)

Definition number_le (d1 d2 : string) : Prop := device_number d1 ≤ device_number d2.

#[global] Instance number_le_trans : Transitive number_le.
Proof. intros d1 d2 d3. unfold number_le. lia. Qed.

Lemma sort_insert_perm less x l : sort_insert less x l ≡ₚ x :: l.
Proof.
  induction l as [|y l IH]; simpl; [done|]. case_match; [done|].
  rewrite IH. apply Permutation_swap.
Qed.

Lemma sort_insert_sorted x l :
  StronglySorted number_le l → StronglySorted number_le (sort_insert device_less x l).
Proof.
  induction 1 as [|y l Hl IH Hy]; simpl; [by repeat constructor|].
  unfold device_less at 1. case_bool_decide as Hxy.
  - constructor; [by constructor|]. constructor; [unfold number_le; lia|].
    eapply Forall_impl; [exact Hy|]. unfold number_le. simpl. intros; lia.
  - constructor; [done|]. rewrite sort_insert_perm. constructor; [unfold number_le; lia|done].
Qed.

Lemma sort_fold_perm less acc l :
  foldl (λ acc x, sort_insert less x acc) acc l ≡ₚ acc ++ l.
Proof.
  revert acc. induction l as [|x l IH]; intros acc; simpl; [by rewrite app_nil_r|].
  rewrite IH, sort_insert_perm. simpl. apply Permutation_middle.
Qed.

Lemma sort_Slice_perm less l : sort_Slice less l ≡ₚ l.
Proof. apply (sort_fold_perm less []). Qed.

Lemma sort_Slice_sorted l : StronglySorted number_le (sort_Slice device_less l).
Proof.
  unfold sort_Slice. assert (StronglySorted number_le []) as H by constructor.
  revert H. generalize (@nil string). induction l as [|x l IH]; intros acc Hacc; simpl; [done|].
  apply IH, sort_insert_sorted, Hacc.
Qed.

Lemma nbd_glob d : nbdDevicePathRe d = true → glob_match "/dev/nbd" d = true.
Proof.
  intros (n & -> & Hn & Hd)%nbdDevicePathRe_spec. unfold glob_match.
  rewrite HasPrefix_app, TrimPrefix_app. simpl. unfold no_slash. apply bool_decide_eq_true.
  intros Hs. apply all_digits_bytes in Hd. rewrite Forall_forall in Hd.
  by apply Hd, digit_ne_slash in Hs.
Qed.

Section list_devices.
Context `{E : !Environment}.

(** The devices the driver sees: the list it works with. *)
Definition devices (w : World) : list string :=
  sort_Slice device_less (filter (λ m, nbdDevicePathRe m = true) (glob "/dev/nbd" (w_sys w))).

Lemma listNBDDevices_eq w : listNBDDevices w = (inr (devices w), w).
Proof. done. Qed.

Lemma elem_of_devices w d :
  d ∈ devices w ↔ nbdDevicePathRe d = true ∧ is_Some (w_fs w !! d).
Proof.
  unfold devices, glob. rewrite sort_Slice_perm, list_elem_of_filter, merge_sort_Permutation.
  rewrite list_elem_of_filter, elem_of_elements, elem_of_dom. unfold w_fs.
  pose proof (nbd_glob d). tauto.
Qed.

Lemma devices_NoDup w : NoDup (devices w).
Proof.
  unfold devices, glob. rewrite sort_Slice_perm. apply NoDup_filter.
  rewrite merge_sort_Permutation. apply NoDup_filter, NoDup_elements.
Qed.

(** C32: listNBDDevices returns every /dev/nbd<number> of the file system once and
    nothing else, sorted by number; with distinct numbers that order is the only
    one. *)
Theorem listNBDDevices_spec w :
  ∃ devs, listNBDDevices w = (inr devs, w) ∧
    (∀ d, d ∈ devs ↔ nbdDevicePathRe d = true ∧ is_Some (w_fs w !! d)) ∧
    NoDup devs ∧ StronglySorted number_le devs ∧
    (∀ devs', devs' ≡ₚ devs → StronglySorted number_le devs' →
       NoDup (device_number <$> devs) → devs' = devs).
Proof.
  exists (devices w). split; [apply listNBDDevices_eq|]. split; [apply elem_of_devices|].
  split; [apply devices_NoDup|]. split; [apply sort_Slice_sorted|].
  intros devs' Hp Hs Hn. eapply StronglySorted_unique_strong; [|exact Hs|apply sort_Slice_sorted|done].
  intros x1 x2 Hx1 Hx2 H12 H21. rewrite Hp in Hx1.
  apply list_elem_of_lookup in Hx1 as [i Hi], Hx2 as [j Hj].
  assert (i = j) as ->; [|congruence].
  apply (NoDup_lookup _ i j (device_number x1) Hn); rewrite list_lookup_fmap.
  - by rewrite Hi.
  - rewrite Hj. simpl. f_equal. unfold number_le in *. lia.
Qed.

End list_devices.

(** ** Reading and writing the state files *)

(** The files under the run directory. *)
Definition in_run_dir (p : string) : Prop := HasPrefix p ZeroFSRunDir = true.

Lemma in_run_dir_app s : in_run_dir (ZeroFSRunDir +:+ s).
Proof. apply HasPrefix_app. Qed.

Lemma statePath_in_run v : plain v = true → in_run_dir (volumeNBDStatePath v).
Proof. intros. rewrite statePath_eq by done. apply in_run_dir_app. Qed.

Lemma reservationPath_in_run d : nbdDevicePathRe d = true → in_run_dir (deviceReservationPath d).
Proof.
  intros (n & -> & ? & ?)%nbdDevicePathRe_spec. rewrite reservationPath_eq by done.
  unfold nbdByDeviceDir. rewrite <- (assoc_L String.append). apply in_run_dir_app.
Qed.

Lemma append_longer s t : s +:+ t = s → t = EmptyString.
Proof. intros H. apply (inj (String.append s)). by rewrite H, append_nil_r. Qed.

(** The three directories are neither reservations nor state files. *)
Definition run_dirs : list string := ["/run"; ZeroFSRunDir; nbdByDeviceDir].

Lemma reservationPath_not_dir d : nbdDevicePathRe d = true → deviceReservationPath d ∉ run_dirs.
Proof.
  intros (n & -> & ? & ?)%nbdDevicePathRe_spec. rewrite reservationPath_eq by done.
  unfold run_dirs. rewrite !elem_of_cons, elem_of_nil. intros Heq. destruct_or! Heq; [done| | ].
  - change nbdByDeviceDir with (ZeroFSRunDir +:+ "/by-device") in Heq.
    rewrite <- (assoc_L String.append) in Heq. by apply append_longer in Heq.
  - by apply append_longer in Heq.
Qed.

Lemma statePath_not_dir v : good_volume v = true → volumeNBDStatePath v ∉ run_dirs.
Proof.
  intros Hv. rewrite statePath_eq by (by apply good_volume_plain).
  unfold run_dirs. rewrite !elem_of_cons, elem_of_nil. intros Heq. destruct_or! Heq; [done| | ].
  - by apply append_longer in Heq.
  - change nbdByDeviceDir with (ZeroFSRunDir +:+ slash_s +:+ "by-device") in Heq.
    do 2 apply (inj _) in Heq. subst. done.
Qed.

Lemma reservation_Dir d : nbdDevicePathRe d = true → Dir (deviceReservationPath d) = nbdByDeviceDir.
Proof.
  intros (n & -> & ? & ?)%nbdDevicePathRe_spec. rewrite reservationPath_eq by done.
  apply Dir_join; [done|done|by apply plain_nbd].
Qed.

Lemma state_Dir v : plain v = true → Dir (volumeNBDStatePath v) = ZeroFSRunDir.
Proof. intros. rewrite statePath_eq by done. by apply Dir_join. Qed.

Section reserve.
Context `{E : !Environment}.

(** A directory at [p]. *)
Definition is_dir (s : Sys ext) (p : string) : Prop := ∃ f, sys_fs s !! p = Some f ∧ f_dir f = true.

(** No directory at [p]: nothing, or a file. *)
Definition no_dir (s : Sys ext) (p : string) : Prop :=
  ∀ f, sys_fs s !! p = Some f → f_dir f = false.

Definition dirs_ready (s : Sys ext) : Prop :=
  is_dir s "/run" ∧ is_dir s ZeroFSRunDir ∧ is_dir s nbdByDeviceDir.

Lemma mkdir_one_dir p s : is_dir s p → mkdir_one p s = (None, s).
Proof. intros (f & Hf & Hd). unfold mkdir_one. by rewrite Hf, Hd. Qed.

Lemma mkdir_each_dirs ps s : (∀ p, p ∈ ps → is_dir s p) → mkdir_each ps s = (None, s).
Proof.
  induction ps as [|p ps IH]; intros H; [done|]. simpl.
  rewrite mkdir_one_dir by (apply H; by left). apply IH. intros q Hq. apply H. by right.
Qed.

Lemma run_dir_ancestors : ancestors [] (bytes ZeroFSRunDir) = ["/run"; ZeroFSRunDir].
Proof. by vm_compute. Qed.

Lemma by_device_ancestors :
  ancestors [] (bytes nbdByDeviceDir) = ["/run"; ZeroFSRunDir; nbdByDeviceDir].
Proof. by vm_compute. Qed.

(** With the directories in place, making them again changes nothing. *)
Lemma ensureRunDirs_ready s : dirs_ready s → runs ensureRunDirs s None s.
Proof.
  intros (H1 & H2 & H3). unfold ensureRunDirs.
  eapply runs_bind.
  { apply runs_emit_step. rewrite run_dir_ancestors. apply mkdir_each_dirs.
    intros p Hp. rewrite !elem_of_cons, elem_of_nil in Hp. by destruct_or! Hp; subst. }
  simpl. eapply runs_bind.
  { apply runs_emit_step. rewrite by_device_ancestors. apply mkdir_each_dirs.
    intros p Hp. rewrite !elem_of_cons, elem_of_nil in Hp. by destruct_or! Hp; subst. }
  apply runs_ret.
Qed.

(** A successful [ensureRunDirs] leaves the directories in place and the other
    files as they were. *)
Lemma ensureRunDirs_ok w w1 :
  ensureRunDirs w = (None, w1) →
  dirs_ready (w_sys w1) ∧
  (∀ p f, w_fs w !! p = Some f → w_fs w1 !! p = Some f) ∧
  (∀ p, p ∉ run_dirs → w_fs w1 !! p = w_fs w !! p).
Proof.
  unfold ensureRunDirs, bind. rewrite !os_MkdirAll_eq, run_dir_ancestors. cbv zeta.
  destruct (mkdir_each ["/run"; ZeroFSRunDir] (w_sys w)) as [[e|] s1] eqn:H1; [done|].
  cbn [fst snd w_sys w_trace]. rewrite !os_MkdirAll_eq, by_device_ancestors. cbv zeta.
  cbn [w_sys]. destruct (mkdir_each ["/run"; ZeroFSRunDir; nbdByDeviceDir] s1) as [[e|] s2] eqn:H2; [done|].
  cbn [ret fst snd]. intros [= <-]. unfold w_fs. cbn [w_sys].
  assert (s1 = (mkdir_each ["/run"; ZeroFSRunDir] (w_sys w)).2) as Hs1 by (by rewrite H1).
  assert (s2 = (mkdir_each run_dirs s1).2) as Hs2 by (unfold run_dirs; by rewrite H2).
  assert (∀ p, p ∈ run_dirs → is_dir s2 p) as Hd.
  { intros p Hp. rewrite Hs2. apply mkdir_each_ok; [unfold run_dirs; by rewrite H2|done]. }
  split; [|split].
  - unfold run_dirs in Hd. split; [|split]; apply Hd; rewrite !elem_of_cons; tauto.
  - intros p f Hp. rewrite Hs2. apply mkdir_each_keeps. rewrite Hs1. by apply mkdir_each_keeps.
  - intros p Hp. rewrite Hs2, mkdir_each_ne, Hs1, mkdir_each_ne; [done| |done].
    unfold run_dirs in Hp. rewrite !not_elem_of_cons in *. tauto.
Qed.

(** ** The scan *)

(** A reservation the scan may take: there is none, it is blank, its volume has no
    state file, or it is more than two hours old. *)
Definition claimable (s : Sys ext) (res : string) : bool :=
  match sys_fs s !! res with
  | None => true
  | Some f =>
      let vol := TrimSpace (f_data f) in
      bool_decide (vol = EmptyString) ||
      match stat_file (volumeNBDStatePath vol) s with inl e => IsNotExist e | inr _ => false end ||
      bool_decide (2 * hour < env_now (sys_ext s) - f_mtime f)
  end.

Definition connection (s : Sys ext) (d : string) : conn_error + bool :=
  (isNBDConnected d (mkWorld s [])).1.

(** A device the driver may use: known to be disconnected, and claimable. *)
Definition dev_free (s : Sys ext) (d : string) : bool :=
  match connection s d with inr false => claimable s (deviceReservationPath d) | _ => false end.

Lemma isNBDConnected_runs s d : runs (isNBDConnected d) s (connection s d) s.
Proof.
  intros w <-. unfold connection, isNBDConnected, bind, os_ReadFile, sys_read.
  cbn [fst snd w_sys]. destruct (read_file _ (w_sys w)) as [e|b]; [done|].
  by destruct (Atoi (TrimSpace b)) as [pid [e|]].
Qed.

Context `{H : !Healthy in_run_dir}.

Lemma read_file_healthy p s f :
  in_run_dir p → sys_fs s !! p = Some f → f_dir f = false → read_file p s = inr (f_data f).
Proof. intros Hp Hf Hd. unfold read_file. by rewrite healthy, Hf, Hd by done. Qed.

Lemma stat_file_healthy p s :
  in_run_dir p →
  stat_file p s = match sys_fs s !! p with Some f => inr (f_mtime f) | None => inl (mkPathError "stat" p ENOENT) end.
Proof. intros Hp. unfold stat_file. by rewrite healthy. Qed.

Lemma remove_file_healthy p s :
  in_run_dir p → no_dir s p → is_Some (sys_fs s !! p) → remove_file p s = (None, set_file p None s).
Proof. intros Hp Hn [f Hf]. unfold remove_file. by rewrite healthy, Hf, (Hn f) by done. Qed.

(** Garbage collection removes exactly the claimable reservations. *)
Lemma gcReservation_runs res s :
  in_run_dir res → no_dir s res →
  runs (gcReservation res) s tt
    (if claimable s res && bool_decide (is_Some (sys_fs s !! res)) then set_file res None s else s).
Proof.
  intros Hr Hn. unfold gcReservation, claimable.
  eapply runs_bind; [by apply runs_read|]. rewrite stat_file_healthy by done.
  destruct (sys_fs s !! res) as [f|] eqn:Hf; [|apply runs_ret].
  rewrite (bool_decide_eq_true_2 (is_Some (Some f))) by eauto. rewrite andb_true_r.
  assert (Hrm : runs (run os_Remove res; ret tt) s tt (set_file res None s)).
  { eapply runs_bind; [|apply runs_ret]. apply runs_emit_step.
    apply remove_file_healthy; [done|done|by rewrite Hf]. }
  eapply runs_bind.
  { unfold mustReadFile. eapply runs_bind; [by apply runs_read|].
    erewrite read_file_healthy by (eauto). apply runs_ret. }
  cbv zeta beta. case_decide as Hb; [by rewrite bool_decide_eq_true_2|].
  rewrite bool_decide_eq_false_2 by done. simpl.
  eapply runs_bind; [by apply runs_read|].
  destruct (match stat_file _ s with inl e => IsNotExist e | inr _ => false end); simpl; [done|].
  eapply runs_bind; [by apply runs_read|].
  case_decide; [by rewrite bool_decide_eq_true_2|].
  rewrite bool_decide_eq_false_2 by done. apply runs_ret.
Qed.

Lemma dirs_ready_set p f s : p ∉ run_dirs → dirs_ready s → dirs_ready (set_file p f s).
Proof.
  unfold run_dirs. rewrite !not_elem_of_cons. intros (? & ? & ? & _) (? & ? & ?).
  unfold dirs_ready, is_dir in *. by rewrite !set_file_ne by done.
Qed.

Lemma parent_dir_ok p d s : Dir p = d → is_dir s d → parent_is_dir (sys_fs s) p = true.
Proof. intros Hp (f & Hf & Hd). unfold parent_is_dir. by rewrite Hp, Hf. Qed.

(** Creating the reservation and writing the volume's name to it. *)
Lemma take_reservation_runs d v s :
  nbdDevicePathRe d = true → dirs_ready s → sys_fs s !! deviceReservationPath d = None →
  ∃ s1 t, runs (os_OpenExcl (deviceReservationPath d)) s None s1 ∧
    runs (f_WriteString (deviceReservationPath d) v) s1 tt
      (set_file (deviceReservationPath d) (Some (mkFile v false t)) s1) ∧
    ∀ q, q ≠ deviceReservationPath d → sys_fs s1 !! q = sys_fs s !! q.
Proof.
  intros Hd (_ & _ & Hdir) Hnone. set (res := deviceReservationPath d) in *.
  assert (in_run_dir res) as Hr by (by apply reservationPath_in_run).
  exists (set_file res (Some (mkFile EmptyString false (env_now (sys_ext s)))) s). eexists. split; [|split].
  - apply runs_emit_step. unfold create_excl. rewrite healthy, Hnone by done.
    by rewrite (parent_dir_ok res nbdByDeviceDir) by (done || by apply reservation_Dir).
  - apply runs_emit_step. unfold append_file. rewrite healthy, set_file_eq by done. done.
  - intros q Hq. by apply set_file_ne.
Qed.

Lemma writeVolumeNBDState_runs v d s :
  good_volume v = true → dirs_ready s → no_dir s (volumeNBDStatePath v) →
  ∃ t, runs (writeVolumeNBDState v d) s None
    (set_file (volumeNBDStatePath v) (Some (mkFile (TrimSpace d) false t)) s).
Proof.
  intros Hv Hs Hn. eexists. unfold writeVolumeNBDState.
  eapply runs_bind; [by apply ensureRunDirs_ready|]. simpl.
  apply runs_emit_step. unfold write_file.
  rewrite healthy by (by apply statePath_in_run, good_volume_plain).
  destruct (sys_fs s !! volumeNBDStatePath v) as [f|] eqn:Hf; [by rewrite (Hn f)|].
  rewrite (parent_dir_ok _ ZeroFSRunDir); [done|by apply state_Dir, good_volume_plain|apply Hs].
Qed.

(** What a reservation of device [d] for volume [v] makes of the files. *)
Definition reserved (v d : string) (s s' : Sys ext) : Prop :=
  (∃ t, sys_fs s' !! volumeNBDStatePath v = Some (mkFile d false t)) ∧
  (∃ t, sys_fs s' !! deviceReservationPath d = Some (mkFile v false t)) ∧
  ∀ q, q ≠ volumeNBDStatePath v → q ≠ deviceReservationPath d → sys_fs s' !! q = sys_fs s !! q.

Lemma claim_runs v d rest s :
  good_volume v = true → nbdDevicePathRe d = true → dirs_ready s →
  no_dir s (volumeNBDStatePath v) → no_dir s (deviceReservationPath d) → dev_free s d = true →
  ∃ s', runs (reserveScan v (d :: rest)) s (inr d) s' ∧ reserved v d s s'.
Proof.
  intros Hv Hd Hs Hnv Hnd Hfree. unfold dev_free in Hfree.
  destruct (connection s d) as [e|[]] eqn:Hc; [done|done|].
  set (res := deviceReservationPath d) in *. set (stp := volumeNBDStatePath v) in *.
  assert (stp ≠ res) as Hne by (apply statePath_reservationPath; [by apply good_volume_plain|done]).
  pose proof (gcReservation_runs res s (reservationPath_in_run d Hd) Hnd) as Hgc.
  rewrite Hfree in Hgc. simpl in Hgc. set (s1 := if bool_decide _ then _ else s) in Hgc.
  assert (sys_fs s1 !! res = None ∧ (∀ q, q ≠ res → sys_fs s1 !! q = sys_fs s !! q) ∧ dirs_ready s1)
    as (Hnone & Hsame & Hs1).
  { unfold s1. case_bool_decide as Hex.
    - rewrite set_file_eq. split; [done|]. split; [intros; by apply set_file_ne|].
      apply dirs_ready_set; [by apply reservationPath_not_dir|done].
    - split; [by apply eq_None_not_Some|done]. }
  destruct (take_reservation_runs d v s1 Hd Hs1 Hnone) as (s2 & t & Hopen & Hwr & Hsame2).
  fold res in Hopen, Hwr, Hsame2. set (s3 := set_file res _ s2) in Hwr.
  assert (∀ q, q ≠ res → sys_fs s3 !! q = sys_fs s !! q) as Hsame3.
  { intros q Hq. unfold s3. rewrite set_file_ne by done. by rewrite Hsame2, Hsame. }
  assert (dirs_ready s3) as Hs3.
  { pose proof (reservationPath_not_dir d Hd) as Hnot. fold res in Hnot. unfold run_dirs in Hnot.
    rewrite !not_elem_of_cons in Hnot. destruct Hnot as (? & ? & ? & _).
    unfold dirs_ready, is_dir. by rewrite !Hsame3 by done. }
  destruct (writeVolumeNBDState_runs v d s3 Hv Hs3) as [t' Hw].
  { unfold no_dir. fold stp. by rewrite Hsame3. }
  rewrite device_trim in Hw by done. fold stp in Hw.
  exists (set_file stp (Some (mkFile d false t')) s3). split.
  - cbn [reserveScan]. eapply runs_bind; [apply isNBDConnected_runs|]. rewrite Hc. cbv zeta.
    eapply runs_bind; [exact Hgc|]. eapply runs_bind; [exact Hopen|]. simpl.
    eapply runs_bind; [exact Hwr|]. eapply runs_bind; [exact Hw|]. apply runs_ret.
  - split; [|split].
    + eexists. apply set_file_eq.
    + eexists. fold res. rewrite set_file_ne by done. unfold s3. apply set_file_eq.
    + intros q Hq1 Hq2. rewrite set_file_ne by done. by apply Hsame3.
Qed.

(** A device that is not free is skipped and nothing changes. *)
Lemma skip_runs v d rest s r s' :
  nbdDevicePathRe d = true → no_dir s (deviceReservationPath d) → dev_free s d = false →
  runs (reserveScan v rest) s r s' → runs (reserveScan v (d :: rest)) s r s'.
Proof.
  intros Hd Hnd Hfree Hrest. unfold dev_free in Hfree. cbn [reserveScan].
  eapply runs_bind; [apply isNBDConnected_runs|].
  destruct (connection s d) as [e|[]] eqn:Hc; [done|done|]. cbv zeta.
  pose proof (gcReservation_runs _ s (reservationPath_in_run d Hd) Hnd) as Hgc.
  rewrite Hfree in Hgc. eapply runs_bind; [exact Hgc|]. simpl.
  eapply runs_bind.
  { apply runs_emit_step. unfold create_excl.
    unfold claimable in Hfree. destruct (sys_fs s !! deviceReservationPath d); [|done].
    by rewrite healthy by (by apply reservationPath_in_run). }
  exact Hrest.
Qed.

(** The scan takes the first free device. *)
Lemma reserveScan_runs v devs s :
  good_volume v = true → dirs_ready s → no_dir s (volumeNBDStatePath v) →
  (∀ d, d ∈ devs → nbdDevicePathRe d = true ∧ no_dir s (deviceReservationPath d)) →
  match List.find (dev_free s) devs with
  | Some d => ∃ s', runs (reserveScan v devs) s (inr d) s' ∧ reserved v d s s'
  | None => runs (reserveScan v devs) s (inl "no free /dev/nbd* devices available") s
  end.
Proof.
  intros Hv Hs Hnv. induction devs as [|d devs IH]; intros Hdevs; [apply runs_ret|].
  destruct (Hdevs d) as [Hd Hnd]; [by left|]. cbn [List.find].
  destruct (dev_free s d) eqn:Hfree; [by apply claim_runs|].
  assert (∀ d, d ∈ devs → nbdDevicePathRe d = true ∧ no_dir s (deviceReservationPath d)) as Hdevs'
    by (intros d' ?; apply Hdevs; by right).
  specialize (IH Hdevs'). destruct (List.find (dev_free s) devs).
  - destruct IH as (s' & Hr & Hres). exists s'. split; [by apply skip_runs|done].
  - by apply skip_runs.
Qed.

(** The run directory holds no directory but its own. *)
Definition tidy (s : Sys ext) : Prop :=
  ∀ p f, in_run_dir p → sys_fs s !! p = Some f → f_dir f = true → p ∈ run_dirs.

Lemma tidy_no_dir s p : tidy s → in_run_dir p → p ∉ run_dirs → no_dir s p.
Proof. intros Ht Hp Hn f Hf. destruct (f_dir f) eqn:Hd; [|done]. by destruct Hn; eapply Ht. Qed.

Lemma tidy_no_dir_state s v : tidy s → good_volume v = true → no_dir s (volumeNBDStatePath v).
Proof.
  intros Ht Hv. apply tidy_no_dir; [done| |by apply statePath_not_dir].
  by apply statePath_in_run, good_volume_plain.
Qed.

Lemma tidy_no_dir_reservation s d : tidy s → nbdDevicePathRe d = true → no_dir s (deviceReservationPath d).
Proof. intros. apply tidy_no_dir; auto using reservationPath_in_run, reservationPath_not_dir. Qed.

Definition devices_of (s : Sys ext) : list string := devices (mkWorld s []).

(** [reserveFresh] takes the first free device in the order of the numbers. *)
Lemma reserveFresh_runs v s :
  good_volume v = true → dirs_ready s → tidy s →
  match List.find (dev_free s) (devices_of s) with
  | Some d => ∃ s', runs (reserveFresh v) s (inr d) s' ∧ reserved v d s s'
  | None => ∃ msg, runs (reserveFresh v) s (inl msg) s
  end.
Proof.
  intros Hv Hs Ht.
  assert (Hlist : runs listNBDDevices s (inr (devices_of s)) s).
  { intros w <-. by rewrite listNBDDevices_eq. }
  pose proof (reserveScan_runs v (devices_of s) s Hv Hs (tidy_no_dir_state s v Ht Hv)) as Hscan.
  destruct (devices_of s) as [|d0 ds] eqn:Hdevs.
  - eexists. eapply runs_bind; [exact Hlist|]. apply runs_ret.
  - rewrite <- Hdevs in *. destruct (List.find (dev_free s) (devices_of s)) as [d|].
    + destruct Hscan as (s' & Hr & Hres).
      { intros d' Hd'. apply elem_of_devices in Hd' as [Hre _].
        auto using tidy_no_dir_reservation. }
      exists s'. split; [|done]. eapply runs_bind; [exact Hlist|].
      rewrite Hdevs in *. exact Hr.
    + eexists. eapply runs_bind; [exact Hlist|]. rewrite Hdevs in *. apply Hscan.
      intros d' Hd'. rewrite <- Hdevs in Hd'. apply elem_of_devices in Hd' as [Hre _].
      auto using tidy_no_dir_reservation.
Qed.

(** ** What a state file says *)

Definition holds (s : Sys ext) (v d : string) : Prop :=
  ∃ f, sys_fs s !! volumeNBDStatePath v = Some f ∧ f_dir f = false ∧ TrimSpace (f_data f) = d ∧ d ≠ EmptyString.

Lemma readVolumeNBDState_runs v s :
  good_volume v = true →
  ∃ r, runs (readVolumeNBDState v) s r s ∧ ∀ d, r = Some d ↔ holds s v d.
Proof.
  intros Hv. unfold readVolumeNBDState.
  assert (in_run_dir (volumeNBDStatePath v)) as Hp by (by apply statePath_in_run, good_volume_plain).
  destruct (sys_fs s !! volumeNBDStatePath v) as [f|] eqn:Hf.
  - destruct (f_dir f) eqn:Hd.
    + exists None. split.
      * eapply runs_bind; [by apply runs_read|]. unfold read_file. rewrite healthy, Hf, Hd by done.
        apply runs_ret.
      * intros d. unfold holds. split; [done|]. intros (f' & Hf' & Hd' & _). congruence.
    + exists (if decide (TrimSpace (f_data f) = EmptyString) then None else Some (TrimSpace (f_data f))). split.
      * eapply runs_bind; [by apply runs_read|]. erewrite read_file_healthy by eauto. apply runs_ret.
      * intros d. unfold holds. case_decide as Hb; split; intros Hx; simplify_eq.
        -- destruct Hx as (f' & Hf' & _ & <- & Hne). congruence.
        -- eauto.
        -- destruct Hx as (f' & Hf' & _ & <- & Hne). congruence.
  - exists None. split.
    + eapply runs_bind; [by apply runs_read|]. unfold read_file. rewrite healthy, Hf by done. apply runs_ret.
    + intros d. split; [done|]. intros (f & Hf' & _). congruence.
Qed.

(** Clearing removes the state file and the reservation, and nothing else. *)
Lemma clearVolumeNBDState_runs v d s :
  good_volume v = true → nbdDevicePathRe d = true → tidy s →
  ∃ s', runs (clearVolumeNBDState v d) s tt s' ∧ sys_ext s' = sys_ext s ∧
    sys_fs s' !! volumeNBDStatePath v = None ∧ sys_fs s' !! deviceReservationPath d = None ∧
    ∀ q, q ≠ volumeNBDStatePath v → q ≠ deviceReservationPath d → sys_fs s' !! q = sys_fs s !! q.
Proof.
  intros Hv Hd Ht. unfold clearVolumeNBDState.
  set (stp := volumeNBDStatePath v). set (res := deviceReservationPath d).
  assert (stp ≠ res) as Hne by (apply statePath_reservationPath; [by apply good_volume_plain|done]).
  assert (Hrm : ∀ p s, in_run_dir p → no_dir s p →
    ∃ r s', runs (os_Remove p) s r s' ∧ sys_ext s' = sys_ext s ∧ sys_fs s' !! p = None ∧ ∀ q, q ≠ p → sys_fs s' !! q = sys_fs s !! q).
  { intros p s0 Hp Hn. destruct (sys_fs s0 !! p) as [f|] eqn:Hf.
    - exists None, (set_file p None s0). split.
      + apply runs_emit_step. by apply remove_file_healthy.
      + split; [done|]. split; [apply set_file_eq|]. intros. by apply set_file_ne.
    - eexists _, s0. split; [|done]. apply runs_emit_step. unfold remove_file. by rewrite healthy, Hf. }
  destruct (Hrm stp s) as (r1 & s1 & Hr1 & He1 & Hn1 & Hs1).
  { by apply statePath_in_run, good_volume_plain. } { by apply tidy_no_dir_state. }
  destruct (Hrm res s1) as (r2 & s2 & Hr2 & He2 & Hn2 & Hs2).
  { by apply reservationPath_in_run. }
  { unfold no_dir. rewrite Hs1 by done. by apply tidy_no_dir_reservation. }
  exists s2. split; [|split; [|split; [|split]]].
  - eapply runs_bind; [exact Hr1|]. rewrite decide_False by (by intros ->).
    eapply runs_bind; [exact Hr2|]. apply runs_ret.
  - congruence.
  - by rewrite Hs2.
  - done.
  - intros q Hq1 Hq2. by rewrite Hs2, Hs1.
Qed.

(** ** The reservation as a whole *)

Lemma ensureRunDirs_tidy w w1 : ensureRunDirs w = (None, w1) → tidy (w_sys w) → tidy (w_sys w1).
Proof.
  intros Hok Ht p f Hp Hf Hd. destruct (ensureRunDirs_ok w w1 Hok) as (_ & _ & Hsame).
  destruct (decide (p ∈ run_dirs)) as [|Hn]; [done|].
  eapply Ht; [done| |done]. unfold w_fs in Hsame. by rewrite <- Hsame.
Qed.

Lemma reserveNBDDevice_eq w w1 v :
  ensureRunDirs w = (None, w1) → reserveNBDDevice v w = reserveInDirs v w1.
Proof. intros Hok. unfold reserveNBDDevice, bind. by rewrite Hok. Qed.

(** With no state file the reservation is a fresh one. *)
Lemma reserveInDirs_none v s r s' :
  runs (readVolumeNBDState v) s None s → runs (reserveFresh v) s r s' → runs (reserveInDirs v) s r s'.
Proof. intros. by eapply runs_bind. Qed.

(** C6: Once reserveNBDDevice has made the run directories (the world w1), and when
    input and output in them does not fail (Healthy), the volume's name is a good
    file name, the run directory holds no directory but its own and the volume holds
    no device: it returns the first device in numerical order that is disconnected
    and whose reservation is absent or stale, and from w1 on it changes exactly that
    device's reservation, which then names the volume, and the volume's state file,
    which then names the device; when no device is free it fails and changes nothing
    from w1 on. *)
Theorem reserve_takes_first_free w w1 v :
  good_volume v = true → tidy (w_sys w) → ensureRunDirs w = (None, w1) →
  (∀ d, ¬ holds (w_sys w1) v d) →
  match List.find (dev_free (w_sys w1)) (devices w1) with
  | Some d =>
      (reserveNBDDevice v w).1 = inr d ∧
      reserved v d (w_sys w1) (w_sys (reserveNBDDevice v w).2)
  | None =>
      (∃ msg, (reserveNBDDevice v w).1 = inl msg) ∧
      w_sys (reserveNBDDevice v w).2 = w_sys w1
  end.
Proof.
  intros Hv Ht Hok Hnone. rewrite (reserveNBDDevice_eq w w1) by done.
  pose proof (ensureRunDirs_tidy w w1 Hok Ht) as Ht1.
  destruct (ensureRunDirs_ok w w1 Hok) as (Hs1 & _ & _).
  destruct (readVolumeNBDState_runs v (w_sys w1) Hv) as (r & Hread & Hr).
  destruct r as [d|]; [by edestruct Hnone; apply Hr|].
  pose proof (reserveFresh_runs v (w_sys w1) Hv Hs1 Ht1) as Hfresh.
  unfold devices_of, devices in Hfresh. cbn [w_sys] in Hfresh. fold (devices w1) in Hfresh.
  destruct (List.find _ _) as [d|].
  - destruct Hfresh as (s' & Hrun & Hres).
    pose proof (reserveInDirs_none _ _ _ _ Hread Hrun) as Hall.
    split; [by apply runs_result in Hall|]. by rewrite (runs_sys _ _ _ _ Hall).
  - destruct Hfresh as (msg & Hrun).
    pose proof (reserveInDirs_none _ _ _ _ Hread Hrun) as Hall.
    split; [exists msg; by apply runs_result in Hall|by apply runs_sys in Hall].
Qed.

(** ** No two volumes on one device *)

(** Every device a volume's state file names is reserved for that volume. *)
Definition backed (s : Sys ext) : Prop :=
  ∀ v d, good_volume v = true → holds s v d →
    nbdDevicePathRe d = true ∧
    ∃ f, sys_fs s !! deviceReservationPath d = Some f ∧ f_dir f = false ∧ f_data f = v.

Definition exclusive (s : Sys ext) : Prop :=
  ∀ v1 v2 d, good_volume v1 = true → good_volume v2 = true → holds s v1 d → holds s v2 d → v1 = v2.

Lemma backed_exclusive s : backed s → exclusive s.
Proof.
  intros Hb v1 v2 d H1 H2 Hh1 Hh2.
  destruct (Hb v1 d H1 Hh1) as (_ & f1 & Hf1 & _ & <-).
  destruct (Hb v2 d H2 Hh2) as (_ & f2 & Hf2 & _ & <-). congruence.
Qed.

(** No reservation of a volume that has a state file is older than two hours while
    its device is disconnected. *)
Definition unexpired (s : Sys ext) : Prop :=
  ∀ v d f, good_volume v = true → holds s v d → sys_fs s !! deviceReservationPath d = Some f →
    connection s d = inr false → env_now (sys_ext s) - f_mtime f ≤ 2 * hour.

Lemma holds_frame s s' v d :
  sys_fs s' !! volumeNBDStatePath v = sys_fs s !! volumeNBDStatePath v → holds s' v d ↔ holds s v d.
Proof. unfold holds. by intros ->. Qed.

(** A device some volume uses is not free. *)
Lemma held_not_free s v d :
  backed s → unexpired s → good_volume v = true → holds s v d → dev_free s d = false.
Proof.
  intros Hb Hu Hv Hh. destruct (Hb v d Hv Hh) as (Hd & f & Hf & Hdir & Hdata).
  unfold dev_free. destruct (connection s d) as [e|[]] eqn:Hc; [done|done|].
  unfold claimable. rewrite Hf, Hdata, good_volume_trim by done.
  rewrite bool_decide_eq_false_2 by (by apply good_volume_nonempty). simpl.
  rewrite stat_file_healthy by (by apply statePath_in_run, good_volume_plain).
  pose proof (Hu v d f Hv Hh Hf Hc). destruct Hh as (fs & -> & _). simpl.
  apply bool_decide_eq_false. lia.
Qed.

(** A reservation of a device nobody uses keeps the devices apart. *)
Lemma reserved_backed s s' v d :
  good_volume v = true → nbdDevicePathRe d = true → backed s → reserved v d s s' →
  (∀ v', good_volume v' = true → v' ≠ v → ¬ holds s v' d) → backed s'.
Proof.
  intros Hv Hd Hb ([t Hst] & [t' Hres] & Hsame) Hother v' d' Hv' Hh.
  destruct (decide (v' = v)) as [->|Hne].
  - destruct Hh as (f & Hf & _ & <- & _). rewrite Hst in Hf. simplify_eq/=.
    rewrite device_trim by done. split; [done|]. eexists. split; [exact Hres|done].
  - assert (holds s v' d') as Hh'.
    { eapply holds_frame; [|exact Hh]. symmetry. apply Hsame.
      - intros Heq. apply Hne. by apply statePath_inj in Heq; [|apply good_volume_plain..].
      - apply statePath_reservationPath; [by apply good_volume_plain|done]. }
    destruct (Hb v' d' Hv' Hh') as (Hd' & f & Hf & Hdir & Hdata). split; [done|].
    exists f. split; [|done]. rewrite Hsame; [done| |].
    + intros Heq. by apply (statePath_reservationPath v d' (good_volume_plain v Hv) Hd').
    + intros Heq. apply reservationPath_inj in Heq; [|done..]. subst. by eapply Hother.
Qed.

(** Clearing a volume's own device keeps the devices apart. *)
Lemma cleared_backed s s' v d :
  good_volume v = true → nbdDevicePathRe d = true → backed s → holds s v d →
  sys_fs s' !! volumeNBDStatePath v = None →
  (∀ q, q ≠ volumeNBDStatePath v → q ≠ deviceReservationPath d → sys_fs s' !! q = sys_fs s !! q) →
  backed s'.
Proof.
  intros Hv Hd Hb Hh Hnone Hsame v' d' Hv' Hh'.
  destruct (decide (v' = v)) as [->|Hne].
  { destruct Hh' as (f & Hf & _). congruence. }
  assert (holds s v' d') as Hold.
  { eapply holds_frame; [|exact Hh']. symmetry. apply Hsame.
    - intros Heq. apply Hne. by apply statePath_inj in Heq; [|apply good_volume_plain..].
    - apply statePath_reservationPath; [by apply good_volume_plain|done]. }
  destruct (Hb v' d' Hv' Hold) as (Hd' & f & Hf & Hdir & Hdata). split; [done|].
  exists f. split; [|done]. rewrite Hsame; [done| |].
  - intros Heq. by apply (statePath_reservationPath v d' (good_volume_plain v Hv) Hd').
  - intros Heq. apply reservationPath_inj in Heq; [|done..]. subst.
    apply Hne. by eapply backed_exclusive.
Qed.

(** Making the run directories, even when it fails half way, adds directories only. *)
Lemma ensureRunDirs_files w p f :
  f_dir f = false → w_fs (ensureRunDirs w).2 !! p = Some f ↔ w_fs w !! p = Some f.
Proof.
  intros Hd.
  assert (∃ l1 l2, w_sys (ensureRunDirs w).2 = (mkdir_each l2 (mkdir_each l1 (w_sys w)).2).2) as (l1 & l2 & Heq).
  { unfold ensureRunDirs, bind. rewrite os_MkdirAll_eq, run_dir_ancestors. cbv zeta.
    exists ["/run"; ZeroFSRunDir].
    destruct (mkdir_each ["/run"; ZeroFSRunDir] (w_sys w)) as [[e|] s1]; [by exists []|].
    cbn [fst snd w_sys w_trace]. rewrite os_MkdirAll_eq, by_device_ancestors. cbv zeta. cbn [w_sys].
    exists ["/run"; ZeroFSRunDir; nbdByDeviceDir]. by destruct (mkdir_each _ s1) as [[e|] s2]. }
  unfold w_fs. rewrite Heq. split.
  - intros [Hq|]%mkdir_each_new; [|congruence]. apply mkdir_each_new in Hq as [|]; congruence.
  - intros Hq. by do 2 apply mkdir_each_keeps.
Qed.

Lemma backed_same_files s s' :
  (∀ p f, f_dir f = false → sys_fs s' !! p = Some f ↔ sys_fs s !! p = Some f) → backed s → backed s'.
Proof.
  intros Hsame Hb v d Hv (f & Hf & Hdir & Hd).
  destruct (Hb v d Hv) as (Hre & g & Hg & Hgd & Hdata).
  { exists f. by rewrite <- Hsame. }
  split; [done|]. exists g. by rewrite Hsame.
Qed.

(** The connection state of a device does not depend on the state files. *)
Lemma pid_path_not_run n :
  all_digits n = true → ¬ in_run_dir (PathJoin ["/sys/block"; "nbd" +:+ n; "pid"]).
Proof. intros Hn. rewrite PathJoin_plain3 by (done || by apply plain_nbd). done. Qed.

Lemma connection_frame s s' d :
  nbdDevicePathRe d = true → sys_ext s' = sys_ext s →
  (∀ q, ¬ in_run_dir q → sys_fs s' !! q = sys_fs s !! q) → connection s' d = connection s d.
Proof.
  intros Hd Hext Hfs. pose proof Hd as (n & -> & Hn & Hdig)%nbdDevicePathRe_spec.
  unfold connection, isNBDConnected, bind, os_ReadFile, sys_read. cbn [fst snd w_sys].
  rewrite device_trim, device_base by done.
  assert (read_file (PathJoin ["/sys/block"; "nbd" +:+ n; "pid"]) s' =
          read_file (PathJoin ["/sys/block"; "nbd" +:+ n; "pid"]) s) as ->.
  { unfold read_file. rewrite Hext, Hfs by (by apply pid_path_not_run). done. }
  destruct (read_file _ s) as [e|b]; [done|]. by destruct (Atoi (TrimSpace b)) as [pid [e|]].
Qed.

(** A fresh reservation keeps the devices apart. *)
Lemma reserveFresh_backed v s w :
  good_volume v = true → dirs_ready s → tidy s → backed s → unexpired s →
  w_sys w = s → backed (w_sys (reserveFresh v w).2).
Proof.
  intros Hv Hs Ht Hb Hu <-. pose proof (reserveFresh_runs v (w_sys w) Hv Hs Ht) as Hfresh.
  destruct (List.find _ _) as [d|] eqn:Hfind.
  - destruct Hfresh as (s' & Hrun & Hres). rewrite (runs_sys _ _ _ _ Hrun).
    apply find_some in Hfind as [Hin Hfree]. apply list_elem_of_In, elem_of_devices in Hin as [Hd _].
    eapply reserved_backed; [done|done|done|done|].
    intros v' Hv' _ Hh. pose proof (held_not_free _ _ _ Hb Hu Hv' Hh). congruence.
  - destruct Hfresh as (msg & Hrun). by rewrite (runs_sys _ _ _ _ Hrun).
Qed.

(** What is left after a volume's own device is cleared. *)
Definition cleared (v d : string) (s s' : Sys ext) : Prop :=
  sys_ext s' = sys_ext s ∧ sys_fs s' !! volumeNBDStatePath v = None ∧
  sys_fs s' !! deviceReservationPath d = None ∧
  ∀ q, q ≠ volumeNBDStatePath v → q ≠ deviceReservationPath d → sys_fs s' !! q = sys_fs s !! q.

Lemma cleared_sub v d s s' p f : cleared v d s s' → sys_fs s' !! p = Some f → sys_fs s !! p = Some f.
Proof.
  intros (_ & Hn1 & Hn2 & Hsame) Hf.
  destruct (decide (p = volumeNBDStatePath v)) as [->|]; [congruence|].
  destruct (decide (p = deviceReservationPath d)) as [->|]; [congruence|]. by rewrite <- Hsame.
Qed.

Lemma cleared_outside v d s s' q :
  good_volume v = true → nbdDevicePathRe d = true → cleared v d s s' →
  ¬ in_run_dir q → sys_fs s' !! q = sys_fs s !! q.
Proof.
  intros Hv Hd (_ & _ & _ & Hsame) Hq. apply Hsame; intros ->; apply Hq.
  - by apply statePath_in_run, good_volume_plain.
  - by apply reservationPath_in_run.
Qed.

Lemma cleared_tidy v d s s' : cleared v d s s' → tidy s → tidy s'.
Proof. intros Hc Ht p f Hp Hf. apply Ht; [done|]. by eapply cleared_sub. Qed.

Lemma cleared_dirs v d s s' :
  good_volume v = true → nbdDevicePathRe d = true → cleared v d s s' → dirs_ready s → dirs_ready s'.
Proof.
  intros Hv Hd (_ & _ & _ & Hsame) (H1 & H2 & H3).
  pose proof (statePath_not_dir v Hv) as Hnv. pose proof (reservationPath_not_dir d Hd) as Hnd.
  unfold run_dirs in *. rewrite !not_elem_of_cons in *.
  destruct Hnv as (? & ? & ? & _), Hnd as (? & ? & ? & _).
  unfold dirs_ready, is_dir. by rewrite !Hsame by done.
Qed.

Lemma cleared_holds v d s s' v' d' :
  good_volume v' = true → cleared v d s s' → holds s' v' d' → holds s v' d'.
Proof. intros Hv' Hc (f & Hf & Hrest). exists f. split; [by eapply cleared_sub|done]. Qed.

Lemma cleared_unexpired v d s s' :
  good_volume v = true → nbdDevicePathRe d = true → backed s → cleared v d s s' → unexpired s → unexpired s'.
Proof.
  intros Hv Hd Hb Hc Hu v' d' f Hv' Hh Hf Hconn.
  apply (cleared_holds v d s) in Hh; [|done..]. apply (cleared_sub v d s) in Hf; [|done].
  destruct (Hb v' d' Hv' Hh) as [Hd' _].
  rewrite (connection_frame s) in Hconn; [| done | apply Hc | intros; by apply (cleared_outside v d)].
  destruct Hc as (-> & _). by eapply Hu.
Qed.

Lemma reserve_backed w v :
  good_volume v = true → tidy (w_sys w) → backed (w_sys w) →
  unexpired (w_sys (ensureRunDirs w).2) → backed (w_sys (reserveNBDDevice v w).2).
Proof.
  intros Hv Ht Hb Hu.
  pose proof (backed_same_files _ _ (ensureRunDirs_files w) Hb) as Hb1.
  destruct (ensureRunDirs w) as [[e|] w1] eqn:Hdirs; cbn [fst snd] in *.
  { unfold reserveNBDDevice, bind. by rewrite Hdirs. }
  rewrite (reserveNBDDevice_eq w w1) by done. clear Hb.
  apply (ensureRunDirs_tidy w w1 Hdirs) in Ht as Ht1.
  destruct (ensureRunDirs_ok w w1 Hdirs) as (Hs1 & _ & _).
  destruct (readVolumeNBDState_runs v (w_sys w1) Hv) as (r & Hread & Hr).
  destruct (Hread w1 eq_refl) as [Hres Hsys].
  unfold reserveInDirs, bind at 1. cbv zeta. rewrite Hres.
  generalize dependent (readVolumeNBDState v w1).2. intros w2 Hsys. rewrite <- Hsys in *. clear Hread.
  destruct r as [d|]; [|by apply (reserveFresh_backed v (w_sys w2))].
  assert (holds (w_sys w2) v d) as Hh by (by apply Hr).
  destruct (Hb1 v d Hv Hh) as (Hd & f & Hf & Hdir & Hdata).
  unfold bind at 1, os_Stat, sys_read. cbv zeta. cbn [fst snd].
  destruct (stat_file d (w_sys w2)) as [e|mt].
  - destruct (clearVolumeNBDState_runs v d (w_sys w2) Hv Hd Ht1) as (s' & Hrun & Hclear).
    unfold bind. cbv zeta. eapply (reserveFresh_backed v s'); [done|..].
    + by eapply cleared_dirs.
    + by eapply cleared_tidy.
    + destruct Hclear as (_ & Hn & _ & Hsame). by eapply cleared_backed.
    + by eapply cleared_unexpired.
    + by apply runs_sys in Hrun.
  - cbv zeta. unfold bind. cbv zeta. cbn [fst snd].
    rewrite stat_file_healthy, Hf by (by apply reservationPath_in_run). done.
Qed.

(** C5: reserveNBDDevice preserves the invariant that every volume's device is backed by
    a reservation naming that volume, whether it succeeds or fails, so afterwards
    two volumes never hold the same device. Assumed: input and output in the run
    directory does not fail (Healthy: the code ignores the error of writing the
    reservation, see unwritten_reservation_shared; the making of the directories may
    fail), the volume's name is a good file name, the run directory holds no
    directory but its own, and no reservation in use is older than two hours. *)
Theorem reserve_keeps_exclusive w v :
  good_volume v = true → tidy (w_sys w) → backed (w_sys w) →
  unexpired (w_sys (ensureRunDirs w).2) →
  backed (w_sys (reserveNBDDevice v w).2) ∧ exclusive (w_sys (reserveNBDDevice v w).2).
Proof. intros Hv Ht Hb Hu. pose proof (reserve_backed w v Hv Ht Hb Hu). eauto using backed_exclusive. Qed.

(** A volume whose state file names a device that exists gets that device again, keeps
    its state file, and has a reservation afterwards, its own if there was none. *)
Theorem reserve_reuses_device w w1 v d :
  good_volume v = true → ensureRunDirs w = (None, w1) → holds (w_sys w1) v d →
  nbdDevicePathRe d = true → (∃ t, stat_file d (w_sys w1) = inr t) →
  (reserveNBDDevice v w).1 = inr d ∧
  holds (w_sys (reserveNBDDevice v w).2) v d ∧
  (∃ f, w_fs (reserveNBDDevice v w).2 !! deviceReservationPath d = Some f ∧
    match w_fs w1 !! deviceReservationPath d with Some f0 => f = f0 | None => f_data f = v end).
Proof.
  intros Hv Hdirs Hh Hd [mt Hstat]. rewrite (reserveNBDDevice_eq w w1) by done.
  destruct (ensureRunDirs_ok w w1 Hdirs) as (Hs1 & _ & _).
  destruct (readVolumeNBDState_runs v (w_sys w1) Hv) as (r & Hread & Hr).
  apply Hr in Hh as Hrd. subst r.
  cut (∃ s', runs (reserveInDirs v) (w_sys w1) (inr d) s' ∧ holds s' v d ∧
         (∃ f, sys_fs s' !! deviceReservationPath d = Some f ∧
           match w_fs w1 !! deviceReservationPath d with Some f0 => f = f0 | None => f_data f = v end)).
  { intros (s' & Hrun & Hrest). split; [by apply runs_result in Hrun|].
    unfold w_fs at 1. by rewrite (runs_sys _ _ _ _ Hrun). }
  unfold w_fs. destruct (sys_fs (w_sys w1) !! deviceReservationPath d) as [f0|] eqn:Hf0.
  - exists (w_sys w1). split; [|eauto]. eapply runs_bind; [exact Hread|]. cbv beta iota.
    eapply runs_bind; [apply runs_read; exact Hstat|]. cbv beta iota zeta.
    eapply runs_bind; [by apply runs_read|].
    rewrite stat_file_healthy, Hf0 by (by apply reservationPath_in_run).
    eapply runs_bind; apply runs_ret.
  - destruct (take_reservation_runs d v (w_sys w1) Hd Hs1 Hf0) as (s1 & t & Hopen & Hwr & Hsame).
    exists (set_file (deviceReservationPath d) (Some (mkFile v false t)) s1). split; [|split].
    + eapply runs_bind; [exact Hread|]. cbv beta iota.
      eapply runs_bind; [apply runs_read; exact Hstat|]. cbv beta iota zeta.
      eapply runs_bind; [by apply runs_read|].
      rewrite stat_file_healthy, Hf0 by (by apply reservationPath_in_run).
      eapply runs_bind; [|apply runs_ret]. eapply runs_bind; [exact Hopen|exact Hwr].
    + eapply holds_frame; [|exact Hh].
      assert (volumeNBDStatePath v ≠ deviceReservationPath d) as Hne
        by (apply statePath_reservationPath; [by apply good_volume_plain|done]).
      by rewrite set_file_ne, Hsame.
    + eexists. by rewrite set_file_eq.
Qed.

End reserve.

(** ** On the concrete node *)

Section witnesses.
Import SimNode.

#[local] Instance sim_run_healthy : Healthy in_run_dir := sim_healthy.

Lemma fs0_no_run p f : fs0 !! p = Some f → ¬ in_run_dir p.
Proof.
  intros Hp%elem_of_list_to_map_2. unfold in_run_dir.
  rewrite !elem_of_cons, elem_of_nil in Hp. by destruct_or! Hp; simplify_eq.
Qed.

Lemma world0_tidy : tidy (w_sys world0).
Proof. intros p f Hp Hf. by apply fs0_no_run in Hf. Qed.

Lemma world0_holds v d : good_volume v = true → ¬ holds (w_sys (ensureRunDirs world0).2) v d.
Proof.
  intros Hv (f & Hf & Hd & _). apply (ensureRunDirs_files world0) in Hf; [|done].
  apply fs0_no_run in Hf. by apply Hf, statePath_in_run, good_volume_plain.
Qed.

Lemma world0_backed : backed (w_sys world0).
Proof.
  intros v d Hv (f & Hf & _). apply fs0_no_run in Hf.
  by destruct Hf; apply statePath_in_run, good_volume_plain.
Qed.

Lemma reserve_takes_first_free_witness :
  (reserveNBDDevice "pvc-1" world0).1 = inr "/dev/nbd0" ∧
  reserved "pvc-1" "/dev/nbd0" (w_sys (ensureRunDirs world0).2) (w_sys (reserveNBDDevice "pvc-1" world0).2).
Proof.
  pose proof (reserve_takes_first_free world0 (ensureRunDirs world0).2 "pvc-1") as Hthm.
  assert (List.find (dev_free (w_sys (ensureRunDirs world0).2)) (devices (ensureRunDirs world0).2)
          = Some "/dev/nbd0") as Hfind by by_compute.
  rewrite Hfind in Hthm. apply Hthm.
  - by_compute.
  - apply world0_tidy.
  - apply pair_eta. by_compute.
  - intros d. by apply world0_holds.
Defined.

Lemma reserve_keeps_exclusive_witness :
  backed (w_sys (reserveNBDDevice "pvc-1" world0).2) ∧ exclusive (w_sys (reserveNBDDevice "pvc-1" world0).2).
Proof.
  apply (reserve_keeps_exclusive world0 "pvc-1").
  - by_compute.
  - apply world0_tidy.
  - apply world0_backed.
  - intros v d f Hv Hh. by apply world0_holds in Hh.
Defined.

(** The world after the first volume has its device. *)
Definition world1 : World := (reserveNBDDevice "pvc-1" world0).2.

Lemma reserve_reuses_device_witness :
  (reserveNBDDevice "pvc-1" world1).1 = inr "/dev/nbd0" ∧
  holds (w_sys (reserveNBDDevice "pvc-1" world1).2) "pvc-1" "/dev/nbd0" ∧
  (∃ f, w_fs (reserveNBDDevice "pvc-1" world1).2 !! deviceReservationPath "/dev/nbd0" = Some f ∧
    match w_fs (ensureRunDirs world1).2 !! deviceReservationPath "/dev/nbd0" with
    | Some f0 => f = f0 | None => f_data f = "pvc-1" end).
Proof.
  refine (reserve_reuses_device world1 (ensureRunDirs world1).2 "pvc-1" "/dev/nbd0" _ _ _ _ _).
  - by_compute.
  - apply pair_eta. by_compute.
  - eexists. split; [by_compute|]. split; [by_compute|]. split; [by_compute|done].
  - by_compute.
  - eexists. by_compute.
Defined.

(** C35: Counterexample to exclusivity without the two-hour premise: three hours after
    volume pvc-1 reserved its device, with the device not connected, pvc-2 is given
    the same device, both state files name it, and releasing pvc-1 removes pvc-2's
    reservation. *)
Theorem expired_reservation_shared :
  let w2 := (time_Sleep (3 * hour) world1).2 in
  let r := reserveNBDDevice "pvc-2" w2 in
  (readVolumeNBDState "pvc-1" w2).1 = Some "/dev/nbd0" ∧
  r.1 = inr "/dev/nbd0" ∧
  (readVolumeNBDState "pvc-1" r.2).1 = Some "/dev/nbd0" ∧
  (readVolumeNBDState "pvc-2" r.2).1 = Some "/dev/nbd0" ∧
  w_fs (clearVolumeNBDState "pvc-1" "/dev/nbd0" r.2).2 !! deviceReservationPath "/dev/nbd0" = None.
Proof. repeat split; by_compute. Qed.

(** The node, with a file system that fails the write to the first device's reservation. *)
Definition failing_env : Environment := {|
  ext := Node;
  env_exec := sim_exec;
  env_sleep := @env_sleep sim_env;
  env_fault op p n :=
    if bool_decide (op = OpWrite ∧ p = deviceReservationPath "/dev/nbd0") then Some "no space left on device"
    else sim_fault op p n;
  env_now := nd_clock;
  env_ctx_done _ := false;
  env_select := @env_select sim_env;
  env_slack := 1;
|}.

Definition failing0 : World (E:=failing_env) := mkWorld (E:=failing_env) (w_sys world0) [].

(** C15: Counterexample to exclusivity when a write fails: reserveNBDDevice ignores the
    error of WriteString, so on a node where writing the volume's name into the
    reservation of /dev/nbd0 fails, pvc-1 is still given that device, with an empty
    reservation; the next call for pvc-2 takes that reservation for a stale one and
    gives pvc-2 the same device, and both state files name it. *)
Theorem unwritten_reservation_shared :
  let w1 := (reserveNBDDevice (E:=failing_env) "pvc-1" failing0).2 in
  let r := reserveNBDDevice (E:=failing_env) "pvc-2" w1 in
  (reserveNBDDevice (E:=failing_env) "pvc-1" failing0).1 = inr "/dev/nbd0" ∧
  f_data <$> w_fs (E:=failing_env) w1 !! deviceReservationPath "/dev/nbd0" = Some EmptyString ∧
  r.1 = inr "/dev/nbd0" ∧
  (readVolumeNBDState (E:=failing_env) "pvc-1" r.2).1 = Some "/dev/nbd0" ∧
  (readVolumeNBDState (E:=failing_env) "pvc-2" r.2).1 = Some "/dev/nbd0".
Proof. repeat split; by_compute. Qed.

End witnesses.

End NbdReserve.
