(* ===== verification/Node.v ===== *)
(** * The CSI node service (pkg/csi/node.go)

    The handlers of the node plugin.  A handler returns a gRPC status or a
    response; an early [return nil, status.Error(...)] is the left summand.  The
    mutex [nbdMu] is a pair of events around the code it protects; logging is not
    modelled. *)

From S2P Require Import Prelude GoStrings GoPath World Metrics Kube Zerofs Nbd.

Local Open Scope Z_scope.

Module Node.

(** ** Requests, responses, statuses *)

Inductive code := InvalidArgument | Internal | ResourceExhausted.

Record Status := mkStatus { s_code : code; s_message : string }.

(** The mount access type with its flags, or another access type. *)
Record VolumeCapability := mkCapability { vc_mount : option (list string) }.

(** [req.GetVolumeCapability().GetMount().GetMountFlags()]: the getters of the
    generated code map a missing message to the zero value. *)
Definition GetMountFlags (c : option VolumeCapability) : list string :=
  match c with
  | Some c => default [] (vc_mount c)
  | None => []
  end.

Record NodePublishVolumeRequest := mkPublish {
  pr_volumeId : string; pr_targetPath : string;
  pr_capability : option VolumeCapability; pr_context : gmap string string }.

Record NodeUnpublishVolumeRequest := mkUnpublish { ur_volumeId : string; ur_targetPath : string }.

Record NodeStageVolumeRequest := mkStage { sr_volumeId : string; sr_stagingTargetPath : string }.

Record NodeGetVolumeStatsRequest := mkStatsReq { gr_volumeId : string; gr_volumePath : string }.

Record VolumeUsage := mkUsage { vu_total : Z; vu_used : Z; vu_available : Z }.

Record NodeGetInfoResponse := mkInfo { ni_nodeId : string; ni_maxVolumesPerNode : Z }.

Inductive node_capability := STAGE_UNSTAGE_VOLUME | GET_VOLUME_STATS.

Record nodeService := mkNodeService { ns_nodeID : string; ns_mounter : zerofsMounter }.

(** ** mkfs *)

(** [strings.ToLower], here on ASCII letters. *)
Definition mkfsCommand (filesystem devicePath : string) : string * list string :=
  let fs := ToLower (TrimSpace filesystem) in
  if decide (fs = "btrfs") then ("mkfs.btrfs", ["-f"; devicePath])
  else if decide (fs = "xfs") then ("mkfs.xfs", ["-f"; devicePath])
  else if decide (fs = "ext2" ∨ fs = "ext3" ∨ fs = "ext4") then ("mkfs." +:+ fs, ["-F"; devicePath])
  else ("mkfs", ["-t"; fs; devicePath]).

(** ** Volume statistics *)

(** The answer to the output of [df -B1]. *)
Definition parseDf (output : string) : Status + VolumeUsage :=
  let lines := Split output (byte 10) in
  match lines with
  | _ :: line :: _ =>
      match Fields line with
      | _ :: f1 :: f2 :: f3 :: _ =>
          match ParseInt f1 with
          | (_, Some _) => inl (mkStatus Internal "failed to parse volume stats")
          | (total, None) =>
              match ParseInt f2 with
              | (_, Some _) => inl (mkStatus Internal "failed to parse volume stats")
              | (used, None) =>
                  match ParseInt f3 with
                  | (_, Some _) => inl (mkStatus Internal "failed to parse volume stats")
                  | (available, None) => inr (mkUsage total used available)
                  end
              end
          end
      | _ => inl (mkStatus Internal "unexpected number of fields in df output")
      end
  | _ => inl (mkStatus Internal "unexpected df output format")
  end.

Definition maxRetries : nat := 6.
Definition retryDelay : Z := 10 * second.

Section node.
Context `{E : !Environment, C : !KubeClient, Q : !QuantityParser}.

Definition fail_with {A} (c : code) (msg : string) : Go (Status + A) := ret (inl (mkStatus c msg)).

(** Count an error of a stage of [NodePublishVolume] and return a status. *)
Definition stage_error {A} (stage : string) (c : code) (msg : string) : Go (Status + A) :=
  run recordStageError "node_publish" stage; fail_with c msg.

(** ** Startup reconciliation *)

(** The loop over the devices; the counters are the ones the driver logs. *)
Fixpoint reconcileLoop (devices : list string) (detached skippedMounted : nat) : Go (nat * nat) :=
  match devices with
  | [] => ret (detached, skippedMounted)
  | dev :: rest =>
      do done <- sys_read (λ s, env_ctx_done (sys_ext s));
      if (done : bool) then ret (detached, skippedMounted)
      else
        do c <- isNBDConnected dev;
        match c with
        | inl _ => reconcileLoop rest detached skippedMounted
        | inr false => reconcileLoop rest detached skippedMounted
        | inr true =>
            do out <- exec_Command "findmnt" ["-n"; "-S"; dev];
            if bool_decide (co_err out = None ∧ TrimSpace (co_out out) ≠ EmptyString)
            then reconcileLoop rest detached (S skippedMounted)
            else
              run detachNBDDeviceBestEffort dev;
              reconcileLoop rest (S detached) skippedMounted
        end
  end.

Definition reconcileOrphanedNBDDevices : Go (nat * nat) :=
  do r <- listNBDDevices;
  match r with
  | inl _ => ret (0%nat, 0%nat)
  | inr devices => reconcileLoop devices 0 0
  end.

(** ** Stage and unstage *)

Definition NodeStageVolume (req : NodeStageVolumeRequest) : Go (Status + unit) :=
  if decide (sr_volumeId req = EmptyString) then fail_with InvalidArgument "volume ID cannot be empty"
  else if decide (sr_stagingTargetPath req = EmptyString)
  then fail_with InvalidArgument "staging target path cannot be empty"
  else ret (inr tt).

Definition NodeUnstageVolume (req : NodeStageVolumeRequest) : Go (Status + unit) :=
  if decide (sr_volumeId req = EmptyString) then fail_with InvalidArgument "volume ID cannot be empty"
  else if decide (sr_stagingTargetPath req = EmptyString)
  then fail_with InvalidArgument "staging target path cannot be empty"
  else ret (inr tt).

(** ** Publish *)

(** Best-effort cleanup of the state a failed attempt left (under the mutex). *)
Definition clearStale (volumeID : string) : Go unit :=
  run emit EvLock;
  do st <- readVolumeNBDState volumeID;
  run match st with
      | Some staleDev =>
          do c <- isNBDConnected staleDev;
          run match c with
              | inr true => detachNBDDeviceBestEffort staleDev
              | _ => ret tt
              end;
          clearVolumeNBDState volumeID staleDev
      | None => ret tt
      end;
  emit EvUnlock.

(** The deferred cleanup of a publish that did not get to its end. *)
Definition publishCleanup (ns : nodeService) (req : NodePublishVolumeRequest) : Go unit :=
  run unmountBestEffort (pr_targetPath req);
  do st <- readVolumeNBDState (pr_volumeId req);
  run match st with
      | Some dev =>
          run detachNBDDeviceBestEffort dev;
          clearVolumeNBDState (pr_volumeId req) dev
      | None => ret tt
      end;
  run RemovePod (ns_mounter ns) (pr_volumeId req);
  ret tt.

Definition makeTarget (target : string) : Go (Status + unit) :=
  do err <- os_MkdirAll target;
  match err with
  | Some e => stage_error "mkdir" Internal ("failed to create target directory: " +:+ pe_error e)
  | None => ret (inr tt)
  end.

Definition createPodStage (ns : nodeService) (volumeID configMapName : string) : Go (Status + unit) :=
  do stage <- startStage "node_publish" "create_pod";
  do r <- CreatePod (ns_mounter ns) volumeID (ns_nodeID ns) configMapName;
  match r with
  | inl err => stage_error "create_pod" Internal ("failed to create pod: " +:+ err)
  | inr _ => run observe stage; ret (inr tt)
  end.

(** The wait for the 9P socket; [n] attempts are left. *)
Fixpoint waitSocket (n : nat) (socketPath : string) : Go (Status + unit) :=
  match n with
  | O => ret (inr tt)
  | S n' =>
      do r <- os_Stat socketPath;
      match r with
      | inr _ => ret (inr tt)
      | inl err =>
          if IsNotExist err then
            match n' with
            | S _ => run time_Sleep retryDelay; waitSocket n' socketPath
            | O =>
                stage_error "wait_socket" Internal
                  ("socket file does not exist after " +:+ Sprint_d (Z.of_nat maxRetries) +:+
                   " attempts: " +:+ socketPath)
            end
          else stage_error "wait_socket" Internal ("error checking socket file: " +:+ pe_error err)
      end
  end.

Definition mount9p (socketPath target : string) : Go (Status + unit) :=
  do stage <- startStage "node_publish" "mount_9p";
  do out <- exec_Command "mount" ["-t"; "9p"; "-o"; "trans=unix,version=9p2000.L"; socketPath; target];
  match co_err out with
  | Some err =>
      do (_, mounted) <- findMountSource target;
      if (mounted : bool) then run observe stage; ret (inr tt)
      else stage_error "mount_9p" Internal ("failed to mount volume: " +:+ err)
  | None => run observe stage; ret (inr tt)
  end.

Definition createDisk (context : gmap string string) (diskFilePath : string) : Go (Status + unit) :=
  do r <- os_Stat diskFilePath;
  match r with
  | inr _ => ret (inr tt)
  | inl err =>
      if IsNotExist err then
        match context !! "capacity_bytes" with
        | None => fail_with InvalidArgument "no capacity information provided for volume"
        | Some capacityBytes =>
            do stage <- startStage "node_publish" "create_disk";
            do out <- exec_Command "truncate" ["-s"; capacityBytes; diskFilePath];
            match co_err out with
            | Some e => stage_error "create_disk" Internal ("failed to create disk file: " +:+ e)
            | None => run observe stage; ret (inr tt)
            end
        end
      else fail_with Internal ("error checking disk file: " +:+ pe_error err)
  end.

Definition umount9p (target : string) : Go (Status + unit) :=
  do stage <- startStage "node_publish" "umount_9p";
  do out <- exec_Command "umount" [target];
  match co_err out with
  | Some e => stage_error "umount_9p" Internal ("failed to unmount 9p volume: " +:+ e)
  | None => run observe stage; ret (inr tt)
  end.

Definition reserveStage (volumeID : string) : Go (Status + string) :=
  run emit EvLock;
  do r <- reserveNBDDevice volumeID;
  run emit EvUnlock;
  match r with
  | inl err => stage_error "reserve_nbd" ResourceExhausted ("failed to reserve NBD device: " +:+ err)
  | inr dev => ret (inr dev)
  end.

Definition connectNBD (volumeID nbdSocketPath dev : string) : Go (Status + unit) :=
  do stage <- startStage "node_publish" "connect_nbd";
  do out <- exec_Command "nbd-client"
    ["-unix"; nbdSocketPath; "-N"; "disk"; "-persist"; "-timeout"; "0"; "-connections"; "4"; dev];
  match co_err out with
  | Some e =>
      run emit EvLock;
      run clearVolumeNBDState volumeID dev;
      run emit EvUnlock;
      stage_error "connect_nbd" Internal
        ("failed to connect to NBD device: " +:+ e +:+ " output: " +:+ co_out out)
  | None => run observe stage; ret (inr tt)
  end.

(** [mkfs] only on a device on which [blkid] prints no file system type. *)
Definition formatIfBlank (filesystem dev : string) : Go (Status + unit) :=
  do out <- exec_Command "blkid" ["-o"; "value"; "-s"; "TYPE"; dev];
  let fsType := TrimSpace (co_out out) in
  if decide (fsType = EmptyString) then
    let (mkfsCmd, mkfsArgs) := mkfsCommand filesystem dev in
    do stage <- startStage "node_publish" "mkfs";
    do out <- exec_Command mkfsCmd mkfsArgs;
    match co_err out with
    | Some e =>
        run recordStageError "node_publish" "mkfs";
        run exec_Command "nbd-client" ["-d"; dev];
        fail_with Internal ("failed to format NBD device: " +:+ e +:+ ", output: " +:+ TrimSpace (co_out out))
    | None => run observe stage; ret (inr tt)
    end
  else ret (inr tt).

Definition mountArgs (filesystem dev target : string) (flags : list string) : list string :=
  ["-t"; filesystem] ++
  (match flags with [] => [] | _ => ["-o"; Join flags ","] end) ++
  [dev; target].

Definition mountDevice (filesystem dev target : string) (flags : list string) : Go (Status + unit) :=
  do stage <- startStage "node_publish" "mount_fs";
  do out <- exec_Command "mount" (mountArgs filesystem dev target flags);
  match co_err out with
  | Some e =>
      run recordStageError "node_publish" "mount_fs";
      run exec_Command "nbd-client" ["-d"; dev];
      fail_with Internal ("failed to mount NBD device: " +:+ e)
  | None => run observe stage; ret (inr tt)
  end.

Definition socket9p (volumeID : string) : string :=
  PathJoin [ZeroFSBaseDir; "zerofs-" +:+ volumeID +:+ ".9p.sock"].
Definition socketNbd (volumeID : string) : string :=
  PathJoin [ZeroFSBaseDir; "zerofs-" +:+ volumeID +:+ ".nbd.sock"].

(** The part of [NodePublishVolume] under the deferred cleanup. *)
Definition publishBody (ns : nodeService) (req : NodePublishVolumeRequest) (filesystem : string)
    : Go (Status + unit) :=
  let volumeID := pr_volumeId req in
  let target := pr_targetPath req in
  try _ <- makeTarget target;
  match pr_context req !! "configMapName" with
  | None =>
      stage_error "validate" InvalidArgument
        "failed to determine configMapName for volume, ensure configMapName is specified"
  | Some configMapName =>
      try _ <- createPodStage ns volumeID configMapName;
      try _ <- waitSocket maxRetries (socket9p volumeID);
      try _ <- mount9p (socket9p volumeID) target;
      try _ <- createDisk (pr_context req) (PathJoin [target; ".nbd"; "disk"]);
      try _ <- umount9p target;
      try dev <- reserveStage volumeID;
      try _ <- connectNBD volumeID (socketNbd volumeID) dev;
      try _ <- formatIfBlank filesystem dev;
      mountDevice filesystem dev target (GetMountFlags (pr_capability req))
  end.

Definition NodePublishVolume (ns : nodeService) (req : NodePublishVolumeRequest) : Go (Status + unit) :=
  do opTimer <- startStage "node_publish" "total";
  if decide (pr_volumeId req = EmptyString)
  then stage_error "validate" InvalidArgument "volume ID cannot be empty"
  else if decide (pr_targetPath req = EmptyString)
  then stage_error "validate" InvalidArgument "target path cannot be empty"
  else match pr_capability req with
  | None => stage_error "validate" InvalidArgument "volume capability cannot be empty"
  | Some _ =>
  match pr_context req !! "filesystem" with
  | None =>
      stage_error "validate" InvalidArgument
        "failed to determine filesystem for volume, ensure filesystem is specified"
  | Some filesystem =>
      do (src, mounted) <- findMountSource (pr_targetPath req);
      if mounted && HasPrefix src "/dev/nbd" then
        run observe opTimer; ret (inr tt)
      else
        run (if (mounted : bool) then unmountBestEffort (pr_targetPath req) else ret tt);
        run clearStale (pr_volumeId req);
        do r <- publishBody ns req filesystem;
        match r with
        | inr _ => run observe opTimer; ret (inr tt)
        | inl st => run publishCleanup ns req; ret (inl st)
        end
  end end.

(** ** Unpublish *)

Definition unmountStage (target : string) : Go unit :=
  do stage <- startStage "node_unpublish" "umount_fs";
  do out <- exec_Command "umount" [target];
  run match co_err out with
      | Some _ =>
          if Contains (co_out out) "not mounted" then ret tt
          else recordStageError "node_unpublish" "umount_fs"
      | None => ret tt
      end;
  observe stage.

(** The device of the volume: the mount's source, else what the state file says. *)
Definition recoverDevice (volumeID nbdDevice : string) : Go string :=
  if decide (nbdDevice = EmptyString) then
    do r <- os_ReadFile (volumeNBDStatePath volumeID);
    ret match r with inr b => TrimSpace b | inl _ => EmptyString end
  else ret nbdDevice.

Definition detachStage (nbdDevice : string) : Go unit :=
  if decide (nbdDevice = EmptyString) then ret tt
  else
    do stage <- startStage "node_unpublish" "detach_nbd";
    do out <- exec_Command "nbd-client" ["-d"; nbdDevice];
    run match co_err out with
        | Some _ => recordStageError "node_unpublish" "detach_nbd"
        | None => ret tt
        end;
    observe stage.

Definition removePodStage (ns : nodeService) (volumeID : string) : Go unit :=
  do stage <- startStage "node_unpublish" "remove_pod";
  do r <- RemovePod (ns_mounter ns) volumeID;
  run match r with
      | inl _ => recordStageError "node_unpublish" "remove_pod"
      | inr _ => ret tt
      end;
  observe stage.

Definition NodeUnpublishVolume (ns : nodeService) (req : NodeUnpublishVolumeRequest) : Go (Status + unit) :=
  let volumeID := ur_volumeId req in
  let target := ur_targetPath req in
  do opTimer <- startStage "node_unpublish" "total";
  if decide (volumeID = EmptyString) then
    run recordStageError "node_unpublish" "validate";
    fail_with InvalidArgument "volume ID cannot be empty"
  else if decide (target = EmptyString) then
    run recordStageError "node_unpublish" "validate";
    fail_with InvalidArgument "target path cannot be empty"
  else
    do (src, mounted) <- findMountSource target;
    let nbdDevice := if (mounted : bool) then src else EmptyString in
    run unmountStage target;
    do nbdDevice <- recoverDevice volumeID nbdDevice;
    run detachStage nbdDevice;
    run removePodStage ns volumeID;
    run waitForPodDeletion (podName volumeID) (zm_namespace (ns_mounter ns)) (30 * second);
    run emit EvLock;
    run clearVolumeNBDState volumeID nbdDevice;
    run emit EvUnlock;
    run observe opTimer;
    ret (inr tt).

(** ** The other handlers *)

Definition NodeGetVolumeStats (req : NodeGetVolumeStatsRequest) : Go (Status + VolumeUsage) :=
  if decide (gr_volumeId req = EmptyString) then fail_with InvalidArgument "volume ID cannot be empty"
  else if decide (gr_volumePath req = EmptyString) then fail_with InvalidArgument "volume path cannot be empty"
  else
    do out <- exec_Command "df" ["-B1"; gr_volumePath req];
    match co_err out with
    | Some err => fail_with Internal ("failed to get volume stats: " +:+ err)
    | None => ret (parseDf (co_out out))
    end.

Definition NodeGetCapabilities : Go (Status + list node_capability) :=
  ret (inr [STAGE_UNSTAGE_VOLUME; GET_VOLUME_STATS]).

Definition NodeGetInfo (ns : nodeService) : Go (Status + NodeGetInfoResponse) :=
  ret (inr (mkInfo (ns_nodeID ns) 0)).

End node.

End Node.
Export Node.
