(* ===== verification/NodeFrame.v ===== *)
(** * Framing the node's operations

    [KubeFrame R] and [Frame R] are what a relation between worlds must promise for the driver's
    effects outside its own state files to move the world along it: API calls,
    ticks, sleeps, metrics and every command except [mkfs].  Each operation of
    zerofs.go, nbd.go and node.go that has no other effect is proved to respect any
    such relation once, here; the theorems on traces and on files instantiate it. *)

From S2P Require Import Prelude GoStrings GoPath World Metrics Kube Zerofs Nbd Node.

Module NodeFrame.

(** A call on a metric vector. *)
Definition is_metric (e : event) : bool :=
  match e with EvObserve _ _ _ | EvStageError _ _ => true | _ => false end.

Definition is_mkfs (cmd : string) : bool := HasPrefix cmd "mkfs".

Section frame.
Context `{E : !Environment, C : !KubeClient, Q : !QuantityParser}.

(** What the operations of zerofs.go need. *)
Class KubeFrame (R : relation World) := {
  #[global] frame_preorder :: PreOrder R;
  frame_kube A (op : kube_op (string + A)) : respects R (kube op);
  frame_select deadline start i : respects R (select deadline start i);
}.

Class Frame (R : relation World) := {
  #[global] frame_kube_frame :: KubeFrame R;
  frame_sleep d : respects R (time_Sleep d);
  frame_metric e : is_metric e = true → respects R (emit e);
  frame_exec cmd args : is_mkfs cmd = false → respects R (exec_Command cmd args);
}.

(** The files that the environment leaves alone. *)
#[export] Instance frame_keeps K `{!EnvKeeps K, !KubeKeeps K} : Frame (keeps K).
Proof.
  split; [split|..]; try apply _; intros.
  - by apply keeps_kube.
  - intros w p Hp. unfold w_fs. simpl. by apply select_keeps.
  - by apply keeps_Sleep.
  - apply keeps_emit.
  - by apply keeps_exec.
Qed.

(** A property of traces that API calls, sleeps, metrics and other commands have. *)
Class Benign (P : list event → Prop) := {
  #[global] benign_stackable :: Stackable P;
  benign_kube v k ns n err : P [EvKube v k ns n err];
  benign_sleep d : P [EvSleep d];
  benign_metric e : is_metric e = true → P [e];
  benign_exec cmd args out : is_mkfs cmd = false → P [EvExec cmd args out];
}.

#[export] Instance frame_emits P `{!Benign P} : Frame (emits P).
Proof.
  split; [split|..]; try apply _; intros.
  - apply emits_kube; [apply _|]. intros r. apply benign_kube.
  - by apply emits_sys_step, _.
  - apply emits_Sleep; [apply _|]. apply benign_sleep.
  - apply emits_emit. by apply benign_metric.
  - apply emits_exec; [apply _|]. intros out. by apply benign_exec.
Qed.

End frame.

Section zerofs.
Context `{E : !Environment, C : !KubeClient, Q : !QuantityParser} (R : relation World) `{F : !KubeFrame R}.

Lemma frame_read {A} (f : Sys ext → A) : respects R (sys_read f).
Proof. apply respects_read, _. Qed.

Lemma frame_ret {A} (a : A) : respects R (ret a).
Proof. apply respects_ret, _. Qed.

#[local] Hint Resolve frame_read frame_ret frame_kube frame_select : go.

(** ** zerofs.go *)

Lemma frame_wrapE {A} msg (m : Go (string + A)) : respects R m → respects R (wrapE msg m).
Proof. intros Hm. unfold wrapE. solve_respects. Qed.

Lemma frame_fail {A} msg : respects R (fail (A:=A) msg).
Proof. unfold fail. solve_respects. Qed.

#[local] Hint Resolve frame_wrapE frame_fail : go.

Lemma frame_getDaemonSetUID m : respects R (getDaemonSetUID m).
Proof. unfold getDaemonSetUID. solve_respects. Qed.

Lemma frame_deletionLoop n i deadline start name ns : respects R (deletionLoop n i deadline start name ns).
Proof. revert i. induction n as [|n IH]; intros i; cbn [deletionLoop]; solve_respects. Qed.

#[local] Hint Resolve frame_getDaemonSetUID frame_deletionLoop : go.

Lemma frame_waitForPodDeletion name ns timeout : respects R (waitForPodDeletion name ns timeout).
Proof. unfold waitForPodDeletion, time_Now. solve_respects. Qed.

Lemma frame_readyLoop n i deadline start name ns : respects R (readyLoop n i deadline start name ns).
Proof. revert i. induction n as [|n IH]; intros i; cbn [readyLoop]; solve_respects. Qed.

#[local] Hint Resolve frame_waitForPodDeletion frame_readyLoop : go.

Lemma frame_waitForPodReady name ns timeout : respects R (waitForPodReady name ns timeout).
Proof. unfold waitForPodReady, time_Now. solve_respects. Qed.

Lemma frame_applySecret s : respects R (applySecret s).
Proof. unfold applySecret. solve_respects. Qed.

#[local] Hint Resolve frame_waitForPodReady frame_applySecret : go.

Lemma frame_applyPod m pod name node timeout : respects R (applyPod m pod name node timeout).
Proof. unfold applyPod. solve_respects. Qed.

#[local] Hint Resolve frame_applyPod : go.

Lemma frame_CreatePod m v node cm : respects R (CreatePod m v node cm).
Proof. unfold CreatePod. solve_respects. Qed.

Lemma frame_forceDelete m name : respects R (forceDelete m name).
Proof. unfold forceDelete. solve_respects. Qed.

#[local] Hint Resolve frame_CreatePod frame_forceDelete : go.

Lemma frame_removePodObject m name : respects R (removePodObject m name).
Proof. unfold removePodObject. solve_respects. Qed.

#[local] Hint Resolve frame_removePodObject : go.

Lemma frame_RemovePod m v : respects R (RemovePod m v).
Proof. unfold RemovePod. solve_respects. Qed.

#[local] Hint Resolve frame_RemovePod : go.

End zerofs.

#[export] Hint Resolve frame_read frame_ret frame_kube frame_select frame_wrapE frame_fail
  frame_getDaemonSetUID frame_applySecret frame_applyPod
  frame_waitForPodDeletion frame_waitForPodReady frame_CreatePod frame_RemovePod : go.

Section operations.
Context `{E : !Environment, C : !KubeClient, Q : !QuantityParser} (R : relation World) `{F : !Frame R}.

#[local] Hint Resolve frame_sleep frame_metric frame_exec : go.

(** ** Metrics *)

Lemma frame_observe t : respects R (observe t).
Proof. unfold observe, time_Since. solve_respects. Qed.

Lemma frame_recordStageError op st : respects R (recordStageError op st).
Proof. by apply frame_metric. Qed.

#[local] Hint Resolve frame_observe frame_recordStageError : go.

Lemma frame_fail_with {A} c msg : respects R (fail_with (A:=A) c msg).
Proof. unfold fail_with. solve_respects. Qed.

#[local] Hint Resolve frame_fail_with : go.

Lemma frame_stage_error {A} st c msg : respects R (stage_error (A:=A) st c msg).
Proof. unfold stage_error. solve_respects. Qed.

#[local] Hint Resolve frame_stage_error : go.

(** ** nbd.go *)

Lemma frame_isNBDConnected d : respects R (isNBDConnected d).
Proof. unfold isNBDConnected, os_ReadFile. solve_respects. Qed.

Lemma frame_findMountSource t : respects R (findMountSource t).
Proof. unfold findMountSource. solve_respects. Qed.

Lemma frame_readVolumeNBDState v : respects R (readVolumeNBDState v).
Proof. unfold readVolumeNBDState, os_ReadFile. solve_respects. Qed.

#[local] Hint Resolve frame_isNBDConnected frame_findMountSource frame_readVolumeNBDState : go.

Lemma frame_unmountBestEffort t : respects R (unmountBestEffort t).
Proof. unfold unmountBestEffort. solve_respects. Qed.

Lemma frame_detach_attempts n d : respects R (detach_attempts n d).
Proof. induction n as [|n IH]; cbn [detach_attempts]; solve_respects. Qed.

#[local] Hint Resolve frame_unmountBestEffort frame_detach_attempts : go.

Lemma frame_detach d : respects R (detachNBDDeviceBestEffort d).
Proof. unfold detachNBDDeviceBestEffort. solve_respects. Qed.

#[local] Hint Resolve frame_detach : go.

(** ** node.go *)

Lemma frame_reconcile : respects R reconcileOrphanedNBDDevices.
Proof.
  unfold reconcileOrphanedNBDDevices, listNBDDevices, filepath_Glob.
  assert (∀ ds i j, respects R (reconcileLoop ds i j)).
  { induction ds as [|d ds IH]; intros i j; cbn [reconcileLoop]; solve_respects. }
  solve_respects.
Qed.

Lemma frame_createPodStage ns v cm : respects R (createPodStage ns v cm).
Proof. unfold createPodStage. solve_respects. Qed.

Lemma frame_waitSocket n p : respects R (waitSocket n p).
Proof. induction n as [|n IH]; cbn [waitSocket]; unfold os_Stat; solve_respects. Qed.

Lemma frame_mount9p p t : respects R (mount9p p t).
Proof. unfold mount9p. solve_respects. Qed.

Lemma frame_createDisk ctx p : respects R (createDisk ctx p).
Proof. unfold createDisk, os_Stat. solve_respects. Qed.

Lemma frame_umount9p t : respects R (umount9p t).
Proof. unfold umount9p. solve_respects. Qed.

Lemma frame_mountDevice fs d t fl : respects R (mountDevice fs d t fl).
Proof. unfold mountDevice. solve_respects. Qed.

Lemma frame_unmountStage t : respects R (unmountStage t).
Proof. unfold unmountStage. solve_respects. Qed.

Lemma frame_recoverDevice v d : respects R (recoverDevice v d).
Proof. unfold recoverDevice, os_ReadFile. solve_respects. Qed.

Lemma frame_detachStage d : respects R (detachStage d).
Proof. unfold detachStage. solve_respects. Qed.

Lemma frame_removePodStage ns v : respects R (removePodStage ns v).
Proof. unfold removePodStage. solve_respects. Qed.

(** The body of a publish, given its stages that act on the driver's own files or
    format the device. *)
Lemma frame_publishBody ns req fs :
  respects R (makeTarget (pr_targetPath req)) →
  respects R (reserveStage (pr_volumeId req)) →
  (∀ sock dev, respects R (connectNBD (pr_volumeId req) sock dev)) →
  (∀ dev, respects R (formatIfBlank fs dev)) →
  respects R (publishBody ns req fs).
Proof.
  intros. unfold publishBody.
  repeat (respects_step; first [solve [eauto using frame_stage_error, frame_createPodStage,
    frame_waitSocket, frame_mount9p, frame_createDisk, frame_umount9p, frame_mountDevice] | idtac]).
Qed.

End operations.

(** ** State files *)

(** A trace property that operations on files have. *)
Class FsBenign `{E : !Environment, C : !KubeClient} (P : list event → Prop) := {
  #[global] fs_benign :: Benign P;
  benign_fs op p : P [EvFs op p];
}.

Section files.
Context `{E : !Environment, C : !KubeClient} (P : list event → Prop) `{F : !FsBenign P}.

Lemma emits_fs {A} op p (f : Sys ext → A * Sys ext) :
  respects (emits P) (run emit (EvFs op p); sys_step f).
Proof. apply emits_then_step; [apply _|apply benign_fs]. Qed.

#[local] Hint Resolve emits_fs frame_read frame_ret frame_isNBDConnected frame_readVolumeNBDState : go.

Lemma emits_ensureRunDirs : respects (emits P) ensureRunDirs.
Proof. unfold ensureRunDirs, os_MkdirAll. solve_respects. Qed.

#[local] Hint Resolve emits_ensureRunDirs : go.

Lemma emits_writeVolumeNBDState v d : respects (emits P) (writeVolumeNBDState v d).
Proof. unfold writeVolumeNBDState, os_WriteFile. solve_respects. Qed.

Lemma emits_clearVolumeNBDState v d : respects (emits P) (clearVolumeNBDState v d).
Proof. unfold clearVolumeNBDState, os_Remove. solve_respects. Qed.

Lemma emits_gcReservation p : respects (emits P) (gcReservation p).
Proof. unfold gcReservation, mustReadFile, os_Stat, os_ReadFile, time_Since, os_Remove. solve_respects. Qed.

#[local] Hint Resolve emits_writeVolumeNBDState emits_clearVolumeNBDState emits_gcReservation : go.

Lemma emits_reserveScan v ds : respects (emits P) (reserveScan v ds).
Proof.
  induction ds as [|d ds IH]; cbn [reserveScan]; unfold os_OpenExcl, f_WriteString, os_Remove; solve_respects.
Qed.

#[local] Hint Resolve emits_reserveScan : go.

Lemma emits_reserveFresh v : respects (emits P) (reserveFresh v).
Proof. unfold reserveFresh, listNBDDevices, filepath_Glob. solve_respects. Qed.

#[local] Hint Resolve emits_reserveFresh : go.

Lemma emits_reserveInDirs v : respects (emits P) (reserveInDirs v).
Proof. unfold reserveInDirs, os_Stat, os_OpenExcl, f_WriteString. solve_respects. Qed.

#[local] Hint Resolve emits_reserveInDirs : go.

Lemma emits_reserveNBDDevice v : respects (emits P) (reserveNBDDevice v).
Proof. unfold reserveNBDDevice. solve_respects. Qed.

End files.

#[export] Hint Resolve frame_sleep frame_metric frame_exec
  frame_observe frame_recordStageError frame_fail_with frame_stage_error
  frame_isNBDConnected frame_findMountSource frame_readVolumeNBDState frame_unmountBestEffort
  frame_detach frame_reconcile frame_createPodStage frame_waitSocket frame_mount9p
  frame_createDisk frame_umount9p frame_mountDevice frame_unmountStage frame_recoverDevice
  frame_detachStage frame_removePodStage
  emits_fs emits_clearVolumeNBDState emits_reserveNBDDevice : go.

End NodeFrame.
Export NodeFrame.
