(* ===== verification/SimRun.v ===== *)
(** * Runs of the node service on the concrete node

    Requests and worlds the examples and witnesses share: a node service, a publish
    request for one volume, and the worlds before and after it. *)

From S2P Require Import Prelude GoStrings GoPath World Metrics Kube SimNode Zerofs Nbd Node.

Module SimRun.
Export SimNode.

(** Quantities are kept as they are written. *)
#[export] Instance sim_quantities : QuantityParser := λ s, Some s.

Definition ns0 : nodeService := mkNodeService "node-a" (mkMounter "zerofs").

Definition target0 : string := "/var/lib/kubelet/pods/p1/mount".

Definition context0 : gmap string string :=
  list_to_map [("filesystem", "ext4"); ("configMapName", "zerofs-config"); ("capacity_bytes", "1024")].

Definition publish0 : NodePublishVolumeRequest :=
  mkPublish "pvc-1" target0 (Some (mkCapability (Some []))) context0.

Definition unpublish0 : NodeUnpublishVolumeRequest := mkUnpublish "pvc-1" target0.

(** Requests for other volumes and file systems. *)
Definition publish_as (v fs : string) : NodePublishVolumeRequest :=
  mkPublish v ("/var/lib/kubelet/pods/" +:+ v +:+ "/mount") (Some (mkCapability (Some [])))
    (<["filesystem" := fs]> context0).

(** The node after the volume is published. *)
Definition published : World := (NodePublishVolume ns0 publish0 world0).2.

(** A node on which the commands in [names] fail. *)
Definition broken_world (names : list string) : World :=
  world_of fs0 (mkNode [("/", "overlay")] 1000000000000 ∅ ∅ names cluster0 []).

End SimRun.
