(* ===== verification/NodeTrace.v ===== *)
(** * What the node service does, and in which order (pkg/csi/node.go)

    Theorems about the calls a handler makes, whatever the node, the API server and
    the file system answer: a file system is made only on a device for which
    blkid has just printed no type, the state files are changed under the mutex,
    retries are bounded, and the startup reconciler spares devices in use. *)

From S2P Require Import Prelude GoStrings GoPath World Metrics Kube Zerofs Nbd NbdReserve Node NodeFrame SimRun.

Module NodeTrace.

(** ** Event sequences *)

(** Every event that [bad] picks comes right after one that licenses it. *)
Definition each_after (bad : event → bool) (G : event → event → Prop) (evs : list event) : Prop :=
  ∀ i e, evs !! i = Some e → bad e = true →
    ∃ j e', i = S j ∧ evs !! j = Some e' ∧ G e' e.

#[global] Instance each_after_stackable bad G : Stackable (each_after bad G).
Proof.
  split; [by intros i e Hi|]. intros l k Hl Hk i e Hi Hb.
  apply lookup_app_Some in Hi as [Hi|[Hge Hi]].
  - destruct (Hl i e Hi Hb) as (j & e' & -> & Hj & HG). exists j, e'.
    by rewrite (lookup_app_l_Some _ _ _ _ Hj).
  - destruct (Hk _ e Hi Hb) as (j & e' & Hij & Hj & HG). exists (length l + j)%nat, e'.
    split; [lia|]. split; [|done]. rewrite lookup_app_r by lia. by replace (_ + j - _)%nat with j by lia.
Qed.

Lemma each_after_single bad G e : bad e = false → each_after bad G [e].
Proof. intros Hb i e' Hi. apply list_lookup_singleton_Some in Hi as [_ <-]. by rewrite Hb. Qed.

(** Sequencing of trace properties. *)
Definition seqP (P1 P2 : list event → Prop) (evs : list event) : Prop :=
  ∃ l k, evs = l ++ k ∧ P1 l ∧ P2 k.

Section sequencing.
Context `{E : !Environment}.

Lemma emits_seq {A B} P1 P2 (m : Go A) (f : A → Go B) :
  respects (emits P1) m → (∀ a, respects (emits P2) (f a)) → respects (emits (seqP P1 P2)) (bind m f).
Proof.
  intros Hm Hf w. destruct (Hm w) as (l & Hl & HP1).
  destruct (Hf (m w).1 (m w).2) as (k & Hk & HP2). exists (l ++ k). unfold bind. cbv zeta.
  rewrite Hk, Hl, app_assoc. split; [done|]. by exists l, k.
Qed.

Lemma emits_mono {A} P P' (m : Go A) :
  (∀ evs, P evs → P' evs) → respects (emits P) m → respects (emits P') m.
Proof. intros HP. apply respects_mono. intros w w' (evs & ? & ?). exists evs. eauto. Qed.

(** What follows a command may depend on its output. *)
Lemma emits_exec_bind {A} P cmd args (f : CmdOut → Go A) :
  (∀ out, respects (emits (λ evs, P (EvExec cmd args out :: evs))) (f out)) →
  respects (emits P) (do out <- exec_Command cmd args; f out).
Proof.
  intros Hf w. destruct (Hf (exec_Command cmd args w).1 (exec_Command cmd args w).2) as (k & Hk & HP).
  eexists. split; [|exact HP]. unfold bind at 1. cbv zeta. rewrite Hk. simpl. by rewrite <- app_assoc.
Qed.

Lemma emits_emit_bind {A} P e (m : Go A) :
  respects (emits (λ evs, P (e :: evs))) m → respects (emits P) (run emit e; m).
Proof.
  intros Hm w. destruct (Hm (emit e w).2) as (k & Hk & HP).
  eexists. split; [|exact HP]. unfold bind. cbv zeta. rewrite Hk. simpl. by rewrite <- app_assoc.
Qed.

Lemma emits_ret {A} P (a : A) : P [] → respects (emits P) (ret a).
Proof. intros HP w. exists []. by rewrite app_nil_r. Qed.

(** A step without events comes first. *)
Lemma emits_quiet {A B} P (m : Go A) (f : A → Go B) :
  respects (emits (λ evs, evs = [])) m → (∀ a, respects (emits P) (f a)) → respects (emits P) (bind m f).
Proof.
  intros Hm Hf. eapply emits_mono; [|by apply (emits_seq (λ evs, evs = []) P)].
  by intros evs (l & k & -> & -> & ?).
Qed.

Lemma quiet_startStage op st : respects (emits (λ evs, evs = [])) (startStage op st).
Proof. intros w. exists []. by rewrite app_nil_r. Qed.

End sequencing.

(** ** Formatting *)

Definition is_mkfs_event (e : event) : bool :=
  match e with EvExec cmd _ _ => is_mkfs cmd | _ => false end.

(** [blkid] has just printed no file system type for the device [e] formats. *)
Definition found_blank (e' e : event) : Prop :=
  ∃ dev out cmd args mout,
    e' = EvExec "blkid" ["-o"; "value"; "-s"; "TYPE"; dev] out ∧ TrimSpace (co_out out) = EmptyString ∧
    e = EvExec cmd args mout ∧ last args = Some dev.

Definition mkfs_guarded : list event → Prop := each_after is_mkfs_event found_blank.

Lemma mkfsCommand_shape fs dev :
  is_mkfs (mkfsCommand fs dev).1 = true ∧ last (mkfsCommand fs dev).2 = Some dev.
Proof. unfold mkfsCommand. repeat case_decide; done. Qed.

#[global] Instance mkfs_guarded_benign : Benign mkfs_guarded.
Proof.
  split; try apply _; intros; apply each_after_single; try done.
  by destruct e.
Qed.

Lemma mkfs_guarded_pair dev out fs mout :
  TrimSpace (co_out out) = EmptyString →
  mkfs_guarded [EvExec "blkid" ["-o"; "value"; "-s"; "TYPE"; dev] out;
                EvExec (mkfsCommand fs dev).1 (mkfsCommand fs dev).2 mout].
Proof.
  intros Hblank i e Hi Hb. destruct i as [|[|i]]; simplify_eq/=.
  eexists 0%nat, _. split; [done|]. split; [done|]. eexists _, _, _, _, _. split; [done|].
  split; [done|]. split; [done|]. apply mkfsCommand_shape.
Qed.

Section node.
Context `{E : !Environment, C : !KubeClient, Q : !QuantityParser}.

Lemma formatIfBlank_guarded fs dev : respects (emits mkfs_guarded) (formatIfBlank fs dev).
Proof.
  apply emits_exec_bind. intros out. cbv zeta. case_decide as Hblank.
  2: { apply emits_ret. by apply benign_exec. }
  pose proof (mkfs_guarded_pair dev out fs) as Hp. destruct (mkfsCommand fs dev) as [cmd args].
  apply emits_quiet; [apply quiet_startStage|]. intros t. apply emits_exec_bind. intros mout.
  eapply (emits_mono mkfs_guarded).
  - intros evs Hevs. by apply (stackable_app [_; _]); [apply Hp|].
  - solve_respects.
Qed.

(** The handler as a whole, given its parts. *)
Lemma frame_NodePublishVolume R `{!Frame R} ns req :
  (∀ fs, respects R (publishBody ns req fs)) →
  respects R (clearStale (pr_volumeId req)) → respects R (publishCleanup ns req) →
  respects R (NodePublishVolume ns req).
Proof. intros. unfold NodePublishVolume. solve_respects. Qed.

(** Locks are benign too. *)
Class LockBenign (P : list event → Prop) := {
  #[global] lock_benign :: FsBenign P;
  benign_lock : P [EvLock];
  benign_unlock : P [EvUnlock];
}.

Section unlocked.
Context (P : list event → Prop) `{F : !LockBenign P}.

Lemma emits_lock : respects (emits P) (emit EvLock).
Proof. apply emits_emit, benign_lock. Qed.

Lemma emits_unlock : respects (emits P) (emit EvUnlock).
Proof. apply emits_emit, benign_unlock. Qed.

#[local] Hint Resolve emits_lock emits_unlock : go.

Lemma emits_makeTarget t : respects (emits P) (makeTarget t).
Proof. unfold makeTarget, os_MkdirAll. solve_respects. Qed.

Lemma emits_reserveStage v : respects (emits P) (reserveStage v).
Proof. unfold reserveStage. solve_respects. Qed.

Lemma emits_connectNBD v sock dev : respects (emits P) (connectNBD v sock dev).
Proof. unfold connectNBD. solve_respects. Qed.

Lemma emits_clearStale v : respects (emits P) (clearStale v).
Proof. unfold clearStale. solve_respects. Qed.

Lemma emits_NodePublishVolume ns req :
  (∀ fs dev, respects (emits P) (formatIfBlank fs dev)) →
  respects (emits P) (NodePublishVolume ns req).
Proof.
  intros Hf. apply frame_NodePublishVolume; [apply _|intros fs|apply emits_clearStale|].
  - apply frame_publishBody; [apply _|apply emits_makeTarget|apply emits_reserveStage| |done].
    intros. apply emits_connectNBD.
  - unfold publishCleanup. solve_respects.
Qed.

End unlocked.

#[global] Instance mkfs_guarded_locks : LockBenign mkfs_guarded.
Proof. split; [split; [apply _|]|..]; intros; by apply each_after_single. Qed.

(** C7: In every run of NodePublishVolume, in any environment and on every path, an mkfs
    command is immediately preceded by a blkid on the same device that printed no
    file system type. (blkid's exit status is not looked at: silent_blkid_formats.) *)
Theorem publish_formats_only_blank ns req w :
  ∃ evs, w_trace (NodePublishVolume ns req w).2 = w_trace w ++ evs ∧
    ∀ i cmd args out, evs !! i = Some (EvExec cmd args out) → HasPrefix cmd "mkfs" = true →
      ∃ j dev bout, i = S j ∧
        evs !! j = Some (EvExec "blkid" ["-o"; "value"; "-s"; "TYPE"; dev] bout) ∧
        TrimSpace (co_out bout) = EmptyString ∧ last args = Some dev.
Proof.
  destruct (emits_NodePublishVolume mkfs_guarded ns req formatIfBlank_guarded w) as (evs & Hevs & Hg).
  exists evs. split; [done|]. intros i cmd args out Hi Hm.
  destruct (Hg i _ Hi Hm) as (j & e' & -> & Hj & dev & bout & cmd' & args' & mout & -> & Hb & Heq & Hl).
  simplify_eq. eauto 8.
Qed.

(** What it does not show: blkid's exit status is discarded, so a blkid that fails and
    prints nothing is followed by mkfs, whatever is on the device. *)
Theorem silent_blkid_formats fs dev w bout s1 :
  env_exec "blkid" ["-o"; "value"; "-s"; "TYPE"; dev] (w_sys w) = (bout, s1) →
  TrimSpace (co_out bout) = EmptyString →
  ∃ mout rest, w_trace (formatIfBlank fs dev w).2 = w_trace w ++
    [EvExec "blkid" ["-o"; "value"; "-s"; "TYPE"; dev] bout;
     EvExec (mkfsCommand fs dev).1 (mkfsCommand fs dev).2 mout] ++ rest.
Proof.
  intros Hb He. unfold formatIfBlank, bind at 1. cbv zeta.
  assert (exec_Command "blkid" ["-o"; "value"; "-s"; "TYPE"; dev] w =
    (bout, mkWorld s1 (w_trace w ++ [EvExec "blkid" ["-o"; "value"; "-s"; "TYPE"; dev] bout]))) as ->.
  { unfold exec_Command, sys_step, emit, modify, bind, ret. cbn [fst snd w_sys w_trace]. by rewrite Hb. }
  cbn [fst snd]. rewrite He, decide_True by done. destruct (mkfsCommand fs dev) as [cmd args]. cbn [fst snd].
  set (w1 := mkWorld _ _).
  assert (respects (emits (λ evs, ∃ mout rest, evs = EvExec cmd args mout :: rest))
    (do stage <- startStage "node_publish" "mkfs";
     do out <- exec_Command cmd args;
     match co_err out with
     | Some e =>
         run recordStageError "node_publish" "mkfs";
         run exec_Command "nbd-client" ["-d"; dev];
         fail_with (A:=unit) Internal ("failed to format NBD device: " +:+ e +:+ ", output: " +:+ TrimSpace (co_out out))
     | None => run observe stage; ret (inr tt)
     end)) as Hm.
  { apply emits_quiet; [apply quiet_startStage|]. intros st. apply emits_exec_bind. intros out.
    assert (Benign (λ _ : list event, True)) by (split; [split|..]; done).
    eapply (emits_mono (λ _, True)); [by eauto|]. solve_respects. }
  destruct (Hm w1) as (evs & Hevs & mout & rest & ->). exists mout, rest. rewrite Hevs. subst w1.
  cbn [w_trace]. by rewrite <- app_assoc.
Qed.

(** A request that passes validation. *)
Definition valid_publish (req : NodePublishVolumeRequest) (fs : string) : Prop :=
  pr_volumeId req ≠ EmptyString ∧ pr_targetPath req ≠ EmptyString ∧
  is_Some (pr_capability req) ∧ pr_context req !! "filesystem" = Some fs.

Lemma valid_publish_dec req : (∃ fs, valid_publish req fs) ∨ ∀ fs, ¬ valid_publish req fs.
Proof.
  unfold valid_publish.
  destruct (decide (pr_volumeId req = EmptyString)) as [|Hv]; [by right; intros fs (? & _)|].
  destruct (decide (pr_targetPath req = EmptyString)) as [|Ht]; [by right; intros fs (_ & ? & _)|].
  destruct (pr_capability req); [|by right; intros fs (_ & _ & [? [=]] & _)].
  destruct (pr_context req !! "filesystem") as [fs|]; [by left; exists fs|].
  by right; intros fs (_ & _ & _ & [=]).
Qed.

(** An invalid request is refused before anything happens. *)
Lemma publish_invalid ns req w :
  (∀ fs, ¬ valid_publish req fs) →
  ∃ msg, NodePublishVolume ns req w =
    (inl (mkStatus InvalidArgument msg),
     mkWorld (w_sys w) (w_trace w ++ [EvStageError "node_publish" "validate"])).
Proof.
  intros Hn. unfold NodePublishVolume, bind at 1. cbv zeta. change (startStage _ _ w).2 with w.
  repeat case_decide; [by eexists..|].
  destruct (pr_capability req) eqn:Hc; [|by eexists].
  destruct (pr_context req !! "filesystem") as [fs|] eqn:Hf; [|by eexists].
  destruct (Hn fs). unfold valid_publish. rewrite Hc. eauto.
Qed.

(** A valid one runs up to a point [w1]; a success ends there, a failure runs the
    deferred cleanup there. *)
Lemma publish_valid R `{!Frame R} ns req fs w :
  valid_publish req fs → respects R (publishBody ns req fs) → respects R (clearStale (pr_volumeId req)) →
  ∃ w1, R w w1 ∧
    match NodePublishVolume ns req w with
    | (inr _, w2) => w2 = w1
    | (inl _, w2) => w2 = (publishCleanup ns req w1).2
    end.
Proof.
  intros (Hv & Ht & [c Hc] & Hfs) Hb Hs.
  enough (wp (NodePublishVolume ns req) (λ r w2, ∃ w1, R w w1 ∧
    match r with inr _ => w2 = w1 | inl _ => w2 = (publishCleanup ns req w1).2 end) w) as (w1 & ? & Hm).
  { exists w1. split; [done|]. by destruct (NodePublishVolume ns req w) as [[]]. }
  unfold NodePublishVolume. wp_frame R w0 H0.
  rewrite !decide_False, Hc, Hfs by done. wp_frame R w1 H1. destruct a0 as [src mounted].
  case_match.
  { wp_frame R w2 H2. apply wp_ret. exists w2. split; [by do 2 (etrans; [done|])|done]. }
  wp_frame R w2 H2. wp_frame R w3 H3. wp_frame R w4 H4. destruct a2 as [st|?].
  - apply wp_bind. exists w4. split; [|done]. by do 4 (etrans; [done|]).
  - wp_frame R w5 H5. apply wp_ret. exists w5. split; [|done]. by do 5 (etrans; [done|]).
Qed.

Lemma publish_split R `{!Frame R} ns req w :
  (∀ fs, respects R (publishBody ns req fs)) → respects R (clearStale (pr_volumeId req)) →
  ∃ w1, R w w1 ∧
    match NodePublishVolume ns req w with
    | (inr _, w2) => w2 = w1
    | (inl _, w2) => w2 = w1 ∨ w2 = (publishCleanup ns req w1).2
    end.
Proof.
  intros Hb Hs. destruct (valid_publish_dec req) as [[fs Hv]|Hn].
  - destruct (publish_valid R ns req fs w Hv (Hb fs) Hs) as (w1 & ? & Hm). exists w1. split; [done|].
    destruct (NodePublishVolume ns req w) as [[]]; [by right|done].
  - destruct (publish_invalid ns req w Hn) as [msg ->]. eexists. split; [|by left].
    change (R w (recordStageError "node_publish" "validate" w).2). by apply frame_recordStageError.
Qed.

(** ** The mutex *)

(** What the mutex and the paths of an event allow, given whether the mutex is
    held: [None] is a violation. *)
Definition lock_step (held : bool) (e : event) : option bool :=
  match e with
  | EvLock => if held then None else Some true
  | EvUnlock => if held then Some false else None
  | EvFs _ p => if HasPrefix p ZeroFSRunDir && negb held then None else Some held
  | _ => Some held
  end.

Fixpoint lock_run (held : bool) (evs : list event) : option bool :=
  match evs with
  | [] => Some held
  | e :: evs' => match lock_step held e with Some b => lock_run b evs' | None => None end
  end.

Lemma lock_run_app b l k :
  lock_run b (l ++ k) = match lock_run b l with Some b' => lock_run b' k | None => None end.
Proof. revert b. induction l as [|e l IH]; intros b; simpl; [done|]. by case_match. Qed.

(** From one state of the mutex back to it, without a violation. *)
Definition steady (b : bool) (evs : list event) : Prop := lock_run b evs = Some b.

#[export] Instance steady_stackable b : Stackable (steady b).
Proof. split; [done|]. unfold steady. intros l k Hl Hk. by rewrite lock_run_app, Hl. Qed.

#[export] Instance steady_benign b : Benign (steady b).
Proof. split; try apply _; intros; try done. by destruct e. Qed.

#[export] Instance steady_locked : FsBenign (steady true).
Proof. split; [apply _|]. intros op p. unfold steady. simpl. by rewrite andb_false_r. Qed.

(** A critical section. *)
Lemma emits_critical {A B} (m : Go A) (f : A → Go B) :
  respects (emits (steady true)) m → (∀ a, respects (emits (steady false)) (f a)) →
  respects (emits (steady false)) (run emit EvLock; do a <- m; run emit EvUnlock; f a).
Proof.
  intros Hm Hf. apply emits_emit_bind.
  eapply emits_mono; [|apply (emits_seq (steady true) (λ evs, lock_run true evs = Some false)); [exact Hm|]].
  - intros evs (l & k & -> & Hl & Hk). unfold steady in *. simpl. by rewrite lock_run_app, Hl.
  - intros a. by apply emits_emit_bind, Hf.
Qed.

Lemma emits_critical_end {A} (m : Go A) :
  respects (emits (steady true)) m →
  respects (emits (steady false)) (run emit EvLock; run m; emit EvUnlock).
Proof.
  intros Hm. apply emits_emit_bind.
  eapply emits_mono; [|apply (emits_seq (steady true) (λ evs, lock_run true evs = Some false)); [exact Hm|]].
  - intros evs (l & k & -> & Hl & Hk). unfold steady in *. simpl. by rewrite lock_run_app, Hl.
  - intros a. by apply emits_emit.
Qed.

Lemma clearStale_locked v : respects (emits (steady false)) (clearStale v).
Proof.
  (* regroup the three steps of the critical section *)
  assert (∀ w, clearStale v w =
    (run emit EvLock;
     run (do st <- readVolumeNBDState v;
          match st with
          | Some staleDev =>
              do c <- isNBDConnected staleDev;
              run match c with inr true => detachNBDDeviceBestEffort staleDev | _ => ret tt end;
              clearVolumeNBDState v staleDev
          | None => ret tt
          end);
     emit EvUnlock) w) as Heq by done.
  intros w. rewrite Heq. revert w. apply emits_critical_end. solve_respects.
Qed.

Lemma reserveStage_locked v : respects (emits (steady false)) (reserveStage v).
Proof. unfold reserveStage. apply emits_critical; solve_respects. Qed.

Lemma connectNBD_locked v sock dev : respects (emits (steady false)) (connectNBD v sock dev).
Proof.
  unfold connectNBD. respects_step; [solve_respects|]. respects_step; [solve_respects|].
  intros out. destruct (co_err out); [|solve_respects]. apply emits_critical; solve_respects.
Qed.

Lemma emits_mkfs_steady fs dev : respects (emits (steady false)) (formatIfBlank fs dev).
Proof.
  unfold formatIfBlank. solve_respects. apply emits_exec; [apply _|done].
Qed.

Lemma publishBody_locked ns req fs :
  HasPrefix (pr_targetPath req) ZeroFSRunDir = false →
  respects (emits (steady false)) (publishBody ns req fs).
Proof.
  intros Ht. apply frame_publishBody; [apply _|..].
  - unfold makeTarget. respects_step; [|solve_respects]. apply emits_then_step; [apply _|].
    unfold steady. simpl. by rewrite Ht.
  - apply reserveStage_locked.
  - intros. apply connectNBD_locked.
  - intros. apply emits_mkfs_steady.
Qed.

(** C20: In NodePublishVolume every change to the state files before the deferred
    cleanup happens between a lock and an unlock of nbdMu, the mutex is never taken
    twice, and it is free when the handler returns or starts its cleanup. *)
Theorem publish_locked ns req w :
  HasPrefix (pr_targetPath req) ZeroFSRunDir = false →
  ∃ w1 evs, w_trace w1 = w_trace w ++ evs ∧ lock_run false evs = Some false ∧
    match NodePublishVolume ns req w with
    | (inr _, w2) => w2 = w1
    | (inl _, w2) => w2 = w1 ∨ w2 = (publishCleanup ns req w1).2
    end.
Proof.
  intros Ht.
  destruct (publish_split (emits (steady false)) ns req w) as (w1 & (evs & ? & ?) & Hw).
  - intros fs. by apply publishBody_locked.
  - apply clearStale_locked.
  - exists w1, evs. destruct (NodePublishVolume ns req w) as [[]]; by destruct_and?.
Qed.

(** ** Requests *)

Definition findmnt_args (target : string) : list string := ["-n"; "-o"; "SOURCE"; "--target"; target].

(** What [findMountSource] makes of findmnt's answer. *)
Definition mount_source (out : CmdOut) : string * bool :=
  match co_err out with
  | Some _ => (EmptyString, false)
  | None => (TrimSpace (co_out out), bool_decide (TrimSpace (co_out out) ≠ EmptyString))
  end.

Lemma findMountSource_eq t w out s1 :
  env_exec "findmnt" (findmnt_args t) (w_sys w) = (out, s1) →
  findMountSource t w = (mount_source out, mkWorld s1 (w_trace w ++ [EvExec "findmnt" (findmnt_args t) out])).
Proof.
  intros Hx. unfold findMountSource, exec_Command, sys_step, emit, modify, bind, ret. cbv zeta.
  cbn [fst snd w_sys w_trace]. fold (findmnt_args t). rewrite Hx. cbn [fst snd].
  unfold mount_source. by destruct (co_err out).
Qed.

(** C22: A publish request without a volume ID, target, capability or file system is
    answered with InvalidArgument, changes nothing in the system and counts one
    validation error. *)
Theorem publish_rejects_invalid ns req w :
  (pr_volumeId req = EmptyString ∨ pr_targetPath req = EmptyString ∨
   pr_capability req = None ∨ pr_context req !! "filesystem" = None) →
  ∃ msg, NodePublishVolume ns req w =
    (inl (mkStatus InvalidArgument msg),
     mkWorld (w_sys w) (w_trace w ++ [EvStageError "node_publish" "validate"])).
Proof.
  intros H. apply publish_invalid. intros fs (Hv & Ht & [c Hc] & Hfs). destruct_or! H; congruence.
Qed.

Lemma publish_mounted ns req fs w out s1 :
  valid_publish req fs →
  env_exec "findmnt" (findmnt_args (pr_targetPath req)) (w_sys w) = (out, s1) →
  co_err out = None → HasPrefix (TrimSpace (co_out out)) "/dev/nbd" = true →
  ∃ d, NodePublishVolume ns req w =
    (inr tt, mkWorld s1 (w_trace w ++
       [EvExec "findmnt" (findmnt_args (pr_targetPath req)) out;
        EvObserve "node_publish" "total" d])).
Proof.
  intros (Hv & Ht & [c Hc] & Hfs) Hx He Hp.
  unfold NodePublishVolume, bind at 1. cbv zeta. change (startStage _ _ w).2 with w.
  rewrite !decide_False, Hc, Hfs by done.
  unfold bind at 1. cbv zeta. rewrite (findMountSource_eq _ w out s1 Hx). cbn [fst snd].
  unfold mount_source. rewrite He, Hp, bool_decide_eq_true_2 by (intros Heq; by rewrite Heq in Hp).
  eexists. cbn [andb]. unfold observe, bind, emit, modify, time_Since, sys_read, ret.
  cbn [fst snd w_sys w_trace]. rewrite <- app_assoc. done.
Qed.

(** C21: When the target is already mounted from an NBD device, NodePublishVolume
    returns success after that one look and touches nothing else. *)
Theorem publish_idempotent ns req fs w out s1 :
  valid_publish req fs →
  env_exec "findmnt" (findmnt_args (pr_targetPath req)) (w_sys w) = (out, s1) →
  co_err out = None → HasPrefix (TrimSpace (co_out out)) "/dev/nbd" = true →
  ∃ d, NodePublishVolume ns req w =
    (inr tt, mkWorld s1 (w_trace w ++
       [EvExec "findmnt" (findmnt_args (pr_targetPath req)) out;
        EvObserve "node_publish" "total" d])).
Proof. apply publish_mounted. Qed.

(** ** Detaching *)

Definition detach_event (dev : string) (out : CmdOut) : event := EvExec "nbd-client" ["-d"; dev] out.

(** Failed attempts, each followed by a pause. *)
Definition failed_attempts (dev : string) (fails : list CmdOut) : list event :=
  flat_map (λ out, [detach_event dev out; EvSleep (500 * millisecond)]) fails.

(** [n] attempts at most, up to the first that succeeds. *)
Definition attempts (dev : string) (n : nat) (evs : list event) : Prop :=
  ∃ fails tail, evs = failed_attempts dev fails ++ tail ∧ Forall (λ out, co_err out ≠ None) fails ∧
    ((tail = [] ∧ length fails = n) ∨
     (∃ out, tail = [detach_event dev out] ∧ co_err out = None ∧ length fails < n)).

Lemma detach_attempts_trace n dev : respects (emits (attempts dev n)) (detach_attempts n dev).
Proof.
  induction n as [|n IH]; cbn [detach_attempts].
  { apply emits_ret. exists [], []. split; [done|]. split; [done|]. by left. }
  apply emits_exec_bind. intros out. destruct (co_err out) eqn:He.
  - intros w. destruct (IH (time_Sleep (500 * millisecond) w).2) as (evs & Hevs & fails & tail & -> & Hf & Ht).
    exists (EvSleep (500 * millisecond) :: failed_attempts dev fails ++ tail). split.
    + unfold bind. cbv zeta. rewrite Hevs. simpl. by rewrite <- app_assoc.
    + exists (out :: fails), tail. split; [done|]. split; [constructor; [by rewrite He|done]|].
      destruct Ht as [[-> <-]|(o & -> & ? & ?)]; [by left|]. right. exists o. simpl. split_and!; [done..|lia].
  - apply emits_ret. exists [], [detach_event dev out]. split; [done|]. split; [done|].
    right. exists out. simpl. split_and!; [done..|lia].
Qed.

(** C28: detachNBDDeviceBestEffort runs nbd-client -d until it succeeds and at most five
    times, pausing after each failure. *)
Theorem detach_bounded dev w :
  TrimSpace dev ≠ EmptyString →
  ∃ fails tail, w_trace (detachNBDDeviceBestEffort dev w).2 =
      w_trace w ++ failed_attempts (TrimSpace dev) fails ++ tail ∧
    Forall (λ out, co_err out ≠ None) fails ∧
    ((tail = [] ∧ length fails = 5) ∨
     (∃ out, tail = [detach_event (TrimSpace dev) out] ∧ co_err out = None ∧ length fails < 5)).
Proof.
  intros Hd. unfold detachNBDDeviceBestEffort. rewrite decide_False by done.
  destruct (detach_attempts_trace 5 (TrimSpace dev) w) as (evs & Hevs & fails & tail & -> & ? & ?). eauto 6.
Qed.

(** ** The startup reconciler *)

(** The commands of an attempt to detach [dev]. *)
Definition detaching (dev : string) (e : event) : Prop :=
  (∃ out, e = detach_event dev out) ∨ e = EvSleep (500 * millisecond).

Definition not_mounted (out : CmdOut) : Prop := co_err out ≠ None ∨ TrimSpace (co_out out) = EmptyString.

(** Every detach follows a look at the mount table that found the device nowhere,
    with nothing but attempts on the same device in between. *)
Definition detach_checked (evs : list event) : Prop :=
  ∀ i dev out, evs !! i = Some (detach_event dev out) →
    ∃ j fout, (j < i)%nat ∧ evs !! j = Some (EvExec "findmnt" ["-n"; "-S"; dev] fout) ∧ not_mounted fout ∧
      ∀ k e, (j < k < i)%nat → evs !! k = Some e → detaching dev e.

#[export] Instance detach_checked_stackable : Stackable detach_checked.
Proof.
  split; [by intros i dev out Hi|]. intros l k Hl Hk i dev out Hi.
  apply lookup_app_Some in Hi as [Hi|[Hge Hi]].
  - destruct (Hl i dev out Hi) as (j & fout & Hj & Hfj & Hn & Hbetween). exists j, fout.
    split; [done|]. split; [by apply lookup_app_l_Some|]. split; [done|].
    intros x e Hx Hlook. apply (Hbetween x e Hx). rewrite lookup_app_l in Hlook; [done|].
    apply lookup_lt_Some in Hi. lia.
  - destruct (Hk _ dev out Hi) as (j & fout & Hj & Hfj & Hn & Hbetween). exists (length l + j)%nat, fout.
    split; [lia|]. split; [rewrite lookup_app_r by lia; by replace (_ + j - _)%nat with j by lia|].
    split; [done|]. intros x e Hx Hlook. rewrite lookup_app_r in Hlook by lia.
    apply (Hbetween (x - length l)%nat e); [lia|done].
Qed.

Lemma detaching_attempts dev n evs : attempts dev n evs → Forall (detaching dev) evs.
Proof.
  intros (fails & tail & -> & _ & Ht). apply Forall_app_2.
  - clear Ht. induction fails as [|o fails IH]; [done|]. simpl.
    constructor; [by left; eexists|]. constructor; [by right|done].
  - destruct Ht as [[-> _]|(o & -> & _)]; [done|]. constructor; [by left; eexists|done].
Qed.

Lemma checked_detach dev fout evs :
  not_mounted fout → Forall (detaching dev) evs →
  detach_checked (EvExec "findmnt" ["-n"; "-S"; dev] fout :: evs).
Proof.
  intros Hn Hevs i d out Hi. destruct i as [|i]; [done|]. simpl in Hi.
  rewrite Forall_lookup in Hevs. destruct (Hevs i _ Hi) as [[o Heq]|Heq]; [|done].
  unfold detach_event in Heq. simplify_eq. exists 0%nat, fout. split; [lia|]. split; [done|]. split; [done|].
  intros [|x] e Hx Hlook; [lia|]. simpl in Hlook. by apply (Hevs x).
Qed.

Lemma reconcileLoop_checked devs i j :
  Forall (λ d, nbdDevicePathRe d = true) devs →
  respects (emits detach_checked) (reconcileLoop devs i j).
Proof.
  intros Hd. revert i j. induction Hd as [|dev devs Hdev Hdevs IH]; intros i j; cbn [reconcileLoop].
  { solve_respects. }
  respects_step; [solve_respects|]. intros done. destruct done; [solve_respects|].
  respects_step; [unfold isNBDConnected, os_ReadFile; solve_respects|]. intros [e|[]]; [done| |done].
  apply emits_exec_bind. intros out. case_bool_decide as Hm.
  - eapply emits_mono; [|apply IH]. intros evs. apply (stackable_app [_]). intros x d o Hx.
    by apply list_lookup_singleton_Some in Hx as [_ [=]].
  - assert (not_mounted out) as Hn.
    { unfold not_mounted. destruct (co_err out); [by left|right].
      destruct (decide (TrimSpace (co_out out) = EmptyString)); tauto. }
    eapply emits_mono; [|apply (emits_seq (Forall (detaching dev)) detach_checked); [|by intros _; apply IH]].
    + intros evs (l & k & -> & Hl & Hk). apply (stackable_app (_ :: l)); [|done]. by apply checked_detach.
    + unfold detachNBDDeviceBestEffort. rewrite device_trim, decide_False by (done || by intros ->).
      eapply emits_mono; [apply detaching_attempts|apply detach_attempts_trace].
Qed.

(** C27: The startup reconciler detaches a device only after a findmnt on that device
    found no mount, with nothing but attempts at that detach and their pauses in
    between. *)
Theorem reconcile_spares_mounted w :
  ∃ evs, w_trace (reconcileOrphanedNBDDevices w).2 = w_trace w ++ evs ∧
    ∀ i dev out, evs !! i = Some (EvExec "nbd-client" ["-d"; dev] out) →
      ∃ j fout, (j < i)%nat ∧ evs !! j = Some (EvExec "findmnt" ["-n"; "-S"; dev] fout) ∧
        (co_err fout ≠ None ∨ TrimSpace (co_out fout) = EmptyString) ∧
        ∀ k e, (j < k < i)%nat → evs !! k = Some e →
          (∃ out', e = EvExec "nbd-client" ["-d"; dev] out') ∨ e = EvSleep (500 * millisecond).
Proof.
  unfold reconcileOrphanedNBDDevices, bind. rewrite NbdReserve.listNBDDevices_eq.
  destruct (reconcileLoop_checked (NbdReserve.devices w) 0 0) with w as (evs & Hevs & Hc).
  - apply Forall_forall. intros d Hd. by apply NbdReserve.elem_of_devices in Hd as [? _].
  - exists evs. split; [exact Hevs|]. exact Hc.
Qed.

(** Devices that stay disconnected, because nothing the reconciler runs connects
    them, are not touched: [I] is an invariant of the node. *)
Section idle.
Context (I : Sys ext → Prop) (dev : string).
Hypothesis I_findmnt : ∀ d s, I s → I (env_exec "findmnt" ["-n"; "-S"; d] s).2.
Hypothesis I_detach : ∀ d s, I s → I (env_exec "nbd-client" ["-d"; d] s).2.
Hypothesis I_sleep : ∀ d s, I s → I (env_sleep d s).
Hypothesis I_idle : ∀ s, I s → NbdReserve.connection s dev ≠ inr true.

Definition untouched : relation World :=
  λ w w', I (w_sys w) → I (w_sys w') ∧
    ∃ evs, w_trace w' = w_trace w ++ evs ∧ Forall (λ e, ∀ out, e ≠ detach_event dev out) evs.

#[local] Instance untouched_preorder : PreOrder untouched.
Proof.
  split.
  - intros w HI. split; [done|]. exists []. by rewrite app_nil_r.
  - intros w1 w2 w3 H12 H23 HI. destruct (H12 HI) as (HI2 & l & Hl & Hfl).
    destruct (H23 HI2) as (HI3 & k & Hk & Hfk). split; [done|]. exists (l ++ k).
    rewrite Hk, Hl, app_assoc. split; [done|]. by apply Forall_app_2.
Qed.

Lemma untouched_exec cmd args :
  (∀ s, I s → I (env_exec cmd args s).2) → (∀ out, EvExec cmd args out ≠ detach_event dev out) →
  respects untouched (exec_Command cmd args).
Proof.
  intros HIx Hne w HI. split; [by apply HIx|]. eexists [_]. split; [done|]. constructor; [|done].
  intros out [= -> -> _]. by apply (Hne out).
Qed.

Lemma untouched_sleep d : respects untouched (time_Sleep d).
Proof. intros w HI. split; [by apply I_sleep|]. eexists [_]. split; [done|]. by repeat constructor. Qed.

#[local] Hint Resolve untouched_sleep : go.

Lemma untouched_detach d : nbdDevicePathRe d = true → d ≠ dev → respects untouched (detachNBDDeviceBestEffort d).
Proof.
  intros Hd Hne. unfold detachNBDDeviceBestEffort. rewrite device_trim by done. case_decide; [solve_respects|].
  generalize 5%nat. intros n. induction n as [|n IH]; cbn [detach_attempts]; solve_respects.
  apply untouched_exec; [by apply I_detach|]. intros out [=]. congruence.
Qed.

Lemma untouched_loop devs i j :
  Forall (λ d, nbdDevicePathRe d = true) devs → respects untouched (reconcileLoop devs i j).
Proof.
  intros Hd. revert i j. induction Hd as [|d devs Hdev Hdevs IH]; intros i j; cbn [reconcileLoop]; [solve_respects|].
  respects_step; [solve_respects|]. intros done. destruct done; [solve_respects|].
  destruct (decide (d = dev)) as [->|Hne].
  - intros w. destruct (NbdReserve.isNBDConnected_runs (w_sys w) dev w eq_refl) as [Hr Hs].
    assert ((isNBDConnected dev w).2 = w) as Hw.
    { unfold isNBDConnected, os_ReadFile, sys_read, bind. cbn [fst snd]. repeat case_match; done. }
    unfold bind at 1. cbv zeta. rewrite Hr, Hw.
    destruct (NbdReserve.connection (w_sys w) dev) as [e|[]] eqn:Hc; [by apply IH| |by apply IH].
    intros HI. by destruct (I_idle _ HI).
  - respects_step; [unfold isNBDConnected, os_ReadFile; solve_respects|]. intros [e|[]]; [by auto| |by auto].
    respects_step; [by apply untouched_exec; [apply I_findmnt|]|]. intros out. case_bool_decide; [by auto|].
    respects_step; [by apply untouched_detach|by auto].
Qed.

End idle.

(** A device that stays disconnected while the startup reconciler runs its commands is
    never detached by it. *)
Theorem reconcile_spares_disconnected (I : Sys ext → Prop) dev w :
  (∀ d s, I s → I (env_exec "findmnt" ["-n"; "-S"; d] s).2) →
  (∀ d s, I s → I (env_exec "nbd-client" ["-d"; d] s).2) → (∀ d s, I s → I (env_sleep d s)) →
  (∀ s, I s → (isNBDConnected dev (mkWorld s [])).1 ≠ inr true) → I (w_sys w) →
  ∃ evs, w_trace (reconcileOrphanedNBDDevices w).2 = w_trace w ++ evs ∧
    ∀ out, EvExec "nbd-client" ["-d"; dev] out ∉ evs.
Proof.
  intros Hx Hx' Hs Hi HI. unfold reconcileOrphanedNBDDevices, bind. rewrite NbdReserve.listNBDDevices_eq.
  destruct (untouched_loop I dev Hx Hx' Hs Hi (NbdReserve.devices w) 0 0) with w as (_ & evs & Hevs & Hf).
  - apply Forall_forall. intros d Hd. by apply NbdReserve.elem_of_devices in Hd as [? _].
  - done.
  - exists evs. split; [exact Hevs|]. intros out Hin. rewrite Forall_forall in Hf. by apply (Hf _ Hin out).
Qed.

End node.

(** ** On the concrete node *)

Section witnesses.
Import SimRun.

Lemma publish_locked_witness :
  ∃ w1 evs, w_trace w1 = w_trace world0 ++ evs ∧ lock_run false evs = Some false ∧
    match NodePublishVolume ns0 publish0 world0 with
    | (inr _, w2) => w2 = w1
    | (inl _, w2) => w2 = w1 ∨ w2 = (publishCleanup ns0 publish0 w1).2
    end.
Proof. pose proof (publish_locked ns0 publish0 world0) as Hthm; apply Hthm. by_compute. Defined.

(** The deferred cleanup of a failed publish changes the state files without holding
    nbdMu: a publish whose mkfs fails is such a run. *)
Theorem failed_publish_unlocked :
  let w := broken_world ["mkfs.ext4"] in
  let r := NodePublishVolume ns0 publish0 w in
  r.1 = inl (mkStatus Internal "failed to format NBD device: exit status 1, output: mkfs.ext4: failed") ∧
  lock_run false (w_trace r.2) = None.
Proof. split; by_compute. Qed.

Lemma publish_rejects_invalid_witness :
  ∃ msg, NodePublishVolume ns0 (mkPublish "pvc-1" target0 None context0) world0 =
    (inl (mkStatus InvalidArgument msg),
     mkWorld (w_sys world0) (w_trace world0 ++ [EvStageError "node_publish" "validate"])).
Proof.
  pose proof (publish_rejects_invalid ns0 (mkPublish "pvc-1" target0 None context0) world0) as Hthm; apply Hthm.
  right. right. by left.
Defined.

Lemma publish_idempotent_witness :
  ∃ d, NodePublishVolume ns0 publish0 published =
    (inr tt, mkWorld (env_exec "findmnt" (findmnt_args target0) (w_sys published)).2 (w_trace published ++
       [EvExec "findmnt" (findmnt_args target0)
          (env_exec "findmnt" (findmnt_args target0) (w_sys published)).1;
        EvObserve "node_publish" "total" d])).
Proof.
  pose proof (publish_idempotent ns0 publish0 "ext4" published) as Hthm; apply Hthm.
  - split; [done|]. split; [done|]. split; [by eexists|by_compute].
  - apply surjective_pairing.
  - by_compute.
  - by_compute.
Defined.

Lemma detach_bounded_witness :
  ∃ fails tail, w_trace (detachNBDDeviceBestEffort "/dev/nbd0" (broken_world ["nbd-client"])).2 =
      w_trace (broken_world ["nbd-client"]) ++ failed_attempts (TrimSpace "/dev/nbd0") fails ++ tail ∧
    Forall (λ out, co_err out ≠ None) fails ∧
    ((tail = [] ∧ length fails = 5) ∨
     (∃ out, tail = [detach_event (TrimSpace "/dev/nbd0") out] ∧ co_err out = None ∧ length fails < 5)).
Proof. pose proof (detach_bounded "/dev/nbd0" (broken_world ["nbd-client"])) as Hthm; apply Hthm. by intros [=]. Defined.

(** No process serves /dev/nbd1. *)
Definition idle1 (s : Sys ext) : Prop := sys_fs s !! "/sys/block/nbd1/pid" = None.

Lemma idle1_put p s : idle1 s → idle1 (put p None s).
Proof.
  unfold idle1, put. case_match; [done|]. simpl. intros Hs.
  destruct (decide (p = "/sys/block/nbd1/pid")) as [->|].
  - by rewrite lookup_partial_alter_eq.
  - by rewrite lookup_partial_alter_ne.
Qed.

Lemma reconcile_spares_disconnected_witness :
  ∃ evs, w_trace (reconcileOrphanedNBDDevices published).2 = w_trace published ++ evs ∧
    ∀ out, EvExec "nbd-client" ["-d"; "/dev/nbd1"] out ∉ evs.
Proof.
  pose proof (reconcile_spares_disconnected idle1 "/dev/nbd1" published) as Hthm. apply Hthm.
  - intros d s Hs. change (idle1 (sim_exec "findmnt" ["-n"; "-S"; d] s).2).
    unfold sim_exec. case_match; [done|]. rewrite decide_True by done. unfold findmnt, ok, failed. by case_match.
  - intros d s Hs. change (idle1 (sim_exec "nbd-client" ["-d"; d] s).2).
    unfold sim_exec. case_match; [done|]. rewrite !decide_False, decide_True by done. by apply idle1_put.
  - done.
  - intros s Hs. unfold isNBDConnected, os_ReadFile, bind, sys_read. cbn [fst snd w_sys].
    change (PathJoin _) with (PathJoin ["/sys/block"; "nbd1"; "pid"]).
    unfold read_file. rewrite PathJoin_plain3 by done.
    change ("/sys/block" +:+ _) with "/sys/block/nbd1/pid". rewrite Hs. by destruct (env_fault _ _ _).
  - by_compute.
Defined.

End witnesses.

End NodeTrace.
