(* ===== verification/NodeState.v ===== *)
(** * What the node service leaves in its state files (pkg/csi/node.go, nbd.go)

    The commands and the API server leave the run directory alone ([EnvKeeps],
    [KubeKeeps]) and input and output in it works ([Healthy]); under these
    assumptions a publish that fails and every unpublish leave the volume without a
    device, a publish that succeeds leaves it with the device it mounted, and
    neither touches what other volumes hold. *)

From S2P Require Import Prelude GoStrings GoPath World Metrics Kube Zerofs Nbd NbdReserve Node NodeFrame NodeTrace SimRun.

Import NbdReserve NodeTrace.

Module NodeState.

(** ** Reservations are never state files *)

Lemma split_bytes_pieces l : Forall (λ p, slash ∉ p) (split_bytes slash l).
Proof.
  induction l as [|c l IH]; simpl; [constructor; [set_solver|done]|].
  case_decide as Hc; [constructor; [set_solver|done]|].
  destruct (split_bytes slash l) as [|p ps]; [constructor; [set_solver|done]|].
  apply Forall_cons in IH as [Hp Hps]. constructor; [set_solver|done].
Qed.

Lemma Base_no_slash p : Base p = slash_s ∨ no_slash (Base p) = true.
Proof.
  unfold Base. case_decide; [by right|]. case_match; [by left|]. right.
  unfold no_slash. rewrite bytes_of_bytes. apply bool_decide_eq_true.
  destruct (last _) as [q|] eqn:Hl; simpl; [|set_solver].
  apply last_Some_elem_of in Hl. pose proof (split_bytes_pieces (a :: l)) as Hf.
  rewrite Forall_forall in Hf. by apply Hf.
Qed.

(** Whatever the state file of a volume names. *)
Lemma reservationPath_not_state v x :
  good_volume v = true → volumeNBDStatePath v ≠ deviceReservationPath x.
Proof.
  intros Hv. assert (plain v = true) as Hp by (by apply good_volume_plain).
  unfold deviceReservationPath. generalize (TrimSpace x). clear x. intros x.
  destruct (plain (Base x)) eqn:Hb.
  - rewrite statePath_eq, PathJoin_plain by done. unfold nbdByDeviceDir.
    rewrite <- (assoc_L String.append). intros Heq. apply (inj _) in Heq.
    change ("/by-device" +:+ slash_s +:+ Base x) with (slash_s +:+ "by-device/" +:+ Base x) in Heq.
    apply (inj _) in Heq. subst v. apply plain_no_slash in Hp. unfold no_slash in Hp.
    apply bool_decide_eq_true in Hp. apply Hp. rewrite bytes_app. apply elem_of_app. left.
    by apply (bool_decide_unpack (slash ∈ bytes "by-device/")).
  - pose proof (statePath_not_dir v Hv) as Hd. unfold run_dirs in Hd. intros Heq. rewrite Heq in Hd.
    destruct (Base_no_slash x) as [Hs|Hs].
    + rewrite Hs in Hd. apply Hd. rewrite !elem_of_cons. right. right. left. by_compute.
    + unfold plain in Hb. rewrite Hs in Hb. simpl in Hb. apply bool_decide_eq_false in Hb.
      apply Hd. rewrite !elem_of_cons.
      assert (Base x = EmptyString ∨ Base x = "." ∨ Base x = "..") as [->|[->| ->]].
      { destruct (decide (Base x = EmptyString)), (decide (Base x = ".")), (decide (Base x = "..")); tauto. }
      * right. right. left. by_compute.
      * right. right. left. by_compute.
      * right. left. by_compute.
Qed.

(** The reservation of anything a state file may name is in the run directory. *)
Lemma any_reservation_in_run d : in_run_dir (deviceReservationPath d).
Proof.
  unfold deviceReservationPath. generalize (TrimSpace d). clear d. intros x.
  destruct (plain (Base x)) eqn:Hb.
  { rewrite PathJoin_plain by done. unfold nbdByDeviceDir. rewrite <- (assoc_L String.append). apply in_run_dir_app. }
  destruct (Base_no_slash x) as [Hs|Hs]; [rewrite Hs; by_compute|].
  unfold plain in Hb. rewrite Hs in Hb. simpl in Hb. apply bool_decide_eq_false in Hb.
  assert (Base x = EmptyString ∨ Base x = "." ∨ Base x = "..") as [->|[->| ->]]; [|by_compute..].
  destruct (decide (Base x = EmptyString)), (decide (Base x = ".")), (decide (Base x = "..")); tauto.
Qed.

(** ** The state files of the other volumes *)

Definition other_state (v p : string) : Prop :=
  ∃ v', good_volume v' = true ∧ v' ≠ v ∧ p = volumeNBDStatePath v'.

Lemma other_state_in_run v p : other_state v p → in_run_dir p.
Proof. intros (v' & Hv' & _ & ->). by apply statePath_in_run, good_volume_plain. Qed.

Lemma other_state_self v : good_volume v = true → ¬ other_state v (volumeNBDStatePath v).
Proof.
  intros Hv (v' & Hv' & Hne & Heq). apply Hne. symmetry.
  apply statePath_inj; [by apply good_volume_plain..|done].
Qed.

Lemma other_state_reservation v x : ¬ other_state v (deviceReservationPath x).
Proof. intros (v' & Hv' & _ & Heq). by apply (reservationPath_not_state v' x). Qed.

Lemma other_state_dir v p : p ∈ run_dirs → ¬ other_state v p.
Proof. intros Hp (v' & Hv' & _ & ->). by apply (statePath_not_dir v'). Qed.

(** The directories above a path. *)
Lemma ancestors_prefix acc l p :
  p ∈ ancestors acc l → ∃ r, of_bytes (reverse acc ++ l) = p +:+ r.
Proof.
  revert acc. induction l as [|c l IH]; intros acc Hp; simpl in Hp.
  { apply list_elem_of_singleton in Hp as ->. exists EmptyString. by rewrite app_nil_r, append_nil_r. }
  assert (p ∈ ancestors (c :: acc) l → ∃ r, of_bytes (reverse acc ++ c :: l) = p +:+ r) as Hnext.
  { intros H. apply IH in H as [r Hr]. exists r. rewrite reverse_cons, <- app_assoc in Hr. done. }
  case_decide; [|by apply Hnext]. destruct acc as [|a acc]; [by apply Hnext|].
  case_decide; [by apply Hnext|]. apply elem_of_cons in Hp as [->|Hp]; [|by apply Hnext].
  exists (of_bytes (c :: l)). by rewrite of_bytes_app.
Qed.

Lemma target_ancestors t p :
  HasPrefix t ZeroFSRunDir = false → p ∈ ancestors [] (bytes t) → ¬ in_run_dir p.
Proof.
  intros Ht Hp Hrun. apply ancestors_prefix in Hp as [r Hr]. simpl in Hr.
  rewrite of_bytes_bytes in Hr. unfold in_run_dir in Hrun. apply HasPrefix_spec in Hrun as [q ->].
  subst t. rewrite <- (assoc_L String.append), HasPrefix_app in Ht. done.
Qed.

(** What the operations on the state files of a volume leave alone. *)
Section files.
Context `{E : !Environment} (v : string) (Hv : good_volume v = true).

Abbreviation K := (keeps (other_state v)).

#[local] Hint Resolve keeps_Remove keeps_WriteFile keeps_OpenExcl keeps_WriteString keeps_emit
  other_state_self other_state_reservation : go.

Lemma keeps_MkdirAll p :
  (∀ q, q ∈ ancestors [] (bytes p) → ¬ other_state v q) → respects K (os_MkdirAll p).
Proof.
  intros Hp. apply respects_bind; [apply _|apply keeps_emit|intros _].
  apply keeps_sys_step. intros s q Hq. apply mkdir_each_ne. intros Hin. by apply (Hp q).
Qed.

Lemma keeps_ensureRunDirs : respects K ensureRunDirs.
Proof.
  assert (∀ p, ancestors [] (bytes p) ⊆ run_dirs → respects K (os_MkdirAll p)) as Hm.
  { intros p Hp. apply keeps_MkdirAll. intros q Hq. by apply other_state_dir, Hp. }
  unfold ensureRunDirs. respects_step.
  { apply Hm. rewrite run_dir_ancestors. unfold run_dirs. set_solver. }
  intros [e|]; [solve_respects|]. respects_step; [|solve_respects].
  apply Hm. by rewrite by_device_ancestors.
Qed.

#[local] Hint Resolve keeps_ensureRunDirs : go.

Lemma keeps_clear d : respects K (clearVolumeNBDState v d).
Proof. unfold clearVolumeNBDState. solve_respects. Qed.

Lemma keeps_writeState d : respects K (writeVolumeNBDState v d).
Proof. unfold writeVolumeNBDState. solve_respects. Qed.

Lemma keeps_gc d : respects K (gcReservation (deviceReservationPath d)).
Proof. unfold gcReservation, mustReadFile, os_Stat, os_ReadFile, time_Since. solve_respects. Qed.

#[local] Hint Resolve keeps_clear keeps_writeState keeps_gc : go.

Lemma keeps_reserve : respects K (reserveNBDDevice v).
Proof.
  assert (∀ ds, respects K (reserveScan v ds)).
  { induction ds as [|d ds IH]; cbn [reserveScan]; unfold isNBDConnected, os_ReadFile; solve_respects. }
  assert (respects K (reserveFresh v)).
  { unfold reserveFresh, listNBDDevices, filepath_Glob. solve_respects. }
  unfold reserveNBDDevice, reserveInDirs, readVolumeNBDState, os_ReadFile, os_Stat. solve_respects.
Qed.

End files.

Section state.
Context `{E : !Environment, C : !KubeClient, Q : !QuantityParser}.
Context `{EK : !EnvKeeps in_run_dir, KK : !KubeKeeps in_run_dir, HL : !Healthy in_run_dir}.

#[local] Instance other_env v : EnvKeeps (other_state v).
Proof. split; intros; [apply exec_keeps|apply sleep_keeps|apply select_keeps]; by eapply other_state_in_run. Qed.

#[local] Instance other_kube v : KubeKeeps (other_state v).
Proof. intros A op s p Hp. apply kube_keeps. by eapply other_state_in_run. Qed.

Section one_volume.
Context (v : string) (Hv : good_volume v = true).

Abbreviation K := (keeps (other_state v)).

#[local] Hint Resolve keeps_emit keeps_reserve keeps_clear : go.

Lemma keeps_makeTarget t : HasPrefix t ZeroFSRunDir = false → respects K (makeTarget t).
Proof.
  intros Ht. unfold makeTarget. respects_step; [|solve_respects].
  apply keeps_MkdirAll. intros q Hq Ho. by eapply target_ancestors, other_state_in_run.
Qed.

Lemma keeps_format fs d : respects K (formatIfBlank fs d).
Proof. unfold formatIfBlank. solve_respects. Qed.

Lemma keeps_publish ns req :
  pr_volumeId req = v → HasPrefix (pr_targetPath req) ZeroFSRunDir = false →
  respects K (NodePublishVolume ns req).
Proof.
  intros Hreq Ht. apply frame_NodePublishVolume; [apply _|intros fs|..].
  - apply frame_publishBody; [apply _|by apply keeps_makeTarget|..|intros; apply keeps_format];
      rewrite Hreq; unfold reserveStage, connectNBD; solve_respects.
  - rewrite Hreq. unfold clearStale. solve_respects.
  - unfold publishCleanup. rewrite Hreq. solve_respects.
Qed.

Lemma keeps_unpublish ns req : ur_volumeId req = v → respects K (NodeUnpublishVolume ns req).
Proof. intros Hreq. unfold NodeUnpublishVolume. rewrite Hreq. cbv zeta. solve_respects. Qed.

End one_volume.

(** C11: Publishing or unpublishing one volume, with any outcome, leaves the device
    recorded for every other volume as it was. *)
Theorem volumes_independent ns req ureq w v d :
  good_volume (pr_volumeId req) = true → HasPrefix (pr_targetPath req) ZeroFSRunDir = false →
  ur_volumeId ureq = pr_volumeId req → good_volume v = true → v ≠ pr_volumeId req →
  (holds (w_sys (NodePublishVolume ns req w).2) v d ↔ holds (w_sys w) v d) ∧
  (holds (w_sys (NodeUnpublishVolume ns ureq w).2) v d ↔ holds (w_sys w) v d).
Proof.
  intros Hr Ht Hu Hv Hne.
  assert (other_state (pr_volumeId req) (volumeNBDStatePath v)) as Ho by (by exists v).
  split; apply holds_frame.
  - by apply (keeps_publish (pr_volumeId req)).
  - by apply (keeps_unpublish (pr_volumeId req)).
Qed.

(** ** Clearing a volume *)

Lemma no_holds_none s v d : sys_fs s !! volumeNBDStatePath v = None → ¬ holds s v d.
Proof. intros Hn (f & Hf & _). by rewrite Hn in Hf. Qed.

(** The volume's state file, if there is one, goes. *)
Lemma clear_no_holds v x w d :
  good_volume v = true → ¬ holds (w_sys (clearVolumeNBDState v x w).2) v d.
Proof.
  intros Hv. assert (in_run_dir (volumeNBDStatePath v)) as Hp by (by apply statePath_in_run, good_volume_plain).
  set (w1 := (os_Remove (volumeNBDStatePath v) w).2).
  assert (¬ holds (w_sys w1) v d) as Hw1.
  { intros (f & Hf & Hdir & _). unfold w1, os_Remove, bind, sys_step in Hf. simpl in Hf.
    unfold remove_file in Hf. rewrite healthy in Hf by done.
    destruct (sys_fs (w_sys w) !! volumeNBDStatePath v) as [g|] eqn:Hg; simpl in Hf; [|congruence].
    case_match; simpl in Hf; [|by rewrite lookup_partial_alter_eq in Hf].
    assert (f_dir g = true) by (by destruct (f_dir g)). congruence. }
  unfold clearVolumeNBDState, bind at 1. cbv zeta. fold w1. clearbody w1. case_decide; [exact Hw1|].
  intros Hh. apply Hw1. revert Hh. apply holds_frame. unfold bind, ret. cbv zeta. cbn [snd].
  unfold os_Remove, bind, sys_step. cbn [snd w_sys].
  symmetry. apply remove_file_ne. intros Heq. by apply (reservationPath_not_state v x).
Qed.

Definition own_state (v p : string) : Prop := p = volumeNBDStatePath v.

#[local] Instance run_frame : Frame (keeps in_run_dir).
Proof. apply _. Qed.

(** An operation that leaves the run directory alone. *)
Lemma quiet_no_holds {A} (m : Go A) v w d :
  good_volume v = true → respects (keeps in_run_dir) m → ¬ holds (w_sys w) v d →
  ¬ holds (w_sys (m w).2) v d.
Proof.
  intros Hv Hm Hn Hh. apply Hn. revert Hh. apply holds_frame. symmetry. apply Hm.
  by apply statePath_in_run, good_volume_plain.
Qed.

Lemma cleanup_no_holds ns req w d :
  good_volume (pr_volumeId req) = true → ¬ holds (w_sys (publishCleanup ns req w).2) (pr_volumeId req) d.
Proof.
  intros Hv. unfold publishCleanup. unfold bind at 1. cbv zeta.
  generalize (unmountBestEffort (pr_targetPath req) w).2. clear w. intros w.
  destruct (readVolumeNBDState_runs (pr_volumeId req) (w_sys w) Hv) as (r & Hread & Hr).
  destruct (Hread w eq_refl) as [Hres Hsys]. unfold bind at 1. cbv zeta. rewrite Hres.
  generalize dependent (readVolumeNBDState (pr_volumeId req) w).2. intros w1 Hsys.
  unfold bind at 1. cbv zeta. apply (quiet_no_holds (run RemovePod _ _; ret tt)); [done|solve_respects|].
  destruct r as [dev|].
  - unfold bind. cbv zeta. by apply clear_no_holds.
  - simpl. rewrite Hsys. intros Hh. by apply Hr in Hh.
Qed.

#[local] Instance trivial_frame : Frame (λ _ _ : World, True).
Proof. split; [split|..]; done. Qed.

Lemma failed_no_holds ns req fs st w w2 d :
  valid_publish req fs → good_volume (pr_volumeId req) = true →
  NodePublishVolume ns req w = (inl st, w2) → ¬ holds (w_sys w2) (pr_volumeId req) d.
Proof.
  intros Hvalid Hv Heq.
  destruct (publish_valid (λ _ _, True) ns req fs w Hvalid) as (w1 & _ & Hw); [done|done|].
  rewrite Heq in Hw. subst w2. by apply cleanup_no_holds.
Qed.

(** C9: When a well-formed NodePublishVolume for a volume with a good file name fails,
    at whatever stage, its deferred cleanup leaves the volume without a recorded
    device, provided the environment leaves the run directory alone (EnvKeeps,
    KubeKeeps) and input and output there does not fail (Healthy: the cleanup
    ignores the errors of reading and removing the state file). *)
Theorem failed_publish_clears ns req fs st w w2 d :
  valid_publish req fs → good_volume (pr_volumeId req) = true →
  NodePublishVolume ns req w = (inl st, w2) → ¬ holds (w_sys w2) (pr_volumeId req) d.
Proof. apply failed_no_holds. Qed.

Lemma unpublish_no_holds ns req w d :
  good_volume (ur_volumeId req) = true → ur_targetPath req ≠ EmptyString →
  ¬ holds (w_sys (NodeUnpublishVolume ns req w).2) (ur_volumeId req) d.
Proof.
  intros Hv Ht. unfold NodeUnpublishVolume. cbv zeta. unfold bind at 1. cbv zeta.
  rewrite !decide_False by (done || by apply good_volume_nonempty).
  change (startStage _ _ w).2 with w. generalize (startStage "node_unpublish" "total" w).1. intros t.
  unfold bind at 1. cbv zeta. generalize (findMountSource (ur_targetPath req) w). intros [[src mounted] w1].
  cbn [fst snd]. unfold bind at 1 2 3 4 5 6. cbv zeta. unfold bind at 1. cbv zeta.
  apply (quiet_no_holds (run emit EvUnlock; run observe t; ret (inr tt : Status + unit))); [done|solve_respects|].
  by apply clear_no_holds.
Qed.

(** C10: After a well-formed NodeUnpublishVolume (a good file name for the volume, a
    non-empty target path) the volume has no recorded device, whatever the commands
    and the Kubernetes calls of the handler returned, provided the environment
    leaves the run directory alone (EnvKeeps, KubeKeeps) and input and output there
    does not fail (Healthy: the handler ignores the error of removing the state
    file). *)
Theorem unpublish_clears ns req w d :
  good_volume (ur_volumeId req) = true → ur_targetPath req ≠ EmptyString →
  ¬ holds (w_sys (NodeUnpublishVolume ns req w).2) (ur_volumeId req) d.
Proof. apply unpublish_no_holds. Qed.

(** ** A successful publish *)

(** The volume holds the device an operation returned. *)
Definition got (v : string) (r : string + string) (w : World) : Prop :=
  ∀ d, r = inr d → holds (w_sys w) v d.

Lemma write_holds v d w :
  nbdDevicePathRe d = true →
  wp (writeVolumeNBDState v d) (λ r w', r = None → holds (w_sys w') v d) w.
Proof.
  intros Hd. unfold writeVolumeNBDState. wp_skip w1.
  destruct a as [e|]; [by apply wp_ret|].
  unfold wp, os_WriteFile, bind, sys_step. cbn [fst snd w_sys]. cbv zeta.
  set (s := w_sys (emit _ w1).2). unfold write_file.
  assert (sys_fs (set_file (volumeNBDStatePath v) (Some (mkFile (TrimSpace d) false (env_now (sys_ext s)))) s)
    !! volumeNBDStatePath v = Some (mkFile (TrimSpace d) false (env_now (sys_ext s)))) as Hs by apply set_file_eq.
  assert (holds (set_file (volumeNBDStatePath v) (Some (mkFile (TrimSpace d) false (env_now (sys_ext s)))) s) v d).
  { eexists. split; [exact Hs|]. cbn [f_dir f_data]. rewrite !(device_trim d) by done. split_and!; [done..|]. intros Heq. by rewrite Heq in Hd. }
  by repeat case_match.
Qed.

Lemma scan_holds v ds w :
  Forall (λ d, nbdDevicePathRe d = true) ds → wp (reserveScan v ds) (got v) w.
Proof.
  intros Hds. revert w. induction Hds as [|d ds Hd Hds IH]; intros w; cbn [reserveScan]; [by apply wp_ret|].
  wp_skip w1. destruct a as [e|[]]; [apply IH..|].
  wp_skip w2. wp_skip w3.
  destruct a0 as [e|]; [apply IH|]. wp_skip w4.
  wp_step. eapply wp_mono; [by apply write_holds|]. intros [e|] w5 Hh.
  - wp_skip w6. by apply wp_ret.
  - apply wp_ret. intros d' [= <-]. by apply Hh.
Qed.

Lemma fresh_holds v w : wp (reserveFresh v) (got v) w.
Proof.
  unfold reserveFresh. wp_step. unfold wp at 1. rewrite listNBDDevices_eq. cbn [fst snd].
  destruct (devices w) as [|d ds] eqn:Hds; [by apply wp_ret|]. apply scan_holds. rewrite <- Hds.
  apply Forall_forall. intros x Hx. by apply elem_of_devices in Hx as [? _].
Qed.

Lemma reserve_holds v w : good_volume v = true → wp (reserveNBDDevice v) (got v) w.
Proof.
  intros Hv. unfold reserveNBDDevice. wp_skip w1.
  destruct a as [e|]; [by apply wp_ret|]. unfold reserveInDirs, os_Stat.
  destruct (readVolumeNBDState_runs v (w_sys w1) Hv) as (r & Hread & Hr).
  destruct (Hread w1 eq_refl) as [Hres Hsys]. wp_step. unfold wp at 1. rewrite Hres.
  destruct r as [x|]; [|apply fresh_holds].
  generalize dependent (readVolumeNBDState v w1).2. intros w2 Hsys.
  wp_frame (@eq World) w3 H3. subst w3. destruct a.
  - wp_skip w4. apply fresh_holds.
  - wp_frame (@eq World) w4 H4. subst w4.
    wp_step. eapply wp_mono.
    { apply (respects_wp (keeps (own_state v))).
      assert (¬ own_state v (deviceReservationPath x)).
      { intros Heq. by apply (reservationPath_not_state v x). }
      solve_respects; [by apply keeps_OpenExcl|by apply keeps_WriteString]. }
    cbv beta. intros _ w5 H5. apply wp_ret. intros d [= <-].
    apply (holds_frame (w_sys w2)); [by apply H5|]. rewrite Hsys. by apply Hr.
Qed.

(** The run directory stays as it is and the trace grows. *)
Definition grows (w w' : World) : Prop :=
  keeps in_run_dir w w' ∧ ∃ evs, w_trace w' = w_trace w ++ evs.

#[local] Instance any_benign : Benign (λ _, True).
Proof. split; [split|..]; done. Qed.

Lemma grows_split {A} (m : Go A) :
  respects (keeps in_run_dir) m → respects (emits (λ _, True)) m → respects grows m.
Proof. intros H1 H2 w. split; [apply H1|]. destruct (H2 w) as (evs & ? & _). by exists evs. Qed.

#[local] Instance grows_preorder : PreOrder grows.
Proof.
  split.
  - intros w. split; [reflexivity|]. exists []. by rewrite app_nil_r.
  - intros w1 w2 w3 [H1 [l Hl]] [H2 [k Hk]]. split; [by transitivity w2|].
    exists (l ++ k). by rewrite Hk, Hl, app_assoc.
Qed.

#[local] Instance grows_frame : Frame grows.
Proof.
  split; [split; [apply _|..]|..]; intros; apply grows_split.
  1, 2: by apply frame_kube.
  1, 2: by apply frame_select.
  1, 2: by apply frame_sleep.
  1, 2: by apply frame_metric.
  all: by apply frame_exec.
Qed.

Lemma grows_exec cmd args : respects grows (exec_Command cmd args).
Proof. apply grows_split; [by apply keeps_exec|apply emits_exec; [apply _|done]]. Qed.

Lemma grows_format fs d : respects grows (formatIfBlank fs d).
Proof. unfold formatIfBlank. solve_respects; apply grows_exec. Qed.

#[local] Hint Resolve grows_format : go.

Lemma grows_holds v d w w' : good_volume v = true → grows w w' → holds (w_sys w) v d → holds (w_sys w') v d.
Proof. intros Hv [Hk _]. apply holds_frame. by apply Hk, statePath_in_run, good_volume_plain. Qed.

Definition connect_args (sock dev : string) : list string :=
  ["-unix"; sock; "-N"; "disk"; "-persist"; "-timeout"; "0"; "-connections"; "4"; dev].

(** [dev] is the volume's device and was connected to [sock]. *)
Definition connected (v sock dev : string) (w w' : World) : Prop :=
  holds (w_sys w') v dev ∧
  ∃ evs out, w_trace w' = w_trace w ++ evs ∧
    EvExec "nbd-client" (connect_args sock dev) out ∈ evs ∧ co_err out = None.

Lemma connected_grows v sock dev w w1 w2 :
  good_volume v = true → connected v sock dev w w1 → grows w1 w2 → connected v sock dev w w2.
Proof.
  intros Hv (Hh & evs & out & Hevs & Hin & He) Hg. split; [by eapply grows_holds|].
  destruct Hg as [_ [k Hk]]. exists (evs ++ k), out. rewrite Hk, Hevs, app_assoc.
  split; [done|]. split; [|done]. apply elem_of_app. by left.
Qed.

Lemma wp_startStage op st (Q' : stageTimer → World → Prop) w :
  Q' (mkTimer op st (env_now (sys_ext (w_sys w)))) w → wp (startStage op st) Q' w.
Proof. done. Qed.

Lemma connect_post v sock dev w :
  good_volume v = true → holds (w_sys w) v dev →
  wp (connectNBD v sock dev) (λ r w', match r with inl _ => True | inr _ => connected v sock dev w w' end) w.
Proof.
  intros Hv Hh. unfold connectNBD. fold (connect_args sock dev). wp_step.
  apply wp_startStage. wp_step. unfold wp at 1.
  set (out := (exec_Command "nbd-client" (connect_args sock dev) w).1).
  set (w1 := (exec_Command "nbd-client" (connect_args sock dev) w).2).
  assert (w_trace w1 = w_trace w ++ [EvExec "nbd-client" (connect_args sock dev) out]) as Htr by done.
  assert (grows w w1) as Hg by apply grows_exec. clearbody out w1.
  destruct (co_err out) eqn:He; [done|].
  eapply (connected_grows v sock dev w w1); [done| |by apply (frame_observe grows)].
  split; [by eapply grows_holds|]. exists [EvExec "nbd-client" (connect_args sock dev) out], out.
  split; [done|]. split; [by left|done].
Qed.

(** What a publish body that succeeds has done. *)
Definition published_on (req : NodePublishVolumeRequest) (fs dev : string) (w w' : World) : Prop :=
  holds (w_sys w') (pr_volumeId req) dev ∧
  ∃ pre cout out d,
    w_trace w' = w_trace w ++ pre ++
      [EvExec "mount" (mountArgs fs dev (pr_targetPath req) (GetMountFlags (pr_capability req))) out;
       EvObserve "node_publish" "mount_fs" d] ∧
    co_err out = None ∧
    EvExec "nbd-client" (connect_args (socketNbd (pr_volumeId req)) dev) cout ∈ pre ∧ co_err cout = None.

Lemma mount_post req fs dev w0 w :
  good_volume (pr_volumeId req) = true →
  connected (pr_volumeId req) (socketNbd (pr_volumeId req)) dev w0 w →
  wp (mountDevice fs dev (pr_targetPath req) (GetMountFlags (pr_capability req)))
    (λ r w', match r with inl _ => True | inr _ => published_on req fs dev w0 w' end) w.
Proof.
  intros Hv Hc. unfold mountDevice. wp_step.
  apply wp_startStage.
  set (args := mountArgs _ _ _ _). wp_step. unfold wp at 1.
  set (out := (exec_Command "mount" args w).1). set (w1 := (exec_Command "mount" args w).2).
  assert (w_trace w1 = w_trace w ++ [EvExec "mount" args out]) as Htr by done.
  assert (grows w w1) as Hg by apply grows_exec. clearbody out w1.
  destruct (co_err out) eqn:He; [done|]. destruct Hc as (Hh & evs & cout & Hevs & Hin & Hce).
  unfold wp, observe, time_Since, sys_read, bind, emit, modify, ret. cbn [fst snd w_sys w_trace st_operation st_stage].
  split; [by apply (grows_holds _ _ w w1)|]. exists evs, cout, out. eexists. cbn [w_trace].
  rewrite Htr, Hevs, <- !app_assoc. split; [done|]. done.
Qed.

Lemma published_earlier req fs dev w w0 w' :
  emits (λ _, True) w w0 → published_on req fs dev w0 w' → published_on req fs dev w w'.
Proof.
  intros (l & Hl & _) (Hh & pre & cout & out & d & Htr & Ho & Hin & Hc). split; [done|].
  exists (l ++ pre), cout, out, d. rewrite Htr, Hl, <- !app_assoc. split_and!; [done..| |done].
  apply elem_of_app. by right.
Qed.

Lemma reserveStage_holds v w :
  good_volume v = true → wp (reserveStage v) (λ r w', ∀ d, r = inr d → holds (w_sys w') v d) w.
Proof.
  intros Hv. unfold reserveStage. wp_skip w1. wp_step. eapply wp_mono; [by apply reserve_holds|].
  intros r w2 Hgot. wp_frame (keeps in_run_dir) w3 H3. destruct r as [e|d]; [done|].
  apply wp_ret. intros d' [= <-]. apply (holds_frame (w_sys w2)); [|by apply Hgot].
  by apply H3, statePath_in_run, good_volume_plain.
Qed.

#[local] Instance any_locks : LockBenign (λ _, True).
Proof. by split; [split; [apply _|]|..]. Qed.

#[local] Hint Resolve emits_makeTarget emits_reserveStage emits_clearStale : go.

Lemma body_post ns req fs w :
  good_volume (pr_volumeId req) = true →
  wp (publishBody ns req fs) (λ r w', match r with inl _ => True | inr _ => ∃ dev, published_on req fs dev w w' end) w.
Proof.
  intros Hv. unfold publishBody. cbv zeta.
  wp_frame (emits (λ _, True)) w1 H1. destruct a; [done|].
  destruct (pr_context req !! "configMapName") as [cm|]; [|done].
  wp_frame (emits (λ _, True)) w2 H2. destruct a; [done|]. wp_frame (emits (λ _, True)) w3 H3. destruct a; [done|].
  wp_frame (emits (λ _, True)) w4 H4. destruct a; [done|]. wp_frame (emits (λ _, True)) w5 H5. destruct a; [done|].
  wp_frame (emits (λ _, True)) w6 H6. destruct a; [done|].
  assert (emits (λ _, True) w w6) as Hw by (by do 5 (etrans; [done|])). clear H1 H2 H3 H4 H5 H6.
  wp_step. eapply wp_mono.
  { apply wp_and; [apply (respects_wp (emits (λ _, True))); solve_respects|by apply reserveStage_holds]. }
  cbv beta. intros [st|dev] w7 [H7 Hh]; [done|]. pose proof (Hh dev eq_refl) as Hdev.
  wp_step. eapply wp_mono; [by apply connect_post|]. intros [st|_] w8 Hc; [done|].
  wp_frame grows w9 H9. destruct a; [done|].
  eapply wp_mono; [apply (mount_post req fs dev w7); [done|by eapply connected_grows]|].
  intros [st|_] w10 Hp; [done|]. exists dev. eapply published_earlier; [|exact Hp]. by transitivity w6.
Qed.

Lemma publish_post ns req fs w out s1 :
  valid_publish req fs → good_volume (pr_volumeId req) = true →
  env_exec "findmnt" (findmnt_args (pr_targetPath req)) (w_sys w) = (out, s1) →
  HasPrefix (mount_source out).1 "/dev/nbd" = false →
  wp (NodePublishVolume ns req) (λ r w', match r with
    | inl _ => True
    | inr _ => ∃ dev w1 d, published_on req fs dev w w1 ∧ w_sys w' = w_sys w1 ∧
        w_trace w' = w_trace w1 ++ [EvObserve "node_publish" "total" d]
    end) w.
Proof.
  intros (Hne & Ht & [c Hc] & Hfs) Hv Hx Hp. unfold NodePublishVolume. wp_step. apply wp_startStage.
  rewrite !decide_False, Hc, Hfs by done. wp_step. unfold wp at 1.
  rewrite (findMountSource_eq _ w out s1 Hx). destruct (mount_source out) as [src mounted]. cbn [fst snd] in *.
  rewrite Hp, andb_false_r.
  set (w1 := mkWorld s1 _). assert (emits (λ _, True) w w1) as H1 by (by eexists). clearbody w1.
  wp_frame (emits (λ _, True)) w2 H2. wp_frame (emits (λ _, True)) w3 H3.
  wp_step. eapply wp_mono; [by apply body_post|]. intros [st|_] w4 Hpub; [done|].
  destruct Hpub as [dev Hpub]. unfold wp, observe, time_Since, sys_read, bind, emit, modify, ret.
  cbn [fst snd w_sys w_trace st_operation st_stage]. exists dev, w4. eexists. split; [|done].
  eapply published_earlier; [|exact Hpub]. by do 2 (etrans; [done|]).
Qed.

(** C8: When NodePublishVolume succeeds on a target that was not yet mounted from an NBD
    device, the volume's state file names a device that nbd-client connected to this
    volume's socket, and the last command of the call is the successful mount of
    that device at the target with the requested file system and flags. *)
Theorem publish_success ns req fs w w2 out s1 :
  valid_publish req fs → good_volume (pr_volumeId req) = true →
  env_exec "findmnt" (findmnt_args (pr_targetPath req)) (w_sys w) = (out, s1) →
  HasPrefix (mount_source out).1 "/dev/nbd" = false →
  NodePublishVolume ns req w = (inr tt, w2) →
  ∃ dev pre cout mout d d',
    holds (w_sys w2) (pr_volumeId req) dev ∧
    w_trace w2 = w_trace w ++ pre ++
      [EvExec "mount" (mountArgs fs dev (pr_targetPath req) (GetMountFlags (pr_capability req))) mout;
       EvObserve "node_publish" "mount_fs" d; EvObserve "node_publish" "total" d'] ∧
    co_err mout = None ∧
    EvExec "nbd-client" (connect_args (socketNbd (pr_volumeId req)) dev) cout ∈ pre ∧ co_err cout = None.
Proof.
  intros Hvalid Hv Hx Hp Heq. pose proof (publish_post ns req fs w out s1 Hvalid Hv Hx Hp) as Hpost.
  unfold wp in Hpost. rewrite Heq in Hpost. cbn [fst snd] in Hpost.
  destruct Hpost as (dev & w1 & d' & (Hh & pre & cout & mout & d & Htr & Ho & Hin & Hce) & Hs & Htr').
  exists dev, pre, cout, mout, d, d'. rewrite Hs, Htr', Htr, <- !app_assoc. split_and!; done.
Qed.

End state.

(** ** On the concrete node *)

Section witnesses.
Import SimRun.

#[local] Instance run_env : EnvKeeps in_run_dir := sim_keeps.
#[local] Instance run_kube : KubeKeeps in_run_dir := sim_kube_keeps.
#[local] Instance run_healthy : Healthy in_run_dir := sim_healthy.

Lemma publish0_valid : valid_publish publish0 "ext4".
Proof. split; [done|]. split; [done|]. split; [by eexists|by_compute]. Qed.

Lemma volumes_independent_witness :
  (holds (w_sys (NodePublishVolume ns0 publish0 world0).2) "pvc-2" "/dev/nbd1" ↔
     holds (w_sys world0) "pvc-2" "/dev/nbd1") ∧
  (holds (w_sys (NodeUnpublishVolume ns0 unpublish0 world0).2) "pvc-2" "/dev/nbd1" ↔
     holds (w_sys world0) "pvc-2" "/dev/nbd1").
Proof.
  pose proof (volumes_independent ns0 publish0 unpublish0 world0 "pvc-2" "/dev/nbd1") as Hthm.
  apply Hthm; by_compute || done.
Defined.

Lemma failed_publish_clears_witness :
  let w2 := (NodePublishVolume ns0 publish0 (broken_world ["mkfs.ext4"])).2 in
  ¬ holds (w_sys w2) "pvc-1" "/dev/nbd0".
Proof.
  pose proof (failed_publish_clears ns0 publish0 "ext4"
    (mkStatus Internal "failed to format NBD device: exit status 1, output: mkfs.ext4: failed")
    (broken_world ["mkfs.ext4"]) (NodePublishVolume ns0 publish0 (broken_world ["mkfs.ext4"])).2 "/dev/nbd0") as Hthm.
  apply Hthm.
  - apply publish0_valid.
  - by_compute.
  - apply pair_eta. by_compute.
Defined.

Lemma unpublish_clears_witness :
  ¬ holds (w_sys (NodeUnpublishVolume ns0 unpublish0 published).2) "pvc-1" "/dev/nbd0".
Proof.
  pose proof (unpublish_clears ns0 unpublish0 published "/dev/nbd0") as Hthm.
  apply Hthm; [by_compute|done].
Defined.

Lemma publish_success_witness :
  ∃ dev pre cout mout d d',
    holds (w_sys published) "pvc-1" dev ∧
    w_trace published = w_trace world0 ++ pre ++
      [EvExec "mount" (mountArgs "ext4" dev target0 (GetMountFlags (pr_capability publish0))) mout;
       EvObserve "node_publish" "mount_fs" d; EvObserve "node_publish" "total" d'] ∧
    co_err mout = None ∧
    EvExec "nbd-client" (connect_args (socketNbd "pvc-1") dev) cout ∈ pre ∧ co_err cout = None.
Proof.
  unfold published.
  pose proof (publish_success ns0 publish0 "ext4" world0 (NodePublishVolume ns0 publish0 world0).2 (mkCmdOut ("overlay" +:+ newline) None)
    (w_sys world0)) as Hthm.
  apply Hthm.
  - apply publish0_valid.
  - by_compute.
  - by_compute.
  - by_compute.
  - apply pair_eta. by_compute.
Defined.

End witnesses.

End NodeState.
