(* ===== verification/NbdRefine.v ===== *)
(** * The device table as an abstract allocator (pkg/csi/nbd.go)

    Abstractly the driver keeps a partial map from volumes to devices in which no
    device occurs twice.  The state files and reservations under the run directory
    implement it: every sequence of reservations, releases and steps of the rest of
    the node (which leaves the run directory alone) is matched by a sequence of the
    abstract allocator. *)

From S2P Require Import Prelude GoStrings GoPath World Metrics Kube Zerofs Nbd NbdReserve Node NodeFrame NodeTrace.
From S2P Require Import NodeState SimRun.

Import NbdReserve NodeTrace NodeState.

Module NbdRefine.

(** ** The abstract allocator *)

Abbreviation table := (gmap string string).

Inductive label :=
| LReserve (v : string) (r : option string)   (** the device, or a failure *)
| LRelease (v : string)
| LNode.                                       (** something else happens on the node *)

Inductive alloc_step : table → label → table → Prop :=
| AllocAgain A v d : A !! v = Some d → alloc_step A (LReserve v (Some d)) A
| AllocNew A v d :
    nbdDevicePathRe d = true → (∀ v', v' ≠ v → A !! v' ≠ Some d) →
    alloc_step A (LReserve v (Some d)) (<[v := d]> A)
| AllocFail A v : alloc_step A (LReserve v None) A
| AllocFailLost A v : alloc_step A (LReserve v None) (delete v A)   (** its device had vanished *)
| AllocRelease A v : alloc_step A (LRelease v) (delete v A)
| AllocNode A : alloc_step A LNode A.

Inductive alloc_steps : table → list label → table → Prop :=
| alloc_nil A : alloc_steps A [] A
| alloc_snoc A ls B l B' : alloc_steps A ls B → alloc_step B l B' → alloc_steps A (ls ++ [l]) B'.

Definition injective (A : table) : Prop := ∀ v1 v2 d, A !! v1 = Some d → A !! v2 = Some d → v1 = v2.

Lemma alloc_step_injective A l B : alloc_step A l B → injective A → injective B.
Proof.
  intros Hs Hi. destruct Hs as [A v d Hd|A v d Hd Hfresh|A v|A v|A v|A]; try done.
  - intros v1 v2 d'. rewrite !lookup_insert_Some. naive_solver.
  - intros v1 v2 d'. rewrite !lookup_delete_Some. naive_solver.
  - intros v1 v2 d'. rewrite !lookup_delete_Some. naive_solver.
Qed.

Lemma alloc_steps_injective A ls B : alloc_steps A ls B → injective A → injective B.
Proof. induction 1; eauto using alloc_step_injective. Qed.

(** ** The implementation *)

Section refinement.
Context `{E : !Environment, HL : !Healthy in_run_dir}.

(** The state files hold the table. *)
Definition represents (A : table) (s : Sys ext) : Prop :=
  (∀ v, is_Some (A !! v) → good_volume v = true) ∧
  ∀ v d, good_volume v = true → A !! v = Some d ↔ holds s v d.

Definition inv (s : Sys ext) : Prop := tidy s ∧ backed s.

(** A step of the implementation: a reservation; the release of the device the volume
    holds; the release of a volume that holds none, without a device; anything that
    leaves the run directory alone. *)
Inductive node_step : World → label → World → Prop :=
| StepReserve v w :
    good_volume v = true →
    node_step w (LReserve v (match (reserveNBDDevice v w).1 with inr d => Some d | inl _ => None end))
      (reserveNBDDevice v w).2
| StepRelease v d w :
    good_volume v = true → holds (w_sys w) v d → node_step w (LRelease v) (clearVolumeNBDState v d w).2
| StepForget v w :
    good_volume v = true → (∀ d, ¬ holds (w_sys w) v d) →
    node_step w (LRelease v) (clearVolumeNBDState v EmptyString w).2
| StepNode w w' : keeps in_run_dir w w' → node_step w LNode w'.

(** A history: each step with the world it was taken in. *)
Inductive node_run : World → list (World * label) → World → Prop :=
| run_nil w : node_run w [] w
| run_snoc w ts w1 l w2 : node_run w ts w1 → node_step w1 l w2 → node_run w (ts ++ [(w1, l)]) w2.

(** No reservation of the history is made while a reservation in use, of a device that
    is not connected, is older than the limit. *)
Definition timely (ts : list (World * label)) : Prop :=
  ∀ w v r, (w, LReserve v r) ∈ ts → unexpired (w_sys (ensureRunDirs w).2).

Lemma node_run_app w ts w1 us w2 : node_run w ts w1 → node_run w1 us w2 → node_run w (ts ++ us) w2.
Proof.
  intros H1 H2. induction H2 as [w1|w1 us w2 l w3 H2 IH Hl]; [by rewrite app_nil_r|].
  rewrite app_assoc. econstructor; [by apply IH|done].
Qed.

(** *** Directories stay where they are *)

Definition stays_tidy (w w' : World) : Prop := tidy (w_sys w) → tidy (w_sys w').

#[local] Instance stays_tidy_preorder : PreOrder stays_tidy.
Proof. split; [intros w Ht; exact Ht|]. intros w1 w2 w3 H1 H2 Ht. auto. Qed.

Lemma set_file_tidy p f s :
  (∀ g, in_run_dir p → f = Some g → f_dir g = true → p ∈ run_dirs) → tidy s → tidy (set_file p f s).
Proof.
  intros Hf Ht q g Hq Hg Hd. destruct (decide (p = q)) as [->|Hne].
  - rewrite set_file_eq in Hg. by apply (Hf g).
  - rewrite set_file_ne in Hg by done. by eapply Ht.
Qed.

Lemma tidy_op {A} e (f : Sys ext → A * Sys ext) :
  (∀ s, tidy s → tidy (f s).2) → respects stays_tidy (run emit e; sys_step f).
Proof. intros Hf w Ht. by apply Hf. Qed.

Lemma tidy_Remove p : respects stays_tidy (os_Remove p).
Proof. apply tidy_op. intros s Ht. unfold remove_file. repeat case_match; try done. by apply set_file_tidy; [intros ? _ [=]|]. Qed.

Lemma tidy_OpenExcl p : respects stays_tidy (os_OpenExcl p).
Proof.
  apply tidy_op. intros s Ht. unfold create_excl. repeat case_match; try done.
  apply set_file_tidy; [|done]. by intros g _ [= <-].
Qed.

Lemma tidy_WriteFile p d : respects stays_tidy (os_WriteFile p d).
Proof.
  apply tidy_op. intros s Ht. unfold write_file. repeat case_match; try done;
    (apply set_file_tidy; [|done]; by intros g _ [= <-]).
Qed.

Lemma tidy_WriteString p x : respects stays_tidy (f_WriteString p x).
Proof.
  apply tidy_op. intros s Ht. unfold append_file. destruct (env_fault _ _ _); [done|].
  destruct (sys_fs s !! p) as [f|] eqn:Hf; [|done]. apply set_file_tidy; [|done].
  intros g Hp [= <-]. cbn [f_dir]. intros Hdir. by eapply Ht.
Qed.

Lemma tidy_MkdirAll p : ancestors [] (bytes p) ⊆ run_dirs → respects stays_tidy (os_MkdirAll p).
Proof.
  intros Hp. apply tidy_op. intros s Ht q f Hq Hf Hd.
  destruct (decide (q ∈ ancestors [] (bytes p))) as [Hin|Hin]; [by apply Hp|].
  rewrite mkdir_each_ne in Hf by done. by eapply Ht.
Qed.

#[local] Hint Resolve tidy_Remove tidy_OpenExcl tidy_WriteFile tidy_WriteString : go.

Lemma tidy_reserve v : respects stays_tidy (reserveNBDDevice v).
Proof.
  assert (respects stays_tidy ensureRunDirs).
  { unfold ensureRunDirs. respects_step; [apply tidy_MkdirAll; rewrite run_dir_ancestors; unfold run_dirs; set_solver|].
    intros [e|]; [solve_respects|]. respects_step; [|solve_respects].
    apply tidy_MkdirAll. by rewrite by_device_ancestors. }
  assert (∀ d, respects stays_tidy (clearVolumeNBDState v d)) by (unfold clearVolumeNBDState; solve_respects).
  assert (∀ d, respects stays_tidy (writeVolumeNBDState v d)) by (unfold writeVolumeNBDState; solve_respects).
  assert (∀ p, respects stays_tidy (gcReservation p)).
  { unfold gcReservation, mustReadFile, os_Stat, os_ReadFile, time_Since. solve_respects. }
  assert (∀ ds, respects stays_tidy (reserveScan v ds)).
  { induction ds as [|d ds IH]; cbn [reserveScan]; unfold isNBDConnected, os_ReadFile; solve_respects. }
  assert (respects stays_tidy (reserveFresh v)).
  { unfold reserveFresh, listNBDDevices, filepath_Glob. solve_respects. }
  unfold reserveNBDDevice, reserveInDirs, readVolumeNBDState, os_ReadFile, os_Stat. solve_respects.
Qed.

(** *** What a reservation does to the table *)

(** The volume holds nothing it did not hold before. *)
Definition no_gain (v : string) (w w' : World) : Prop := ∀ d, holds (w_sys w') v d → holds (w_sys w) v d.

#[local] Instance no_gain_preorder v : PreOrder (no_gain v).
Proof. split; [intros w d Hd; exact Hd|]. intros w1 w2 w3 H1 H2 d Hd. auto. Qed.

Section reserve.
Context (v : string) (Hv : good_volume v = true).

Lemma keeps_no_gain {A} (m : Go A) : respects (keeps (own_state v)) m → respects (no_gain v) m.
Proof. intros Hm w d. apply holds_frame. symmetry. by apply Hm. Qed.

Lemma not_own d : ¬ own_state v (deviceReservationPath d).
Proof. intros Heq. by apply (reservationPath_not_state v d). Qed.

Lemma not_own_dir p : p ∈ run_dirs → ¬ own_state v p.
Proof. intros Hp ->. by apply (statePath_not_dir v). Qed.

#[local] Hint Resolve keeps_Remove keeps_OpenExcl keeps_WriteString not_own : go.

Lemma own_MkdirAll p : ancestors [] (bytes p) ⊆ run_dirs → respects (keeps (own_state v)) (os_MkdirAll p).
Proof.
  intros Hp. apply respects_bind; [apply _|apply keeps_emit|intros _].
  apply keeps_sys_step. intros s q Hq. apply mkdir_each_ne. intros Hin. by eapply not_own_dir; [apply Hp|].
Qed.

Lemma own_ensureRunDirs : respects (keeps (own_state v)) ensureRunDirs.
Proof.
  unfold ensureRunDirs. respects_step.
  { apply own_MkdirAll. rewrite run_dir_ancestors. unfold run_dirs. set_solver. }
  intros [e|]; [solve_respects|]. respects_step; [|solve_respects].
  apply own_MkdirAll. by rewrite by_device_ancestors.
Qed.

Lemma own_gc d : respects (keeps (own_state v)) (gcReservation (deviceReservationPath d)).
Proof. unfold gcReservation, mustReadFile, os_Stat, os_ReadFile, time_Since. solve_respects. Qed.

(** A failed reservation gives the volume nothing. *)
Definition no_gain_on_error (w : World) (r : string + string) (w' : World) : Prop :=
  ∀ e, r = inl e → no_gain v w w'.

Lemma write_error d w :
  wp (writeVolumeNBDState v d) (λ r w', ∀ e, r = Some e → no_gain v w w') w.
Proof.
  unfold writeVolumeNBDState. wp_step.
  eapply wp_mono; [apply (respects_wp (no_gain v)), keeps_no_gain, own_ensureRunDirs|].
  cbv beta. intros [e|] w1 H1; [by apply wp_ret|].
  unfold wp, os_WriteFile, bind, sys_step. cbn [fst snd w_sys]. intros e Herr.
  transitivity w1; [done|]. intros d'. apply holds_frame. cbn [w_sys].
  unfold write_file in *. by repeat case_match.
Qed.

Lemma scan_error ds w : wp (reserveScan v ds) (no_gain_on_error w) w.
Proof.
  assert (∀ w w1 r w', no_gain v w w1 → no_gain_on_error w1 r w' → no_gain_on_error w r w') as Htrans.
  { intros ? w1 r w' H1 H2 e He. transitivity w1; [done|]. by eapply H2. }
  revert w. induction ds as [|d ds IH]; intros w; cbn [reserveScan]; [by apply wp_ret; intros e _|].
  assert (respects (@eq World) (isNBDConnected d)) by (unfold isNBDConnected, os_ReadFile; solve_respects).
  wp_frame (@eq World) w1 H1. subst w1. destruct a as [e|[]]; [apply IH..|].
  wp_step. eapply wp_mono; [apply (respects_wp (no_gain v)), keeps_no_gain, own_gc|]. cbv beta. intros _ w2 H2.
  wp_step. eapply wp_mono.
  { apply (respects_wp (no_gain v)), keeps_no_gain, keeps_OpenExcl, not_own. }
  cbv beta. intros [e|] w3 H3.
  { eapply wp_mono; [apply IH|]. intros r w' Hr. eapply Htrans; [|exact Hr]. by transitivity w2. }
  wp_step. eapply wp_mono.
  { apply (respects_wp (no_gain v)), keeps_no_gain, keeps_WriteString, not_own. }
  cbv beta. intros _ w4 H4. wp_step. eapply wp_mono; [apply write_error|]. intros [e|] w5 Herr.
  - wp_step. eapply wp_mono.
    { apply (respects_wp (no_gain v)), keeps_no_gain, keeps_Remove, not_own. }
    cbv beta. intros ? w6 H6. apply wp_ret. intros ? _. transitivity w2; [done|]. transitivity w3; [done|].
    transitivity w4; [done|]. transitivity w5; [by eapply Herr|done].
  - by apply wp_ret.
Qed.

Lemma fresh_error w : wp (reserveFresh v) (no_gain_on_error w) w.
Proof.
  unfold reserveFresh. wp_step. unfold wp at 1. rewrite listNBDDevices_eq. cbn [fst snd].
  destruct (devices w); [by apply wp_ret; intros e _|]. apply scan_error.
Qed.

Lemma clear_no_gain d : respects (no_gain v) (clearVolumeNBDState v d).
Proof. intros w d' Hd'. exfalso. revert Hd'. by apply clear_no_holds. Qed.

Lemma reserve_error w : wp (reserveNBDDevice v) (no_gain_on_error w) w.
Proof.
  unfold reserveNBDDevice. wp_step.
  eapply wp_mono; [apply (respects_wp (no_gain v)), keeps_no_gain, own_ensureRunDirs|].
  cbv beta. intros [e|] w1 H1; [by apply wp_ret; intros ? _|].
  assert (∀ w2, no_gain v w1 w2 → wp (reserveFresh v) (no_gain_on_error w) w2) as Hfresh.
  { intros w2 H2. eapply wp_mono; [apply fresh_error|]. intros r w' Hr e He.
    transitivity w1; [done|]. transitivity w2; [done|]. by eapply Hr. }
  unfold reserveInDirs, os_Stat.
  assert (respects (@eq World) (readVolumeNBDState v)) by (unfold readVolumeNBDState, os_ReadFile; solve_respects).
  wp_frame (@eq World) w2 H2. subst w2. destruct a as [x|]; [|by apply Hfresh].
  wp_frame (@eq World) w2 H2. subst w2. destruct a.
  - wp_step. eapply wp_mono; [apply (respects_wp (no_gain v)), clear_no_gain|]. cbv beta. intros _ w3 H3.
    by apply Hfresh.
  - wp_skip w3. wp_skip w4. by apply wp_ret.
Qed.

End reserve.

(** *** The simulation *)

Lemma holds_functional st v d1 d2 : holds st v d1 → holds st v d2 → d1 = d2.
Proof. intros (f & Hf & _ & <- & _) (g & Hg & _ & <- & _). congruence. Qed.

(** A step that leaves the state files of the other volumes alone. *)
Lemma represents_update A B v s s' :
  represents A s → good_volume v = true →
  (∀ v' d, good_volume v' = true → v' ≠ v → holds s' v' d ↔ holds s v' d) →
  (∀ d, B !! v = Some d ↔ holds s' v d) → (∀ v', v' ≠ v → B !! v' = A !! v') →
  represents B s'.
Proof.
  intros [Hdom Hrep] Hv Hother Hown HB. split.
  - intros v' Hv'. destruct (decide (v' = v)) as [->|Hne]; [done|]. apply Hdom. by rewrite <- HB.
  - intros v' d Hv'. destruct (decide (v' = v)) as [->|Hne]; [done|]. by rewrite HB, Hother, Hrep.
Qed.

Lemma run_dir_inv A w w' :
  keeps in_run_dir w w' → inv (w_sys w) → represents A (w_sys w) → inv (w_sys w') ∧ represents A (w_sys w').
Proof.
  intros Hk [Ht Hb] [Hdom Hrep].
  assert (∀ v d, good_volume v = true → holds (w_sys w') v d ↔ holds (w_sys w) v d) as Hh.
  { intros v d Hv. apply holds_frame. by apply Hk, statePath_in_run, good_volume_plain. }
  split; [split|].
  - intros p f Hp Hf. eapply Ht; [done|]. pose proof (Hk p Hp) as Heq. unfold w_fs in Heq. by rewrite <- Heq.
  - intros v d Hv Hd. apply Hh in Hd; [|done]. destruct (Hb v d Hv Hd) as (Hre & f & Hf & Hrest).
    split; [done|]. exists f. split; [|done]. rewrite <- Hf. by apply Hk, reservationPath_in_run.
  - split; [done|]. intros v d Hv. by rewrite Hh, Hrep.
Qed.

Lemma reserve_refines A v w :
  good_volume v = true → unexpired (w_sys (ensureRunDirs w).2) → inv (w_sys w) → represents A (w_sys w) →
  ∃ B, alloc_step A (LReserve v (match (reserveNBDDevice v w).1 with inr d => Some d | inl _ => None end)) B ∧
    represents B (w_sys (reserveNBDDevice v w).2) ∧ inv (w_sys (reserveNBDDevice v w).2).
Proof.
  intros Hv Hu [Ht Hb] Hrep. pose proof (reserve_backed w v Hv Ht Hb Hu) as Hb'.
  assert (inv (w_sys (reserveNBDDevice v w).2)) as Hinv by (split; [by apply tidy_reserve|done]).
  pose proof (reserve_holds v w Hv) as Hgot. pose proof (reserve_error v Hv w) as Herr.
  pose proof (keeps_reserve v Hv w) as Hk. unfold wp, got, no_gain_on_error in *.
  assert (∀ v' d, good_volume v' = true → v' ≠ v →
    holds (w_sys (reserveNBDDevice v w).2) v' d ↔ holds (w_sys w) v' d) as Hother.
  { intros v' d Hv' Hne. apply holds_frame, Hk. by exists v'. }
  destruct (reserveNBDDevice v w) as [[e|d] w'] eqn:Hres; cbn [fst snd] in *.
  - destruct (readVolumeNBDState_runs v (w_sys w') Hv) as ([d|] & _ & Hr).
    + exists A. split; [constructor|]. split; [|done]. eapply represents_update; [done..| |done].
      intros d'. split.
      * intros Hd'. assert (holds (w_sys w') v d) as Hd by (by apply Hr).
        apply (Herr e) in Hd as Hd0; [|done]. apply Hrep in Hd'; [|done].
        by rewrite <- (holds_functional _ _ _ _ Hd0 Hd').
      * intros Hd'. apply Hrep; [done|]. by apply (Herr e).
    + exists (delete v A). split; [constructor|]. split; [|done].
      eapply represents_update; [done..| |intros; by rewrite lookup_delete_ne].
      intros d. rewrite lookup_delete_eq. split; [done|]. by intros Hd%Hr.
  - specialize (Hgot d eq_refl). assert (∀ d', Some d = Some d' ↔ holds (w_sys w') v d') as Hown.
    { intros d'. split; [by intros [= <-]|]. intros Hd'. by rewrite (holds_functional _ _ _ _ Hgot Hd'). }
    destruct (decide (A !! v = Some d)) as [HA|HA].
    + exists A. split; [by constructor|]. split; [|done]. eapply represents_update; [done..| |done].
      intros d'. by rewrite HA.
    + exists (<[v := d]> A). split; [|split; [|done]].
      * constructor; [by apply (Hb' v d Hv Hgot)|]. intros v' Hne Hd'.
        assert (good_volume v' = true) as Hv' by (apply Hrep; by eexists).
        apply Hne. eapply (backed_exclusive _ Hb'); [done|done| |exact Hgot]. apply Hother; [done|done|].
        by apply Hrep.
      * eapply represents_update; [done..| |intros; by rewrite lookup_insert_ne].
        intros d'. by rewrite lookup_insert_eq.
Qed.

Lemma release_refines A v d w :
  good_volume v = true → holds (w_sys w) v d → inv (w_sys w) → represents A (w_sys w) →
  represents (delete v A) (w_sys (clearVolumeNBDState v d w).2) ∧ inv (w_sys (clearVolumeNBDState v d w).2).
Proof.
  intros Hv Hh [Ht Hb] Hrep. destruct (Hb v d Hv Hh) as (Hd & _).
  destruct (clearVolumeNBDState_runs v d (w_sys w) Hv Hd Ht) as (s' & Hrun & Hext & Hn1 & Hn2 & Hsame).
  pose proof (runs_sys _ _ _ _ Hrun) as Hs'. pose proof (keeps_clear v Hv d w) as Hk. split.
  - eapply represents_update; [done..| | |intros; by rewrite lookup_delete_ne].
    + intros v' d' Hv' Hne. apply holds_frame, Hk. by exists v'.
    + intros d'. rewrite lookup_delete_eq. split; [done|]. intros Hd'. exfalso.
      revert Hd'. rewrite Hs'. by apply no_holds_none.
  - rewrite Hs'. split.
    + by apply (cleared_tidy v d (w_sys w)).
    + by eapply cleared_backed.
Qed.

Lemma forget_refines A v w :
  good_volume v = true → (∀ d, ¬ holds (w_sys w) v d) → inv (w_sys w) → represents A (w_sys w) →
  represents (delete v A) (w_sys (clearVolumeNBDState v EmptyString w).2) ∧
  inv (w_sys (clearVolumeNBDState v EmptyString w).2).
Proof.
  intros Hv Hn [Ht Hb] Hrep. set (w' := (clearVolumeNBDState v EmptyString w).2).
  assert (∀ p, p ≠ volumeNBDStatePath v → sys_fs (w_sys w') !! p = sys_fs (w_sys w) !! p) as Hsame.
  { intros p Hp. apply remove_file_ne. done. }
  assert (∀ d, ¬ holds (w_sys w') v d) as Hn' by (intros d; by apply clear_no_holds).
  assert (∀ v' d, good_volume v' = true → v' ≠ v → holds (w_sys w') v' d ↔ holds (w_sys w) v' d) as Hother.
  { intros v' d Hv' Hne. apply holds_frame, Hsame. intros Heq. apply Hne.
    apply statePath_inj; [by apply good_volume_plain..|done]. }
  split; [|split].
  - eapply represents_update; [done..| |intros; by rewrite lookup_delete_ne].
    intros d. rewrite lookup_delete_eq. split; [done|]. intros Hd. by destruct (Hn' d).
  - revert Ht. apply tidy_Remove.
  - intros v' d Hv' Hd. destruct (decide (v' = v)) as [->|Hne]; [by destruct (Hn' d)|].
    apply Hother in Hd; [|done..]. destruct (Hb v' d Hv' Hd) as (Hre & f & Hf & Hrest). split; [done|].
    exists f. split; [|done]. rewrite <- Hf. apply Hsame. intros Heq. by apply (reservationPath_not_state v d).
Qed.

Lemma node_step_refines A w l w' :
  node_step w l w' → (∀ v r, l = LReserve v r → unexpired (w_sys (ensureRunDirs w).2)) →
  inv (w_sys w) → represents A (w_sys w) →
  ∃ B, alloc_step A l B ∧ represents B (w_sys w') ∧ inv (w_sys w').
Proof.
  intros Hs Hu Hi Hr. destruct Hs as [v w Hv|v d w Hv Hh|v w Hv Hn|w w' Hk].
  - apply reserve_refines; [done|by eapply Hu|done|done].
  - destruct (release_refines A v d w Hv Hh Hi Hr). exists (delete v A). split; [constructor|done].
  - destruct (forget_refines A v w Hv Hn Hi Hr). exists (delete v A). split; [constructor|done].
  - destruct (run_dir_inv A w w' Hk Hi Hr). exists A. split; [constructor|done].
Qed.

Lemma node_run_refines A w ts w' :
  node_run w ts w' → timely ts → inv (w_sys w) → represents A (w_sys w) → injective A →
  ∃ B, alloc_steps A ts.*2 B ∧ represents B (w_sys w') ∧ injective B ∧ inv (w_sys w') ∧ exclusive (w_sys w').
Proof.
  intros Hs Hu Hi Hr Hinj.
  enough (∃ B, alloc_steps A ts.*2 B ∧ represents B (w_sys w') ∧ inv (w_sys w')) as (B & Ha & HB & Hi').
  { exists B. split_and!; [done|done|by eapply alloc_steps_injective|done|]. by apply backed_exclusive, Hi'. }
  induction Hs as [w|w ts w1 l w2 Hs IH Hl]; [exists A; split; [constructor|done]|].
  destruct IH as (B & Ha & HB & HiB); [intros w0 v r Hin; eapply Hu, elem_of_app; by left|done|done|].
  destruct (node_step_refines B w1 l w2 Hl) as (B' & Hl' & HB' & Hi'); [|done|done|].
  { intros v r ->. eapply Hu, elem_of_app. right. by left. }
  exists B'. rewrite fmap_app. split; [by econstructor|done].
Qed.

(** C1: The bookkeeping of NBD devices refines an abstract allocator, a partial
    injective map from volumes to devices. Assumed: input and output in the run
    directory does not fail (class Healthy; without it the claim is false, see
    unwritten_reservation_shared), volume names are good file names, a release is of
    the device that the volume's own state file names (or of none when it names
    none), every other event of the node leaves the run directory alone, and no
    reservation is made while one in use has passed the two-hour limit. Then along
    every such history each step of the state files is a step of the allocator with
    the same result, the files keep representing the allocator's map, and no device
    is held by two volumes. *)
Theorem allocator_refines A w ts w' :
  node_run w ts w' → timely ts → inv (w_sys w) → represents A (w_sys w) → injective A →
  ∃ B, alloc_steps A ts.*2 B ∧ represents B (w_sys w') ∧ injective B ∧ inv (w_sys w') ∧ exclusive (w_sys w').
Proof. apply node_run_refines. Qed.

End refinement.

(** ** On the concrete node *)

Section witnesses.
Import SimRun.

#[local] Instance run_healthy : Healthy in_run_dir := sim_healthy.

Lemma world0_inv : inv (w_sys world0).
Proof. split; [apply world0_tidy|apply world0_backed]. Qed.

Lemma world0_represents : represents ∅ (w_sys world0).
Proof.
  split; [by intros v [d Hd]|]. intros v d Hv. split; [done|]. intros (f & Hf & _). exfalso.
  apply fs0_no_run in Hf. by apply Hf, statePath_in_run, good_volume_plain.
Qed.

(** One volume gets the first device. *)
Definition world0_history : list (World * label) :=
  [(world0, LReserve "pvc-1" (match (reserveNBDDevice "pvc-1" world0).1 with inr d => Some d | inl _ => None end))].

Lemma world0_run : node_run world0 world0_history (reserveNBDDevice "pvc-1" world0).2.
Proof. apply (run_snoc _ []); [constructor|]. constructor. by_compute. Qed.

Lemma world0_timely : timely world0_history.
Proof.
  intros w v r Hin. apply list_elem_of_singleton in Hin. apply (f_equal fst) in Hin. cbn [fst] in Hin. subst w.
  intros v' d f Hv Hh. by apply world0_holds in Hh.
Qed.

Lemma allocator_refines_witness :
  ∃ B, alloc_steps ∅ [LReserve "pvc-1" (Some "/dev/nbd0")] B ∧
    represents B (w_sys (reserveNBDDevice "pvc-1" world0).2) ∧ injective B ∧
    inv (w_sys (reserveNBDDevice "pvc-1" world0).2) ∧ exclusive (w_sys (reserveNBDDevice "pvc-1" world0).2).
Proof.
  assert (world0_history.*2 = [LReserve "pvc-1" (Some "/dev/nbd0")]) as <- by by_compute.
  pose proof (allocator_refines ∅ world0 _ _ world0_run world0_timely world0_inv world0_represents) as Hthm.
  apply Hthm. by intros v1 v2 d Hd.
Defined.

End witnesses.

End NbdRefine.
