(* ===== verification/NodeRefine.v ===== *)
(** * The node service implements the device allocator (pkg/csi/node.go, nbd.go)

    [NbdRefine] shows that histories of reservations and releases implement an
    abstract allocator.  Here the handlers of the node service are shown to be such
    histories: a publish releases what a failed attempt left, reserves at most once
    and releases again when it fails; an unpublish releases the device of the volume,
    as long as findmnt does not name another one.  So any sequence of calls keeps
    every device with at most one volume, and each call changes the table of devices
    as its specification ([table_step]) says. *)

From S2P Require Import Prelude GoStrings GoPath World Metrics Kube Zerofs Nbd NbdReserve Node NodeFrame NodeTrace.
From S2P Require Import NodeState NbdRefine SimRun.

Import NbdReserve NodeTrace NodeState NbdRefine.

Local Open Scope Z_scope.

Module NodeRefine.

Section time.
Context `{E : !Environment, C : !KubeClient}.

Definition now (w : World) : Z := env_now (sys_ext (w_sys w)).

(** The clock does not go back while commands, sleeps and API calls run. *)
Class Clock := {
  exec_later cmd args s : env_now (sys_ext s) ≤ env_now (sys_ext (env_exec cmd args s).2);
  sleep_later d s : env_now (sys_ext s) ≤ env_now (sys_ext (env_sleep d s));
  select_later deadline start i s :
    env_now (sys_ext s) ≤ env_now (sys_ext (env_select deadline start i s).2);
  kube_later A (op : kube_op (string + A)) s : env_now (sys_ext s) ≤ env_now (sys_ext (kube_do op s).2);
}.

(** Everything in the run directory was modified at [T] or after it. *)
Definition young (T : Z) (w : World) : Prop := ∀ p f, in_run_dir p → w_fs w !! p = Some f → T ≤ f_mtime f.

(** Time passes and nothing in the run directory gets older than it was. *)
Definition later (w w' : World) : Prop :=
  now w ≤ now w' ∧ ∀ T, T ≤ now w → young T w → young T w'.

#[export] Instance later_preorder : PreOrder later.
Proof.
  split; [intros w; split; [lia|done]|]. intros w1 w2 w3 [H1 K1] [H2 K2]. split; [lia|].
  intros T HT Hy. apply K2; [lia|]. by apply K1.
Qed.

(** Nothing in the run directory changes. *)
Definition quiet (w w' : World) : Prop := keeps in_run_dir w w' ∧ now w ≤ now w'.

#[export] Instance quiet_preorder : PreOrder quiet.
Proof.
  split; [intros w; split; [reflexivity|lia]|]. intros w1 w2 w3 [H1 K1] [H2 K2].
  split; [by transitivity w2|lia].
Qed.

Lemma quiet_later w w' : quiet w w' → later w w'.
Proof. intros [Hk Hn]. split; [done|]. intros T _ Hy p f Hp Hf. apply (Hy p f Hp). by rewrite <- Hk. Qed.

(** *** Operations on files take no time, and what they write is new *)

Definition writes_now (s s' : Sys ext) : Prop :=
  sys_ext s' = sys_ext s ∧
  ∀ q g, sys_fs s' !! q = Some g → sys_fs s !! q = Some g ∨ f_mtime g = env_now (sys_ext s).

#[local] Instance writes_now_preorder : PreOrder writes_now.
Proof.
  split; [intros s; split; auto|]. intros s1 s2 s3 [H1 K1] [H2 K2]. split; [congruence|].
  intros q g Hg. destruct (K2 q g Hg) as [Hq|Hq]; [by apply K1|]. right. congruence.
Qed.

Lemma set_file_now p f s :
  (∀ g, f = Some g → f_mtime g = env_now (sys_ext s)) → writes_now s (set_file p f s).
Proof.
  intros Hf. split; [done|]. intros q g. destruct (decide (p = q)) as [->|Hne].
  - rewrite set_file_eq. intros Hg. right. by apply Hf.
  - rewrite set_file_ne by done. by left.
Qed.

Lemma later_op {A} e (f : Sys ext → A * Sys ext) :
  (∀ s, writes_now s (f s).2) → respects later (run emit e; sys_step f).
Proof.
  intros Hf w. destruct (Hf (w_sys w)) as [Hx Hw]. split.
  - unfold now. simpl. rewrite Hx. lia.
  - intros T HT Hy p g Hp Hg. destruct (Hw p g Hg) as [Hq|Hq]; [by apply (Hy p)|]. unfold now in HT. lia.
Qed.

Ltac solve_now := intros s; repeat case_match; cbn [snd]; first [reflexivity | by apply set_file_now; intros ? [= <-]].

Lemma later_Remove p : respects later (os_Remove p).
Proof. apply later_op. unfold remove_file. solve_now. Qed.

Lemma later_OpenExcl p : respects later (os_OpenExcl p).
Proof. apply later_op. unfold create_excl. solve_now. Qed.

Lemma later_WriteFile p d : respects later (os_WriteFile p d).
Proof. apply later_op. unfold write_file. solve_now. Qed.

Lemma later_WriteString p d : respects later (f_WriteString p d).
Proof. apply later_op. unfold append_file. solve_now. Qed.

Lemma mkdir_each_now ps s : writes_now s (mkdir_each ps s).2.
Proof.
  revert s. induction ps as [|p ps IH]; intros s; [reflexivity|]. simpl.
  assert (writes_now s (mkdir_one p s).2) as Hone by (revert s; unfold mkdir_one; solve_now).
  destruct (mkdir_one p s) as [[e|] s']; [done|]. etrans; [exact Hone|apply IH].
Qed.

Lemma later_MkdirAll p : respects later (os_MkdirAll p).
Proof. apply later_op. intros s. apply mkdir_each_now. Qed.

#[local] Hint Resolve later_Remove later_OpenExcl later_WriteFile later_WriteString later_MkdirAll : go.

Lemma later_ensureRunDirs : respects later ensureRunDirs.
Proof. unfold ensureRunDirs. solve_respects. Qed.

Definition timeless (w w' : World) : Prop := now w' = now w.

#[local] Instance timeless_preorder : PreOrder timeless.
Proof. split; [done|]. unfold timeless. intros w1 w2 w3 H1 H2. congruence. Qed.

Lemma ensureRunDirs_now : respects timeless ensureRunDirs.
Proof.
  assert (∀ p, respects timeless (os_MkdirAll p)).
  { intros p w. unfold timeless, now. rewrite os_MkdirAll_eq. simpl. by rewrite (proj1 (mkdir_each_now _ _)). }
  unfold ensureRunDirs. solve_respects.
Qed.

#[local] Hint Resolve later_ensureRunDirs : go.

Lemma later_clear v d : respects later (clearVolumeNBDState v d).
Proof. unfold clearVolumeNBDState. solve_respects. Qed.

#[local] Hint Resolve later_clear : go.

Lemma later_reserve v : respects later (reserveNBDDevice v).
Proof.
  assert (∀ d, respects later (writeVolumeNBDState v d)) by (unfold writeVolumeNBDState; solve_respects).
  assert (∀ p, respects later (gcReservation p)).
  { unfold gcReservation, mustReadFile, os_Stat, os_ReadFile, time_Since. solve_respects. }
  assert (∀ ds, respects later (reserveScan v ds)).
  { induction ds as [|d ds IH]; cbn [reserveScan]; unfold isNBDConnected, os_ReadFile; solve_respects. }
  assert (respects later (reserveFresh v)).
  { unfold reserveFresh, listNBDDevices, filepath_Glob. solve_respects. }
  unfold reserveNBDDevice, reserveInDirs, readVolumeNBDState, os_ReadFile, os_Stat. solve_respects.
Qed.

(** A young run directory has no reservation older than the limit. *)
Lemma young_unexpired T w :
  young T w → T ≤ now w ≤ T + 2 * hour → unexpired (w_sys (ensureRunDirs w).2).
Proof.
  intros Hy [HT Hn] v d f Hv Hh Hf Hc. pose proof (ensureRunDirs_now w) as Heq. unfold timeless, now in *.
  rewrite Heq. destruct (later_ensureRunDirs w) as [_ Hl].
  specialize (Hl T HT Hy _ f (any_reservation_in_run d) Hf). lia.
Qed.

End time.

Arguments Clock {E C}.

Section service.
Context `{E : !Environment, C : !KubeClient, Q : !QuantityParser}.
Context `{EK : !EnvKeeps in_run_dir, KK : !KubeKeeps in_run_dir, HL : !Healthy in_run_dir, CL : !Clock}.

(** From [w] to [w'] by a history of the allocator, in time. *)
Definition acts (w w' : World) : Prop :=
  later w w' ∧ ∃ ts, node_run w ts w' ∧ Forall (λ t, later w t.1 ∧ later t.1 w') ts.

#[local] Instance acts_preorder : PreOrder acts.
Proof.
  split; [intros w; split; [reflexivity|]; exists []; split; constructor|].
  intros w1 w2 w3 [H1 (ts & R1 & F1)] [H2 (us & R2 & F2)]. split; [by transitivity w2|].
  exists (ts ++ us). split; [by eapply node_run_app|]. apply Forall_app_2.
  - eapply Forall_impl; [exact F1|]. intros t [Ha Hb]. split; [done|by transitivity w2].
  - eapply Forall_impl; [exact F2|]. intros t [Ha Hb]. split; [by transitivity w2|done].
Qed.

Lemma acts_step w l w' : node_step w l w' → later w w' → acts w w'.
Proof.
  intros Hl Ht. split; [done|]. exists [(w, l)]. split; [by apply (run_snoc _ []); [constructor|]|].
  constructor; [split; [reflexivity|done]|constructor].
Qed.

Lemma acts_quiet w w' : quiet w w' → acts w w'.
Proof. intros Hk. apply (acts_step w LNode); [constructor; apply Hk|by apply quiet_later]. Qed.

Lemma quietly {A} (m : Go A) : respects quiet m → respects acts m.
Proof. intros Hm w. apply acts_quiet, Hm. Qed.

Lemma quiet_emit e : respects quiet (emit e).
Proof. intros w. split; [apply keeps_emit|unfold now; simpl; lia]. Qed.

Lemma quiet_exec cmd args : respects quiet (exec_Command cmd args).
Proof. intros w. split; [by apply keeps_exec|apply exec_later]. Qed.

#[local] Instance quiet_frame : Frame quiet.
Proof.
  split; [split; [apply _|..]|..]; intros.
  - intros w. split; [by apply keeps_kube|apply kube_later].
  - intros w. split; [intros p Hp; unfold w_fs; simpl; by apply select_keeps|apply select_later].
  - intros w. split; [by apply keeps_Sleep|apply sleep_later].
  - apply quiet_emit.
  - apply quiet_exec.
Qed.

#[local] Instance acts_frame : Frame acts.
Proof.
  split; [split; [apply _|..]|..]; intros; apply quietly.
  - by apply frame_kube.
  - by apply frame_select.
  - by apply frame_sleep.
  - apply quiet_emit.
  - apply quiet_exec.
Qed.

Lemma acts_emit e : respects acts (emit e).
Proof. apply quietly, quiet_emit. Qed.

Lemma acts_exec cmd args : respects acts (exec_Command cmd args).
Proof. apply quietly, quiet_exec. Qed.

#[local] Hint Resolve acts_emit acts_exec quiet_emit quiet_exec : go.

(** ** Publish *)

Section volume.
Context (v : string) (Hv : good_volume v = true).

Lemma acts_makeTarget t : HasPrefix t ZeroFSRunDir = false → respects acts (makeTarget t).
Proof.
  intros Ht. unfold makeTarget. respects_step; [|solve_respects]. apply quietly. intros w. split.
  - intros q Hq. unfold w_fs. rewrite os_MkdirAll_eq. cbn [snd w_sys]. apply mkdir_each_ne.
    intros Hin. by eapply target_ancestors.
  - apply later_MkdirAll.
Qed.

Lemma acts_format fs d : respects acts (formatIfBlank fs d).
Proof. unfold formatIfBlank. solve_respects. Qed.

#[local] Hint Resolve acts_format : go.

Lemma acts_release d w : holds (w_sys w) v d → acts w (clearVolumeNBDState v d w).2.
Proof. intros Hh. apply (acts_step w (LRelease v)); [by constructor|apply later_clear]. Qed.

Lemma acts_forget w : (∀ d, ¬ holds (w_sys w) v d) → acts w (clearVolumeNBDState v EmptyString w).2.
Proof. intros Hh. apply (acts_step w (LRelease v)); [by constructor|apply later_clear]. Qed.

Lemma quiet_holds w w' d : quiet w w' → holds (w_sys w') v d ↔ holds (w_sys w) v d.
Proof. intros [Hk _]. apply holds_frame. by apply Hk, statePath_in_run, good_volume_plain. Qed.

(** Reading the state file, doing something else and releasing the device it names. *)
Lemma release_recorded (other : string → Go unit) :
  (∀ dev, respects (quiet) (other dev)) →
  respects (acts) (do st <- readVolumeNBDState v;
    match st with Some dev => run other dev; clearVolumeNBDState v dev | None => ret tt end).
Proof.
  intros Ho w. destruct (readVolumeNBDState_runs v (w_sys w) Hv) as (r & Hread & Hr).
  destruct (Hread w eq_refl) as [Hres Hsys]. unfold bind at 1. cbv zeta. rewrite Hres.
  generalize dependent (readVolumeNBDState v w).2. intros w1 Hsys.
  assert (quiet w w1) as Hk by (split; [intros p _; unfold w_fs; by rewrite Hsys|unfold now; by rewrite Hsys]).
  transitivity w1; [by apply acts_quiet|]. destruct r as [dev|]; [|reflexivity].
  transitivity (other dev w1).2; [by apply acts_quiet, Ho|]. unfold bind. cbv zeta. apply acts_release.
  rewrite quiet_holds by apply Ho. rewrite Hsys. by apply Hr.
Qed.

Lemma release_then {A} (other : string → Go unit) (k : Go A) :
  (∀ dev, respects (quiet) (other dev)) → respects (acts) k →
  respects (acts) (do st <- readVolumeNBDState v;
    run match st with Some dev => run other dev; clearVolumeNBDState v dev | None => ret tt end; k).
Proof.
  intros Ho Hk. exact (respects_bind (acts) _ (λ _, k) (release_recorded other Ho) (λ _, Hk)).
Qed.

Lemma acts_clearStale : respects (acts) (clearStale v).
Proof.
  unfold clearStale. respects_step; [apply acts_emit|]. intros _.
  apply (release_then (λ dev, do c <- isNBDConnected dev;
    match c with inr true => detachNBDDeviceBestEffort dev | _ => ret tt end)); [solve_respects|apply acts_emit].
Qed.

Lemma acts_cleanup ns req : pr_volumeId req = v → respects (acts) (publishCleanup ns req).
Proof.
  intros Hreq. unfold publishCleanup. rewrite Hreq. respects_step; [solve_respects|]. intros _.
  apply release_then; solve_respects.
Qed.

Lemma reserveStage_acts w :
  wp (reserveStage v) (λ r w', acts w w' ∧ ∀ d, r = inr d → holds (w_sys w') v d) w.
Proof.
  apply wp_and; [|by apply reserveStage_holds]. apply (respects_wp acts).
  assert (respects acts (reserveNBDDevice v)).
  { intros w0. eapply acts_step; [by apply StepReserve|apply later_reserve]. }
  unfold reserveStage. solve_respects.
Qed.

Lemma connectNBD_acts sock dev w :
  holds (w_sys w) v dev → wp (connectNBD v sock dev) (λ _ w', acts w w') w.
Proof.
  intros Hh. unfold connectNBD. wp_frame quiet w1 H1. wp_frame quiet w2 H2.
  assert (quiet w w2) as Hk by (by transitivity w1). destruct (co_err a0) as [e|].
  - wp_frame quiet w3 H3. wp_step. unfold wp at 1.
    assert (quiet w w3) as Hk3 by (by transitivity w2).
    assert (acts w (clearVolumeNBDState v dev w3).2) as H4.
    { transitivity w3; [by apply acts_quiet|]. apply acts_release. by rewrite (quiet_holds w w3). }
    generalize dependent (clearVolumeNBDState v dev w3).2. intros w4 H4.
    eapply wp_mono; [apply (respects_wp acts); solve_respects|]. cbv beta. intros _ w5 H5. by transitivity w4.
  - eapply wp_mono; [apply (respects_wp quiet); solve_respects|].
    cbv beta. intros _ w3 H3. apply acts_quiet. by transitivity w2.
Qed.

Lemma acts_publishBody ns req fs :
  pr_volumeId req = v → HasPrefix (pr_targetPath req) ZeroFSRunDir = false →
  respects acts (publishBody ns req fs).
Proof.
  intros Hreq Ht. assert (respects acts (makeTarget (pr_targetPath req))) by (by apply acts_makeTarget).
  unfold publishBody. rewrite Hreq. cbv zeta.
  respects_step; [done|]. intros _. destruct (pr_context req !! "configMapName") as [cm|]; [|solve_respects].
  do 5 (respects_step; [solve_respects|]). intros _ w.
  match goal with |- acts w (?m w).2 => change (wp m (λ _ w', acts w w') w) end.
  wp_step. eapply wp_mono; [apply reserveStage_acts|]. cbv beta. intros [st|dev] w7 [H7 Hh]; [done|].
  wp_step. eapply wp_mono; [by apply connectNBD_acts, Hh|]. cbv beta. intros r w8 H8.
  assert (acts w w8) as Hw8 by (by transitivity w7). destruct r as [st|_]; [done|].
  eapply wp_mono; [apply (respects_wp acts); solve_respects|]. cbv beta. intros _ w9 H9. by transitivity w8.
Qed.

Lemma acts_publish ns req :
  pr_volumeId req = v → HasPrefix (pr_targetPath req) ZeroFSRunDir = false →
  respects acts (NodePublishVolume ns req).
Proof.
  intros Hreq Ht. apply frame_NodePublishVolume; [apply _|..].
  - intros fs. by apply acts_publishBody.
  - rewrite Hreq. apply acts_clearStale.
  - by apply acts_cleanup.
Qed.

(** ** Unpublish *)

(** The device to release: the one the volume holds, or none when it holds none. *)
Definition to_release (d : string) (w : World) : Prop :=
  holds (w_sys w) v d ∨ d = EmptyString ∧ ∀ d', ¬ holds (w_sys w) v d'.

Lemma quiet_to_release d w w' : quiet w w' → to_release d w → to_release d w'.
Proof.
  intros Hq [Hh|[-> Hn]]; [left; by apply (quiet_holds w w')|].
  right. split; [done|]. intros d'. by rewrite (quiet_holds w w').
Qed.

Lemma acts_to_release d w : to_release d w → acts w (clearVolumeNBDState v d w).2.
Proof. intros [Hh|[-> Hn]]; [by apply acts_release|by apply acts_forget]. Qed.

(** The look at the state file when findmnt found nothing. *)
Lemma recoverDevice_reads w :
  (recoverDevice v EmptyString w).1 = default EmptyString (readVolumeNBDState v w).1.
Proof.
  unfold recoverDevice, readVolumeNBDState, os_ReadFile, sys_read, bind, ret. cbv zeta. cbn [fst snd].
  rewrite decide_True by done. cbn [fst snd]. destruct (read_file _ _) as [e|b]; [done|]. by case_decide.
Qed.

Lemma recoverDevice_to_release d w :
  d = EmptyString ∨ holds (w_sys w) v d → wp (recoverDevice v d) to_release w.
Proof.
  intros Hd. assert ((recoverDevice v d w).2 = w) as Hw by (unfold recoverDevice; by case_decide).
  unfold wp. rewrite Hw. destruct (decide (d = EmptyString)) as [->|Hne].
  - rewrite recoverDevice_reads.
    destruct (readVolumeNBDState_runs v (w_sys w) Hv) as (r & Hread & Hr).
    rewrite (runs_result _ _ _ _ Hread). destruct r as [x|]; [left; by apply Hr|].
    right. split; [done|]. by intros d' Hd'%Hr.
  - destruct Hd as [?|Hd]; [done|]. left. unfold recoverDevice. by rewrite decide_False.
Qed.

(** What findmnt prints for the target, if anything, is the device of the volume. *)
Definition own_source (target : string) (w : World) : Prop :=
  let src := mount_source (env_exec "findmnt" (findmnt_args target) (w_sys w)).1 in
  src.2 = true → holds (w_sys w) v src.1.

Lemma acts_unpublish ns req w :
  ur_volumeId req = v → own_source (ur_targetPath req) w → acts w (NodeUnpublishVolume ns req w).2.
Proof.
  intros Hreq Hown. change (wp (NodeUnpublishVolume ns req) (λ _ w', acts w w') w).
  unfold NodeUnpublishVolume. rewrite Hreq. cbv zeta. wp_step. apply wp_startStage.
  case_decide; [by destruct (good_volume_nonempty v Hv)|].
  case_decide. { apply (respects_wp acts). solve_respects. }
  unfold own_source in Hown. destruct (env_exec "findmnt" _ (w_sys w)) as [out s1] eqn:Hx. cbn [fst] in Hown.
  wp_step. unfold wp at 1.
  pose proof (frame_findMountSource quiet (ur_targetPath req) w) as H1. revert H1.
  rewrite (findMountSource_eq _ w out s1 Hx). cbn [fst snd]. generalize (mkWorld s1 (w_trace w ++ [EvExec "findmnt" (findmnt_args (ur_targetPath req)) out])).
  intros w1 H1. destruct (mount_source out) as [src mounted]. cbn [fst snd] in *.
  set (d := if mounted then src else EmptyString).
  assert (d = EmptyString ∨ holds (w_sys w) v d) as Hd by (destruct mounted; auto). clearbody d.
  wp_frame quiet w2 H2. assert (quiet w w2) as Hw2 by (by transitivity w1).
  wp_step. eapply wp_mono.
  { apply wp_and; [apply (respects_wp quiet); solve_respects|].
    apply recoverDevice_to_release. destruct Hd as [?|Hd]; [by left|]. right. by apply (quiet_holds w w2). }
  cbv beta. intros dev w3 [H3 Hdev]. wp_frame quiet w4 H4. wp_frame quiet w5 H5. wp_frame quiet w6 H6.
  wp_frame quiet w7 H7. assert (quiet w3 w7) as H37 by (by do 3 (etrans; [done|])).
  wp_step. unfold wp at 1.
  assert (acts w (clearVolumeNBDState v dev w7).2) as H8.
  { transitivity w7; [apply acts_quiet; by do 2 (etrans; [done|])|].
    apply acts_to_release. by eapply quiet_to_release. }
  generalize dependent (clearVolumeNBDState v dev w7).2. intros w8 H8.
  eapply wp_mono; [apply (respects_wp acts); solve_respects|]. cbv beta. intros _ w9 H9. by transitivity w8.
Qed.

End volume.

(** ** The service *)

(** What happens to the node service, with the results of its calls.  A publish also
    says whether its target was already mounted from an NBD device. *)
Inductive handled :=
| HPublish (req : NodePublishVolumeRequest) (mounted : bool) (r : Status + unit)
| HUnpublish (req : NodeUnpublishVolumeRequest) (r : Status + unit)
| HReconcile
| HOther.

Definition mounted_nbd (target : string) (w : World) : bool :=
  HasPrefix (mount_source (env_exec "findmnt" (findmnt_args target) (w_sys w)).1).1 "/dev/nbd".

(** What a call does to the table of devices.  A publish that was refused for its request
    changes nothing, nor does one whose target is already mounted; one that fails at
    any later point leaves the volume without a device; one that succeeds gives the
    volume a device that no other volume has.  An unpublish takes the device away. *)
Inductive table_step : table → handled → table → Prop :=
| TRejected A req m st : (∀ fs, ¬ valid_publish req fs) → table_step A (HPublish req m (inl st)) A
| TMounted A req fs : valid_publish req fs → table_step A (HPublish req true (inr tt)) A
| TPublished A req fs d :
    valid_publish req fs → nbdDevicePathRe d = true → (∀ v', v' ≠ pr_volumeId req → A !! v' ≠ Some d) →
    table_step A (HPublish req false (inr tt)) (<[pr_volumeId req := d]> A)
| TFailed A req fs st :
    valid_publish req fs → table_step A (HPublish req false (inl st)) (delete (pr_volumeId req) A)
| TUnpublished A req :
    ur_targetPath req ≠ EmptyString → table_step A (HUnpublish req (inr tt)) (delete (ur_volumeId req) A)
| TRefused A req st : ur_targetPath req = EmptyString → table_step A (HUnpublish req (inl st)) A
| TReconcile A : table_step A HReconcile A
| TOther A : table_step A HOther A.

Inductive table_steps : table → list handled → table → Prop :=
| table_nil A : table_steps A [] A
| table_snoc A cs B c B' : table_steps A cs B → table_step B c B' → table_steps A (cs ++ [c]) B'.

(** A call, with the preconditions under which the node service is used: volume names
    that are file names, targets outside the run directory, and a findmnt that prints
    for an unpublish's target the device of its volume, or nothing.  Between the calls
    the rest of the node does what it likes outside the run directory. *)
Inductive service_step (w : World) : handled → World → Prop :=
| serve_publish ns req :
    good_volume (pr_volumeId req) = true → HasPrefix (pr_targetPath req) ZeroFSRunDir = false →
    service_step w
      (HPublish req (mounted_nbd (pr_targetPath req) w) (NodePublishVolume ns req w).1)
      (NodePublishVolume ns req w).2
| serve_unpublish ns req :
    good_volume (ur_volumeId req) = true → own_source (ur_volumeId req) (ur_targetPath req) w →
    service_step w (HUnpublish req (NodeUnpublishVolume ns req w).1) (NodeUnpublishVolume ns req w).2
| serve_reconcile : service_step w HReconcile (reconcileOrphanedNBDDevices w).2
| serve_other w' : quiet w w' → service_step w HOther w'.

Inductive service_run (w : World) : list handled → World → Prop :=
| serve_start : service_run w [] w
| serve_snoc cs w1 c w2 : service_run w cs w1 → service_step w1 c w2 → service_run w (cs ++ [c]) w2.

Lemma step_acts w c w' : service_step w c w' → acts w w'.
Proof.
  intros [ns req Hv Ht|ns req Hv Ho| |w2 Hq].
  - by apply (acts_publish (pr_volumeId req)).
  - by apply (acts_unpublish (ur_volumeId req)).
  - by apply (frame_reconcile acts).
  - by apply acts_quiet.
Qed.

Lemma acts_timely T w ts w' :
  Forall (λ t, later w t.1 ∧ later t.1 w') ts → young T w → T ≤ now w → now w' ≤ T + 2 * hour → timely ts.
Proof.
  intros Hf Hy HT Hn w1 v r Hin. rewrite Forall_forall in Hf. destruct (Hf _ Hin) as [[H1 K1] [H2 _]].
  cbn [fst] in *. apply (young_unexpired T); [by apply K1|lia].
Qed.

(** The invariant goes through a call. *)
Lemma step_inv T A w c w' :
  service_step w c w' → inv (w_sys w) → represents A (w_sys w) → injective A →
  young T w → T ≤ now w → now w' ≤ T + 2 * hour → inv (w_sys w') ∧ exclusive (w_sys w').
Proof.
  intros Hs Hi Hr Hinj Hy HT Hn. destruct (step_acts w c w' Hs) as (_ & ts & Hrun & Hf).
  destruct (node_run_refines A w ts w' Hrun) as (B & _ & _ & _ & HB); [by eapply acts_timely|done..].
Qed.

Lemma quiet_represents A w w' : quiet w w' → represents A (w_sys w) → represents A (w_sys w').
Proof.
  intros [Hk _] [Hdom Hrep]. split; [done|]. intros v d Hv. rewrite Hrep by done.
  symmetry. apply holds_frame, Hk. by apply statePath_in_run, good_volume_plain.
Qed.

(** A volume that has lost its device. *)
Lemma represents_delete A v s s' :
  represents A s → good_volume v = true →
  (∀ v' d, good_volume v' = true → v' ≠ v → holds s' v' d ↔ holds s v' d) →
  (∀ d, ¬ holds s' v d) → represents (delete v A) s'.
Proof.
  intros Hr Hv Hother Hn. eapply represents_update; [done..| |intros; by rewrite lookup_delete_ne].
  intros d. rewrite lookup_delete_eq. split; [done|]. intros Hd. by destruct (Hn d).
Qed.

Lemma publish_table A ns req w :
  good_volume (pr_volumeId req) = true → HasPrefix (pr_targetPath req) ZeroFSRunDir = false →
  represents A (w_sys w) →
  inv (w_sys (NodePublishVolume ns req w).2) → exclusive (w_sys (NodePublishVolume ns req w).2) →
  ∃ B, table_step A (HPublish req (mounted_nbd (pr_targetPath req) w) (NodePublishVolume ns req w).1) B ∧
    represents B (w_sys (NodePublishVolume ns req w).2).
Proof.
  intros Hv Ht Hr [_ Hb'] Hx'. set (v := pr_volumeId req) in *.
  assert (∀ v' d, good_volume v' = true → v' ≠ v →
    holds (w_sys (NodePublishVolume ns req w).2) v' d ↔ holds (w_sys w) v' d) as Hother.
  { intros v' d Hv' Hne. apply holds_frame. apply (keeps_publish v Hv ns req eq_refl Ht w). by exists v'. }
  destruct (valid_publish_dec req) as [[fs Hval]|Hval].
  2: { destruct (publish_invalid ns req w Hval) as [msg ->]. exists A. split; [by constructor|done]. }
  destruct (env_exec "findmnt" (findmnt_args (pr_targetPath req)) (w_sys w)) as [out s1] eqn:Hfind.
  unfold mounted_nbd. rewrite Hfind. cbn [fst]. destruct (HasPrefix _ "/dev/nbd") eqn:Hp.
  { unfold mount_source in Hp. destruct (co_err out) eqn:He; [done|].
    destruct (publish_mounted ns req fs w out s1 Hval Hfind He Hp) as [d ->]. exists A. split; [by econstructor|].
    cbn [snd w_sys]. assert (quiet w (exec_Command "findmnt" (findmnt_args (pr_targetPath req)) w).2) as Hq
      by apply quiet_exec.
    apply (quiet_represents A w) in Hq; [|done]. revert Hq. by simpl; rewrite Hfind. }
  pose proof (publish_post ns req fs w out s1 Hval Hv Hfind Hp) as Hpost. unfold wp in Hpost.
  destruct (NodePublishVolume ns req w) as [[st|[]] w2] eqn:Hpub; cbn [fst snd] in *.
  - exists (delete v A). split; [by econstructor|]. eapply represents_delete; [done..|].
    intros d. by eapply failed_no_holds.
  - destruct Hpost as (dev & w1 & d' & (Hh & _) & Hs & _). rewrite <- Hs in Hh. fold v in Hh.
    exists (<[v := dev]> A). split.
    + eapply TPublished; [done|by apply (Hb' v dev Hv Hh)|]. fold v. intros v' Hne HA.
      assert (good_volume v' = true) as Hv' by (apply Hr; by eexists).
      apply Hne, (Hx' v' v dev); [done..| |done]. apply Hother; [done..|]. by apply Hr.
    + eapply represents_update; [done..| |intros; by rewrite lookup_insert_ne].
      intros d. rewrite lookup_insert_eq. split; [by intros [= <-]|]. intros Hd.
      by rewrite (holds_functional _ _ _ _ Hh Hd).
Qed.

Lemma unpublish_result ns req w :
  ur_volumeId req ≠ EmptyString →
  (NodeUnpublishVolume ns req w).1 =
    if decide (ur_targetPath req = EmptyString)
    then inl (mkStatus InvalidArgument "target path cannot be empty") else inr tt.
Proof.
  intros Hv. unfold NodeUnpublishVolume. cbv zeta. unfold bind at 1. cbv zeta. rewrite decide_False by done.
  case_decide; [done|]. unfold bind at 1. cbv zeta. by destruct (findMountSource _ _).1 as [src mounted].
Qed.

Lemma unpublish_table A ns req w :
  good_volume (ur_volumeId req) = true → represents A (w_sys w) →
  ∃ B, table_step A (HUnpublish req (NodeUnpublishVolume ns req w).1) B ∧
    represents B (w_sys (NodeUnpublishVolume ns req w).2).
Proof.
  intros Hv Hr. rewrite unpublish_result by (by apply good_volume_nonempty).
  case_decide as Ht.
  - exists A. split; [by constructor|]. unfold NodeUnpublishVolume. cbv zeta. unfold bind at 1. cbv zeta.
    rewrite decide_False by (by apply good_volume_nonempty). by rewrite decide_True.
  - exists (delete (ur_volumeId req) A). split; [by constructor|]. eapply represents_delete; [done..| |].
    + intros v' d Hv' Hne. pose proof (keeps_unpublish (ur_volumeId req) Hv ns req eq_refl w) as Hk.
      apply holds_frame. unfold keeps, w_fs in Hk. rewrite Hk; [done|by exists v'].
    + intros d. by apply unpublish_no_holds.
Qed.

Lemma step_table T A w c w' :
  service_step w c w' → inv (w_sys w) → represents A (w_sys w) → injective A →
  young T w → T ≤ now w → now w' ≤ T + 2 * hour →
  ∃ B, table_step A c B ∧ represents B (w_sys w').
Proof.
  intros Hs Hi Hr Hinj Hy HT Hn. destruct (step_inv T A w c w') as [Hi' Hx']; [done..|].
  destruct Hs as [ns req Hv Ht|ns req Hv Ho| |w2 Hq].
  - by apply publish_table.
  - by apply unpublish_table.
  - exists A. split; [constructor|]. eapply quiet_represents; [by apply (frame_reconcile quiet)|done].
  - exists A. split; [constructor|by eapply quiet_represents].
Qed.

Lemma represents_injective A s : represents A s → exclusive s → injective A.
Proof.
  intros [Hdom Hrep] Hx v1 v2 d H1 H2. assert (good_volume v1 = true) by (apply Hdom; by eexists).
  assert (good_volume v2 = true) by (apply Hdom; by eexists). apply (Hx v1 v2 d); [done..| |]; by apply Hrep.
Qed.

Lemma service_later w cs w' : service_run w cs w' → later w w'.
Proof.
  induction 1 as [|cs w1 c w2 _ IH Hs]; [reflexivity|]. etrans; [exact IH|]. apply (step_acts _ _ _ Hs).
Qed.

(** C2: Every sequence of NodePublishVolume and NodeUnpublishVolume calls, reconciler
    runs and other events of the node acts on the table of devices as its
    specification says, call by call: a publish refused for its request, or whose
    target is already mounted from an NBD device, changes nothing; one that fails
    later leaves its volume without a device; one that succeeds gives its volume a
    device that no other volume has; a well-formed unpublish succeeds and takes its
    volume's device away; nothing else changes the table. Afterwards the state files
    represent the resulting table, every device held is backed by a reservation, and
    no device is held by two volumes. Assumed: commands, API calls, sleeps and other
    events leave the run directory alone (EnvKeeps, KubeKeeps), input and output
    there does not fail (Healthy), the clock does not go back (Clock), volume names
    are good file names, publish targets are outside the run directory, findmnt
    prints for the target of an unpublish the volume's own device or nothing, and
    the run ends within two hours of the oldest file in the run directory. *)
Theorem service_refines T A w cs w' :
  service_run w cs w' → inv (w_sys w) → represents A (w_sys w) → injective A →
  young T w → T ≤ now w → now w' ≤ T + 2 * hour →
  ∃ B, table_steps A cs B ∧ represents B (w_sys w') ∧ injective B ∧ inv (w_sys w') ∧ exclusive (w_sys w').
Proof.
  intros Hs Hi Hr Hinj Hy HT. induction Hs as [|cs w1 c w2 Hs IH Hstep]; intros Hn.
  { exists A. split; [constructor|]. split_and!; [done..|]. by apply backed_exclusive, Hi. }
  destruct (service_later _ _ _ Hs) as [H1 K1].
  assert (now w1 ≤ now w2) as H2 by apply (step_acts _ _ _ Hstep).
  destruct IH as (B & Hsteps & HB & HinjB & HiB & _); [lia|].
  destruct (step_inv T B w1 c w2) as [Hi2 Hx2]; [done..|by apply K1|lia|lia|].
  destruct (step_table T B w1 c w2) as (B' & Ht & HB'); [done..|by apply K1|lia|lia|].
  exists B'. split; [by econstructor|]. split_and!; [done|by eapply represents_injective|done|done].
Qed.

End service.

(** ** On the concrete node *)

Section witnesses.
Import SimRun.

#[local] Instance run_env : EnvKeeps in_run_dir := sim_keeps.
#[local] Instance run_kube : KubeKeeps in_run_dir := sim_kube_keeps.
#[local] Instance run_healthy : Healthy in_run_dir := sim_healthy.

Lemma sim_exec_clock cmd args s : nd_clock (sys_ext (sim_exec cmd args s).2) = nd_clock (sys_ext s).
Proof.
  unfold sim_exec, findmnt, mount, umount, truncate, nbd_client, blkid, mkfs, mount_9p, mount_dev,
    not_run, ok, failed, put. by repeat case_match.
Qed.

Lemma sim_kube_clock T (op : kube_op T) (s : sys) :
  nd_clock (sys_ext (sim_kube op s).2) = nd_clock (sys_ext s).
Proof. unfold sim_kube, get_obj, put. destruct op; by repeat case_match. Qed.

#[local] Instance sim_clock : Clock.
Proof.
  split.
  - intros cmd args s. cbn. rewrite sim_exec_clock. lia.
  - intros d s. cbn. lia.
  - intros. cbn. case_match; cbn; lia.
  - intros B op s. unfold kube_do, sim_client. cbn. rewrite sim_kube_clock. lia.
Qed.

(** The volume is published and unpublished again. *)
Definition world0_calls : list handled :=
  [HPublish publish0 false (inr tt); HUnpublish unpublish0 (inr tt)].

Lemma world0_service : service_run world0 world0_calls (NodeUnpublishVolume ns0 unpublish0 published).2.
Proof.
  assert (world0_calls =
    ([] ++ [HPublish publish0 (mounted_nbd (pr_targetPath publish0) world0) (NodePublishVolume ns0 publish0 world0).1]) ++
    [HUnpublish unpublish0 (NodeUnpublishVolume ns0 unpublish0 published).1]) as -> by by_compute.
  eapply serve_snoc; [eapply serve_snoc; [constructor|by apply serve_publish; by_compute]|].
  change (NodePublishVolume ns0 publish0 world0).2 with published. apply serve_unpublish; [by_compute|].
  intros _. assert (good_volume "pvc-1" = true) as Hv by by_compute.
  destruct (readVolumeNBDState_runs "pvc-1" (w_sys published) Hv) as (r & Hread & Hr).
  apply Hr. rewrite <- (runs_result _ published _ _ Hread). by_compute.
Qed.

Lemma service_refines_witness :
  ∃ B, table_steps ∅ [HPublish publish0 false (inr tt); HUnpublish unpublish0 (inr tt)] B ∧
    represents B (w_sys (NodeUnpublishVolume ns0 unpublish0 published).2) ∧
    injective B ∧ inv (w_sys (NodeUnpublishVolume ns0 unpublish0 published).2) ∧
    exclusive (w_sys (NodeUnpublishVolume ns0 unpublish0 published).2).
Proof.
  pose proof (service_refines (now world0) ∅ world0 _ _ world0_service world0_inv world0_represents) as Hthm.
  apply Hthm.
  - by intros v1 v2 d Hd.
  - intros p f Hp Hf. by apply fs0_no_run in Hf.
  - reflexivity.
  - apply Z.leb_le. by_compute.
Defined.

End witnesses.

End NodeRefine.
