(* ===== verification/Conc.v ===== *)
(** * Concurrent calls of the node service

    gRPC runs every call in a goroutine of its own, and the startup reconciler is one
    more; they share the world and the mutex [nbdMu].  [Prog] is a program as the
    sequence of its steps, so that the steps of several programs can be interleaved:
    a step is one operation of the system, and the mutex is a pair of steps of its
    own.  [seq] runs a program without interruption.  A configuration is a world, the
    owner of the mutex and the programs; [cstep] is a step of one of them.

    Two theorems hold of any programs: those that use the mutex in a balanced way never
    deadlock and always finish ([balanced_finish]), and a proof of each program on its
    own, against what the others may do, is a proof of all together ([together]). *)

From S2P Require Import Prelude GoStrings GoPath World.

Module Conc.

(** ** Programs *)

Section prog.
Context `{E : !Environment}.

(** Where a step is in the source, when a theorem has to speak of it: the line, and the
    values of the variables it reads. *)
Inductive site := Anywhere | At (line : Z) (locals : list string).

Inductive Prog (A : Type) : Type :=
| PRet (a : A)
| PStep (B : Type) (l : site) (m : Go B) (k : B → Prog A)
| PLock (k : Prog A)
| PUnlock (k : Prog A).
Arguments PRet {A} a.
Arguments PStep {A B} l m k.
Arguments PLock {A} k.
Arguments PUnlock {A} k.

Fixpoint pbind {A B} (p : Prog A) (f : A → Prog B) : Prog B :=
  match p with
  | PRet a => f a
  | PStep l m k => PStep l m (λ b, pbind (k b) f)
  | PLock k => PLock (pbind k f)
  | PUnlock k => PUnlock (pbind k f)
  end.

Definition pbindE {X A B} (p : Prog (X + A)) (f : A → Prog (X + B)) : Prog (X + B) :=
  pbind p (λ r, match r with inl e => PRet (inl e) | inr a => f a end).

(** One step. *)
Definition lift {A} (m : Go A) : Prog A := PStep Anywhere m PRet.
Definition lift_at {A} (l : site) (m : Go A) : Prog A := PStep l m PRet.

Definition lock : Prog unit := PLock (PRet tt).
Definition unlock : Prog unit := PUnlock (PRet tt).

(** *** Uninterrupted runs *)

Fixpoint seq {A} (p : Prog A) : Go A :=
  match p with
  | PRet a => ret a
  | PStep _ m k => bind m (λ b, seq (k b))
  | PLock k => run emit EvLock; seq k
  | PUnlock k => run emit EvUnlock; seq k
  end.

(** [implements p m]: without interruption, [p] is [m]. *)
Definition implements {A} (p : Prog A) (m : Go A) : Prop := ∀ w, seq p w = m w.

Lemma seq_bind {A B} (p : Prog A) (f : A → Prog B) w : seq (pbind p f) w = bind (seq p) (λ a, seq (f a)) w.
Proof.
  revert w. induction p as [a|C l m k IH|k IH|k IH]; intros w; cbn [pbind seq]; [done|..];
    unfold bind in *; cbv zeta in *; by rewrite IH.
Qed.

Lemma implements_ret {A} (a : A) : implements (PRet a) (ret a).
Proof. done. Qed.

Lemma implements_lift {A} (m : Go A) : implements (lift m) m.
Proof. intros w. cbn. unfold bind, ret. cbv zeta. by rewrite <- surjective_pairing. Qed.

Lemma implements_lift_at {A} l (m : Go A) : implements (lift_at l m) m.
Proof. intros w. cbn. unfold bind, ret. cbv zeta. by rewrite <- surjective_pairing. Qed.

Lemma implements_lock : implements lock (emit EvLock).
Proof. done. Qed.

Lemma implements_unlock : implements unlock (emit EvUnlock).
Proof. done. Qed.

Lemma implements_bind {A B} (p : Prog A) m (f : A → Prog B) g :
  implements p m → (∀ a, implements (f a) (g a)) → implements (pbind p f) (bind m g).
Proof. intros Hp Hf w. rewrite seq_bind. unfold bind. cbv zeta. by rewrite Hp, Hf. Qed.

Lemma implements_bindE {X A B} (p : Prog (X + A)) m (f : A → Prog (X + B)) g :
  implements p m → (∀ a, implements (f a) (g a)) → implements (pbindE p f) (bindE m g).
Proof. intros Hp Hf. apply implements_bind; [done|]. by intros []. Qed.

(** ** Use of the mutex *)

(** [balanced h p]: started with the mutex held or not ([h]), the program takes it only
    when it does not hold it, gives it back only when it does, and ends without it. *)
Fixpoint balanced_to {A} (h : bool) (p : Prog A) (post : A → bool → Prop) : Prop :=
  match p with
  | PRet a => post a h
  | PStep _ _ k => ∀ b, balanced_to h (k b) post
  | PLock k => h = false ∧ balanced_to true k post
  | PUnlock k => h = true ∧ balanced_to false k post
  end.

Definition balanced {A} (h : bool) (p : Prog A) : Prop := balanced_to h p (λ _ h', h' = false).

Lemma balanced_to_mono {A} h (p : Prog A) (Q Q' : A → bool → Prop) :
  balanced_to h p Q → (∀ a h', Q a h' → Q' a h') → balanced_to h p Q'.
Proof. intros Hp HQ. revert h Hp. induction p; cbn; intros h Hp; intuition eauto. Qed.

Lemma balanced_bind {A B} h (p : Prog A) (f : A → Prog B) Q :
  balanced_to h p (λ a h', balanced_to h' (f a) Q) → balanced_to h (pbind p f) Q.
Proof. revert h. induction p; cbn; intros h Hp; intuition eauto. Qed.

(** A program that leaves the mutex as it is. *)
Definition neutral {A} (h : bool) (p : Prog A) : Prop := balanced_to h p (λ _ h', h' = h).

Lemma neutral_ret {A} h (a : A) : neutral h (PRet a).
Proof. done. Qed.

Lemma neutral_lift {A} h (m : Go A) : neutral h (lift m).
Proof. done. Qed.

Lemma neutral_lift_at {A} h l (m : Go A) : neutral h (lift_at l m).
Proof. done. Qed.

Lemma neutral_bind {A B} h (p : Prog A) (f : A → Prog B) :
  neutral h p → (∀ a, neutral h (f a)) → neutral h (pbind p f).
Proof. intros Hp Hf. apply balanced_bind. eapply balanced_to_mono; [exact Hp|]. intros a h' ->. apply Hf. Qed.

Lemma neutral_bindE {X A B} h (p : Prog (X + A)) (f : A → Prog (X + B)) :
  neutral h p → (∀ a, neutral h (f a)) → neutral h (pbindE p f).
Proof. intros Hp Hf. apply neutral_bind; [done|]. intros []; [apply neutral_ret|apply Hf]. Qed.

(** A program that does not use the mutex at all. *)
Fixpoint unlocked {A} (p : Prog A) : Prop :=
  match p with
  | PRet _ => True
  | PStep _ _ k => ∀ b, unlocked (k b)
  | PLock _ | PUnlock _ => False
  end.

Lemma unlocked_ret {A} (a : A) : unlocked (PRet a).
Proof. done. Qed.

Lemma unlocked_lift {A} (m : Go A) : unlocked (lift m).
Proof. done. Qed.

Lemma unlocked_lift_at {A} l (m : Go A) : unlocked (lift_at l m).
Proof. done. Qed.

Lemma unlocked_bind {A B} (p : Prog A) (f : A → Prog B) :
  unlocked p → (∀ a, unlocked (f a)) → unlocked (pbind p f).
Proof. intros Hp Hf. induction p; cbn in *; eauto. Qed.

Lemma unlocked_bindE {X A B} (p : Prog (X + A)) (f : A → Prog (X + B)) :
  unlocked p → (∀ a, unlocked (f a)) → unlocked (pbindE p f).
Proof. intros Hp Hf. apply unlocked_bind; [done|]. intros []; [done|apply Hf]. Qed.

Lemma unlocked_neutral {A} h (p : Prog A) : unlocked p → neutral h p.
Proof. intros Hp. induction p; cbn in *; [done|intros b; by apply H|done|done]. Qed.

(** A section under the mutex. *)
Lemma neutral_locked {A B} (p : Prog A) (f : A → Prog B) :
  neutral true p → (∀ a, neutral false (f a)) →
  neutral false (pbind lock (λ _, pbind p (λ a, pbind unlock (λ _, f a)))).
Proof.
  intros Hp Hf. split; [done|]. apply (balanced_bind true p). eapply balanced_to_mono; [exact Hp|].
  intros a h' ->. split; [done|]. apply Hf.
Qed.

(** ** Configurations *)

Record cfg (A : Type) := mkCfg { c_world : World; c_owner : option nat; c_threads : list (Prog A) }.
Arguments mkCfg {A} _ _ _.
Arguments c_world {A} _.
Arguments c_owner {A} _.
Arguments c_threads {A} _.

(** The step of the thread [i], if it has one: [None] for a thread that has returned or
    does not exist, one that waits for the mutex, and one that gives back a mutex it
    does not have (which in Go is a fatal error). *)
Definition step_thread {A} (c : cfg A) (i : nat) : option (cfg A) :=
  match c_threads c !! i with
  | Some (PStep _ m k) =>
      let r := m (c_world c) in
      Some (mkCfg r.2 (c_owner c) (<[i := k r.1]> (c_threads c)))
  | Some (PLock k) =>
      match c_owner c with
      | None => Some (mkCfg (emit EvLock (c_world c)).2 (Some i) (<[i := k]> (c_threads c)))
      | Some _ => None
      end
  | Some (PUnlock k) =>
      if decide (c_owner c = Some i)
      then Some (mkCfg (emit EvUnlock (c_world c)).2 None (<[i := k]> (c_threads c)))
      else None
  | Some (PRet _) => None
  | None => None
  end.

Definition cstep {A} (c c' : cfg A) : Prop := ∃ i, step_thread c i = Some c'.

(** The rest of the node. *)
Definition env_step {A} (R : relation World) (c c' : cfg A) : Prop :=
  ∃ w, R (c_world c) w ∧ c' = mkCfg w (c_owner c) (c_threads c).

(** All threads have returned. *)
Definition finished {A} (c : cfg A) : Prop := Forall (λ p, ∃ a, p = PRet a) (c_threads c).

(** A schedule. *)
Fixpoint run_schedule {A} (l : list nat) (c : cfg A) : option (cfg A) :=
  match l with
  | [] => Some c
  | i :: l' => step_thread c i ≫= run_schedule l'
  end.

Lemma run_schedule_steps {A} l (c c' : cfg A) : run_schedule l c = Some c' → rtc cstep c c'.
Proof.
  revert c. induction l as [|i l IH]; intros c; cbn; [by intros [= ->]|].
  intros (c1 & H1 & H2)%bind_Some. eapply rtc_l; [by exists i|by apply IH].
Qed.

Lemma schedule_reaches {A B} l (c : cfg A) (f : cfg A → B) b :
  f <$> run_schedule l c = Some b → ∃ c', rtc cstep c c' ∧ f c' = b.
Proof. intros (c' & Hr & ->)%fmap_Some. exists c'. split; [by eapply run_schedule_steps|done]. Qed.

(** *** Every schedule ends *)

(** One step of a program, whatever the answer of the system. *)
Inductive psub {A} : Prog A → Prog A → Prop :=
| sub_step B l (m : Go B) k b : psub (k b) (PStep l m k)
| sub_lock k : psub k (PLock k)
| sub_unlock k : psub k (PUnlock k).

Lemma psub_wf {A} : well_founded (@psub A).
Proof.
  intros p. induction p as [a|B l m k IH|k IH|k IH]; constructor; intros q Hq.
  - inversion Hq.
  - refine (match Hq in psub q' p' return
      match p' with PStep _ _ k' => (∀ b, Acc psub (k' b)) → Acc psub q' | _ => True end with
      | sub_step B l m k b => λ H, H b | _ => I end IH).
  - by inversion Hq; subst.
  - by inversion Hq; subst.
Qed.

(** One program of a list takes a step. *)
Inductive lsub {A} : list (Prog A) → list (Prog A) → Prop :=
| lsub_here p' p ts : psub p' p → lsub (p' :: ts) (p :: ts)
| lsub_there p ts' ts : lsub ts' ts → lsub (p :: ts') (p :: ts).

Lemma lsub_wf {A} : well_founded (@lsub A).
Proof.
  intros ts. induction ts as [|p ts IH]; [constructor; intros ts' H; inversion H|].
  revert ts IH. induction p as [p IHp] using (well_founded_ind psub_wf). intros ts Hts.
  induction Hts as [ts Hacc IHts]. constructor. intros ts' Hsub. inversion Hsub; subst.
  - apply IHp; [done|]. by constructor.
  - by apply IHts.
Qed.

Lemma lsub_insert {A} i (p p' : Prog A) ts : ts !! i = Some p → psub p' p → lsub (<[i := p']> ts) ts.
Proof.
  revert i. induction ts as [|q ts IH]; intros [|i] Hi Hp; simplify_eq/=; [by constructor|].
  constructor. by apply IH.
Qed.

Lemma step_thread_lsub {A} (c c' : cfg A) i : step_thread c i = Some c' → lsub (c_threads c') (c_threads c).
Proof.
  unfold step_thread. intros H. destruct (c_threads c !! i) as [p|] eqn:Hi; [|done].
  destruct p as [a|B l m k|k|k]; repeat case_match; simplify_eq/=;
    by eapply lsub_insert; [exact Hi|constructor].
Qed.

(** *** No deadlock *)

Definition lock_ok {A} (c : cfg A) : Prop :=
  (∀ i, c_owner c = Some i → is_Some (c_threads c !! i)) ∧
  ∀ i p, c_threads c !! i = Some p → balanced (bool_decide (c_owner c = Some i)) p.

Lemma lock_ok_insert {A} (c : cfg A) i p (p' : Prog A) o w :
  c_threads c !! i = Some p → lock_ok c →
  (∀ j, j ≠ i → o = Some j ↔ c_owner c = Some j) →
  balanced (bool_decide (o = Some i)) p' → lock_ok (mkCfg w o (<[i := p']> (c_threads c))).
Proof.
  intros Hi [Ho Hb] H2 Hp. split; cbn.
  - intros j Hj. apply lookup_lt_is_Some. rewrite length_insert. apply lookup_lt_is_Some.
    destruct (decide (j = i)) as [->|Hne]; [by eexists|]. apply Ho. by apply H2.
  - intros j q [(-> & -> & _)|[Hne Hq]]%list_lookup_insert_Some; [done|].
    rewrite (bool_decide_ext _ (c_owner c = Some j)) by (by apply H2). by apply Hb.
Qed.

Lemma step_thread_lock_ok {A} (c c' : cfg A) i : step_thread c i = Some c' → lock_ok c → lock_ok c'.
Proof.
  unfold step_thread. intros H Hok. destruct (c_threads c !! i) as [p|] eqn:Hi; [|done].
  pose proof (proj2 Hok i p Hi) as Hp. destruct p as [a|B l m k|k|k]; [done|..]; cbn in Hp.
  - simplify_eq/=. apply (lock_ok_insert _ _ _ _ _ _ Hi Hok); [done|apply Hp].
  - destruct (c_owner c) as [j|] eqn:Ho; [done|]. simplify_eq/=. destruct Hp as [_ Hp].
    apply (lock_ok_insert _ _ _ _ _ _ Hi Hok); [intros j Hj; rewrite Ho; split; congruence|].
    by rewrite bool_decide_eq_true_2.
  - case_decide as Ho; [|done]. simplify_eq/=. destruct Hp as [_ Hp].
    apply (lock_ok_insert _ _ _ _ _ _ Hi Hok); [intros j Hj; rewrite Ho; split; congruence|].
    by rewrite bool_decide_eq_false_2.
Qed.

(** A thread that has the mutex, or any thread while nobody has it, can go on. *)
Lemma thread_progress {A} (c : cfg A) i p :
  c_threads c !! i = Some p → balanced (bool_decide (c_owner c = Some i)) p →
  c_owner c = None ∨ c_owner c = Some i →
  c_owner c = None ∧ (∃ a, p = PRet a) ∨ ∃ c', cstep c c'.
Proof.
  intros Hi Hb Ho. assert (∀ c', step_thread c i = Some c' → ∃ c', cstep c c') as Hs by (intros c' ?; exists c'; by exists i).
  destruct p as [a|B l m k|k|k].
  - left. split; [|by exists a]. destruct Ho as [?|Ho]; [done|]. cbn in Hb. by apply bool_decide_eq_false in Hb.
  - right. eapply Hs. unfold step_thread. by rewrite Hi.
  - right. eapply Hs. unfold step_thread. rewrite Hi. destruct Hb as [Hb _]. apply bool_decide_eq_false in Hb.
    by destruct Ho as [->|Ho].
  - right. eapply Hs. unfold step_thread. rewrite Hi. destruct Hb as [Hb _]. apply bool_decide_eq_true in Hb.
    by rewrite decide_True.
Qed.

Lemma lock_ok_progress {A} (c : cfg A) : lock_ok c → finished c ∨ ∃ c', cstep c c'.
Proof.
  intros [Ho Hb]. destruct (c_owner c) as [i|] eqn:Hown.
  - destruct (Ho i eq_refl) as [p Hp]. right.
    destruct (thread_progress c i p Hp) as [[? _]|?]; [|by right|congruence|done]. rewrite Hown. by apply Hb.
  - assert (∀ ts : list (Prog A), (∀ i p, ts !! i = Some p → (∃ a, p = PRet a) ∨ ∃ c', cstep c c') →
      Forall (λ p, ∃ a, p = PRet a) ts ∨ ∃ c', cstep c c') as Hall.
    { induction ts as [|p ts IH]; intros H; [left; constructor|].
      destruct (H 0 p eq_refl) as [?|?]; [|by right].
      destruct IH as [?|?]; [intros i; apply (H (S i))|left; by constructor|by right]. }
    apply Hall. intros i p Hp. destruct (thread_progress c i p Hp) as [[_ ?]|?]; [|by left|by left|by right].
    rewrite Hown. by apply Hb.
Qed.

(** [P] is inevitable: whatever the schedule, and whatever the rest of the node does in
    between, the threads can go on until [P], and it takes finitely many steps. *)
Inductive inevitable {A} (R : relation World) (P : cfg A → Prop) (c : cfg A) : Prop :=
| inev_now : P c → inevitable R P c
| inev_later :
    (∀ c1, rtc (env_step R) c c1 → ∃ c2, cstep c1 c2) →
    (∀ c1 c2, rtc (env_step R) c c1 → cstep c1 c2 → inevitable R P c2) →
    inevitable R P c.

Lemma env_steps {A} R (c c1 : cfg A) :
  rtc (env_step R) c c1 → c_threads c1 = c_threads c ∧ c_owner c1 = c_owner c.
Proof. induction 1 as [|c c1 c2 (w & _ & ->) _ [IH1 IH2]]; [done|]. by rewrite IH1, IH2. Qed.

(** All threads have returned and nobody has the mutex. *)
Definition at_rest {A} (c : cfg A) : Prop := finished c ∧ c_owner c = None.

Lemma finished_at_rest {A} (c : cfg A) : lock_ok c → finished c → at_rest c.
Proof.
  intros [Ho Hb] Hf. split; [done|]. destruct (c_owner c) as [i|] eqn:Hc; [|done]. exfalso.
  destruct (Ho i eq_refl) as [p Hp]. pose proof (Hb i p Hp) as Hbal. rewrite bool_decide_eq_true_2 in Hbal by done.
  unfold finished in Hf. rewrite Forall_lookup in Hf. by destruct (Hf i p Hp) as [a ->].
Qed.

Lemma balanced_finish {A} R (c : cfg A) : lock_ok c → inevitable R at_rest c.
Proof.
  remember (c_threads c) as ts eqn:Hts. revert c Hts.
  induction ts as [ts IH] using (well_founded_ind lsub_wf). intros c -> Hok.
  assert (∀ c1, rtc (env_step R) c c1 → lock_ok c1) as Hok1.
  { intros c1 [Ht Ho]%env_steps. destruct Hok as [H1 H2]. split; by rewrite Ht, Ho. }
  destruct (lock_ok_progress c Hok) as [Hf|Hs]; [by apply inev_now, finished_at_rest|].
  apply inev_later.
  - intros c1 Hc1. destruct (lock_ok_progress c1 (Hok1 c1 Hc1)) as [Hf|?]; [|done].
    apply env_steps in Hc1 as [Ht _]. unfold finished in Hf. rewrite Ht in Hf.
    destruct Hs as (c' & i & Hi). unfold step_thread in Hi. rewrite Forall_lookup in Hf.
    destruct (c_threads c !! i) as [p|] eqn:Hp; [|done]. by destruct (Hf i p Hp) as [a ->].
  - intros c1 c2 Hc1 [i Hi]. eapply IH; [|done|eapply step_thread_lock_ok; [exact Hi|by apply Hok1]].
    apply env_steps in Hc1 as [Ht _]. rewrite <- Ht. by eapply step_thread_lsub.
Qed.

End prog.

Arguments Prog {E} A.
Arguments PRet {E A} a.
Arguments PStep {E A B} l m k.
Arguments PLock {E A} k.
Arguments PUnlock {E A} k.
Arguments cfg {E} A.
Arguments mkCfg {E A} _ _ _.
Arguments c_world {E A} _.
Arguments c_owner {E A} _.
Arguments c_threads {E A} _.

Create HintDb prog.

#[export] Hint Resolve implements_ret implements_lift implements_lift_at implements_lock implements_unlock
  neutral_ret neutral_lift neutral_lift_at unlocked_ret unlocked_lift unlocked_lift_at unlocked_neutral : prog.

(** ** One thread at a time

    A thread of kind [o] relies on what the others leave alone: everything the mutex
    protects while it has the mutex ([calm]), and what is its own otherwise
    ([own o]).  In return a step of it without the mutex is calm, and a step with the
    mutex leaves alone what belongs to the kinds [apart] from it.  [J] is the invariant
    of the world and [ok] a condition on the worlds under consideration; [assume] is
    what is taken for granted of the world when a step at a site is reached. *)

Section modular.
Context `{E : !Environment} {O : Type}.
Context (J ok : World → Prop) (assume : site → World → Prop) (calm : relation World) (own : O → relation World) (apart : O → O → Prop).
Context `{CP : !PreOrder calm} `{OP : !∀ o, PreOrder (own o)}.
Context (calm_own : ∀ o w w', calm w w' → own o w w').
Context (calm_emit : ∀ e w, calm w (emit e w).2).
Context (J_ok : ∀ w, J w → ok w) (ok_emit : ∀ e w, ok w → ok (emit e w).2).
Context (J_calm : ∀ w w', J w → calm w w' → ok w' → J w').

Definition rely (h : bool) (o : O) : relation World := if h then calm else own o.

(** The thread may go on as [p] from [w], and if it ends, then with [Q]. *)
Fixpoint safe {A} (o : O) (h : bool) (p : Prog A) (Q : A → bool → World → Prop) (w : World) : Prop :=
  match p with
  | PRet a => Q a h w
  | PStep l m k => ∀ w', rely h o w w' → J w' → assume l w' → ok (m w').2 →
      J (m w').2 ∧ (h = false → calm w' (m w').2) ∧ (∀ o', apart o' o → own o' w' (m w').2) ∧
      safe o h (k (m w').1) Q (m w').2
  | PLock k => h = false ∧ ∀ w', own o w w' → J w' → safe o true k Q (emit EvLock w').2
  | PUnlock k => h = true ∧ ∀ w', calm w w' → J w' → safe o false k Q (emit EvUnlock w').2
  end.

#[local] Instance rely_preorder h o : PreOrder (rely h o).
Proof. destruct h; apply _. Qed.

Lemma calm_rely h o w w' : calm w w' → rely h o w w'.
Proof. destruct h; [done|apply calm_own]. Qed.

Lemma safe_mono {A} o h (p : Prog A) (Q Q' : A → bool → World → Prop) w :
  safe o h p Q w → (∀ a h' w', Q a h' w' → Q' a h' w') → safe o h p Q' w.
Proof.
  intros Hp HQ. revert h w Hp. induction p as [a|B l m k IH|k IH|k IH]; cbn; intros h w Hp.
  - by apply HQ.
  - intros w' Hr HJ Ha Hok. destruct (Hp w' Hr HJ Ha Hok) as (? & ? & ? & ?). split_and!; [done|done|done|by apply IH].
  - destruct Hp as [? Hp]. split; [done|]. intros w' ??. by apply IH, Hp.
  - destruct Hp as [? Hp]. split; [done|]. intros w' ??. by apply IH, Hp.
Qed.

Lemma safe_bind {A B} o h (p : Prog A) (f : A → Prog B) Q w :
  safe o h p (λ a h' w', safe o h' (f a) Q w') w → safe o h (pbind p f) Q w.
Proof.
  revert h w. induction p as [a|C l m k IH|k IH|k IH]; cbn; intros h w Hp.
  - done.
  - intros w' Hr HJ Ha Hok. destruct (Hp w' Hr HJ Ha Hok) as (? & ? & ? & ?). split_and!; [done|done|done|by apply IH].
  - destruct Hp as [? Hp]. split; [done|]. intros w' ??. by apply IH, Hp.
  - destruct Hp as [? Hp]. split; [done|]. intros w' ??. by apply IH, Hp.
Qed.

(** The proof of a thread survives what the thread relies on. *)
Lemma safe_rely {A} o h (p : Prog A) w w' :
  rely h o w w' → safe o h p (λ _ h' _, h' = false) w → safe o h p (λ _ h' _, h' = false) w'.
Proof.
  intros Hw Hp. destruct p as [a|B l m k|k|k]; cbn in *; [done|..].
  - intros w1 Hr. apply Hp. by transitivity w'.
  - destruct Hp as [-> Hp]. split; [done|]. intros w1 Hr. apply Hp. by transitivity w'.
  - destruct Hp as [-> Hp]. split; [done|]. intros w1 Hr. apply Hp. by transitivity w'.
Qed.

(** *** All together *)

(** What is assumed before the next step of a thread. *)
Definition granted {A} (p : Prog A) (w : World) : Prop :=
  match p with PStep l _ _ => assume l w | _ => True end.

(** A step of a thread to a world under consideration, with what is assumed of it. *)
Definition dstep {A} (c c' : cfg A) : Prop :=
  ∃ i, step_thread c i = Some c' ∧ ok (c_world c') ∧
    ∀ p, c_threads c !! i = Some p → granted p (c_world c).

Definition drun {A} : relation (cfg A) :=
  rtc (λ c c', dstep c c' ∨ env_step (λ w w', calm w w' ∧ ok w') c c').

(** A schedule with a test of the worlds it passes through and of what is assumed. *)
Fixpoint check_schedule {A} (okb : World → bool) (assumeb : site → World → bool) (l : list nat) (c : cfg A)
    : option (cfg A) :=
  match l with
  | [] => Some c
  | i :: l' =>
      if (match c_threads c !! i with Some (PStep s _ _) => assumeb s (c_world c) | _ => true end) then
        c' ← step_thread c i; if okb (c_world c') then check_schedule okb assumeb l' c' else None
      else None
  end.

Lemma check_schedule_drun {A B} okb assumeb l (c : cfg A) (f : cfg A → B) b :
  (∀ w, okb w = true → ok w) → (∀ s w, assumeb s w = true → assume s w) →
  f <$> check_schedule okb assumeb l c = Some b → ∃ c', drun c c' ∧ f c' = b.
Proof.
  intros Hok Has. revert c. induction l as [|i l IH]; intros c; [intros [= <-]; exists c; split; [apply rtc_refl|done]|].
  cbn [check_schedule]. destruct (match c_threads c !! i with Some (PStep s _ _) => _ | _ => _ end) eqn:Ha; [|done].
  destruct (step_thread c i) as [c1|] eqn:H1; [|done]. cbn. destruct (okb (c_world c1)) eqn:Hb; [|done]. intros Hl.
  destruct (IH c1 Hl) as (c' & Hr & Hf). exists c'. split; [|done]. eapply rtc_l; [|exact Hr]. left.
  exists i. split_and!; [done|by apply Hok|]. intros p Hp. rewrite Hp in Ha. destruct p; [done|by apply Has|done|done].
Qed.

(** The threads are safe, each with its kind. *)
Definition all_safe {A} (os : list O) (c : cfg A) : Prop :=
  J (c_world c) ∧
  ∀ i p o, c_threads c !! i = Some p → os !! i = Some o →
    safe o (bool_decide (c_owner c = Some i)) p (λ _ h _, h = false) (c_world c).

Definition pairwise_apart (os : list O) : Prop :=
  ∀ i j o o', i ≠ j → os !! i = Some o → os !! j = Some o' → apart o o'.

(** Thread [i] moves; the others rely on it. *)
Lemma all_safe_insert {A} os (c : cfg A) i o p p' own' w' :
  all_safe os c → os !! i = Some o → c_threads c !! i = Some p →
  J w' → safe o (bool_decide (own' = Some i)) p' (λ _ h _, h = false) w' →
  (∀ j oj, j ≠ i → os !! j = Some oj →
     (own' = Some j ↔ c_owner c = Some j) ∧
     rely (bool_decide (c_owner c = Some j)) oj (c_world c) w') →
  all_safe os (mkCfg w' own' (<[i := p']> (c_threads c))).
Proof.
  intros [_ Hs] Ho Hi HJ Hp Hother. split; [done|]. cbn. intros j q oj Hq Hoj.
  apply list_lookup_insert_Some in Hq as [(<- & <- & _)|[Hne Hq]]; [by simplify_eq|].
  destruct (Hother j oj) as [Heq Hr]; [done|done|]. rewrite (bool_decide_ext _ _ Heq).
  eapply safe_rely; [exact Hr|]. by apply Hs.
Qed.

Lemma dstep_safe {A} os (c c' : cfg A) :
  length os = length (c_threads c) → pairwise_apart os → all_safe os c → dstep c c' → all_safe os c'.
Proof.
  intros Hlen Hap Hall (i & Hstep & Hok & Hchk). pose proof Hall as [HJ Hs]. unfold step_thread in Hstep.
  destruct (c_threads c !! i) as [p|] eqn:Hi; [|done].
  assert (is_Some (os !! i)) as [o Ho]
    by (apply lookup_lt_is_Some; rewrite Hlen; by eapply lookup_lt_Some).
  pose proof (Hs i p o Hi Ho) as Hp. destruct p as [a|B l m k|k|k]; [done|..]; cbn in Hp.
  - injection Hstep as <-; cbn [c_world c_owner c_threads] in *. set (w := c_world c) in *. destruct (Hp w) as (HJ' & Hcalm & Hg & Hk).
    { reflexivity. } { done. } { exact (Hchk _ eq_refl). } { done. }
    eapply all_safe_insert; [done..|]. intros j oj Hne Hoj. split; [done|].
    destruct (decide (c_owner c = Some j)) as [Hj|Hj].
    + rewrite bool_decide_eq_true_2 by done. apply Hcalm, bool_decide_eq_false_2. congruence.
    + rewrite bool_decide_eq_false_2 by done. apply Hg. by eapply Hap.
  - destruct (c_owner c) as [j|] eqn:Hc; [done|]. injection Hstep as <-; cbn [c_world c_owner c_threads] in *. destruct Hp as [_ Hp].
    eapply all_safe_insert; [done|done|done| | |].
    + eapply J_calm; [done|apply calm_emit|]. apply ok_emit. by apply J_ok.
    + rewrite bool_decide_eq_true_2 by done. apply Hp; [reflexivity|done].
    + intros j oj Hne Hoj. rewrite Hc. split; [split; congruence|]. apply calm_rely, calm_emit.
  - case_decide as Hc; [|done]. injection Hstep as <-; cbn [c_world c_owner c_threads] in *. destruct Hp as [_ Hp].
    eapply all_safe_insert; [done|done|done| | |].
    + eapply J_calm; [done|apply calm_emit|]. apply ok_emit. by apply J_ok.
    + rewrite bool_decide_eq_false_2 by done. apply Hp; [reflexivity|done].
    + intros j oj Hne Hoj. rewrite Hc. split; [split; congruence|]. apply calm_rely, calm_emit.
Qed.

Lemma step_thread_length {A} (c c' : cfg A) i :
  step_thread c i = Some c' → length (c_threads c') = length (c_threads c).
Proof. unfold step_thread. intros H. repeat case_match; simplify_eq/=; by rewrite length_insert. Qed.

(** Threads that are safe on their own are safe together. *)
Lemma together {A} os (c c' : cfg A) :
  length os = length (c_threads c) → pairwise_apart os → all_safe os c → drun c c' → all_safe os c'.
Proof.
  intros Hlen Hap Hall Hrun. induction Hrun as [c|c c1 c2 [Hd|(w & [Hc Hok] & ->)] _ IH]; [done|..].
  - apply IH; [|by eapply dstep_safe]. destruct Hd as (i & Hi & _). by rewrite (step_thread_length _ _ _ Hi).
  - apply IH; [done|]. destruct Hall as [HJ Hs]. split; [by eapply J_calm|]. cbn. intros i p o Hi Ho.
    eapply safe_rely; [apply calm_rely, Hc|]. by apply Hs.
Qed.

End modular.

End Conc.
Export Conc.
