(* ===== verification/NodeConc.v ===== *)
(** * The node service as interruptible programs (pkg/csi/node.go, nbd.go)

    The handlers of [Node] and the operations of [Nbd] they call, step by step.  A step
    is one operation on a file, one command, one sleep, or one stage that only talks to
    the API server (creating, removing or awaiting the volume's pod) and so touches
    nothing that the handlers share on the node.  Two steps carry their line of node.go
    ([At]), because a theorem speaks of what they find.  [handlers_sequential] shows
    that without interruption each program is the function of [Node] it spells out. *)

From S2P Require Import Prelude GoStrings GoPath World Metrics Kube Zerofs Nbd NbdReserve Node Conc.

Import NbdReserve.

Local Open Scope Z_scope.

Notation "'pdo' x <- p ; k" := (pbind p (λ x, k))
  (at level 10, x pattern, p at level 100, k at level 200,
   format "'[v' 'pdo'  x  <-  p ; '/' k ']'") : go_scope.
Notation "'pstep' x <- m ; k" := (pbind (lift m) (λ x, k))
  (at level 10, x pattern, m at level 100, k at level 200,
   format "'[v' 'pstep'  x  <-  m ; '/' k ']'") : go_scope.
Notation "'ptry' x <- p ; k" := (pbindE p (λ x, k))
  (at level 10, x pattern, p at level 100, k at level 200,
   format "'[v' 'ptry'  x  <-  p ; '/' k ']'") : go_scope.

Module NodeConc.

Section programs.
Context `{E : !Environment, C : !KubeClient, Q : !QuantityParser}.

(** ** nbd.go *)

Definition ensureRunDirs_p : Prog (option PathError) :=
  pstep err <- os_MkdirAll ZeroFSRunDir;
  match err with
  | Some e => PRet (Some e)
  | None =>
      pstep err <- os_MkdirAll nbdByDeviceDir;
      match err with
      | Some e => PRet (Some e)
      | None => PRet None
      end
  end.

Definition unmountBestEffort_p (targetPath : string) : Prog unit :=
  if decide (targetPath = EmptyString) then PRet tt
  else
    pstep (_, mounted) <- findMountSource targetPath;
    if negb mounted then PRet tt
    else pstep _ <- exec_Command "umount" [targetPath]; PRet tt.

Fixpoint detach_attempts_p (n : nat) (dev : string) : Prog unit :=
  match n with
  | O => PRet tt
  | S n' =>
      pstep out <- exec_Command "nbd-client" ["-d"; dev];
      match co_err out with
      | None => PRet tt
      | Some _ => pstep _ <- time_Sleep (500 * millisecond); detach_attempts_p n' dev
      end
  end.

Definition detachNBDDeviceBestEffort_p (nbdDevicePath : string) : Prog unit :=
  let dev := TrimSpace nbdDevicePath in
  if decide (dev = EmptyString) then PRet tt else detach_attempts_p 5 dev.

Definition writeVolumeNBDState_p (volumeID nbdDevicePath : string) : Prog (option PathError) :=
  pdo err <- ensureRunDirs_p;
  match err with
  | Some e => PRet (Some e)
  | None => lift (os_WriteFile (volumeNBDStatePath volumeID) (TrimSpace nbdDevicePath))
  end.

Definition clearVolumeNBDState_p (volumeID nbdDevicePath : string) : Prog unit :=
  pstep _ <- os_Remove (volumeNBDStatePath volumeID);
  if decide (nbdDevicePath = EmptyString) then PRet tt
  else pstep _ <- os_Remove (deviceReservationPath nbdDevicePath); PRet tt.

Definition gcReservation_p (resPath : string) : Prog unit :=
  pstep st <- os_Stat resPath;
  match st with
  | inl _ => PRet tt
  | inr modTime =>
      pstep b <- mustReadFile resPath;
      let vol := TrimSpace b in
      if decide (vol = EmptyString) then pstep _ <- os_Remove resPath; PRet tt
      else
        pstep vst <- os_Stat (volumeNBDStatePath vol);
        if (match vst with inl err => IsNotExist err | inr _ => false end)
        then pstep _ <- os_Remove resPath; PRet tt
        else
          pstep age <- time_Since modTime;
          if decide (2 * hour < age) then pstep _ <- os_Remove resPath; PRet tt else PRet tt
  end.

Fixpoint reserveScan_p (volumeID : string) (devs : list string) : Prog (string + string) :=
  match devs with
  | [] => PRet (inl "no free /dev/nbd* devices available")
  | dev :: rest =>
      pstep c <- isNBDConnected dev;
      match c with
      | inl _ => reserveScan_p volumeID rest
      | inr true => reserveScan_p volumeID rest
      | inr false =>
          let resPath := deviceReservationPath dev in
          pdo _ <- gcReservation_p resPath;
          pstep err <- os_OpenExcl resPath;
          match err with
          | Some _ => reserveScan_p volumeID rest
          | None =>
              pstep _ <- f_WriteString resPath volumeID;
              pdo werr <- writeVolumeNBDState_p volumeID dev;
              match werr with
              | Some e => pstep _ <- os_Remove resPath; PRet (inl (pe_error e))
              | None => PRet (inr dev)
              end
          end
      end
  end.

Definition reserveFresh_p (volumeID : string) : Prog (string + string) :=
  pstep r <- listNBDDevices;
  match r with
  | inl e => PRet (inl e)
  | inr [] => PRet (inl "no /dev/nbd* devices found (is the nbd module loaded and /dev mounted?)")
  | inr devs => reserveScan_p volumeID devs
  end.

Definition reserveInDirs_p (volumeID : string) : Prog (string + string) :=
  pstep st <- readVolumeNBDState volumeID;
  match st with
  | Some existing =>
      pstep stat <- os_Stat existing;
      match stat with
      | inr _ =>
          let resPath := deviceReservationPath existing in
          pstep rst <- os_Stat resPath;
          pdo _ <- (if (match rst with inl e => IsNotExist e | inr _ => false end) then
                      pstep err <- os_OpenExcl resPath;
                      match err with
                      | None => lift (f_WriteString resPath volumeID)
                      | Some _ => PRet tt
                      end
                    else PRet tt);
          PRet (inr existing)
      | inl _ =>
          pdo _ <- clearVolumeNBDState_p volumeID existing;
          reserveFresh_p volumeID
      end
  | None => reserveFresh_p volumeID
  end.

Definition reserveNBDDevice_p (volumeID : string) : Prog (string + string) :=
  pdo err <- ensureRunDirs_p;
  match err with
  | Some e => PRet (inl (pe_error e))
  | None => reserveInDirs_p volumeID
  end.

(** ** node.go *)

Definition stage_error_p {A} (stage : string) (c : code) (msg : string) : Prog (Status + A) :=
  pstep _ <- recordStageError "node_publish" stage; PRet (inl (mkStatus c msg)).

Fixpoint reconcileLoop_p (devices : list string) (detached skippedMounted : nat) : Prog (nat * nat) :=
  match devices with
  | [] => PRet (detached, skippedMounted)
  | dev :: rest =>
      pstep done <- sys_read (λ s, env_ctx_done (sys_ext s));
      if (done : bool) then PRet (detached, skippedMounted)
      else
        pstep c <- isNBDConnected dev;
        match c with
        | inl _ => reconcileLoop_p rest detached skippedMounted
        | inr false => reconcileLoop_p rest detached skippedMounted
        | inr true =>
            pstep out <- exec_Command "findmnt" ["-n"; "-S"; dev];
            if bool_decide (co_err out = None ∧ TrimSpace (co_out out) ≠ EmptyString)
            then reconcileLoop_p rest detached (S skippedMounted)
            else
              pdo _ <- detachNBDDeviceBestEffort_p dev;
              reconcileLoop_p rest (S detached) skippedMounted
        end
  end.

Definition reconcileOrphanedNBDDevices_p : Prog (nat * nat) :=
  pstep r <- listNBDDevices;
  match r with
  | inl _ => PRet (0%nat, 0%nat)
  | inr devices => reconcileLoop_p devices 0 0
  end.

Definition clearStale_p (volumeID : string) : Prog unit :=
  pdo _ <- lock;
  pstep st <- readVolumeNBDState volumeID;
  pdo _ <- match st with
           | Some staleDev =>
               pstep c <- isNBDConnected staleDev;
               pdo _ <- match c with
                        | inr true => detachNBDDeviceBestEffort_p staleDev
                        | _ => PRet tt
                        end;
               clearVolumeNBDState_p volumeID staleDev
           | None => PRet tt
           end;
  unlock.

(** The deferred cleanup, which takes no mutex. *)
Definition publishCleanup_p (ns : nodeService) (req : NodePublishVolumeRequest) : Prog unit :=
  pdo _ <- unmountBestEffort_p (pr_targetPath req);
  pdo st <- lift_at (At 169 [pr_volumeId req]) (readVolumeNBDState (pr_volumeId req));
  pdo _ <- match st with
           | Some dev =>
               pdo _ <- detachNBDDeviceBestEffort_p dev;
               clearVolumeNBDState_p (pr_volumeId req) dev
           | None => PRet tt
           end;
  pstep _ <- RemovePod (ns_mounter ns) (pr_volumeId req);
  PRet tt.

Fixpoint waitSocket_p (n : nat) (socketPath : string) : Prog (Status + unit) :=
  match n with
  | O => PRet (inr tt)
  | S n' =>
      pstep r <- os_Stat socketPath;
      match r with
      | inr _ => PRet (inr tt)
      | inl err =>
          if IsNotExist err then
            match n' with
            | S _ => pstep _ <- time_Sleep retryDelay; waitSocket_p n' socketPath
            | O =>
                stage_error_p "wait_socket" Internal
                  ("socket file does not exist after " +:+ Sprint_d (Z.of_nat maxRetries) +:+
                   " attempts: " +:+ socketPath)
            end
          else stage_error_p "wait_socket" Internal ("error checking socket file: " +:+ pe_error err)
      end
  end.

Definition mount9p_p (socketPath target : string) : Prog (Status + unit) :=
  pstep stage <- startStage "node_publish" "mount_9p";
  pstep out <- exec_Command "mount" ["-t"; "9p"; "-o"; "trans=unix,version=9p2000.L"; socketPath; target];
  match co_err out with
  | Some err =>
      pstep (_, mounted) <- findMountSource target;
      if (mounted : bool) then pstep _ <- observe stage; PRet (inr tt)
      else stage_error_p "mount_9p" Internal ("failed to mount volume: " +:+ err)
  | None => pstep _ <- observe stage; PRet (inr tt)
  end.

Definition createDisk_p (context : gmap string string) (diskFilePath : string) : Prog (Status + unit) :=
  pstep r <- os_Stat diskFilePath;
  match r with
  | inr _ => PRet (inr tt)
  | inl err =>
      if IsNotExist err then
        match context !! "capacity_bytes" with
        | None => PRet (inl (mkStatus InvalidArgument "no capacity information provided for volume"))
        | Some capacityBytes =>
            pstep stage <- startStage "node_publish" "create_disk";
            pstep out <- exec_Command "truncate" ["-s"; capacityBytes; diskFilePath];
            match co_err out with
            | Some e => stage_error_p "create_disk" Internal ("failed to create disk file: " +:+ e)
            | None => pstep _ <- observe stage; PRet (inr tt)
            end
        end
      else PRet (inl (mkStatus Internal ("error checking disk file: " +:+ pe_error err)))
  end.

Definition umount9p_p (target : string) : Prog (Status + unit) :=
  pstep stage <- startStage "node_publish" "umount_9p";
  pstep out <- exec_Command "umount" [target];
  match co_err out with
  | Some e => stage_error_p "umount_9p" Internal ("failed to unmount 9p volume: " +:+ e)
  | None => pstep _ <- observe stage; PRet (inr tt)
  end.

Definition reserveStage_p (volumeID : string) : Prog (Status + string) :=
  pdo _ <- lock;
  pdo r <- reserveNBDDevice_p volumeID;
  pdo _ <- unlock;
  match r with
  | inl err => stage_error_p "reserve_nbd" ResourceExhausted ("failed to reserve NBD device: " +:+ err)
  | inr dev => PRet (inr dev)
  end.

Definition connectNBD_p (volumeID nbdSocketPath dev : string) : Prog (Status + unit) :=
  pstep stage <- startStage "node_publish" "connect_nbd";
  pstep out <- exec_Command "nbd-client"
    ["-unix"; nbdSocketPath; "-N"; "disk"; "-persist"; "-timeout"; "0"; "-connections"; "4"; dev];
  match co_err out with
  | Some e =>
      pdo _ <- lock;
      pdo _ <- clearVolumeNBDState_p volumeID dev;
      pdo _ <- unlock;
      stage_error_p "connect_nbd" Internal
        ("failed to connect to NBD device: " +:+ e +:+ " output: " +:+ co_out out)
  | None => pstep _ <- observe stage; PRet (inr tt)
  end.

Definition formatIfBlank_p (filesystem dev : string) : Prog (Status + unit) :=
  pstep out <- exec_Command "blkid" ["-o"; "value"; "-s"; "TYPE"; dev];
  let fsType := TrimSpace (co_out out) in
  if decide (fsType = EmptyString) then
    let (mkfsCmd, mkfsArgs) := mkfsCommand filesystem dev in
    pstep stage <- startStage "node_publish" "mkfs";
    pstep out <- exec_Command mkfsCmd mkfsArgs;
    match co_err out with
    | Some e =>
        pstep _ <- recordStageError "node_publish" "mkfs";
        pstep _ <- exec_Command "nbd-client" ["-d"; dev];
        PRet (inl (mkStatus Internal ("failed to format NBD device: " +:+ e +:+ ", output: " +:+ TrimSpace (co_out out))))
    | None => pstep _ <- observe stage; PRet (inr tt)
    end
  else PRet (inr tt).

Definition mountDevice_p (filesystem dev target : string) (flags : list string) : Prog (Status + unit) :=
  pstep stage <- startStage "node_publish" "mount_fs";
  pstep out <- exec_Command "mount" (mountArgs filesystem dev target flags);
  match co_err out with
  | Some e =>
      pstep _ <- recordStageError "node_publish" "mount_fs";
      pstep _ <- exec_Command "nbd-client" ["-d"; dev];
      PRet (inl (mkStatus Internal ("failed to mount NBD device: " +:+ e)))
  | None => pstep _ <- observe stage; PRet (inr tt)
  end.

Definition publishBody_p (ns : nodeService) (req : NodePublishVolumeRequest) (filesystem : string)
    : Prog (Status + unit) :=
  let volumeID := pr_volumeId req in
  let target := pr_targetPath req in
  ptry _ <- lift (makeTarget target);
  match pr_context req !! "configMapName" with
  | None =>
      stage_error_p "validate" InvalidArgument
        "failed to determine configMapName for volume, ensure configMapName is specified"
  | Some configMapName =>
      ptry _ <- lift (createPodStage ns volumeID configMapName);
      ptry _ <- waitSocket_p maxRetries (socket9p volumeID);
      ptry _ <- mount9p_p (socket9p volumeID) target;
      ptry _ <- createDisk_p (pr_context req) (PathJoin [target; ".nbd"; "disk"]);
      ptry _ <- umount9p_p target;
      ptry dev <- reserveStage_p volumeID;
      ptry _ <- connectNBD_p volumeID (socketNbd volumeID) dev;
      ptry _ <- formatIfBlank_p filesystem dev;
      mountDevice_p filesystem dev target (GetMountFlags (pr_capability req))
  end.

Definition NodePublishVolume_p (ns : nodeService) (req : NodePublishVolumeRequest) : Prog (Status + unit) :=
  pstep opTimer <- startStage "node_publish" "total";
  if decide (pr_volumeId req = EmptyString)
  then stage_error_p "validate" InvalidArgument "volume ID cannot be empty"
  else if decide (pr_targetPath req = EmptyString)
  then stage_error_p "validate" InvalidArgument "target path cannot be empty"
  else match pr_capability req with
  | None => stage_error_p "validate" InvalidArgument "volume capability cannot be empty"
  | Some _ =>
  match pr_context req !! "filesystem" with
  | None =>
      stage_error_p "validate" InvalidArgument
        "failed to determine filesystem for volume, ensure filesystem is specified"
  | Some filesystem =>
      pstep (src, mounted) <- findMountSource (pr_targetPath req);
      if mounted && HasPrefix src "/dev/nbd" then
        pstep _ <- observe opTimer; PRet (inr tt)
      else
        pdo _ <- (if (mounted : bool) then unmountBestEffort_p (pr_targetPath req) else PRet tt);
        pdo _ <- clearStale_p (pr_volumeId req);
        pdo r <- publishBody_p ns req filesystem;
        match r with
        | inr _ => pstep _ <- observe opTimer; PRet (inr tt)
        | inl st => pdo _ <- publishCleanup_p ns req; PRet (inl st)
        end
  end end.

Definition NodeUnpublishVolume_p (ns : nodeService) (req : NodeUnpublishVolumeRequest) : Prog (Status + unit) :=
  let volumeID := ur_volumeId req in
  let target := ur_targetPath req in
  pstep opTimer <- startStage "node_unpublish" "total";
  if decide (volumeID = EmptyString) then
    pstep _ <- recordStageError "node_unpublish" "validate";
    PRet (inl (mkStatus InvalidArgument "volume ID cannot be empty"))
  else if decide (target = EmptyString) then
    pstep _ <- recordStageError "node_unpublish" "validate";
    PRet (inl (mkStatus InvalidArgument "target path cannot be empty"))
  else
    pdo (src, mounted) <- lift_at (At 419 [volumeID; target]) (findMountSource target);
    let nbdDevice := if (mounted : bool) then src else EmptyString in
    pstep _ <- unmountStage target;
    pstep nbdDevice <- recoverDevice volumeID nbdDevice;
    pstep _ <- detachStage nbdDevice;
    pstep _ <- removePodStage ns volumeID;
    pstep _ <- waitForPodDeletion (podName volumeID) (zm_namespace (ns_mounter ns)) (30 * second);
    pdo _ <- lock;
    pdo _ <- clearVolumeNBDState_p volumeID nbdDevice;
    pdo _ <- unlock;
    pstep _ <- observe opTimer;
    PRet (inr tt).

(** ** Calls *)

(** The calls that run concurrently: requests of the node service and the reconciler
    that [Start] launches. *)
Inductive call :=
| CPublish (ns : nodeService) (req : NodePublishVolumeRequest)
| CUnpublish (ns : nodeService) (req : NodeUnpublishVolumeRequest)
| CReconcile.

Inductive answer :=
| APublish (r : Status + unit)
| AUnpublish (r : Status + unit)
| AReconcile (r : nat * nat).

Definition serve_call (c : call) : Prog answer :=
  match c with
  | CPublish ns req => pdo r <- NodePublishVolume_p ns req; PRet (APublish r)
  | CUnpublish ns req => pdo r <- NodeUnpublishVolume_p ns req; PRet (AUnpublish r)
  | CReconcile => pdo r <- reconcileOrphanedNBDDevices_p; PRet (AReconcile r)
  end.

(** The calls are there and none has started. *)
Definition calls_cfg (w : World) (cs : list call) : cfg answer := mkCfg w None (serve_call <$> cs).

(** ** Without interruption *)

Ltac implements_step :=
  intros;
  lazymatch goal with
  | |- implements (pbindE _ _) (bindE _ _) => apply implements_bindE
  | |- implements (pbind _ _) (bind _ _) => apply implements_bind
  | |- implements (match ?x with _ => _ end) _ => destruct x eqn:?
  end.

Ltac solve_implements :=
  intros; cbv zeta; first [solve [eauto 4 with prog] | implements_step; solve_implements | idtac].

Lemma implements_ensureRunDirs : implements ensureRunDirs_p ensureRunDirs.
Proof. unfold ensureRunDirs_p, ensureRunDirs. solve_implements. Qed.

Lemma implements_unmountBestEffort t : implements (unmountBestEffort_p t) (unmountBestEffort t).
Proof. unfold unmountBestEffort_p, unmountBestEffort. solve_implements. Qed.

Lemma implements_detach_attempts n d : implements (detach_attempts_p n d) (detach_attempts n d).
Proof. induction n as [|n IH]; cbn [detach_attempts_p detach_attempts]; solve_implements. Qed.

#[local] Hint Resolve implements_ensureRunDirs implements_unmountBestEffort implements_detach_attempts : prog.

Lemma implements_detach d : implements (detachNBDDeviceBestEffort_p d) (detachNBDDeviceBestEffort d).
Proof. unfold detachNBDDeviceBestEffort_p, detachNBDDeviceBestEffort. solve_implements. Qed.

Lemma implements_writeState v d : implements (writeVolumeNBDState_p v d) (writeVolumeNBDState v d).
Proof. unfold writeVolumeNBDState_p, writeVolumeNBDState. solve_implements. Qed.

Lemma implements_clearState v d : implements (clearVolumeNBDState_p v d) (clearVolumeNBDState v d).
Proof. unfold clearVolumeNBDState_p, clearVolumeNBDState. solve_implements. Qed.

Lemma implements_gc p : implements (gcReservation_p p) (gcReservation p).
Proof. unfold gcReservation_p, gcReservation. solve_implements. Qed.

#[local] Hint Resolve implements_detach implements_writeState implements_clearState implements_gc : prog.

Lemma implements_reserveScan v ds : implements (reserveScan_p v ds) (reserveScan v ds).
Proof. induction ds as [|d ds IH]; cbn [reserveScan_p reserveScan]; solve_implements. Qed.

#[local] Hint Resolve implements_reserveScan : prog.

Lemma implements_reserveFresh v : implements (reserveFresh_p v) (reserveFresh v).
Proof. unfold reserveFresh_p, reserveFresh. solve_implements. Qed.

#[local] Hint Resolve implements_reserveFresh : prog.

Lemma implements_reserve v : implements (reserveNBDDevice_p v) (reserveNBDDevice v).
Proof. unfold reserveNBDDevice_p, reserveNBDDevice, reserveInDirs_p, reserveInDirs. solve_implements. Qed.

Lemma implements_stage_error {A} st c msg : implements (stage_error_p (A:=A) st c msg) (stage_error st c msg).
Proof. unfold stage_error_p, stage_error, fail_with. solve_implements. Qed.

Lemma implements_reconcile : implements reconcileOrphanedNBDDevices_p reconcileOrphanedNBDDevices.
Proof.
  assert (∀ ds a b, implements (reconcileLoop_p ds a b) (reconcileLoop ds a b)).
  { induction ds as [|d ds IH]; intros; cbn [reconcileLoop_p reconcileLoop]; solve_implements. }
  unfold reconcileOrphanedNBDDevices_p, reconcileOrphanedNBDDevices. solve_implements.
Qed.

#[local] Hint Resolve implements_reserve implements_stage_error : prog.

Lemma implements_clearStale v : implements (clearStale_p v) (clearStale v).
Proof. unfold clearStale_p, clearStale. solve_implements. Qed.

Lemma implements_cleanup ns req : implements (publishCleanup_p ns req) (publishCleanup ns req).
Proof. unfold publishCleanup_p, publishCleanup. solve_implements. Qed.

Lemma implements_waitSocket n p : implements (waitSocket_p n p) (waitSocket n p).
Proof. induction n as [|n IH]; cbn [waitSocket_p waitSocket]; solve_implements. Qed.

Lemma implements_mount9p s t : implements (mount9p_p s t) (mount9p s t).
Proof. unfold mount9p_p, mount9p. solve_implements. Qed.

Lemma implements_createDisk c p : implements (createDisk_p c p) (createDisk c p).
Proof. unfold createDisk_p, createDisk, fail_with. solve_implements. Qed.

Lemma implements_umount9p t : implements (umount9p_p t) (umount9p t).
Proof. unfold umount9p_p, umount9p. solve_implements. Qed.

Lemma implements_reserveStage v : implements (reserveStage_p v) (reserveStage v).
Proof. unfold reserveStage_p, reserveStage. solve_implements. Qed.

Lemma implements_connectNBD v s d : implements (connectNBD_p v s d) (connectNBD v s d).
Proof. unfold connectNBD_p, connectNBD. solve_implements. Qed.

Lemma implements_formatIfBlank fs d : implements (formatIfBlank_p fs d) (formatIfBlank fs d).
Proof. unfold formatIfBlank_p, formatIfBlank, fail_with. solve_implements. Qed.

Lemma implements_mountDevice fs d t fl : implements (mountDevice_p fs d t fl) (mountDevice fs d t fl).
Proof. unfold mountDevice_p, mountDevice, fail_with. solve_implements. Qed.

#[local] Hint Resolve implements_clearStale implements_cleanup implements_waitSocket implements_mount9p
  implements_createDisk implements_umount9p implements_reserveStage implements_connectNBD
  implements_formatIfBlank implements_mountDevice : prog.

Lemma implements_publishBody ns req fs : implements (publishBody_p ns req fs) (publishBody ns req fs).
Proof. unfold publishBody_p, publishBody. solve_implements. Qed.

#[local] Hint Resolve implements_publishBody : prog.

(** Run without interruption, the step-by-step programs of NodePublishVolume,
    NodeUnpublishVolume and the reconciler that the concurrency theorems are about
    are the functions of Node that the other theorems are about: same result, same
    files, same trace. *)
Theorem handlers_sequential ns preq ureq w :
  seq (NodePublishVolume_p ns preq) w = NodePublishVolume ns preq w ∧
  seq (NodeUnpublishVolume_p ns ureq) w = NodeUnpublishVolume ns ureq w ∧
  seq reconcileOrphanedNBDDevices_p w = reconcileOrphanedNBDDevices w.
Proof.
  split_and!.
  - revert w. change (implements (NodePublishVolume_p ns preq) (NodePublishVolume ns preq)).
    unfold NodePublishVolume_p, NodePublishVolume. solve_implements.
  - revert w. change (implements (NodeUnpublishVolume_p ns ureq) (NodeUnpublishVolume ns ureq)).
    unfold NodeUnpublishVolume_p, NodeUnpublishVolume, fail_with. solve_implements.
  - apply implements_reconcile.
Qed.

End programs.

End NodeConc.
Export NodeConc.
