(* ===== verification/NodeConcProps.v ===== *)
(** * Concurrent calls: every call returns

    However the calls of the node service are scheduled, and whatever the rest of the
    node does in between, none of them waits for ever: they use the mutex in a balanced
    way, and every loop in them is bounded. *)

From S2P Require Import Prelude GoStrings GoPath World Metrics Kube Zerofs Nbd NbdReserve Node NodeFrame NodeTrace.
From S2P Require Import Conc NodeConc.

Local Open Scope Z_scope.

Module NodeConcProps.

(** ** Which programs use the mutex *)

Section mutex.
Context `{E : !Environment, C : !KubeClient, Q : !QuantityParser}.

Ltac unlocked_step :=
  intros;
  lazymatch goal with
  | |- unlocked (pbindE _ _) => apply unlocked_bindE
  | |- unlocked (pbind _ _) => apply unlocked_bind
  | |- unlocked (match ?x with _ => _ end) => destruct x
  | |- unlocked (if ?x then _ else _) => destruct x
  end.

Ltac solve_unlocked :=
  intros; cbv zeta; first [solve [eauto 3 with prog] | unlocked_step; solve_unlocked | idtac].

Lemma unlocked_ensureRunDirs : unlocked ensureRunDirs_p.
Proof. unfold ensureRunDirs_p. solve_unlocked. Qed.

Lemma unlocked_unmountBestEffort t : unlocked (unmountBestEffort_p t).
Proof. unfold unmountBestEffort_p. solve_unlocked. Qed.

Lemma unlocked_detach d : unlocked (detachNBDDeviceBestEffort_p d).
Proof.
  assert (∀ n dev, unlocked (detach_attempts_p n dev)).
  { induction n as [|n IH]; intros; cbn [detach_attempts_p]; solve_unlocked. }
  unfold detachNBDDeviceBestEffort_p. solve_unlocked.
Qed.

Lemma unlocked_clear v d : unlocked (clearVolumeNBDState_p v d).
Proof. unfold clearVolumeNBDState_p. solve_unlocked. Qed.

Lemma unlocked_gc p : unlocked (gcReservation_p p).
Proof. unfold gcReservation_p. solve_unlocked. Qed.

#[local] Hint Resolve unlocked_ensureRunDirs unlocked_unmountBestEffort unlocked_detach unlocked_clear unlocked_gc : prog.

Lemma unlocked_reserve v : unlocked (reserveNBDDevice_p v).
Proof.
  assert (∀ d, unlocked (writeVolumeNBDState_p v d)) by (unfold writeVolumeNBDState_p; solve_unlocked).
  assert (∀ ds, unlocked (reserveScan_p v ds)).
  { induction ds as [|d ds IH]; cbn [reserveScan_p]; solve_unlocked. }
  assert (unlocked (reserveFresh_p v)) by (unfold reserveFresh_p; solve_unlocked).
  unfold reserveNBDDevice_p, reserveInDirs_p. solve_unlocked.
Qed.

Lemma unlocked_stage_error {A} st c msg : unlocked (stage_error_p (A:=A) st c msg).
Proof. unfold stage_error_p. solve_unlocked. Qed.

#[local] Hint Resolve unlocked_reserve unlocked_stage_error : prog.

Lemma unlocked_reconcile : unlocked reconcileOrphanedNBDDevices_p.
Proof.
  assert (∀ ds a b, unlocked (reconcileLoop_p ds a b)).
  { induction ds as [|d ds IH]; intros; cbn [reconcileLoop_p]; solve_unlocked. }
  unfold reconcileOrphanedNBDDevices_p. solve_unlocked.
Qed.

Lemma unlocked_cleanup ns req : unlocked (publishCleanup_p ns req).
Proof. unfold publishCleanup_p. solve_unlocked. Qed.

Lemma unlocked_waitSocket n p : unlocked (waitSocket_p n p).
Proof. induction n as [|n IH]; cbn [waitSocket_p]; solve_unlocked. Qed.

Lemma unlocked_mount9p s t : unlocked (mount9p_p s t).
Proof. unfold mount9p_p. solve_unlocked. Qed.

Lemma unlocked_createDisk c p : unlocked (createDisk_p c p).
Proof. unfold createDisk_p. solve_unlocked. Qed.

Lemma unlocked_umount9p t : unlocked (umount9p_p t).
Proof. unfold umount9p_p. solve_unlocked. Qed.

Lemma unlocked_formatIfBlank fs d : unlocked (formatIfBlank_p fs d).
Proof. unfold formatIfBlank_p. solve_unlocked. Qed.

Lemma unlocked_mountDevice fs d t fl : unlocked (mountDevice_p fs d t fl).
Proof. unfold mountDevice_p. solve_unlocked. Qed.

#[local] Hint Resolve unlocked_ensureRunDirs unlocked_unmountBestEffort unlocked_detach unlocked_clear
  unlocked_gc unlocked_reserve unlocked_stage_error unlocked_reconcile unlocked_cleanup unlocked_waitSocket
  unlocked_mount9p unlocked_createDisk unlocked_umount9p unlocked_formatIfBlank unlocked_mountDevice : prog.

Ltac neutral_step :=
  intros;
  lazymatch goal with
  | |- neutral false (pbind lock _) => split; [done|]
  | |- neutral _ (pbindE _ _) => apply neutral_bindE
  | |- neutral _ (pbind _ _) => apply neutral_bind
  | |- neutral _ (match ?x with _ => _ end) => destruct x
  end.

Ltac solve_neutral :=
  intros; cbv zeta; first [solve [eauto 3 with prog] | neutral_step; solve_neutral | idtac].

Lemma neutral_clearStale v : neutral false (clearStale_p v).
Proof.
  apply (neutral_locked (pstep st <- readVolumeNBDState v;
    match st with
    | Some staleDev =>
        pstep c <- isNBDConnected staleDev;
        pdo _ <- match c with inr true => detachNBDDeviceBestEffort_p staleDev | _ => PRet tt end;
        clearVolumeNBDState_p v staleDev
    | None => PRet tt
    end) (λ _, PRet tt)); [solve_neutral|done].
Qed.

Lemma neutral_reserveStage v : neutral false (reserveStage_p v).
Proof. unfold reserveStage_p. apply neutral_locked; [solve_neutral|]. intros [e|d]; solve_neutral. Qed.

Lemma neutral_connectNBD v s d : neutral false (connectNBD_p v s d).
Proof.
  unfold connectNBD_p. do 2 (neutral_step; [solve_neutral|]). intros out. destruct (co_err out); [|solve_neutral].
  apply (neutral_locked (clearVolumeNBDState_p v d) (λ _, _)); solve_neutral.
Qed.

#[local] Hint Resolve neutral_clearStale neutral_reserveStage neutral_connectNBD : prog.

Lemma neutral_publish ns req : neutral false (NodePublishVolume_p ns req).
Proof.
  assert (∀ fs, neutral false (publishBody_p ns req fs)) by (intros; unfold publishBody_p; solve_neutral).
  unfold NodePublishVolume_p. solve_neutral.
Qed.

Lemma neutral_unpublish ns req : neutral false (NodeUnpublishVolume_p ns req).
Proof.
  unfold NodeUnpublishVolume_p. neutral_step; [solve_neutral|]. intros t. cbv zeta.
  case_decide; [solve_neutral|]. case_decide; [solve_neutral|]. neutral_step; [solve_neutral|]. intros [src mounted].
  do 5 (neutral_step; [solve_neutral|]). intros _.
  apply (neutral_locked (clearVolumeNBDState_p _ _) (λ _, _)); solve_neutral.
Qed.

Lemma neutral_call c : neutral false (serve_call c).
Proof.
  destruct c; (apply neutral_bind; [|solve_neutral]).
  - apply neutral_publish.
  - apply neutral_unpublish.
  - solve_neutral.
Qed.

Lemma calls_lock_ok w cs : lock_ok (calls_cfg w cs).
Proof.
  split; [done|]. intros i p Hp. cbn [calls_cfg c_threads] in Hp.
  apply list_lookup_fmap_Some in Hp as (c & -> & _). rewrite bool_decide_eq_false_2 by done. apply neutral_call.
Qed.

(** C4: However publish, unpublish and reconciler calls are scheduled, and whatever the
    rest of the node does between their steps, none of them waits for ever: some
    call can always go on until all have returned, which takes finitely many steps,
    and then the mutex is free. *)
Theorem every_call_returns R w cs : inevitable R at_rest (calls_cfg w cs).
Proof. apply balanced_finish, calls_lock_ok. Qed.

End mutex.

#[export] Hint Resolve unlocked_ensureRunDirs unlocked_unmountBestEffort unlocked_detach unlocked_clear
  unlocked_gc unlocked_reserve unlocked_stage_error unlocked_reconcile unlocked_cleanup unlocked_waitSocket
  unlocked_mount9p unlocked_createDisk unlocked_umount9p unlocked_formatIfBlank unlocked_mountDevice : prog.

End NodeConcProps.
Export NodeConcProps.
