(* ===== verification/NodeConcSafe.v ===== *)
(** * Concurrent calls keep the devices apart

    Each program of [NodeConc] is proved safe on its own, against what the other calls
    may do: they leave the volume's own state file alone, and everything in the run
    directory while this call has the mutex.  [concurrent_exclusive] puts them together:
    calls for different volumes keep every device with at most one volume at every
    moment, as long as the deferred cleanup of a failed publish, which does not take the
    mutex, finds nothing to clear; [NodeRaces] has the schedule in which it does damage. *)

From S2P Require Import Prelude GoStrings GoPath World Metrics Kube Zerofs Nbd NbdReserve Node NodeFrame NodeTrace.
From S2P Require Import NodeState NbdRefine NodeRefine SimRun Conc NodeConc NodeConcProps.

Import NbdReserve NodeTrace NodeState NbdRefine NodeRefine.

Local Open Scope Z_scope.

Create HintDb quiet.

Module NodeConcSafe.

(** ** The state files, one operation at a time *)

Section files.
Context `{E : !Environment, HL : !Healthy in_run_dir}.

(** The regular files in the run directory are the same. *)
Definition same_files (w w' : World) : Prop :=
  ∀ p f, in_run_dir p → f_dir f = false → w_fs w' !! p = Some f ↔ w_fs w !! p = Some f.

#[export] Instance same_files_preorder : PreOrder same_files.
Proof. split; [by intros w p f|]. intros w1 w2 w3 H1 H2 p f Hp Hf. rewrite (H2 p f Hp Hf). by apply H1. Qed.

Lemma same_files_holds w w' v d :
  good_volume v = true → same_files w w' → holds (w_sys w') v d ↔ holds (w_sys w) v d.
Proof.
  intros Hv Hs. assert (in_run_dir (volumeNBDStatePath v)) as Hp by (by apply statePath_in_run, good_volume_plain).
  unfold holds. split; intros (f & Hf & Hd & Hrest); exists f; (split; [by apply Hs|done]).
Qed.

(** Nobody uses the device. *)
Definition unused (s : Sys ext) (d : string) : Prop := ∀ u, good_volume u = true → ¬ holds s u d.

Lemma same_files_unused w w' d : same_files w w' → unused (w_sys w) d → unused (w_sys w') d.
Proof. intros Hs Hu u Hv Hx. apply (Hu u Hv). by apply (same_files_holds w w'). Qed.

(** A file in the place of a reservation of an unused device. *)
Lemma inv_set_reservation d f s :
  nbdDevicePathRe d = true → (∀ g, f = Some g → f_dir g = false) → unused s d → inv s →
  inv (set_file (deviceReservationPath d) f s).
Proof.
  intros Hd Hf Hu [Ht Hb]. split.
  - apply set_file_tidy; [|done]. intros g _ Hg Hdir. apply Hf in Hg. congruence.
  - intros v x Hv Hx.
    assert (holds s v x) as Hx0.
    { eapply holds_frame; [|exact Hx]. symmetry. apply set_file_ne. intros Heq. by apply (reservationPath_not_state v d). }
    destruct (Hb v x Hv Hx0) as (Hre & g & Hg & Hrest). split; [done|]. exists g. split; [|done].
    rewrite set_file_ne; [done|]. intros Heq. apply reservationPath_inj in Heq; [|done..]. subst. by apply (Hu v).
Qed.

Lemma holds_set_reservation d f s v x :
  good_volume v = true → holds (set_file (deviceReservationPath d) f s) v x ↔ holds s v x.
Proof.
  intros Hv. apply holds_frame, set_file_ne. intros Heq. by apply (reservationPath_not_state v d).
Qed.

(** Without its state file a volume uses nothing. *)
Lemma inv_del_state v s : good_volume v = true → inv s → inv (set_file (volumeNBDStatePath v) None s).
Proof.
  intros Hv [Ht Hb]. split; [by apply set_file_tidy; [intros ? _ [=]|]|].
  intros u x Hu Hx. destruct (decide (u = v)) as [->|Hne].
  { destruct Hx as (f & Hf & _). by rewrite set_file_eq in Hf. }
  assert (holds s u x) as Hx0.
  { eapply holds_frame; [|exact Hx]. symmetry. apply set_file_ne. intros Heq. apply Hne. symmetry.
    apply statePath_inj; [by apply good_volume_plain..|done]. }
  destruct (Hb u x Hu Hx0) as (Hre & g & Hg & Hrest). split; [done|]. exists g. split; [|done].
  rewrite set_file_ne; [done|]. intros Heq. by apply (reservationPath_not_state v x).
Qed.

(** The state file of a volume whose reservation is there. *)
Lemma inv_set_state v d t s g :
  good_volume v = true → nbdDevicePathRe d = true →
  sys_fs s !! deviceReservationPath d = Some g → f_dir g = false → f_data g = v →
  inv s → inv (set_file (volumeNBDStatePath v) (Some (mkFile d false t)) s).
Proof.
  intros Hv Hd Hg Hgd Hgv [Ht Hb]. split; [apply set_file_tidy; [by intros ? _ [= <-]|done]|].
  intros u x Hu Hx. assert (∀ y, volumeNBDStatePath v ≠ deviceReservationPath y) as Hne by (intros; by apply reservationPath_not_state).
  destruct (decide (u = v)) as [->|Huv].
  - destruct Hx as (f & Hf & _ & <- & _). rewrite set_file_eq in Hf. simplify_eq/=. rewrite device_trim by done.
    split; [done|]. exists g. by rewrite lookup_partial_alter_ne.
  - assert (holds s u x) as Hx0.
    { eapply holds_frame; [|exact Hx]. symmetry. apply set_file_ne. intros Heq. apply Huv. symmetry.
      apply statePath_inj; [by apply good_volume_plain..|done]. }
    destruct (Hb u x Hu Hx0) as (Hre & k & Hk & Hrest). split; [done|]. exists k. split; [|done].
    by rewrite set_file_ne.
Qed.

Lemma remove_cases p s : (remove_file p s).2 = s ∨ (remove_file p s).2 = set_file p None s.
Proof. unfold remove_file. repeat case_match; auto. Qed.

(** A device whose reservation is absent, or names somebody without a state file, is unused. *)
Lemma absent_unused s d : inv s → sys_fs s !! deviceReservationPath d = None → unused s d.
Proof. intros [_ Hb] Hn u Hu Hx. destruct (Hb u d Hu Hx) as (_ & g & Hg & _). congruence. Qed.

Lemma named_unused s d f :
  inv s → sys_fs s !! deviceReservationPath d = Some f → (∀ x, ¬ holds s (f_data f) x) → unused s d.
Proof.
  intros [_ Hb] Hf Hn u Hu Hx. destruct (Hb u d Hu Hx) as (_ & g & Hg & _ & Hd). simplify_eq. by eapply Hn.
Qed.

Lemma released_unused s v d : inv s → good_volume v = true → holds s v d →
  unused (set_file (volumeNBDStatePath v) None s) d.
Proof.
  intros [Ht Hb] Hv Hh u Hu Hx. destruct (decide (u = v)) as [->|Hne].
  { destruct Hx as (f & Hf & _). by rewrite set_file_eq in Hf. }
  apply Hne. eapply (backed_exclusive _ Hb); [done|done| |exact Hh].
  eapply holds_frame; [|exact Hx]. symmetry. apply set_file_ne. intros Heq. apply Hne. symmetry.
  apply statePath_inj; [by apply good_volume_plain..|done].
Qed.

End files.

(** ** One thread *)

Section safety.
Context `{E : !Environment, C : !KubeClient, Q : !QuantityParser}.
Context `{EK : !EnvKeeps in_run_dir, KK : !KubeKeeps in_run_dir, HL : !Healthy in_run_dir, CL : !Clock}.
Context (T : Z).

(** The worlds under consideration: within two hours of [T]. *)
Definition in_time (w : World) : Prop := now w ≤ T + 2 * hour.

(** Every device in use is backed by its reservation, and no file is older than [T]. *)
Definition sound (w : World) : Prop := inv (w_sys w) ∧ young T w ∧ T ≤ now w ∧ in_time w.

(** What belongs to a call: the state file of its volume, if it is for one. *)
Definition mine (o : option string) (w w' : World) : Prop :=
  ∀ v, o = Some v → good_volume v = true → keeps (own_state v) w w'.

Definition other_volume (o o' : option string) : Prop := ∀ v, o = Some v → o' ≠ Some v.

#[export] Instance mine_preorder o : PreOrder (mine o).
Proof.
  split; [intros w v _ _; reflexivity|]. intros w1 w2 w3 H1 H2 v Ho Hv. transitivity w2; [by apply H1|by apply H2].
Qed.

Lemma quiet_mine o w w' : quiet w w' → mine o w w'.
Proof. intros [Hk _] v _ Hv p ->. by apply Hk, statePath_in_run, good_volume_plain. Qed.

Lemma quiet_emits e w : quiet w (emit e w).2.
Proof. split; [apply keeps_emit|unfold now; simpl; lia]. Qed.

Lemma sound_in_time w : sound w → in_time w.
Proof. by intros (_ & _ & _ & ?). Qed.

Lemma in_time_emit e w : in_time w → in_time (emit e w).2.
Proof. done. Qed.

(** What keeps time keeps [sound], given the state files. *)
Lemma sound_later w w' : sound w → later w w' → in_time w' → inv (w_sys w') → sound w'.
Proof. intros (_ & Hy & HT & _) [Hn Hl] Ht Hi. split_and!; [done|by apply Hl|lia|done]. Qed.

Lemma quiet_inv w w' : quiet w w' → inv (w_sys w) → inv (w_sys w').
Proof.
  intros [Hk _] [Ht Hb]. split.
  - intros p f Hp Hf. eapply Ht; [done|]. pose proof (Hk p Hp) as Heq. unfold w_fs in Heq. by rewrite <- Heq.
  - intros v d Hv Hd. destruct (Hb v d Hv) as (Hre & f & Hf & Hrest).
    { eapply holds_frame; [|exact Hd]. symmetry. by apply Hk, statePath_in_run, good_volume_plain. }
    split; [done|]. exists f. split; [|done]. rewrite <- Hf. by apply Hk, reservationPath_in_run.
Qed.

Lemma sound_quiet w w' : sound w → quiet w w' → in_time w' → sound w'.
Proof. intros Hs Hq Ht. eapply sound_later; [done|by apply quiet_later|done|]. eapply quiet_inv; [done|apply Hs]. Qed.

(** What the theorem takes for granted of two steps of node.go: the cleanup of a failed
    publish, which runs outside the mutex, finds no device recorded (line 169), and
    findmnt prints for an unpublish's target the device of its volume, or nothing
    (line 419). *)
Definition expected (l : site) (w : World) : Prop :=
  match l with
  | At 169 [v] => ∀ d, ¬ holds (w_sys w) v d
  | At 419 [v; target] => own_source v target w
  | _ => True
  end.

Abbreviation safely := (safe sound in_time expected quiet mine other_volume).

Lemma safely_bindE {X A B} o h (p : Prog (X + A)) (f : A → Prog (X + B)) Q' w :
  safely o h p (λ r h' w', match r with inl e => Q' (inl e) h' w' | inr a => safely o h' (f a) Q' w' end) w →
  safely o h (pbindE p f) Q' w.
Proof. intros Hp. apply safe_bind. eapply safe_mono; [exact Hp|]. by intros [] h' w'. Qed.

(** A program whose steps leave the run directory alone. *)
Fixpoint quiet_steps {A} (p : Prog A) : Prop :=
  match p with
  | PRet _ => True
  | PStep _ m k => respects quiet m ∧ ∀ b, quiet_steps (k b)
  | PLock _ | PUnlock _ => False
  end.

(** Without the mutex: what depends on the volume's own file only stays. *)
Lemma safely_idle {A} o (p : Prog A) (K : World → Prop) Q' w :
  quiet_steps p → (∀ w w', mine o w w' → K w → K w') → K w → (∀ a w', K w' → Q' a false w') →
  safely o false p Q' w.
Proof.
  intros Hp Hstable HK HQ. revert w HK. induction p as [a|B l m k IH|k IH|k IH]; cbn; intros w HK; [by apply HQ| |done|done].
  - destruct Hp as [Hm Hk]. intros w' Hr HJ _ Hok. split_and!.
    + eapply sound_quiet; [done|apply Hm|done].
    + intros _. apply Hm.
    + intros o' _. apply quiet_mine, Hm.
    + apply IH; [apply Hk|]. eapply Hstable; [apply quiet_mine, Hm|]. by eapply Hstable.
Qed.

(** With the mutex: a step that keeps the others' files. *)
Lemma safely_write {A B} v (m : Go B) (k : B → Prog A) Q' w :
  respects later m → respects (keeps (other_state v)) m →
  (∀ w', quiet w w' → sound w' →
     inv (w_sys (m w').2) ∧ safely (Some v) true (k (m w').1) Q' (m w').2) →
  safely (Some v) true (PStep Anywhere m k) Q' w.
Proof.
  intros Hl Hk Hm w' Hr HJ _ Hok. destruct (Hm w' Hr HJ) as [Hi Hs]. split_and!; [|done| |done].
  - eapply sound_later; [done|apply Hl|done|done].
  - intros o' Hap u -> Hu p ->. apply Hk. exists u. split_and!; [done| |done]. intros ->. by apply (Hap v).
Qed.

(** A step that only looks. *)
Lemma look_at {A B} o h l (m : Go B) (k : B → Prog A) Q' w :
  (∀ w', (m w').2 = w') →
  (∀ w', rely quiet mine h o w w' → sound w' → expected l w' → safely o h (k (m w').1) Q' w') →
  safely o h (pbind (lift_at l m) k) Q' w.
Proof.
  intros Hm Hk w' Hr HJ Ha Hok. rewrite Hm. split_and!; [done| | |by apply Hk]; [by intros _|]. intros o' _. reflexivity.
Qed.

Lemma safely_look {A B} o h (m : Go B) (k : B → Prog A) Q' w :
  (∀ w', (m w').2 = w') →
  (∀ w', rely quiet mine h o w w' → sound w' → safely o h (k (m w').1) Q' w') →
  safely o h (PStep Anywhere m k) Q' w.
Proof. intros Hm Hk. apply (look_at o h Anywhere m k); [done|]. intros w' Hr HJ _. by apply Hk. Qed.

Lemma look_next {A B} o h (m : Go B) (k : B → Prog A) Q' w :
  (∀ w', (m w').2 = w') →
  (∀ w', rely quiet mine h o w w' → sound w' → safely o h (k (m w').1) Q' w') →
  safely o h (pbind (lift m) k) Q' w.
Proof. apply safely_look. Qed.

(** A step without the mutex that leaves the run directory alone. *)
Lemma quiet_next {A B} o l (m : Go B) (k : B → Prog A) Q' w :
  respects quiet m →
  (∀ w', mine o w w' → sound w' → expected l w' → safely o false (k (m w').1) Q' (m w').2) →
  safely o false (pbind (lift_at l m) k) Q' w.
Proof.
  intros Hm Hk w' Hr HJ Ha Hok. split_and!; [eapply sound_quiet; [done|apply Hm|done]|intros _; apply Hm| |by apply Hk].
  intros o' _. apply quiet_mine, Hm.
Qed.

Lemma safely_quiet {A} o (p : Prog A) Q' w :
  quiet_steps p → (∀ a w', quiet w w' → Q' a true w') → safely o true p Q' w.
Proof.
  intros Hp HQ. revert w HQ. induction p as [a|B l m k IH|k IH|k IH]; cbn; intros w HQ; [by apply HQ| |done|done].
  - destruct Hp as [Hm Hk]. intros w' Hr HJ _ Hok. split_and!.
    + eapply sound_quiet; [done|apply Hm|done].
    + done.
    + intros o' _. apply quiet_mine, Hm.
    + apply IH; [apply Hk|]. intros a w2 H2. apply HQ. transitivity w'; [done|]. transitivity (m w').2; [apply Hm|done].
Qed.

(** ** Under the mutex *)

Section volume.
Context (v : string) (Hv : good_volume v = true).

#[local] Hint Resolve later_Remove later_OpenExcl later_WriteFile later_WriteString later_MkdirAll
  keeps_Remove keeps_OpenExcl keeps_WriteFile keeps_WriteString other_state_reservation other_state_self : go.

Lemma quiet_unused w w' d : quiet w w' → unused (w_sys w) d → unused (w_sys w') d.
Proof. intros Hq Hu u Hg Hx. apply (Hu u Hg). by apply (quiet_holds u Hg w w'). Qed.

Lemma quiet_reservation w w' d : quiet w w' →
  sys_fs (w_sys w') !! deviceReservationPath d = sys_fs (w_sys w) !! deviceReservationPath d.
Proof. intros [Hk _]. apply Hk, any_reservation_in_run. Qed.

(** The reservation of a device that nobody uses may go. *)
Lemma remove_reservation_safe {A} d (k : option PathError → Prog A) Q' w :
  nbdDevicePathRe d = true → unused (w_sys w) d →
  (∀ r w', (∀ x, holds (w_sys w) v x ↔ holds (w_sys w') v x) → safely (Some v) true (k r) Q' w') →
  safely (Some v) true (PStep Anywhere (os_Remove (deviceReservationPath d)) k) Q' w.
Proof.
  intros Hd Hu Hk. apply safely_write; [auto with go..|]. intros w1 Hq (Hi & _).
  assert (unused (w_sys w1) d) as Hu1 by (by eapply quiet_unused).
  change (w_sys (os_Remove (deviceReservationPath d) w1).2) with (remove_file (deviceReservationPath d) (w_sys w1)).2.
  split; [destruct (remove_cases (deviceReservationPath d) (w_sys w1)) as [->| ->]; [done|by apply inv_set_reservation]|].
  apply Hk. intros x. rewrite <- (quiet_holds v Hv w w1 x Hq). symmetry. apply holds_frame.
  apply remove_file_ne. intros Heq. by apply (reservationPath_not_state v d).
Qed.

(** The state file of the volume goes. *)
Lemma remove_state s :
  tidy s → sys_fs (remove_file (volumeNBDStatePath v) s).2 !! volumeNBDStatePath v = None.
Proof.
  intros Ht. destruct (sys_fs s !! volumeNBDStatePath v) as [f|] eqn:Hf.
  - rewrite remove_file_healthy; [apply set_file_eq|by apply statePath_in_run, good_volume_plain|by apply tidy_no_dir_state|done].
  - unfold remove_file. by rewrite healthy, Hf by (by apply statePath_in_run, good_volume_plain).
Qed.

Lemma remove_state_unused s d :
  inv s → holds s v d → unused (remove_file (volumeNBDStatePath v) s).2 d.
Proof.
  intros Hi Hh. assert ((remove_file (volumeNBDStatePath v) s).2 = set_file (volumeNBDStatePath v) None s) as ->.
  { rewrite remove_file_healthy; [done|by apply statePath_in_run, good_volume_plain|apply tidy_no_dir_state; [apply Hi|done]|].
    destruct Hh as (f & Hf & _). by eexists. }
  by apply released_unused.
Qed.

Lemma clear_safe d Q' w :
  to_release v d w → (∀ w', (∀ x, ¬ holds (w_sys w') v x) → Q' tt true w') →
  safely (Some v) true (clearVolumeNBDState_p v d) Q' w.
Proof.
  intros Hr HQ. apply safely_write; [auto with go..|]. intros w1 Hq (Hi & _).
  apply (quiet_to_release v Hv d w w1 Hq) in Hr.
  set (w2 := (os_Remove (volumeNBDStatePath v) w1).2).
  assert (w_sys w2 = (remove_file (volumeNBDStatePath v) (w_sys w1)).2) as Hw2 by done. clearbody w2.
  assert (∀ x, ¬ holds (w_sys w2) v x) as Hn.
  { intros x. rewrite Hw2. by apply no_holds_none, remove_state, Hi. }
  assert (inv (w_sys w2)) as Hi2.
  { rewrite Hw2. destruct (remove_cases (volumeNBDStatePath v) (w_sys w1)) as [->| ->]; [done|by apply inv_del_state]. }
  split; [done|]. cbn [pbind lift]. case_decide as Hd; [by apply HQ|].
  destruct Hr as [Hh|[? _]]; [|done]. cbn [pbind lift]. apply remove_reservation_safe.
  - by apply (proj2 Hi v d Hv Hh).
  - rewrite Hw2. by apply remove_state_unused.
  - intros r w3 H3. apply HQ. intros x. rewrite <- H3. apply Hn.
Qed.

(** Making the directories keeps every regular file. *)
Lemma mkdir_safe {A} p (k : option PathError → Prog A) Q' w :
  ancestors [] (bytes p) ⊆ run_dirs →
  (∀ r w', same_files w w' → safely (Some v) true (k r) Q' w') →
  safely (Some v) true (PStep Anywhere (os_MkdirAll p) k) Q' w.
Proof.
  intros Hp Hk. apply safely_write; [auto with go| |].
  { apply keeps_MkdirAll. intros q Hq. by apply other_state_dir, Hp. }
  intros w1 Hq (Hi & _).
  assert (∀ q f, f_dir f = false → w_fs (os_MkdirAll p w1).2 !! q = Some f ↔ w_fs w1 !! q = Some f) as Hs.
  { intros q f Hf. unfold w_fs. rewrite os_MkdirAll_eq. cbn [snd w_sys]. split.
    - intros [?|?]%mkdir_each_new; [done|congruence].
    - by apply mkdir_each_keeps. }
  split.
  - split; [apply (tidy_MkdirAll p Hp), Hi|]. eapply backed_same_files; [exact Hs|apply Hi].
  - apply Hk. intros q f Hrun Hf. rewrite (Hs q f Hf), (proj1 Hq q Hrun). done.
Qed.

Lemma ensureRunDirs_safe Q' w :
  (∀ r w', same_files w w' → Q' r true w') → safely (Some v) true ensureRunDirs_p Q' w.
Proof.
  intros HQ. unfold ensureRunDirs_p. cbn [pbind lift]. apply mkdir_safe.
  { rewrite run_dir_ancestors. unfold run_dirs. set_solver. }
  intros [e|] w1 H1; [by apply HQ|]. cbn [pbind lift]. apply mkdir_safe.
  { by rewrite by_device_ancestors. }
  intros [e|] w2 H2; apply HQ; by transitivity w1.
Qed.

(** A reservation in use: what the garbage collection finds. *)
Lemma used_reservation s d u :
  inv s → good_volume u = true → holds s u d →
  ∃ f, sys_fs s !! deviceReservationPath d = Some f ∧ f_dir f = false ∧ TrimSpace (f_data f) = u ∧
    stat_file (deviceReservationPath d) s = inr (f_mtime f) ∧
    read_file (deviceReservationPath d) s = inr (f_data f) ∧
    is_Some (sys_fs s !! volumeNBDStatePath u).
Proof.
  intros [_ Hb] Hu Hh. destruct (Hb u d Hu Hh) as (Hre & f & Hf & Hd & Hdata). exists f.
  pose proof (any_reservation_in_run d) as Hp. split_and!; [done|done| | | |].
  - rewrite Hdata. by apply good_volume_trim.
  - by rewrite stat_file_healthy, Hf.
  - by apply read_file_healthy.
  - destruct Hh as (g & Hg & _). by eexists.
Qed.

Lemma gc_safe d Q' w :
  nbdDevicePathRe d = true → (∀ w', Q' tt true w') →
  safely (Some v) true (gcReservation_p (deviceReservationPath d)) Q' w.
Proof.
  intros Hd HQ. unfold gcReservation_p. cbn [pbind lift].
  assert (∀ w, unused (w_sys w) d →
    safely (Some v) true (PStep Anywhere (os_Remove (deviceReservationPath d)) (λ _, PRet tt)) Q' w) as Hrm.
  { intros w0 Hu. apply remove_reservation_safe; [done|done|]. intros r w' _. apply HQ. }
  apply safely_look; [done|]. intros w1 Hq1 (Hi1 & Hy1 & _). cbn [os_Stat sys_read fst].
  destruct (stat_file (deviceReservationPath d) (w_sys w1)) as [e|mtime] eqn:Hstat; [apply HQ|]. cbn [pbind lift].
  apply safely_look; [done|]. intros w2 Hq2 (Hi2 & _).
  assert (∀ w', quiet w2 w' → ∀ u, good_volume u = true → holds (w_sys w') u d →
    holds (w_sys w1) u d ∧ holds (w_sys w2) u d) as Hback.
  { intros w' Hq u Hu Hh. apply (quiet_holds u Hu w2 w' d Hq) in Hh. split; [|done]. by apply (quiet_holds u Hu w1 w2 d Hq2). }
  set (b := (mustReadFile (deviceReservationPath d) w2).1).
  assert (∀ u, good_volume u = true → holds (w_sys w2) u d → TrimSpace b = u) as Hb.
  { intros u Hu Hh. destruct (used_reservation _ d u Hi2 Hu Hh) as (f & _ & _ & Hf & _ & Hread & _).
    unfold b, mustReadFile, os_ReadFile, sys_read, bind, ret. cbv zeta. cbn [fst]. by rewrite Hread. }
  clearbody b. case_decide as Hempty.
  { cbn [pbind lift]. apply Hrm. intros u Hu Hh. apply (good_volume_nonempty u Hu). by rewrite <- (Hb u Hu Hh). }
  cbn [pbind lift]. apply safely_look; [done|]. intros w3 Hq3 (Hi3 & _). cbn [os_Stat sys_read fst].
  destruct (match stat_file _ _ with inl err => IsNotExist err | inr _ => false end) eqn:Hgone.
  { cbn [pbind lift]. apply Hrm. intros u Hu Hh. destruct (Hback w3 Hq3 u Hu Hh) as [_ Hh2].
    rewrite (Hb u Hu Hh2), stat_file_healthy in Hgone by (by apply statePath_in_run, good_volume_plain).
    destruct Hh as (g & Hg & _). by rewrite Hg in Hgone. }
  cbn [pbind lift]. apply safely_look; [done|]. intros w4 Hq4 (Hi4 & _ & _ & Ht4). cbn [time_Since sys_read fst].
  case_decide as Hage; [|apply HQ]. cbn [pbind lift]. apply Hrm. intros u Hu Hh. exfalso.
  destruct (Hback w4) with (u := u) as [Hh1 _]; [by transitivity w3|done|done|].
  destruct (used_reservation _ d u Hi1 Hu Hh1) as (f & Hf & _ & _ & Hs & _). rewrite Hs in Hstat. simplify_eq.
  pose proof (Hy1 _ f (any_reservation_in_run d) Hf). unfold in_time, now in Ht4. lia.
Qed.

(** The state file is written for the device whose reservation names the volume. *)
Lemma write_safe d Q' w :
  nbdDevicePathRe d = true → unused (w_sys w) d →
  (∃ f, sys_fs (w_sys w) !! deviceReservationPath d = Some f ∧ f_dir f = false ∧ f_data f = v) →
  (∀ e w', unused (w_sys w') d → Q' (Some e) true w') → (∀ w', holds (w_sys w') v d → Q' None true w') →
  safely (Some v) true (writeVolumeNBDState_p v d) Q' w.
Proof.
  intros Hd Hu (f & Hf & Hdir & Hdata) Herr Hok. apply safe_bind, ensureRunDirs_safe. intros r w1 Hs.
  assert (unused (w_sys w1) d) as Hu1 by (by eapply same_files_unused).
  destruct r as [e|]; [by apply Herr|]. unfold lift. apply safely_write; [auto with go..|].
  intros w2 Hq (Hi & _). rewrite (device_trim d Hd).
  assert (sys_fs (w_sys w2) !! deviceReservationPath d = Some f) as Hf2.
  { rewrite (quiet_reservation w1 w2 d Hq). by apply (Hs _ f (any_reservation_in_run d) Hdir). }
  change (w_sys (os_WriteFile (volumeNBDStatePath v) d w2).2) with (write_file (volumeNBDStatePath v) d (w_sys w2)).2.
  change (os_WriteFile (volumeNBDStatePath v) d w2).1 with (write_file (volumeNBDStatePath v) d (w_sys w2)).1.
  assert (write_file (volumeNBDStatePath v) d (w_sys w2) =
      (None, set_file (volumeNBDStatePath v) (Some (mkFile d false (env_now (sys_ext (w_sys w2))))) (w_sys w2)) ∨
    ∃ e, write_file (volumeNBDStatePath v) d (w_sys w2) = (Some e, w_sys w2)) as [Hw|[e Hw]].
  { unfold write_file. repeat case_match; eauto. }
  all: split; rewrite Hw; cbn [fst snd].
  - by apply (inv_set_state v d _ _ f).
  - apply Hok. change (holds (write_file (volumeNBDStatePath v) d (w_sys w2)).2 v d). rewrite Hw. cbn [snd].
    eexists. split; [apply set_file_eq|]. cbn [f_dir f_data]. rewrite (device_trim d Hd). split_and!; [done..|].
    intros ->. done.
  - done.
  - apply Herr. change (unused (write_file (volumeNBDStatePath v) d (w_sys w2)).2 d). rewrite Hw. cbn [snd].
    by eapply quiet_unused.
Qed.

(** The reservation is made and names the volume. *)
Lemma take_safe {A} d (k : option PathError → Prog A) Q' w :
  nbdDevicePathRe d = true →
  (∀ e w', safely (Some v) true (k (Some e)) Q' w') →
  (∀ w', unused (w_sys w') d →
     (∃ t, sys_fs (w_sys w') !! deviceReservationPath d = Some (mkFile EmptyString false t)) →
     safely (Some v) true (k None) Q' w') →
  safely (Some v) true (PStep Anywhere (os_OpenExcl (deviceReservationPath d)) k) Q' w.
Proof.
  intros Hd Herr Hok. apply safely_write; [auto with go..|]. intros w1 Hq (Hi & _).
  set (r := create_excl (deviceReservationPath d) (w_sys w1)).
  change (w_sys (os_OpenExcl (deviceReservationPath d) w1).2) with r.2.
  change (os_OpenExcl (deviceReservationPath d) w1).1 with r.1.
  destruct r as [[e|] s'] eqn:Hr; subst r; cbn [fst snd].
  { split; [|apply Herr]. unfold create_excl in Hr. repeat case_match; by simplify_eq. }
  assert (sys_fs (w_sys w1) !! deviceReservationPath d = None ∧
    s' = set_file (deviceReservationPath d) (Some (mkFile EmptyString false (env_now (sys_ext (w_sys w1))))) (w_sys w1)) as [Hn ->].
  { unfold create_excl in Hr. repeat case_match; by simplify_eq. }
  pose proof (absent_unused _ d Hi Hn) as Hu. split; [apply inv_set_reservation; [done|by intros g [= <-]|done|done]|].
  apply Hok; change (w_sys (os_OpenExcl (deviceReservationPath d) w1).2) with
    (create_excl (deviceReservationPath d) (w_sys w1)).2; rewrite Hr; cbn [snd].
  - intros u Hg. rewrite holds_set_reservation by done. by apply Hu.
  - eexists. apply set_file_eq.
Qed.

Lemma name_safe {A} d t (k : unit → Prog A) Q' w :
  nbdDevicePathRe d = true → unused (w_sys w) d →
  sys_fs (w_sys w) !! deviceReservationPath d = Some (mkFile EmptyString false t) →
  (∀ w', unused (w_sys w') d →
     (∃ f, sys_fs (w_sys w') !! deviceReservationPath d = Some f ∧ f_dir f = false ∧ f_data f = v) →
     safely (Some v) true (k tt) Q' w') →
  safely (Some v) true (PStep Anywhere (f_WriteString (deviceReservationPath d) v) k) Q' w.
Proof.
  intros Hd Hu Hf Hk. apply safely_write; [auto with go..|]. intros w1 Hq (Hi & _).
  assert (sys_fs (w_sys w1) !! deviceReservationPath d = Some (mkFile EmptyString false t)) as Hf1
    by (by rewrite (quiet_reservation w w1)).
  assert (unused (w_sys w1) d) as Hu1 by (by eapply quiet_unused).
  assert (w_sys (f_WriteString (deviceReservationPath d) v w1).2 =
    set_file (deviceReservationPath d) (Some (mkFile v false (env_now (sys_ext (w_sys w1))))) (w_sys w1)) as Heq.
  { change (w_sys (f_WriteString (deviceReservationPath d) v w1).2) with (append_file (deviceReservationPath d) v (w_sys w1)).2.
    unfold append_file. by rewrite healthy, Hf1 by apply any_reservation_in_run. }
  split; [rewrite Heq; apply inv_set_reservation; [done|by intros g [= <-]|done|done]|].
  destruct (f_WriteString (deviceReservationPath d) v w1).1. apply Hk; rewrite Heq.
  - intros u Hg. rewrite holds_set_reservation by done. by apply Hu1.
  - eexists. split; [apply set_file_eq|done].
Qed.

(** A successful reservation leaves the device with the volume. *)
Definition granted (Q' : string + string → bool → World → Prop) : Prop :=
  (∀ e w, Q' (inl e) true w) ∧ ∀ d w, holds (w_sys w) v d → Q' (inr d) true w.

Lemma scan_safe ds Q' w :
  Forall (λ d, nbdDevicePathRe d = true) ds → granted Q' → safely (Some v) true (reserveScan_p v ds) Q' w.
Proof.
  intros Hds [Herr Hok]. revert w. induction Hds as [|d ds Hd Hds IH]; intros w; cbn [reserveScan_p]; [apply Herr|].
  cbn [pbind lift]. apply safely_look.
  { intros w'. unfold isNBDConnected, os_ReadFile, sys_read, bind, ret. cbv zeta. by repeat case_match. }
  intros w1 _ _. destruct (isNBDConnected d w1).1 as [e|[]]; [apply IH..|]. cbv zeta.
  apply safe_bind, gc_safe; [done|]. intros w2. cbn [pbind lift]. apply take_safe; [done|intros; apply IH|].
  intros w3 Hu3 [t Ht]. cbn [pbind lift]. eapply name_safe; [done|done|exact Ht|]. intros w4 Hu4 Hf4.
  apply safe_bind, write_safe; [done|done|done| |].
  - intros e w5 Hu5. cbn [pbind lift]. apply remove_reservation_safe; [done|done|]. intros r w6 _. apply Herr.
  - intros w5 Hh. by apply Hok.
Qed.

Lemma fresh_safe Q' w : granted Q' → safely (Some v) true (reserveFresh_p v) Q' w.
Proof.
  intros Hg. unfold reserveFresh_p. cbn [pbind lift]. apply safely_look; [done|]. intros w1 _ _.
  rewrite listNBDDevices_eq. cbn [fst]. destruct (devices w1) as [|d ds] eqn:Hds; [apply Hg|].
  apply scan_safe; [|done]. rewrite <- Hds. apply Forall_forall. intros x Hx. by apply elem_of_devices in Hx as [? _].
Qed.

(** A look at the state file of the volume. *)
Lemma read_state_safe {A} o h (k : option string → Prog A) Q' w :
  (∀ d w', rely quiet mine h o w w' → sound w' → holds (w_sys w') v d → safely o h (k (Some d)) Q' w') →
  (∀ w', rely quiet mine h o w w' → sound w' → (∀ d, ¬ holds (w_sys w') v d) → safely o h (k None) Q' w') →
  safely o h (PStep Anywhere (readVolumeNBDState v) k) Q' w.
Proof.
  intros Hsome Hnone. apply safely_look.
  { intros w'. unfold readVolumeNBDState, os_ReadFile, sys_read, bind, ret. cbv zeta. by repeat case_match. }
  intros w' Hr Hs. destruct (readVolumeNBDState_runs v (w_sys w') Hv) as (r & Hread & Hiff).
  rewrite (runs_result _ _ _ _ Hread). destruct r as [d|].
  - apply Hsome; [done|done|by apply Hiff].
  - apply Hnone; [done|done|]. by intros d Hd%Hiff.
Qed.

Lemma inDirs_safe Q' w : granted Q' → safely (Some v) true (reserveInDirs_p v) Q' w.
Proof.
  intros Hg. unfold reserveInDirs_p. cbn [pbind lift]. apply read_state_safe; [|intros; by apply fresh_safe].
  intros x w1 _ _ Hh1. cbn [pbind lift]. apply safely_look; [done|]. intros w2 Hq2 Hs2.
  assert (holds (w_sys w2) v x) as Hh2 by (by apply (quiet_holds v Hv w1 w2)).
  destruct (os_Stat x w2).1 as [e|t].
  - apply safe_bind, clear_safe; [by left|]. intros w3 _. by apply fresh_safe.
  - cbn [pbind lift]. apply safely_look; [done|]. intros w3 Hq3 (Hi3 & _).
    assert (holds (w_sys w3) v x) as Hh3 by (by apply (quiet_holds v Hv w2 w3)).
    destruct (used_reservation _ x v Hi3 Hv Hh3) as (f & _ & _ & _ & Hstat & _).
    cbn [os_Stat sys_read fst]. rewrite Hstat. cbn [pbind]. by apply Hg.
Qed.

Lemma reserve_safe Q' w : granted Q' → safely (Some v) true (reserveNBDDevice_p v) Q' w.
Proof.
  intros Hg. apply safe_bind, ensureRunDirs_safe. intros [e|] w1 _; [apply Hg|by apply inDirs_safe].
Qed.

End volume.

(** *** Programs that leave the run directory alone *)

#[local] Existing Instance quiet_frame.

Lemma quiet_ret {A} (a : A) : quiet_steps (PRet a).
Proof. done. Qed.

Lemma quiet_lift {A} (m : Go A) : respects quiet m → quiet_steps (lift m).
Proof. by intros Hm. Qed.

Lemma quiet_lift_at {A} l (m : Go A) : respects quiet m → quiet_steps (lift_at l m).
Proof. by intros Hm. Qed.

Lemma quiet_bind {A B} (p : Prog A) (f : A → Prog B) :
  quiet_steps p → (∀ a, quiet_steps (f a)) → quiet_steps (pbind p f).
Proof.
  intros Hp Hf. induction p as [a|C' l m k IH|k IH|k IH]; cbn in *; [apply Hf| |done|done].
  destruct Hp as [Hm Hk]. split; [done|]. intros b. by apply IH.
Qed.

Lemma quiet_bindE {X A B} (p : Prog (X + A)) (f : A → Prog (X + B)) :
  quiet_steps p → (∀ a, quiet_steps (f a)) → quiet_steps (pbindE p f).
Proof. intros Hp Hf. apply quiet_bind; [done|]. intros []; [done|apply Hf]. Qed.

#[local] Hint Resolve quiet_ret : quiet.
#[local] Hint Resolve quiet_exec quiet_emit : go.

Ltac quiet_step :=
  intros;
  lazymatch goal with
  | |- quiet_steps (lift _) => apply quiet_lift; solve_respects
  | |- quiet_steps (pbindE _ _) => apply quiet_bindE
  | |- quiet_steps (pbind _ _) => apply quiet_bind
  | |- quiet_steps (match ?x with _ => _ end) => destruct x
  end.

Ltac solve_quiet :=
  intros; cbv zeta; first [solve [eauto 3 with quiet] | quiet_step; solve_quiet | idtac].

Lemma quiet_unmountBestEffort t : quiet_steps (unmountBestEffort_p t).
Proof. unfold unmountBestEffort_p. solve_quiet. Qed.

Lemma quiet_detach d : quiet_steps (detachNBDDeviceBestEffort_p d).
Proof.
  assert (∀ n dev, quiet_steps (detach_attempts_p n dev)).
  { induction n as [|n IH]; intros; cbn [detach_attempts_p]; solve_quiet. }
  unfold detachNBDDeviceBestEffort_p. solve_quiet.
Qed.

Lemma quiet_stage_error {A} st c msg : quiet_steps (stage_error_p (A:=A) st c msg).
Proof. unfold stage_error_p. solve_quiet. Qed.

#[local] Hint Resolve quiet_unmountBestEffort quiet_detach quiet_stage_error : quiet.

Lemma quiet_reconcile : quiet_steps reconcileOrphanedNBDDevices_p.
Proof.
  assert (∀ ds a b, quiet_steps (reconcileLoop_p ds a b)).
  { induction ds as [|d ds IH]; intros; cbn [reconcileLoop_p]; solve_quiet. }
  assert (respects quiet listNBDDevices) by (unfold listNBDDevices, filepath_Glob; solve_respects).
  unfold reconcileOrphanedNBDDevices_p. solve_quiet.
Qed.

Lemma quiet_waitSocket n p : quiet_steps (waitSocket_p n p).
Proof. unfold os_Stat. induction n as [|n IH]; cbn [waitSocket_p]; unfold os_Stat; solve_quiet. Qed.

Lemma quiet_mount9p s t : quiet_steps (mount9p_p s t).
Proof. unfold mount9p_p. solve_quiet. Qed.

Lemma quiet_createDisk c p : quiet_steps (createDisk_p c p).
Proof. unfold createDisk_p, os_Stat. solve_quiet. Qed.

Lemma quiet_umount9p t : quiet_steps (umount9p_p t).
Proof. unfold umount9p_p. solve_quiet. Qed.

Lemma quiet_formatIfBlank fs d : quiet_steps (formatIfBlank_p fs d).
Proof. unfold formatIfBlank_p. solve_quiet. Qed.

Lemma quiet_mountDevice fs d t fl : quiet_steps (mountDevice_p fs d t fl).
Proof. unfold mountDevice_p. solve_quiet. Qed.

Lemma quiet_createPodStage ns v cm : quiet_steps (lift (createPodStage ns v cm)).
Proof. solve_quiet. Qed.

Lemma quiet_makeTarget t : HasPrefix t ZeroFSRunDir = false → quiet_steps (lift (makeTarget t)).
Proof.
  intros Ht. apply quiet_lift. unfold makeTarget. respects_step; [|solve_respects]. intros w. split.
  - intros q Hq. unfold w_fs. rewrite os_MkdirAll_eq. cbn [snd w_sys]. apply mkdir_each_ne.
    intros Hin. by eapply target_ancestors.
  - apply later_MkdirAll.
Qed.

#[local] Hint Resolve quiet_reconcile quiet_waitSocket quiet_mount9p quiet_createDisk quiet_umount9p
  quiet_formatIfBlank quiet_mountDevice quiet_createPodStage quiet_makeTarget : quiet.

(** ** The handlers *)

(** A call ends without the mutex. *)
Definition ends {A} (_ : A) (h : bool) (_ : World) : Prop := h = false.

Lemma ends_mono {A} o h (p : Prog A) Q' w :
  safely o h p ends w → (∀ a w', Q' a false w') → safely o h p Q' w.
Proof. intros Hp HQ. eapply safe_mono; [exact Hp|]. unfold ends. intros a h' w' ->. apply HQ. Qed.

Lemma lock_safe {A} o (k : Prog A) Q' w :
  (∀ w', mine o w w' → sound w' → safely o true k Q' (emit EvLock w').2) →
  safely o false (pbind lock (λ _, k)) Q' w.
Proof. by intros Hk. Qed.

Lemma unlock_safe {A} o (k : Prog A) Q' w :
  (∀ w', quiet w w' → safely o false k Q' w') → safely o true (pbind unlock (λ _, k)) Q' w.
Proof.
  intros Hk. split; [done|]. intros w' Hq _. apply Hk. transitivity w'; [done|apply quiet_emits].
Qed.

Lemma idle_ends {A} o (p : Prog A) w : quiet_steps p → safely o false p ends w.
Proof. intros Hp. by eapply (safely_idle o p (λ _, True)). Qed.

Lemma idle_then {A B} o (p : Prog A) (f : A → Prog B) (K : World → Prop) Q' w :
  quiet_steps p → (∀ w w', mine o w w' → K w → K w') → K w →
  (∀ a w', K w' → safely o false (f a) Q' w') → safely o false (pbind p f) Q' w.
Proof. intros Hp Hs HK Hf. apply safe_bind. by eapply (safely_idle o p K). Qed.

Lemma idle_next {A B} o (p : Prog A) (f : A → Prog B) Q' w :
  quiet_steps p → (∀ a w', safely o false (f a) Q' w') → safely o false (pbind p f) Q' w.
Proof. intros Hp Hf. by eapply (idle_then o p f (λ _, True)). Qed.

Lemma idle_try {X A B} o (p : Prog (X + A)) (f : A → Prog (X + B)) w :
  quiet_steps p → (∀ a w', safely o false (f a) ends w') → safely o false (pbindE p f) ends w.
Proof. intros Hp Hf. apply idle_next; [done|]. intros [e|a] w'; [done|apply Hf]. Qed.

Section handlers.
Context (v : string) (Hv : good_volume v = true).

Lemma mine_holds w w' d : mine (Some v) w w' → holds (w_sys w') v d ↔ holds (w_sys w) v d.
Proof. intros Hm. apply holds_frame. by apply (Hm v). Qed.

Lemma mine_to_release d w w' : mine (Some v) w w' → to_release v d w → to_release v d w'.
Proof.
  intros Hm [Hh|[-> Hn]]; [left; by apply (mine_holds w w')|].
  right. split; [done|]. intros d'. by rewrite (mine_holds w w').
Qed.

(** Clearing the state of the volume, from the lock to the unlock. *)
Lemma clear_section {A} d (k : Prog A) Q' w :
  to_release v d w → (∀ w', safely (Some v) false k Q' w') →
  safely (Some v) false (pbind lock (λ _, pbind (clearVolumeNBDState_p v d) (λ _, pbind unlock (λ _, k)))) Q' w.
Proof.
  intros Hr Hk. apply lock_safe. intros w1 Hm _. apply safe_bind, clear_safe; [done| |].
  { apply (quiet_to_release v Hv d w1); [apply quiet_emits|]. by eapply mine_to_release. }
  intros w2 _. apply unlock_safe. intros w3 _. apply Hk.
Qed.

Lemma clearStale_safe w : safely (Some v) false (clearStale_p v) ends w.
Proof.
  unfold clearStale_p. apply lock_safe. intros w1 _ _. cbn [pbind lift].
  assert (∀ w, safely (Some v) true unlock ends w) as Hun by (by intros; split).
  apply read_state_safe; [done| |].
  - intros d w2 _ _ Hh2. apply safe_bind, (safe_bind _ _ _ _ _ _ _ _ (lift (isNBDConnected d))), safely_quiet.
    { split; [apply (frame_isNBDConnected quiet)|done]. }
    intros c w3 Hq3. apply safe_bind, safely_quiet.
    { destruct c as [e|[]]; [done|apply quiet_detach|done]. }
    intros _ w4 Hq4. apply clear_safe; [done| |intros; apply Hun].
    left. apply (quiet_holds v Hv w3 w4); [done|]. by apply (quiet_holds v Hv w2 w3).
  - intros w2 _ _ _. apply Hun.
Qed.

Lemma reserveStage_safe Q' w :
  (∀ e w', Q' (inl e) false w') → (∀ d w', holds (w_sys w') v d → Q' (inr d) false w') →
  safely (Some v) false (reserveStage_p v) Q' w.
Proof.
  intros Herr Hok. unfold reserveStage_p. apply lock_safe. intros w1 _ _. apply safe_bind, reserve_safe; [done|].
  split.
  - intros e w2. apply unlock_safe. intros w3 _. apply idle_next; [solve_quiet|]. intros _ w4. apply Herr.
  - intros d w2 Hh. apply unlock_safe. intros w3 Hq. apply Hok. by apply (quiet_holds v Hv w2 w3).
Qed.

Lemma connectNBD_safe sock d w :
  holds (w_sys w) v d → safely (Some v) false (connectNBD_p v sock d) ends w.
Proof.
  intros Hh. assert (∀ w w', mine (Some v) w w' → holds (w_sys w) v d → holds (w_sys w') v d) as Hs.
  { intros w1 w2 Hm. by rewrite (mine_holds w1 w2). }
  unfold connectNBD_p. eapply idle_then; [solve_quiet|exact Hs|exact Hh|]. intros stage w1 H1.
  eapply idle_then; [solve_quiet|exact Hs|exact H1|]. intros out w2 H2. destruct (co_err out).
  - apply clear_section; [by left|]. intros w3. apply idle_ends. solve_quiet.
  - apply idle_ends. solve_quiet.
Qed.

Lemma publishBody_safe ns req fs w :
  pr_volumeId req = v → HasPrefix (pr_targetPath req) ZeroFSRunDir = false →
  safely (Some v) false (publishBody_p ns req fs) ends w.
Proof.
  intros Hreq Ht. unfold publishBody_p. rewrite Hreq. cbv zeta. apply idle_try; [solve_quiet|]. intros _ w1.
  destruct (pr_context req !! "configMapName") as [cm|]; [|apply idle_ends; solve_quiet].
  do 5 (apply idle_try; [solve_quiet|]; intros). apply safely_bindE, reserveStage_safe; [done|].
  intros dev w2 Hh. apply safely_bindE. eapply ends_mono; [by apply connectNBD_safe|].
  intros [e|_] w3; [done|]. apply idle_ends. solve_quiet.
Qed.

(** The deferred cleanup, when it finds nothing to clear. *)
Lemma cleanup_safe ns req w :
  pr_volumeId req = v → safely (Some v) false (publishCleanup_p ns req) ends w.
Proof.
  intros Hreq. unfold publishCleanup_p. rewrite Hreq. apply idle_next; [solve_quiet|]. intros _ w1.
  apply look_at; [intros w'; unfold readVolumeNBDState, os_ReadFile, sys_read, bind, ret; cbv zeta; by repeat case_match|].
  intros w2 _ _ Hn. cbn [expected] in Hn.
  destruct (readVolumeNBDState_runs v (w_sys w2) Hv) as (r & Hread & Hr).
  rewrite (runs_result _ _ _ _ Hread). destruct r as [d|]; [destruct (Hn d); by apply Hr|].
  apply idle_ends. solve_quiet.
Qed.

Lemma publish_safe ns req w :
  pr_volumeId req = v → HasPrefix (pr_targetPath req) ZeroFSRunDir = false →
  safely (Some v) false (NodePublishVolume_p ns req) ends w.
Proof.
  intros Hreq Ht. unfold NodePublishVolume_p. rewrite Hreq. apply idle_next; [solve_quiet|]. intros timer w1.
  do 2 (case_decide; [apply idle_ends; solve_quiet|]).
  destruct (pr_capability req) as [cap|]; [|apply idle_ends; solve_quiet].
  destruct (pr_context req !! "filesystem") as [fs|]; [|apply idle_ends; solve_quiet].
  apply idle_next; [solve_quiet|]. intros [src mounted] w2. destruct (mounted && _).
  { apply idle_ends. solve_quiet. }
  apply idle_next; [solve_quiet|]. intros _ w3.
  apply safe_bind. eapply ends_mono; [apply clearStale_safe|]. intros _ w4.
  apply safe_bind. eapply ends_mono; [by apply publishBody_safe|]. intros r w5.
  destruct r as [st|_]; [|apply idle_ends; solve_quiet].
  apply safe_bind. eapply ends_mono; [by apply cleanup_safe|done].
Qed.

(** The device to release stays the same until the mutex is there. *)
Lemma unpublish_safe ns req w :
  ur_volumeId req = v → safely (Some v) false (NodeUnpublishVolume_p ns req) ends w.
Proof.
  intros Hreq. unfold NodeUnpublishVolume_p. rewrite Hreq. cbv zeta. apply idle_next; [solve_quiet|]. intros timer w1.
  do 2 (case_decide; [apply idle_ends; solve_quiet|]).
  apply quiet_next; [apply (frame_findMountSource quiet)|]. intros w2 _ _ Hown. cbn [expected] in Hown.
  pose proof (frame_findMountSource quiet (ur_targetPath req) w2) as Hq.
  unfold own_source in Hown. destruct (env_exec "findmnt" _ (w_sys w2)) as [out s1] eqn:Hx. cbn [fst] in Hown.
  revert Hq. rewrite (findMountSource_eq _ w2 out s1 Hx). cbn [fst snd]. generalize (mkWorld s1 (w_trace w2 ++
    [EvExec "findmnt" (findmnt_args (ur_targetPath req)) out])). intros w3 Hq.
  destruct (mount_source out) as [src mounted]. cbn [fst snd] in *.
  set (d := if mounted then src else EmptyString).
  assert (d = EmptyString ∨ holds (w_sys w3) v d) as Hd.
  { subst d. destruct mounted; [|by left]. right. apply (quiet_holds v Hv w2 w3); [done|by apply Hown]. }
  clearbody d. eapply (idle_then _ _ _ (λ w, d = EmptyString ∨ holds (w_sys w) v d)); [solve_quiet| |exact Hd|].
  { intros wa wb Hm. by rewrite (mine_holds wa wb). }
  intros _ w4 Hd4. apply look_next; [intros w'; unfold recoverDevice; by case_decide|].
  intros w5 Hm5 _. assert (to_release v (recoverDevice v d w5).1 w5) as Hr5.
  { assert ((recoverDevice v d w5).2 = w5) as Hw by (unfold recoverDevice; by case_decide).
    pose proof (recoverDevice_to_release v Hv d w5) as Hto. unfold wp in Hto. rewrite Hw in Hto.
    apply Hto. destruct Hd4 as [?|Hh]; [by left|right]. by apply (mine_holds w4 w5). }
  generalize dependent (recoverDevice v d w5).1. intros dev Hr5.
  assert (∀ wa wb, mine (Some v) wa wb → to_release v dev wa → to_release v dev wb) as Hs by (intros; by eapply mine_to_release).
  eapply (idle_then _ (lift _)); [solve_quiet|exact Hs|exact Hr5|]. intros _ w6 Hr6.
  eapply (idle_then _ (lift _)); [solve_quiet|exact Hs|exact Hr6|]. intros _ w7 Hr7.
  eapply (idle_then _ (lift _)); [solve_quiet|exact Hs|exact Hr7|]. intros _ w8 Hr8.
  apply clear_section; [done|]. intros w9. apply idle_ends. solve_quiet.
Qed.

End handlers.

(** ** The calls together *)

Definition call_volume (c : call) : option string :=
  match c with
  | CPublish _ req => Some (pr_volumeId req)
  | CUnpublish _ req => Some (ur_volumeId req)
  | CReconcile => None
  end.

(** The volume is one the provisioner could have named, and the target of a publish is
    not in the run directory. *)
Definition good_call (c : call) : Prop :=
  match c with
  | CPublish _ req => good_volume (pr_volumeId req) = true ∧ HasPrefix (pr_targetPath req) ZeroFSRunDir = false
  | CUnpublish _ req => good_volume (ur_volumeId req) = true
  | CReconcile => True
  end.

Lemma call_safe c w : good_call c → safely (call_volume c) false (serve_call c) ends w.
Proof.
  intros Hg. destruct c as [ns req|ns req|]; apply safe_bind.
  - destruct Hg. eapply ends_mono; [by apply publish_safe|done].
  - eapply ends_mono; [by apply unpublish_safe|done].
  - eapply ends_mono; [apply idle_ends; solve_quiet|done].
Qed.

(** The calls are for different volumes. *)
Definition distinct_volumes (cs : list call) : Prop :=
  ∀ i j ci cj, i ≠ j → cs !! i = Some ci → cs !! j = Some cj → other_volume (call_volume ci) (call_volume cj).

(** A run of the calls and of the rest of the node, within the time and leaving the run
    directory alone, in which findmnt names a volume's own device if it names any, and
    the cleanup of a failed publish finds no state file. *)
Definition disciplined_run : relation (cfg answer) := drun in_time expected quiet.

Lemma calls_sound w cs c' :
  sound w → Forall good_call cs → distinct_volumes cs → disciplined_run (calls_cfg w cs) c' → sound (c_world c').
Proof.
  intros Hs Hg Hd Hrun.
  assert (all_safe sound in_time expected quiet mine other_volume (call_volume <$> cs) c') as [Hs' _]; [|done].
  eapply together; [apply _|apply _|apply quiet_mine|apply quiet_emits|apply sound_in_time|apply in_time_emit| | | | |exact Hrun].
  - intros w1 w2 H1 H2 H3. by eapply sound_quiet.
  - cbn [calls_cfg c_threads]. by rewrite !length_fmap.
  - intros i j o o' Hij. rewrite !list_lookup_fmap. intros (ci & Hi & Ho)%fmap_Some (cj & Hj & Ho')%fmap_Some.
    subst o o'. by eapply Hd.
  - split; [done|]. cbn [calls_cfg c_threads c_world c_owner]. intros i p o Hp Ho.
    apply list_lookup_fmap_Some in Hp as (c & -> & Hc), Ho as (c2 & -> & Hc2). simplify_eq.
    rewrite bool_decide_eq_false_2 by done. apply call_safe. rewrite Forall_lookup in Hg. by eapply Hg.
Qed.

(** C3: Concurrent calls keep the devices apart at every moment: from a world whose
    reservations back the devices in use, in every interleaving of publish and
    unpublish calls for different volumes, reconciler runs and other events of the
    node, step by step and within two hours of the oldest file, every reachable
    configuration has every device in use backed by its reservation and held by one
    volume only, as long as commands, API calls and other processes leave the run
    directory alone and input/output on it does not fail, findmnt names no foreign
    device for an unpublish, and the cleanup of a failed publish, which runs outside
    the mutex, finds no state file. *)
Theorem concurrent_exclusive w cs c' :
  sound w → Forall good_call cs → distinct_volumes cs → disciplined_run (calls_cfg w cs) c' →
  inv (w_sys (c_world c')) ∧ exclusive (w_sys (c_world c')).
Proof.
  intros Hs Hg Hd Hrun. destruct (calls_sound w cs c' Hs Hg Hd Hrun) as (Hi & _).
  split; [done|]. by apply backed_exclusive, Hi.
Qed.

End safety.

(** ** On the concrete node *)

Section witnesses.
Import SimRun.

#[local] Instance run_env : EnvKeeps in_run_dir := sim_keeps.
#[local] Instance run_kube : KubeKeeps in_run_dir := sim_kube_keeps.
#[local] Instance run_healthy : Healthy in_run_dir := sim_healthy.
#[local] Existing Instance sim_clock.

(** Two volumes are published at the same time: the second call makes its disk while
    the first has the mutex, and both connect and mount their devices in turn. *)
Definition two_publishes : list call :=
  [CPublish ns0 (publish_as "pvc-1" "ext4"); CPublish ns0 (publish_as "pvc-2" "ext4")].

Definition two_schedule : list nat :=
  (replicate 20 1 ++ replicate 33 0 ++ mjoin (replicate 11 [1; 0]) ++ replicate 14 1)%nat.

Definition answers (c : cfg answer) : list (option answer) :=
  (λ p, match p with PRet a => Some a | _ => None end) <$> c_threads c.

Lemma two_distinct : distinct_volumes two_publishes.
Proof.
  intros i j ci cj Hij Hi Hj v. destruct i as [|[|i]], j as [|[|j]]; simplify_eq/=; congruence.
Qed.

Lemma world0_sound : sound (now world0) world0.
Proof.
  split_and!; [apply world0_inv| |reflexivity|].
  - intros p f Hp Hf. by apply fs0_no_run in Hf.
  - unfold in_time, hour, second. lia.
Qed.

Lemma concurrent_exclusive_witness :
  ∃ c', disciplined_run (now world0) (calls_cfg world0 two_publishes) c' ∧
    answers c' = [Some (APublish (inr tt)); Some (APublish (inr tt))] ∧
    inv (w_sys (c_world c')) ∧ exclusive (w_sys (c_world c')).
Proof.
  destruct (check_schedule_drun (in_time (now world0)) expected quiet (λ w, now w <=? now world0 + 2 * hour)
    (λ l _, match l with Anywhere => true | At _ _ => false end) two_schedule (calls_cfg world0 two_publishes) answers [Some (APublish (inr tt)); Some (APublish (inr tt))])
    as (c' & Hrun & Hans).
  - intros w Hw. by apply Z.leb_le.
  - by intros [] w.
  - by_compute.
  - exists c'. split; [done|]. split; [done|].
    pose proof (concurrent_exclusive (now world0) world0 two_publishes c' world0_sound) as Hthm. apply Hthm.
    + repeat constructor; by_compute.
    + apply two_distinct.
    + exact Hrun.
Defined.

End witnesses.

End NodeConcSafe.
