(* ===== verification/NodeRaces.v ===== *)
(** * Two races of the node service

    Closed runs on the concrete node in which calls disturb each other.  The deferred
    cleanup of a failed publish reads, detaches and clears without the mutex: when
    another publish reserves the device between its two removals, the cleanup removes
    the reservation of the new user, and a third publish gets the same device.  The
    startup reconciler runs beside the server: it takes a device that a publish has
    connected and not mounted yet for an orphan and detaches it. *)

From S2P Require Import Prelude GoStrings GoPath World Metrics Kube Zerofs Nbd NbdReserve Node NodeFrame NodeTrace.
From S2P Require Import NodeState NbdRefine NodeRefine SimRun Conc NodeConc NodeConcProps NodeConcSafe.

Import NbdReserve NodeConcSafe SimRun.

Module NodeRaces.

(** The publish of [pvc-1] fails because its mkfs does. *)
Definition three_publishes : list call :=
  [CPublish ns0 (publish_as "pvc-1" "xfs"); CPublish ns0 (publish_as "pvc-2" "ext4");
   CPublish ns0 (publish_as "pvc-3" "ext4")].

Definition race_world : World := broken_world ["mkfs.xfs"].

(** The cleanup of [pvc-1] has removed the state file; [pvc-2] reserves; the cleanup
    removes the reservation; [pvc-3] reserves. *)
Definition cleanup_schedule : list nat := replicate 46 0 ++ replicate 36 1 ++ [0] ++ replicate 33 2.

Definition recorded (v : string) (c : cfg answer) : option File :=
  sys_fs (w_sys (c_world c)) !! volumeNBDStatePath v.

Lemma recorded_holds v d t c :
  recorded v c = Some (mkFile d false t) → nbdDevicePathRe d = true → holds (w_sys (c_world c)) v d.
Proof.
  intros Hr Hd. exists (mkFile d false t). split; [done|]. cbn [f_dir f_data]. rewrite (device_trim d Hd).
  split_and!; [done..|]. by intros ->.
Qed.

(** C36: The deferred cleanup of a failed publish runs without the mutex, and three
    concurrent publishes can end up with one device for two volumes: between the two
    removals of pvc-1's cleanup pvc-2 reserves /dev/nbd0, the cleanup removes
    pvc-2's reservation, and pvc-3 reserves /dev/nbd0 too. *)
Theorem cleanup_race :
  ∃ c', rtc cstep (calls_cfg race_world three_publishes) c' ∧
    holds (w_sys (c_world c')) "pvc-2" "/dev/nbd0" ∧ holds (w_sys (c_world c')) "pvc-3" "/dev/nbd0".
Proof.
  destruct (schedule_reaches cleanup_schedule (calls_cfg race_world three_publishes)
    (λ c, (recorded "pvc-2" c, recorded "pvc-3" c))
    (Some (mkFile "/dev/nbd0" false 1002000000000), Some (mkFile "/dev/nbd0" false 1003000000000)))
    as (c' & Hrun & Hrec); [by_compute|].
  exists c'. split; [done|]. apply pair_eq in Hrec as [H2 H3].
  split; eapply recorded_holds; [exact H2|by_compute|exact H3|by_compute].
Qed.

(** The device is connected and formatted; the reconciler runs; the mount fails. *)
Definition reconciler_schedule : list nat := replicate 41 0 ++ replicate 9 1 ++ replicate 10 0.

(** C37: The startup reconciler can break a publish that runs beside it: a publish that
    succeeds alone fails in a schedule in which the reconciler finds its device
    connected and not mounted yet, and detaches it. *)
Theorem reconciler_race :
  (NodePublishVolume ns0 publish0 world0).1 = inr tt ∧
  ∃ c', rtc cstep (calls_cfg world0 [CPublish ns0 publish0; CReconcile]) c' ∧
    answers c' = [Some (APublish (inl (mkStatus Internal "failed to mount NBD device: exit status 32")));
                  Some (AReconcile (1, 0))].
Proof. split; [by_compute|]. apply (schedule_reaches reconciler_schedule). by_compute. Qed.

End NodeRaces.
