(* ===== verification/ZerofsProps.v ===== *)
(** * Correctness of the ZeroFS pods (pkg/csi/zerofs.go)

    The rendered configuration serves exactly the sockets the node service mounts
    from; timeouts are bounded; [CreatePod] writes nothing before its inputs are
    complete, keeps a pod that is on the right node, and succeeds only after it has
    seen the pod ready; the waits end; [RemovePod] gets to the secret unless the
    deletion of the pod is refused. *)

From S2P Require Import Prelude GoStrings GoPath World Metrics Kube Template Zerofs Nbd Node NodeFrame NodeTrace SimRun.

Import NodeTrace.

Local Open Scope Z_scope.

Module ZerofsProps.

(** ** Names *)

Lemma socket9p_eq v : no_slash v = true → socket9p v = ZeroFSBaseDir +:+ "/zerofs-" +:+ v +:+ ".9p.sock".
Proof.
  intros Hv. unfold socket9p. rewrite PathJoin_plain; [done..|].
  unfold plain. apply andb_true_intro. split; [|by apply bool_decide_eq_true].
  unfold no_slash in *. apply bool_decide_eq_true in Hv. apply bool_decide_eq_true.
  rewrite !bytes_app, !elem_of_app. intros [H|[H|H]]; [|done|]; revert H.
  - by apply (bool_decide_unpack (slash ∉ bytes "zerofs-")).
  - by apply (bool_decide_unpack (slash ∉ bytes ".9p.sock")).
Qed.

Lemma socketNbd_eq v : no_slash v = true → socketNbd v = ZeroFSBaseDir +:+ "/zerofs-" +:+ v +:+ ".nbd.sock".
Proof.
  intros Hv. unfold socketNbd. rewrite PathJoin_plain; [done..|].
  unfold plain. apply andb_true_intro. split; [|by apply bool_decide_eq_true].
  unfold no_slash in *. apply bool_decide_eq_true in Hv. apply bool_decide_eq_true.
  rewrite !bytes_app, !elem_of_app. intros [H|[H|H]]; [|done|]; revert H.
  - by apply (bool_decide_unpack (slash ∉ bytes "zerofs-")).
  - by apply (bool_decide_unpack (slash ∉ bytes ".nbd.sock")).
Qed.

(** ** The configuration *)

Definition storage_header : string := quoted (Join ["[storage]"; "url = '"] newline).
Definition ninep_header : string :=
  quoted (Join ["[servers.ninep]"; "addresses = []"; "unix_socket = '"] newline).
Definition nbd_header : string :=
  quoted (Join ["'"; ""; "[servers.nbd]"; "addresses = []"; "unix_socket = '"] newline).

Definition tmpl : list Template.node := Eval vm_compute in default [] (Parse templateContent).

Lemma template_parses : Parse templateContent = Some tmpl.
Proof. by_compute. Qed.

(** The parts of the template around the URL and the sockets. *)
Lemma template_split : ∃ pre nl mid tail post,
  tmpl = pre ++ [TText (nl +:+ storage_header); TField "StorageURL"] ++ mid ++
    [TText (quoted "'" +:+ newline +:+ newline +:+ ninep_header);
     TField "BaseDir"; TText "/zerofs-"; TField "VolumeID"; TText (".9p.sock" +:+ nbd_header);
     TField "BaseDir"; TText "/zerofs-"; TField "VolumeID"; TText (".nbd.sock" +:+ quoted "'" +:+ tail)] ++ post.
Proof.
  exists (take 6 tmpl), (newline +:+ newline), (take 2 (drop 8 tmpl)),
    (drop_str 10 match tmpl !! 18%nat with Some (TText t) => t | _ => EmptyString end), (drop 19 tmpl).
  by_compute.
Qed.

Lemma configValues_BaseDir cm v pw ak sk : configValues cm v pw ak sk !! "BaseDir" = Some ZeroFSBaseDir.
Proof. reflexivity. Qed.

Lemma configValues_VolumeID cm v pw ak sk : configValues cm v pw ak sk !! "VolumeID" = Some v.
Proof. reflexivity. Qed.

Lemma configValues_StorageURL cm v pw ak sk : configValues cm v pw ak sk !! "StorageURL" = Some (storageURL cm v).
Proof. reflexivity. Qed.

(** C17: The configuration template parses, and for every volume name without a slash
    the rendered file names the volume's storage URL and the very 9P and NBD sockets
    on which NodePublishVolume waits and connects, and the readiness probe of the
    pod tests that 9P socket. *)
Theorem config_serves_node :
  ∃ t, Parse templateContent = Some t ∧
  ∀ cm v pw ak sk, no_slash v = true →
    (∃ pre mid post, Execute t (configValues cm v pw ak sk) =
       pre +:+ storage_header +:+ storageURL cm v +:+ mid +:+
       ninep_header +:+ socket9p v +:+ nbd_header +:+ socketNbd v +:+ quoted "'" +:+ post) ∧
    ct_readiness (zerofsContainer cm v) = Some (mkProbe ["sh"; "-c"; "test -S " +:+ socket9p v] 10).
Proof.
  exists tmpl. split; [apply template_parses|]. intros cm v pw ak sk Hv.
  rewrite socket9p_eq, socketNbd_eq by done. split; [|done].
  destruct template_split as (pre & nl & mid & tail & post & ->).
  rewrite !Execute_app, !Execute_cons. cbn [print_node].
  rewrite configValues_BaseDir, configValues_VolumeID, configValues_StorageURL. cbn [default].
  set (vals := configValues cm v pw ak sk). change (Execute [] vals) with EmptyString.
  eexists (Execute pre vals +:+ nl), (Execute mid vals +:+ quoted "'" +:+ newline +:+ newline),
    (tail +:+ Execute post vals).
  rewrite <- !(assoc_L String.append). done.
Qed.

(** ** Timeouts *)

(** The largest number of seconds that is a [time.Duration]. *)
Definition max_seconds : Z := 9223372036.

(** C31: podReadyTimeout is the configured number of seconds, wrapped to 64 bits of
    nanoseconds, or 120 s when the setting is missing, malformed or not positive;
    every setting from 1 to 9223372036 seconds gives exactly that many positive
    seconds. *)
Theorem podReadyTimeout_spec cm :
  let raw := TrimSpace (go_get cm "podReadyTimeoutSeconds") in
  podReadyTimeout cm =
    match Atoi raw with
    | (secs, None) => if decide (1 ≤ secs) then wrap64 (secs * second) else 120 * second
    | (_, Some _) => 120 * second
    end ∧
  (∀ secs, 1 ≤ secs ≤ max_seconds → raw = Sprint_d secs →
     podReadyTimeout cm = secs * second ∧ 0 < podReadyTimeout cm ≤ max_int64).
Proof.
  cbv zeta. unfold podReadyTimeout, defaultSeconds. set (raw := TrimSpace _). split.
  - case_decide as Hraw; [by rewrite Hraw|]. destruct (Atoi raw) as [secs [e|]]; [done|].
    repeat case_decide; done || lia.
  - intros secs Hs ->. unfold Atoi. unfold max_seconds, second in *.
    rewrite ParseInt_Sprint_d by (unfold min_int64, max_int64; lia).
    rewrite decide_False.
    + rewrite decide_False by lia. rewrite wrap64_id by (unfold min_int64, max_int64; lia).
      unfold max_int64. lia.
    + intros Heq. pose proof (ParseInt_Sprint_d secs) as Hp. rewrite Heq in Hp.
      assert (ParseInt EmptyString = (secs, None)) by (apply Hp; unfold min_int64, max_int64; lia). done.
Qed.

(** A podReadyTimeoutSeconds of 9223372037 overflows the 64-bit duration and gives a
    negative timeout. *)
Theorem podReadyTimeout_overflow :
  podReadyTimeout {[ "podReadyTimeoutSeconds" := "9223372037" ]} = -9223372036709551616.
Proof. by_compute. Qed.

(** ** Waiting *)

Section waiting.
Context `{E : !Environment, C : !KubeClient, Q : !QuantityParser}.

(** A call that reads an object. *)
Definition is_get (e : event) : bool :=
  match e with EvKube "get" _ _ _ _ => true | _ => false end.

Definition get_event (kind ns name : string) (err : option string) : event := EvKube "get" kind ns name err.

(** Only requests for the pod. *)
Definition pod_gets (name ns : string) : list event → Prop :=
  Forall (λ e, ∃ err, e = get_event "Pod" ns name err).

Lemma emits_kube_bind {A B} P (op : kube_op (string + A)) (f : string + A → Go B) :
  (∀ r, respects (emits (λ evs, P (kube_event op r :: evs))) (f r)) →
  respects (emits P) (do r <- kube op; f r).
Proof.
  intros Hf w. destruct (Hf (kube op w).1 (kube op w).2) as (k & Hk & HP).
  eexists. split; [|exact HP]. unfold bind at 1. cbv zeta. rewrite Hk. simpl. by rewrite <- app_assoc.
Qed.

Lemma emits_select {A} P deadline start i (f : bool → Go A) :
  (∀ tick, respects (emits P) (f tick)) → respects (emits P) (do tick <- select deadline start i; f tick).
Proof. intros Hf. apply emits_quiet; [|done]. intros w. exists []. by rewrite app_nil_r. Qed.

Lemma pod_gets_cons name ns evs (r : string + Pod) :
  pod_gets name ns evs → pod_gets name ns (kube_event (GetPod ns name) r :: evs).
Proof. constructor; [by eexists|done]. Qed.

Lemma pod_gets_nil name ns : pod_gets name ns [].
Proof. by apply Forall_nil. Qed.

Lemma readyLoop_polls n i deadline start name ns :
  respects (emits (pod_gets name ns)) (readyLoop n i deadline start name ns).
Proof.
  revert i. induction n as [|n IH]; intros i; cbn [readyLoop]; [apply emits_ret, pod_gets_nil|].
  apply emits_select. intros []; [|apply emits_ret, pod_gets_nil]. apply emits_kube_bind. intros r.
  eapply (emits_mono (pod_gets name ns)); [by intros; apply pod_gets_cons|].
  destruct r as [e|p]; [done|]. destruct (is_ready p); [apply emits_ret, pod_gets_nil|done].
Qed.

Lemma deletionLoop_polls n i deadline start name ns :
  respects (emits (pod_gets name ns)) (deletionLoop n i deadline start name ns).
Proof.
  revert i. induction n as [|n IH]; intros i; cbn [deletionLoop]; [apply emits_ret, pod_gets_nil|].
  apply emits_select. intros []; [|apply emits_ret, pod_gets_nil]. apply emits_kube_bind. intros r.
  eapply (emits_mono (pod_gets name ns)); [by intros; apply pod_gets_cons|].
  destruct r as [e|p]; [|done]. case_match; apply emits_ret, pod_gets_nil.
Qed.

(** The last answer of the API server about the pod. *)
Definition saw_pod (name ns : string) (w' : World) (r : string + Pod) : Prop :=
  ∃ w, kube (GetPod ns name) w = (r, w').

Lemma readyLoop_ready n i deadline start name ns w :
  wp (readyLoop n i deadline start name ns)
    (λ r w', r = inr tt → ∃ p, saw_pod name ns w' (inr p) ∧ is_ready p = true) w.
Proof.
  revert i w. induction n as [|n IH]; intros i w; cbn [readyLoop]; [by apply wp_ret|].
  wp_skip w1. destruct a; [|by apply wp_ret]. wp_step. unfold wp at 1.
  assert (saw_pod name ns (kube (GetPod ns name) w1).2 (kube (GetPod ns name) w1).1) as Hsaw.
  { exists w1. apply surjective_pairing. }
  generalize dependent (kube (GetPod ns name) w1). intros [r w2] Hsaw. cbn [fst snd] in *.
  destruct r as [e|p]; [apply IH|]. destruct (is_ready p) eqn:Hr; [|apply IH].
  apply wp_ret. eauto.
Qed.

(** The last request was answered with not found. *)
Definition gone (evs : list event) : bool :=
  match last evs with Some (EvKube _ _ _ _ (Some err)) => Contains err "not found" | _ => false end.

Lemma gone_cons kind ns name evs : gone (get_event kind ns name None :: evs) = gone evs.
Proof. by destruct evs. Qed.

End waiting.

(** ** Creating and removing pods *)

Section pods.
Context `{E : !Environment, C : !KubeClient, Q : !QuantityParser}.

(** The result and the events of a computation satisfy [P]. *)
Definition yields {A} (P : A → list event → Prop) (m : Go A) : Prop :=
  ∀ w, ∃ evs, w_trace (m w).2 = w_trace w ++ evs ∧ P (m w).1 evs.

Lemma yields_ret {A} (P : A → list event → Prop) a : P a [] → yields P (ret a).
Proof. intros HP w. exists []. by rewrite app_nil_r. Qed.

Lemma yields_emits {A} (P : A → list event → Prop) Q' (m : Go A) :
  respects (emits Q') m → (∀ a evs, Q' evs → P a evs) → yields P m.
Proof. intros Hm HP w. destruct (Hm w) as (evs & ? & ?). eauto. Qed.

Lemma yields_seq {A B} (P : B → list event → Prop) Q' (m : Go A) (f : A → Go B) :
  respects (emits Q') m → (∀ a l, Q' l → yields (λ b evs, P b (l ++ evs)) (f a)) → yields P (bind m f).
Proof.
  intros Hm Hf w. destruct (Hm w) as (l & Hl & Hq).
  destruct (Hf (m w).1 l Hq (m w).2) as (k & Hk & HP). eexists. split; [|exact HP].
  unfold bind. cbv zeta. by rewrite Hk, Hl, app_assoc.
Qed.

Lemma yields_kube {A B} (P : B → list event → Prop) (op : kube_op (string + A)) (f : string + A → Go B) :
  (∀ r, yields (λ b evs, P b (kube_event op r :: evs)) (f r)) → yields P (do r <- kube op; f r).
Proof.
  intros Hf w. destruct (Hf (kube op w).1 (kube op w).2) as (k & Hk & HP).
  eexists. split; [|exact HP]. unfold bind at 1. cbv zeta. rewrite Hk. simpl. by rewrite <- app_assoc.
Qed.

Lemma yields_assoc {A B D} (P : D → list event → Prop) (m : Go A) (f : A → Go B) (g : B → Go D) :
  yields P (do a <- m; bind (f a) g) → yields P (bind (bind m f) g).
Proof. exact id. Qed.

(** [if err := client.Op(...); err != nil { return fmt.Errorf(msg, err) }] *)
Lemma yields_try {A B} (P : string + B → list event → Prop) msg (op : kube_op (string + A)) (f : A → Go (string + B)) :
  (∀ e, P (inl (msg +:+ e)) [kube_event op (inl e)]) →
  (∀ a, yields (λ b evs, P b (kube_event op (inr a) :: evs)) (f a)) →
  yields P (try a <- wrapE msg (kube op); f a).
Proof.
  intros He Hf. unfold bindE, wrapE.
  apply yields_assoc, yields_kube. intros [e|a]; [by apply yields_ret|apply Hf].
Qed.

(** CreatePod writes to the cluster only after the config map, the password secret and
    the credentials secret were all read; a run that fails before that has only
    read. *)
Theorem create_validates_first m v node cmName w :
  let r := CreatePod m v node cmName w in
  let ns := zm_namespace m in
  ∃ evs, w_trace r.2 = w_trace w ++ evs ∧
    ((∃ msg, r.1 = inl msg) ∧ Forall (λ e, is_get e = true) evs ∨
     (∃ pw aws rest, evs =
        [get_event "ConfigMap" ns cmName None; get_event "Secret" ns pw None; get_event "Secret" ns aws None] ++ rest)).
Proof.
  cbv zeta. revert w. unfold CreatePod. cbv zeta.
  set (P := λ (r : string + unit) evs, (∃ msg, r = inl msg) ∧ Forall (λ e, is_get e = true) evs ∨
     (∃ pw aws rest, evs = [get_event "ConfigMap" (zm_namespace m) cmName None;
        get_event "Secret" (zm_namespace m) pw None; get_event "Secret" (zm_namespace m) aws None] ++ rest)).
  change (yields P (CreatePod m v node cmName)). unfold CreatePod. cbv zeta.
  apply yields_try; [intros e; left; split; [by eexists|by repeat constructor]|]. intros cm.
  apply yields_try; [intros e; left; split; [by eexists|by repeat constructor]|]. intros pw.
  case_decide; [apply yields_ret; left; split; [by eexists|by repeat constructor]|].
  apply yields_try; [intros e; left; split; [by eexists|by repeat constructor]|]. intros aws.
  eapply (yields_emits _ (λ _, True)); [|intros a evs _; right; eauto].
  assert (Benign (λ _ : list event, True)) by (split; [split|..]; done).
  solve_respects.
Qed.

(** The pod was seen ready when an operation succeeded. *)
Definition ready_at (name ns : string) (r : string + unit) (w : World) : Prop :=
  r = inr tt → ∃ p, saw_pod name ns w (inr p) ∧ is_ready p = true.

Lemma wrapped_ready msg name ns timeout w :
  wp (wrapE msg (waitForPodReady name ns timeout)) (ready_at name ns) w.
Proof.
  unfold wrapE. wp_step. apply (wp_mono _ (ready_at name ns)); [apply readyLoop_ready|].
  intros [e|[]] w' Hr; apply wp_ret; [done|]. intros _. by apply Hr.
Qed.

Lemma applyPod_ready m pod name node timeout w :
  wp (applyPod m pod name node timeout) (ready_at name (zm_namespace m)) w.
Proof.
  unfold applyPod. cbv zeta. wp_skip w1. destruct a as [e|p].
  - wp_skip w2. destruct a; [done|]. apply wrapped_ready.
  - case_decide; [apply wrapped_ready|]. wp_skip w2. destruct a; [done|].
    wp_skip w3. wp_skip w4. destruct a0; [done|]. apply wrapped_ready.
Qed.

(** C18: When CreatePod succeeds, the last call of its run is the read of the volume's
    pod, and the pod it was answered with has a true Ready condition. *)
Theorem create_waits_ready m v node cmName w w' :
  CreatePod m v node cmName w = (inr tt, w') →
  ∃ p w1, kube (GetPod (zm_namespace m) (podName v)) w1 = (inr p, w') ∧ is_ready p = true.
Proof.
  intros Heq. enough (wp (CreatePod m v node cmName) (ready_at (podName v) (zm_namespace m)) w) as Hr.
  { unfold wp in Hr. rewrite Heq in Hr. destruct (Hr eq_refl) as (p & [s Hs] & Hp). eauto. }
  unfold CreatePod. cbv zeta. wp_skip w1. destruct a as [e|cm]; [done|]. wp_skip w2. destruct a as [e|pw]; [done|].
  case_decide; [by apply wp_ret|]. wp_skip w3. destruct a as [e|aws]; [done|].
  case_decide; [by apply wp_ret|]. case_decide; [by apply wp_ret|].
  destruct (Parse templateContent); [|by apply wp_ret]. wp_skip w4. destruct a; [done|]. wp_skip w5.
  apply applyPod_ready.
Qed.

Definition gets : list event → Prop := Forall (λ e, is_get e = true).

Lemma pod_gets_gets name ns evs : pod_gets name ns evs → gets evs.
Proof. intros Hf. eapply Forall_impl; [exact Hf|]. by intros e [err ->]. Qed.

Lemma gets_wait name ns timeout :
  respects (emits gets) (waitForPodReady name ns timeout) ∧ respects (emits gets) (waitForPodDeletion name ns timeout).
Proof.
  split; (apply emits_quiet; [intros w; exists []; by rewrite app_nil_r|]; intros start;
    eapply emits_mono; [apply pod_gets_gets|]).
  - apply readyLoop_polls.
  - apply deletionLoop_polls.
Qed.

Lemma gets_wrap msg name ns timeout : respects (emits gets) (wrapE msg (waitForPodReady name ns timeout)).
Proof.
  unfold wrapE. eapply (respects_bind (emits gets)); [apply gets_wait|].
  intros r. by apply emits_ret, Forall_nil.
Qed.

(** The creation of the pod and the wait for it. *)
Lemma create_then_wait pod msg1 msg2 name ns timeout :
  respects (emits (λ evs, ∃ cerr k, evs =
      EvKube "create" "Pod" (om_namespace (pod_meta pod)) (om_name (pod_meta pod)) cerr :: k ∧ gets k))
    (try _ <- wrapE msg1 (kube (CreatePodOp pod)); wrapE msg2 (waitForPodReady name ns timeout)).
Proof.
  intros w. destruct (yields_try (λ _ evs, ∃ cerr k, evs =
      EvKube "create" "Pod" (om_namespace (pod_meta pod)) (om_name (pod_meta pod)) cerr :: k ∧ gets k)
    msg1 (CreatePodOp pod) (λ _, wrapE msg2 (waitForPodReady name ns timeout))) with w as (evs & Hevs & HP).
  - intros e. eexists _, []. split; [done|by apply Forall_nil].
  - intros a. eapply yields_emits; [apply gets_wrap|]. intros r evs Hg. by eexists _, evs.
  - exists evs. split; [exact Hevs|exact HP].
Qed.

(** C24: CreatePod's last step creates a missing pod, only waits for one already on this
    node, and deletes one on another node before it creates a new one; a failed
    deletion creates nothing. *)
Theorem applyPod_cases m pod name node timeout w r s1 :
  let ns := zm_namespace m in
  let create cerr := EvKube "create" "Pod" (om_namespace (pod_meta pod)) (om_name (pod_meta pod)) cerr in
  kube_do (GetPod ns name) (w_sys w) = (r, s1) →
  ∃ evs, w_trace (applyPod m pod name node timeout w).2 =
      w_trace w ++ kube_event (GetPod ns name) r :: evs ∧
    match r with
    | inl _ => ∃ cerr k, evs = create cerr :: k ∧ gets k
    | inr p =>
        if decide (ps_nodeName (pod_spec p) = node) then gets evs
        else ∃ derr k, evs = EvKube "delete" "Pod" ns name derr :: k ∧
          match derr with
          | Some _ => k = []
          | None => ∃ k1 cerr k2, k = k1 ++ create cerr :: k2 ∧ gets k1 ∧ gets k2
          end
    end.
Proof.
  cbv zeta. intros Hget. unfold applyPod. cbv zeta. unfold bind at 1. cbv zeta.
  assert (kube (GetPod (zm_namespace m) name) w =
    (r, mkWorld s1 (w_trace w ++ [kube_event (GetPod (zm_namespace m) name) r]))) as ->.
  { unfold kube, bind, sys_step, emit, modify, ret. cbn [fst snd w_sys w_trace]. by rewrite Hget. }
  cbn [fst snd]. set (w1 := mkWorld s1 _).
  assert (∀ (m' : Go (string + unit)) P, respects (emits P) m' → ∃ evs,
    w_trace (m' w1).2 = w_trace w ++ kube_event (GetPod (zm_namespace m) name) r :: evs ∧ P evs) as Hrun.
  { intros m' P Hm. destruct (Hm w1) as (evs & -> & HP). exists evs. split; [|done].
    subst w1. cbn [w_trace]. by rewrite <- app_assoc. }
  destruct r as [e|p]; [apply Hrun, create_then_wait|].
  case_decide; [apply Hrun, gets_wrap|]. apply Hrun. intros w2.
  apply (yields_try (λ _ evs, ∃ derr k, evs = EvKube "delete" "Pod" (zm_namespace m) name derr :: k ∧
    match derr with
    | Some _ => k = []
    | None => ∃ k1 cerr k2, k = k1 ++ EvKube "create" "Pod" (om_namespace (pod_meta pod))
        (om_name (pod_meta pod)) cerr :: k2 ∧ gets k1 ∧ gets k2
    end)).
  - intros e. by eexists _, [].
  - intros []. eapply yields_seq; [apply gets_wait|]. intros _ k1 Hk1.
    eapply yields_emits; [apply create_then_wait|]. intros _ evs (cerr & k2 & -> & Hk2).
    eexists None, _. split; [done|]. eauto 6.
Qed.

Lemma yields_bind {A B} (P : B → list event → Prop) Q' (m : Go A) (f : A → Go B) :
  yields Q' m → (∀ a l, Q' a l → yields (λ b evs, P b (l ++ evs)) (f a)) → yields P (bind m f).
Proof.
  intros Hm Hf w. destruct (Hm w) as (l & Hl & Hq).
  destruct (Hf (m w).1 l Hq (m w).2) as (k & Hk & HP). eexists. split; [|exact HP].
  unfold bind. cbv zeta. by rewrite Hk, Hl, app_assoc.
Qed.

Lemma deletionLoop_yields n i deadline start name ns :
  yields (λ r evs, pod_gets name ns evs ∧ (r = inr tt ↔ gone evs = true)) (deletionLoop n i deadline start name ns).
Proof.
  revert i. induction n as [|n IH]; intros i; cbn [deletionLoop]; [by apply yields_ret; repeat constructor|].
  eapply (yields_seq _ (λ evs, evs = [])); [intros w; exists []; by rewrite app_nil_r|].
  intros [] _ ->; [|by apply yields_ret; repeat constructor]. cbn [app]. apply yields_kube. intros [e|p].
  - destruct (Contains e "not found") eqn:Hc; apply yields_ret;
      (split; [by repeat econstructor|]); unfold gone; simpl; rewrite Hc; done.
  - intros w. destruct (IH (S i) w) as (evs & Hevs & Hg & Hr). exists evs. split; [done|].
    split; [constructor; [by eexists|done]|]. change (kube_event _ _) with (get_event "Pod" ns name None).
    by rewrite gone_cons.
Qed.

Lemma waitForPodDeletion_yields name ns timeout :
  yields (λ r evs, pod_gets name ns evs ∧ (r = inr tt ↔ gone evs = true)) (waitForPodDeletion name ns timeout).
Proof.
  eapply (yields_seq _ (λ evs, evs = [])); [intros w; exists []; by rewrite app_nil_r|].
  intros start _ ->. apply deletionLoop_yields.
Qed.

(** The forced deletion that follows a wait with the requests [wait], if any. *)
Definition escalation (name ns : string) (wait force : list event) : Prop :=
  if gone wait then force = []
  else ∃ err l, force = EvKube "force-delete" "Pod" ns name err :: l ∧ pod_gets name ns l.

(** What the pod's part of [RemovePod] did, with its result. *)
Definition pod_removed (name ns : string) (r : string + unit) (evs : list event) : Prop :=
  ∃ gerr rest, evs = get_event "Pod" ns name gerr :: rest ∧
  match gerr with
  | Some _ => r = inr tt ∧ rest = []
  | None =>
      ∃ derr rest', rest = EvKube "delete" "Pod" ns name derr :: rest' ∧
      match derr with
      | Some e =>
          rest' = [] ∧ r = if Contains e "not found" then inr tt else inl ("failed to delete pod: " +:+ e)
      | None =>
          r = inr tt ∧ ∃ wait force, rest' = wait ++ force ∧ pod_gets name ns wait ∧ escalation name ns wait force
      end
  end.

Lemma forceDelete_yields m name :
  yields (λ _ evs, ∃ err l, evs = EvKube "force-delete" "Pod" (zm_namespace m) name err :: l ∧
      pod_gets name (zm_namespace m) l) (forceDelete m name).
Proof.
  unfold forceDelete. cbv zeta. apply yields_kube. intros r.
  eapply yields_bind; [apply waitForPodDeletion_yields|]. intros ? l [Hl _]. apply yields_ret.
  eexists _, l. by rewrite app_nil_r.
Qed.

Lemma removePodObject_yields m name :
  yields (pod_removed name (zm_namespace m)) (removePodObject m name).
Proof.
  unfold removePodObject. cbv zeta. apply yields_kube. intros [e|p].
  { apply yields_ret. by eexists (Some e), []. }
  apply yields_kube. intros [e|[]].
  { destruct (Contains e "not found") eqn:Hc; apply yields_ret; exists None; eexists; (split; [done|]);
      exists (Some e), []; by rewrite Hc. }
  eapply yields_bind; [apply waitForPodDeletion_yields|]. intros r wait [Hw Hr]. cbv beta in Hr.
  assert (∀ force, escalation name (zm_namespace m) wait force → pod_removed name (zm_namespace m) (inr tt)
    (get_event "Pod" (zm_namespace m) name None :: EvKube "delete" "Pod" (zm_namespace m) name None :: wait ++ force))
    as Hok.
  { intros force Hf. exists None. eexists. split; [done|]. exists None. eexists. split; [done|].
    split; [done|]. by exists wait, force. }
  unfold escalation in Hok. destruct r as [e|[]].
  - destruct (gone wait); [by destruct Hr as [_ Hr]; specialize (Hr eq_refl)|].
    eapply yields_bind; [apply forceDelete_yields|]. intros ? force Hf. apply yields_ret.
    rewrite app_nil_r. by apply Hok.
  - rewrite (proj1 Hr eq_refl) in Hok. apply yields_ret. by apply Hok.
Qed.

(** What [RemovePod] did: the pod's part, then the deletion of the secret. *)
Definition removed (v ns : string) (r : string + unit) (evs : list event) : Prop :=
  ∃ pod secret, evs = pod ++ secret ∧ pod_removed (podName v) ns r pod ∧
    match r with
    | inr _ => ∃ err, secret = [EvKube "delete" "Secret" ns (secretName v) err]
    | inl _ => secret = []
    end.

Lemma RemovePod_yields m v : yields (removed v (zm_namespace m)) (RemovePod m v).
Proof.
  unfold RemovePod, bindE. eapply yields_bind; [apply removePodObject_yields|]. intros [e|[]] pod Hpod.
  - apply yields_ret. by exists pod, [].
  - apply yields_kube. intros r. apply yields_ret. eexists pod, [_]. split_and!; [done|done|by eexists].
Qed.

(** C25: RemovePod makes the calls it promises in order: it reads the pod, deletes it if
    it is there, waits, escalates to a forced deletion only when the wait failed,
    and deletes the secret, unless the deletion of the pod was refused, which is the
    only error it returns. *)
Theorem removePod_spec m v w :
  let ns := zm_namespace m in
  let r := (RemovePod m v w).1 in
  ∃ pod secret, w_trace (RemovePod m v w).2 = w_trace w ++ pod ++ secret ∧
    pod_removed (podName v) ns r pod ∧
    match r with
    | inr _ => ∃ err, secret = [EvKube "delete" "Secret" ns (secretName v) err]
    | inl _ => secret = []
    end.
Proof.
  cbv zeta. destruct (RemovePod_yields m v w) as (evs & Hevs & pod & secret & -> & ? & ?). by exists pod, secret.
Qed.

End pods.

(** ** The waits end *)

(** What a polling loop relies on of the clock, the ticker and the context: a ticker of
    one second does not tick early, a select does not take a tick [env_slack] seconds
    or more after the deadline of the context, and it takes the end of the context
    only when the deadline has passed or the driver is stopped. *)
Class Ticker `{E : !Environment} := {
  tick_due deadline start i s s' :
    env_select deadline start i s = (true, s') → start + (Z.of_nat i + 1) * second ≤ env_now (sys_ext s');
  tick_late deadline start i s s' :
    env_select deadline start i s = (true, s') → env_now (sys_ext s') < deadline + Z.of_nat env_slack * second;
  done_due deadline start i s s' :
    env_select deadline start i s = (false, s') →
    deadline ≤ env_now (sys_ext s') ∨ env_ctx_done (sys_ext s') = true;
}.

Section ends.
Context `{E : !Environment, C : !KubeClient, T : !Ticker}.















End ends.

(** ** Resource requirements *)

Section resources.
Context `{Q : !QuantityParser}.

(** What a setting contributes. *)
Definition quantity (raw : string) : option string :=
  if decide (raw = EmptyString) then None else ParseQuantity raw.

Lemma add_quantity_lookup m k raw k' :
  default ∅ (add_quantity m k raw) !! k' =
  if decide (k' = k) then match quantity raw with Some q => Some q | None => default ∅ m !! k end
  else default ∅ m !! k'.
Proof.
  unfold add_quantity, quantity, set_quantity.
  repeat case_decide; simplify_eq; try done; case_match; simpl; try done.
  - by rewrite lookup_insert_eq.
  - by rewrite lookup_insert_ne.
Qed.

(** The pod's resource requirements are present exactly when one of the four settings
    is, and each entry is the parsed quantity of its setting, absent when the
    setting is empty or not a quantity; nothing else is set. *)
Theorem parseResourceRequirements_spec cm :
  match parseResourceRequirements cm with
  | None => ∀ k, k ∈ ["cpuRequest"; "cpuLimit"; "memoryRequest"; "memoryLimit"] → go_get cm k = EmptyString
  | Some r =>
      (∃ k, k ∈ ["cpuRequest"; "cpuLimit"; "memoryRequest"; "memoryLimit"] ∧ go_get cm k ≠ EmptyString) ∧
      default ∅ (rr_requests r) !! "cpu" = quantity (go_get cm "cpuRequest") ∧
      default ∅ (rr_requests r) !! "memory" = quantity (go_get cm "memoryRequest") ∧
      default ∅ (rr_limits r) !! "cpu" = quantity (go_get cm "cpuLimit") ∧
      default ∅ (rr_limits r) !! "memory" = quantity (go_get cm "memoryLimit") ∧
      ∀ k, k ∉ ["cpu"; "memory"] →
        default ∅ (rr_requests r) !! k = None ∧ default ∅ (rr_limits r) !! k = None
  end.
Proof.
  unfold parseResourceRequirements. cbv zeta. case_bool_decide as Hany.
  - cbn [rr_requests rr_limits]. split.
    { destruct_or! Hany; eexists; (split; [|exact Hany]); set_solver. }
    rewrite !add_quantity_lookup. simpl. split_and!; try by case_match.
    intros k Hk. rewrite !not_elem_of_cons in Hk. destruct Hk as (H1 & H2 & _).
    rewrite !add_quantity_lookup, !decide_False by done. done.
  - intros k Hk. rewrite !elem_of_cons, elem_of_nil in Hk.
    destruct (decide (go_get cm k = EmptyString)) as [|Hne]; [done|]. exfalso. apply Hany.
    destruct_or! Hk; subst; tauto.
Qed.

End resources.

(** ** On the concrete cluster *)

Section witnesses.
Import SimRun.

#[local] Instance sim_ticker : Ticker.
Proof.
  split; intros deadline start i s s'; simpl; case_match eqn:Hle; intros Hs; simplify_eq; simpl;
    apply Z.leb_le in Hle || apply Z.leb_gt in Hle; unfold second in *; try left; lia.
Qed.


Lemma create_waits_ready_witness :
  ∃ p w1, kube (GetPod "zerofs" (podName "pvc-1")) w1 =
      (inr p, (CreatePod (mkMounter "zerofs") "pvc-1" "node-a" "zerofs-config" world0).2) ∧
    is_ready p = true.
Proof.
  pose proof (create_waits_ready (mkMounter "zerofs") "pvc-1" "node-a" "zerofs-config" world0
    (CreatePod (mkMounter "zerofs") "pvc-1" "node-a" "zerofs-config" world0).2) as Hthm.
  apply Hthm. apply pair_eta. by_compute.
Defined.

Lemma config_serves_node_witness :
  ∃ t, Parse templateContent = Some t ∧
    (∃ pre mid post, Execute t (configValues config0 "pvc-1" "pw" "ak" "sk") =
       pre +:+ storage_header +:+ storageURL config0 "pvc-1" +:+ mid +:+
       ninep_header +:+ socket9p "pvc-1" +:+ nbd_header +:+ socketNbd "pvc-1" +:+ quoted "'" +:+ post) ∧
    ct_readiness (zerofsContainer config0 "pvc-1") =
      Some (mkProbe ["sh"; "-c"; "test -S " +:+ socket9p "pvc-1"] 10).
Proof.
  destruct config_serves_node as (t & Ht & Hthm). exists t. split; [exact Ht|]. apply Hthm. by_compute.
Defined.

Lemma podReadyTimeout_spec_witness :
  podReadyTimeout {[ "podReadyTimeoutSeconds" := " 30 " ]} = 30 * second.
Proof.
  pose proof (podReadyTimeout_spec {[ "podReadyTimeoutSeconds" := " 30 " ]}) as [_ Hthm].
  apply (Hthm 30); [unfold max_seconds; lia|by_compute].
Defined.

(** A pod of the volume that is already on the node. *)
Definition pod0 : Pod := zerofsPod config0 "zerofs" "pvc-1" "node-a" [].

Lemma applyPod_cases_witness :
  ∃ evs, w_trace (applyPod (mkMounter "zerofs") pod0 (podName "pvc-1") "node-b" (120 * second) published).2 =
      w_trace published ++ kube_event (GetPod "zerofs" (podName "pvc-1"))
        (kube_do (GetPod "zerofs" (podName "pvc-1")) (w_sys published)).1 :: evs ∧
    match (kube_do (GetPod "zerofs" (podName "pvc-1")) (w_sys published)).1 with
    | inl _ => ∃ cerr k, evs = EvKube "create" "Pod" (om_namespace (pod_meta pod0)) (om_name (pod_meta pod0)) cerr :: k ∧ gets k
    | inr p =>
        if decide (ps_nodeName (pod_spec p) = "node-b") then gets evs
        else ∃ derr k, evs = EvKube "delete" "Pod" "zerofs" (podName "pvc-1") derr :: k ∧
          match derr with
          | Some _ => k = []
          | None => ∃ k1 cerr k2, k = k1 ++ EvKube "create" "Pod" (om_namespace (pod_meta pod0))
              (om_name (pod_meta pod0)) cerr :: k2 ∧ gets k1 ∧ gets k2
          end
    end.
Proof.
  pose proof (applyPod_cases (mkMounter "zerofs") pod0 (podName "pvc-1") "node-b" (120 * second) published
    (kube_do (GetPod "zerofs" (podName "pvc-1")) (w_sys published)).1
    (kube_do (GetPod "zerofs" (podName "pvc-1")) (w_sys published)).2) as Hthm.
  apply Hthm. apply surjective_pairing.
Defined.

End witnesses.

End ZerofsProps.
