(* ===== verification/NodeUnpublish.v ===== *)
(** * What NodeUnpublishVolume does, in order (pkg/csi/node.go)

    The trace of an unpublish, whatever the node and the API server answer: which
    device it detaches and releases, that the pod is removed and waited for, and that
    the state files go last, under the mutex. *)

From S2P Require Import Prelude GoStrings GoPath World Metrics Kube Zerofs Nbd NbdReserve Node NodeFrame NodeTrace NodeState.
From S2P Require Import SimRun ZerofsProps.

Import NbdReserve NodeTrace NodeState ZerofsProps.

Local Open Scope Z_scope.

Module NodeUnpublish.

Section unpublish.
Context `{E : !Environment, C : !KubeClient, Q : !QuantityParser}.

Definition metrics : list event → Prop := Forall (λ e, is_metric e = true).

Lemma yields_metric e {A} (P : A → list event → Prop) (m : Go A) :
  yields (λ a evs, P a (e :: evs)) m → yields P (run emit e; m).
Proof.
  intros Hm w. destruct (Hm (emit e w).2) as (k & Hk & HP). eexists. split; [|exact HP].
  unfold bind at 1. cbv zeta. rewrite Hk. simpl. by rewrite <- app_assoc.
Qed.

Lemma yields_quiet {A B} (P : B → list event → Prop) (m : Go A) (f : A → Go B) :
  (∀ w, w_trace (m w).2 = w_trace w) → (∀ a, yields P (f a)) → yields P (bind m f).
Proof.
  intros Hm Hf. eapply (yields_bind P (λ _ evs, evs = [])); [|by intros a l ->].
  intros w. exists []. by rewrite app_nil_r.
Qed.

Lemma yields_observe t : yields (λ _, metrics) (observe t).
Proof.
  apply yields_quiet; [done|]. intros d w. eexists. split; [done|]. by repeat constructor.
Qed.

(** The metrics at the end of a stage. *)
Lemma yields_stage_end (b : bool) op st t :
  yields (λ _, metrics) (run (if b then recordStageError op st else ret tt); observe t).
Proof.
  eapply (yields_bind _ (λ _, metrics)).
  - destruct b; [|by apply yields_ret, Forall_nil]. intros w. eexists. split; [done|]. by repeat constructor.
  - intros ? l Hl w. destruct (yields_observe t w) as (k & ? & ?). exists k. split; [done|]. by apply Forall_app_2.
Qed.

Lemma yields_mono {A} (P P' : A → list event → Prop) (m : Go A) :
  (∀ a evs, P a evs → P' a evs) → yields P m → yields P' m.
Proof. intros HP Hm w. destruct (Hm w) as (k & ? & ?). eauto. Qed.

Lemma yields_exec {B} (P : B → list event → Prop) cmd args (f : CmdOut → Go B) :
  (∀ out, yields (λ b evs, P b (EvExec cmd args out :: evs)) (f out)) →
  yields P (do out <- exec_Command cmd args; f out).
Proof.
  intros Hf w. destruct (Hf (exec_Command cmd args w).1 (exec_Command cmd args w).2) as (k & Hk & HP).
  eexists. split; [|exact HP]. unfold bind at 1. cbv zeta. rewrite Hk. simpl. by rewrite <- app_assoc.
Qed.

Lemma unmountStage_yields t :
  yields (λ _ evs, ∃ out l, evs = EvExec "umount" [t] out :: l ∧ metrics l) (unmountStage t).
Proof.
  unfold unmountStage. apply yields_quiet; [done|]. intros st. apply yields_exec. intros out.
  eapply (yields_mono (λ _, metrics)); [by eauto|].
  destruct (co_err out); [|apply (yields_stage_end false EmptyString EmptyString)].
  destruct (Contains _ _); [apply (yields_stage_end false EmptyString EmptyString)|apply (yields_stage_end true)].
Qed.

(** The detach of the device [d], if one is known. *)
Definition detached (d : string) (evs : list event) : Prop :=
  if decide (d = EmptyString) then evs = []
  else ∃ out l, evs = EvExec "nbd-client" ["-d"; d] out :: l ∧ metrics l.

Lemma detachStage_yields d : yields (λ _, detached d) (detachStage d).
Proof.
  unfold detachStage, detached. case_decide; [by apply yields_ret|].
  apply yields_quiet; [done|]. intros st. apply yields_exec. intros out.
  eapply (yields_mono (λ _, metrics)); [by eauto|].
  destruct (co_err out); [apply (yields_stage_end true)|apply (yields_stage_end false EmptyString EmptyString)].
Qed.

Lemma removePodStage_yields ns v :
  yields (λ _ evs, ∃ r l k, evs = l ++ k ∧ removed v (zm_namespace (ns_mounter ns)) r l ∧ metrics k)
    (removePodStage ns v).
Proof.
  unfold removePodStage. apply yields_quiet; [done|]. intros st.
  eapply yields_bind; [apply RemovePod_yields|]. intros r l Hl.
  eapply (yields_mono (λ _, metrics)); [by eauto 6|].
  destruct r; [apply (yields_stage_end true)|apply (yields_stage_end false EmptyString EmptyString)].
Qed.

(** The end of an unpublish: the state files go, under the mutex. *)
Definition cleared (v d : string) (evs : list event) : Prop :=
  ∃ since, evs =
    [EvLock; EvFs OpRemove (volumeNBDStatePath v)] ++
    (if decide (d = EmptyString) then [] else [EvFs OpRemove (deviceReservationPath d)]) ++
    [EvUnlock; EvObserve "node_unpublish" "total" since].

Lemma unpublish_end v d t :
  st_operation t = "node_unpublish" → st_stage t = "total" →
  yields (λ _, cleared v d)
    (run emit EvLock; run clearVolumeNBDState v d; run emit EvUnlock; run observe t; ret (inr tt : Status + unit)).
Proof.
  intros Ho Hs w. unfold clearVolumeNBDState, cleared.
  case_decide; (eexists; split; [|by eexists]); cbn; rewrite <- !app_assoc, Ho, Hs; reflexivity.
Qed.

Lemma unpublish_tail ns v d t :
  st_operation t = "node_unpublish" → st_stage t = "total" →
  yields (λ _ evs, ∃ detach r removal m wait fin, evs = detach ++ (removal ++ m) ++ wait ++ fin ∧
      detached d detach ∧ removed v (zm_namespace (ns_mounter ns)) r removal ∧ metrics m ∧
      pod_gets (podName v) (zm_namespace (ns_mounter ns)) wait ∧ cleared v d fin)
    (run detachStage d;
     run removePodStage ns v;
     run waitForPodDeletion (podName v) (zm_namespace (ns_mounter ns)) (30 * second);
     run emit EvLock; run clearVolumeNBDState v d; run emit EvUnlock; run observe t; ret (inr tt : Status + unit)).
Proof.
  intros Ho Hs. eapply yields_bind; [apply detachStage_yields|]. intros ? detach Hd.
  eapply yields_bind; [apply removePodStage_yields|]. intros ? pod (r & removal & m & -> & Hr & Hm).
  eapply yields_bind; [apply waitForPodDeletion_yields|]. intros rw wait [Hw _].
  eapply yields_mono; [|by apply unpublish_end]. intros ? fin Hf.
  by exists detach, r, removal, m, wait, fin.
Qed.

Lemma unpublish_valid ns req w :
  ur_volumeId req ≠ EmptyString → ur_targetPath req ≠ EmptyString →
  (NodeUnpublishVolume ns req w).1 = inr tt.
Proof.
  intros Hv Ht. unfold NodeUnpublishVolume. cbv zeta. unfold bind at 1. cbv zeta.
  rewrite !decide_False by done. unfold bind at 1. cbv zeta.
  destruct (findMountSource _ _).1 as [src mounted]. reflexivity.
Qed.

(** The source of a mount that findmnt printed. *)
Definition printed (found : CmdOut) : string :=
  match co_err found with Some _ => EmptyString | None => TrimSpace (co_out found) end.

(** The device of the volume, in the world [w] after the unmount: the source that
    findmnt printed, or else what the state file records. *)
Definition unpublished_device (v : string) (found : CmdOut) (w : World) : string :=
  if decide (printed found = EmptyString) then
    match read_file (volumeNBDStatePath v) (w_sys w) with inr s => TrimSpace s | inl _ => EmptyString end
  else printed found.

Lemma findMountSource_run t w :
  let r := env_exec "findmnt" (findmnt_args t) (w_sys w) in
  findMountSource t w =
    ((printed r.1, bool_decide (printed r.1 ≠ EmptyString)),
     mkWorld r.2 (w_trace w ++ [EvExec "findmnt" (findmnt_args t) r.1])).
Proof.
  cbv zeta. unfold findMountSource, exec_Command, bind, sys_step, emit, modify, ret, printed, findmnt_args.
  cbn [fst snd w_sys w_trace]. by destruct (co_err _).
Qed.

Lemma recoverDevice_run v found w :
  recoverDevice v (if bool_decide (printed found ≠ EmptyString) then printed found else EmptyString) w =
    (unpublished_device v found w, w).
Proof.
  unfold recoverDevice, unpublished_device.
  destruct (decide (printed found = EmptyString)) as [He|He].
  - rewrite bool_decide_eq_false_2, decide_True by tauto. reflexivity.
  - rewrite bool_decide_eq_true_2, decide_False by tauto. reflexivity.
Qed.

(** The work of a well-formed unpublish, from the unmount on. *)
Lemma unpublish_split ns req w :
  ur_volumeId req ≠ EmptyString → ur_targetPath req ≠ EmptyString →
  let v := ur_volumeId req in
  let t := ur_targetPath req in
  let found := (env_exec "findmnt" (findmnt_args t) (w_sys w)).1 in
  let w2 := (unmountStage t (findMountSource t w).2).2 in
  let d := unpublished_device v found w2 in
  ∃ st, st_operation st = "node_unpublish" ∧ st_stage st = "total" ∧
    NodeUnpublishVolume ns req w =
    (run detachStage d;
     run removePodStage ns v;
     run waitForPodDeletion (podName v) (zm_namespace (ns_mounter ns)) (30 * second);
     run emit EvLock; run clearVolumeNBDState v d; run emit EvUnlock; run observe st; ret (inr tt : Status + unit)) w2.
Proof.
  cbv zeta. intros Hv Ht. exists (startStage "node_unpublish" "total" w).1. split; [done|]. split; [done|].
  unfold NodeUnpublishVolume. cbv zeta. unfold bind at 1. cbv zeta.
  rewrite !decide_False by done. change (startStage _ _ w).2 with w.
  set (st := (startStage "node_unpublish" "total" w).1). clearbody st.
  unfold bind at 1. cbv zeta. rewrite findMountSource_run. cbn [fst snd].
  unfold bind at 1. cbv zeta. unfold bind at 1. cbv zeta. by rewrite recoverDevice_run.
Qed.

(** The trace of a well-formed unpublish. *)
Lemma unpublish_trace ns req w :
  ur_volumeId req ≠ EmptyString → ur_targetPath req ≠ EmptyString →
  let v := ur_volumeId req in
  let t := ur_targetPath req in
  let found := (env_exec "findmnt" (findmnt_args t) (w_sys w)).1 in
  let w2 := (unmountStage t (findMountSource t w).2).2 in
  let d := unpublished_device v found w2 in
  ∃ out m1 detach r removal m2 wait fin,
    w_trace (NodeUnpublishVolume ns req w).2 = w_trace w ++
      [EvExec "findmnt" (findmnt_args t) found; EvExec "umount" [t] out] ++ m1 ++
      detach ++ (removal ++ m2) ++ wait ++ fin ∧
    metrics m1 ∧ detached d detach ∧
    removed v (zm_namespace (ns_mounter ns)) r removal ∧ metrics m2 ∧
    pod_gets (podName v) (zm_namespace (ns_mounter ns)) wait ∧ cleared v d fin.
Proof.
  cbv zeta. intros Hv Ht. destruct (unpublish_split ns req w Hv Ht) as (st & Ho & Hs & ->).
  set (t := ur_targetPath req). set (v := ur_volumeId req). set (found := (env_exec _ _ _).1).
  set (w1 := (findMountSource t w).2).
  assert (w_trace w1 = w_trace w ++ [EvExec "findmnt" (findmnt_args t) found]) as Hw1
    by (subst w1; by rewrite findMountSource_run).
  destruct (unmountStage_yields t w1) as (um & Hum & out & m1 & -> & Hm1). set (w2 := (unmountStage t w1).2) in *.
  destruct (unpublish_tail ns v (unpublished_device v found w2) st Ho Hs w2)
    as (evs & Hevs & detach & r & removal & m2 & wait & fin & -> & ? & ? & ? & ? & ?).
  exists out, m1, detach, r, removal, m2, wait, fin. split_and!; [|done..].
  rewrite Hevs, Hum, Hw1. by rewrite <- !app_assoc.
Qed.

(** C19: A well-formed NodeUnpublishVolume always succeeds, and does all of its work in
    order: findmnt on the target; umount of the target; one nbd-client -d of the
    device d, where d is the source findmnt printed or else the device the state
    file records after the unmount (no command when neither gives one); RemovePod of
    the volume, with the deletion of the pod, its escalation and the deletion of the
    secret; a wait that looks only at that pod; and then, between lock and unlock of
    the mutex, the removal of the volume's state file and of the reservation of the
    same device d. Only metrics are recorded in between. *)
Theorem unpublish_order ns req w :
  let v := ur_volumeId req in
  let t := ur_targetPath req in
  let found := (env_exec "findmnt" (findmnt_args t) (w_sys w)).1 in
  let w2 := (unmountStage t (findMountSource t w).2).2 in
  let d := unpublished_device v found w2 in
  v ≠ EmptyString → t ≠ EmptyString →
  (NodeUnpublishVolume ns req w).1 = inr tt ∧
  ∃ out m1 detach r removal m2 wait fin,
    w_trace (NodeUnpublishVolume ns req w).2 = w_trace w ++
      [EvExec "findmnt" (findmnt_args t) found; EvExec "umount" [t] out] ++ m1 ++
      detach ++ (removal ++ m2) ++ wait ++ fin ∧
    metrics m1 ∧ detached d detach ∧
    removed v (zm_namespace (ns_mounter ns)) r removal ∧ metrics m2 ∧
    pod_gets (podName v) (zm_namespace (ns_mounter ns)) wait ∧ cleared v d fin.
Proof.
  cbv zeta. intros Hv Ht. split; [by apply unpublish_valid|by apply unpublish_trace].
Qed.

(** ** A target below another mount *)

Definition is_kube (e : event) : bool := match e with EvKube _ _ _ _ _ => true | _ => false end.

(** No detach of the device [dev]. *)
Definition no_detach (dev : string) : list event → Prop :=
  Forall (λ e, ∀ out, e ≠ EvExec "nbd-client" ["-d"; dev] out).

Lemma no_detach_kube dev evs : Forall (λ e, is_kube e = true) evs → no_detach dev evs.
Proof. intros Hf. eapply Forall_impl; [exact Hf|]. by intros []. Qed.

Lemma no_detach_metrics dev evs : metrics evs → no_detach dev evs.
Proof. intros Hf. eapply Forall_impl; [exact Hf|]. by intros []. Qed.

Lemma pod_gets_kube name ns evs : pod_gets name ns evs → Forall (λ e, is_kube e = true) evs.
Proof. intros Hf. eapply Forall_impl; [exact Hf|]. by intros e [err ->]. Qed.

Lemma removed_kube v ns r evs : removed v ns r evs → Forall (λ e, is_kube e = true) evs.
Proof.
  intros (pod & secret & -> & (gerr & rest & -> & Hp) & Hs). apply Forall_app_2.
  - constructor; [done|]. destruct gerr; [by destruct Hp as [_ ->]|].
    destruct Hp as (derr & rest' & -> & Hd). constructor; [done|].
    destruct derr; [by destruct Hd as [-> _]|]. destruct Hd as (_ & wait & force & -> & Hw & Hf).
    apply Forall_app_2; [by eapply pod_gets_kube|]. unfold escalation in Hf.
    destruct (gone wait); [by subst|]. destruct Hf as (err & l & -> & Hl).
    constructor; [done|]. by eapply pod_gets_kube.
  - destruct r; [by subst|]. destruct Hs as [err ->]. by repeat constructor.
Qed.

Lemma no_detach_cleared dev v d evs : cleared v d evs → no_detach dev evs.
Proof. intros [since ->]. case_decide; repeat (apply Forall_cons_2; [done|]); apply Forall_nil_2. Qed.

Lemma no_detach_other dev d evs : d ≠ dev → detached d evs → no_detach dev evs.
Proof.
  intros Hne. unfold detached. case_decide; [intros ->; apply Forall_nil_2|]. intros (out & l & -> & Hl).
  constructor; [congruence|by apply no_detach_metrics].
Qed.

Context `{EK : !EnvKeeps in_run_dir, KK : !KubeKeeps in_run_dir, HL : !Healthy in_run_dir}.

(** The reservation of a device. *)
Definition its_reservation (dev p : string) : Prop := p = deviceReservationPath dev.

#[local] Instance reservation_env dev : EnvKeeps (its_reservation dev).
Proof.
  split; intros; [apply exec_keeps|apply sleep_keeps|apply select_keeps]; unfold its_reservation in *; subst; apply any_reservation_in_run.
Qed.

#[local] Instance reservation_kube dev : KubeKeeps (its_reservation dev).
Proof. intros A op s p ->. apply kube_keeps, any_reservation_in_run. Qed.

Lemma clear_keeps_reservation v dev src :
  good_volume v = true → deviceReservationPath src ≠ deviceReservationPath dev →
  respects (keeps (its_reservation dev)) (clearVolumeNBDState v src).
Proof.
  intros Hv Hne. unfold clearVolumeNBDState. solve_respects; apply keeps_Remove; [|done].
  intros Heq. by apply (reservationPath_not_state v dev).
Qed.

(** C38: findmnt --target prints the source of the mount that covers a path. When what
    it prints for an unpublish's target is not the device that the volume's state
    file records (the target is no longer a mount point itself), and as long as the
    environment leaves the run directory alone (EnvKeeps, KubeKeeps) and input and
    output there does not fail (Healthy), NodeUnpublishVolume still succeeds and
    removes the volume's state file, but it never detaches the recorded device, and
    the reservation of that device stays as it was: the device is leaked. *)
Theorem unpublish_covering_mount ns req w dev found s1 :
  good_volume (ur_volumeId req) = true → ur_targetPath req ≠ EmptyString →
  holds (w_sys w) (ur_volumeId req) dev →
  env_exec "findmnt" (findmnt_args (ur_targetPath req)) (w_sys w) = (found, s1) →
  printed found ≠ EmptyString → deviceReservationPath (printed found) ≠ deviceReservationPath dev →
  let r := NodeUnpublishVolume ns req w in
  r.1 = inr tt ∧
  (∀ d, ¬ holds (w_sys r.2) (ur_volumeId req) d) ∧
  w_fs r.2 !! deviceReservationPath dev = w_fs w !! deviceReservationPath dev ∧
  emits (no_detach dev) w r.2.
Proof.
  intros Hv Ht Hh Hfound Hp Hne. cbv zeta.
  assert (ur_volumeId req ≠ EmptyString) as Hv' by (by apply good_volume_nonempty).
  split; [by apply unpublish_valid|]. split; [intros d; by apply unpublish_no_holds|].
  assert (∀ w', unpublished_device (ur_volumeId req) found w' = printed found) as Hd
    by (intros; unfold unpublished_device; by rewrite decide_False).
  split.
  - destruct (unpublish_split ns req w Hv' Ht) as (st & _ & _ & ->). rewrite Hfound, Hd. cbn [fst].
    set (d := deviceReservationPath dev). set (t := ur_targetPath req).
    assert (respects (keeps (its_reservation dev)) (run findMountSource t; unmountStage t)) as H1 by solve_respects.
    transitivity (w_fs (unmountStage t (findMountSource t w).2).2 !! d); [|by apply (H1 w)].
    pose proof (clear_keeps_reservation (ur_volumeId req) dev (printed found) Hv Hne).
    set (w2 := (unmountStage _ _).2).
    match goal with |- w_fs (?m w2).2 !! _ = _ =>
      assert (respects (keeps (its_reservation dev)) m) as Hm by (solve_respects; apply keeps_emit) end.
    by apply Hm.
  - destruct (unpublish_trace ns req w Hv' Ht) as (out & m1 & detach & r & removal & m2 & wait & fin & Htr &
      H1 & H2 & H3 & H4 & H5 & H6). rewrite Hfound, Hd in *. cbn [fst] in *.
    eexists. split; [exact Htr|]. unfold no_detach.
    repeat (apply Forall_cons_2; [done|]). change (Forall _) with (no_detach dev).
    repeat apply Forall_app_2.
    + by apply no_detach_metrics.
    + eapply no_detach_other; [|exact H2]. congruence.
    + by eapply no_detach_kube, removed_kube.
    + by apply no_detach_metrics.
    + by eapply no_detach_kube, pod_gets_kube.
    + by eapply no_detach_cleared.
Qed.

End unpublish.

(** ** On the concrete node *)

Section witnesses.
Import SimRun.

(** The volume is mounted from the first device, which is what is detached. *)
Lemma unpublish_order_witness :
  let found := (env_exec "findmnt" (findmnt_args target0) (w_sys published)).1 in
  let w2 := (unmountStage target0 (findMountSource target0 published).2).2 in
  unpublished_device "pvc-1" found w2 = "/dev/nbd0" ∧
  (NodeUnpublishVolume ns0 unpublish0 published).1 = inr tt ∧
  ∃ out m1 detach r removal m2 wait fin,
    w_trace (NodeUnpublishVolume ns0 unpublish0 published).2 = w_trace published ++
      [EvExec "findmnt" (findmnt_args target0) found; EvExec "umount" [target0] out] ++ m1 ++
      detach ++ (removal ++ m2) ++ wait ++ fin ∧
    metrics m1 ∧ detached (unpublished_device "pvc-1" found w2) detach ∧
    removed "pvc-1" "zerofs" r removal ∧ metrics m2 ∧
    pod_gets (podName "pvc-1") "zerofs" wait ∧ cleared "pvc-1" (unpublished_device "pvc-1" found w2) fin.
Proof.
  cbv zeta. split; [by_compute|].
  pose proof (unpublish_order ns0 unpublish0 published) as Hthm. apply Hthm; done.
Defined.

#[local] Instance run_env : EnvKeeps in_run_dir := sim_keeps.
#[local] Instance run_kube : KubeKeeps in_run_dir := sim_kube_keeps.
#[local] Instance run_healthy : Healthy in_run_dir := sim_healthy.

(** The volume is published on /dev/nbd0 and its target has been unmounted by hand:
    findmnt prints the root's overlay, and the device stays connected and reserved. *)
Lemma unpublish_covering_mount_witness :
  let w := (exec_Command "umount" [target0] published).2 in
  let r := NodeUnpublishVolume ns0 unpublish0 w in
  holds (w_sys w) "pvc-1" "/dev/nbd0" ∧
  (isNBDConnected "/dev/nbd0" r.2).1 = inr true ∧
  is_Some (w_fs w !! deviceReservationPath "/dev/nbd0") ∧
  r.1 = inr tt ∧
  (∀ d, ¬ holds (w_sys r.2) "pvc-1" d) ∧
  w_fs r.2 !! deviceReservationPath "/dev/nbd0" = w_fs w !! deviceReservationPath "/dev/nbd0" ∧
  emits (no_detach "/dev/nbd0") w r.2.
Proof.
  cbv zeta. set (w := (exec_Command "umount" [target0] published).2).
  assert (holds (w_sys w) "pvc-1" "/dev/nbd0") as Hh 
    by (exists (default (mkFile EmptyString true 0) (w_fs w !! volumeNBDStatePath "pvc-1")); split_and!;
        [by_compute..|done]).
  split; [exact Hh|]. split; [by_compute|]. split; [eexists; by_compute|].
  pose proof (unpublish_covering_mount ns0 unpublish0 w "/dev/nbd0" (mkCmdOut ("overlay" +:+ newline) None)
    (env_exec "findmnt" (findmnt_args target0) (w_sys w)).2) as Hthm.
  apply Hthm.
  - by_compute.
  - done.
  - exact Hh.
  - apply pair_eta. by_compute.
  - done.
  - apply (bool_decide_unpack (_ ≠ _)). by_compute.
Defined.

End witnesses.

End NodeUnpublish.
