(* ===== verification/PodProps.v ===== *)
(** * What CreatePod asks the API server for (pkg/csi/zerofs.go)

    A pod manifest is well formed when its names are unique and every mount of every
    container refers to a volume the pod declares.  [create_requests] says that
    [CreatePod] makes no request outside a small set: reads, the configuration secret
    of the volume, the deletion of the volume's pod, and the creation of a well-formed
    pod for the volume on the node.  It is stated against the client: two API servers
    that agree on that set cannot be told apart by it. *)

From S2P Require Import Prelude GoStrings GoPath World Kube Template Zerofs SimRun.

Module PodProps.

(** ** Well-formed manifests *)

Definition containers (p : Pod) : list Container := ps_initContainers (pod_spec p) ++ ps_containers (pod_spec p).

Definition volume_names (p : Pod) : list string := vol_name <$> ps_volumes (pod_spec p).

(** The mounts of a container: of declared volumes, at distinct absolute paths. *)
Definition mounts_ok (vols : list string) (c : Container) : Prop :=
  NoDup (vm_mountPath <$> ct_mounts c) ∧
  Forall (λ m, vm_name m ∈ vols ∧ is_rooted (vm_mountPath m) = true) (ct_mounts c).

(** The configuration file the container runs with, in the secret of the volume. *)
Definition config_mounted (v : string) (p : Pod) : Prop :=
  ∃ c m vol, c ∈ ps_containers (pod_spec p) ∧ m ∈ ct_mounts c ∧ vol ∈ ps_volumes (pod_spec p) ∧
    ct_args c = ["run"; "--config"; PathJoin [vm_mountPath m; "config.toml"]] ∧
    vol_name vol = vm_name m ∧ vol_source vol = VSSecret (secretName v).

Record pod_ok (ns v node : string) (p : Pod) : Prop := {
  ok_name : om_name (pod_meta p) = podName v;
  ok_namespace : om_namespace (pod_meta p) = ns;
  ok_node : ps_nodeName (pod_spec p) = node;
  ok_volumes : NoDup (volume_names p);
  ok_containers : NoDup (ct_name <$> containers p);
  ok_images : Forall (λ c, ct_image c ≠ EmptyString) (containers p);
  ok_mounts : Forall (mounts_ok (volume_names p)) (containers p);
  ok_config : config_mounted v p;
}.

Lemma cmp_Or_nonempty a b : b ≠ EmptyString → cmp_Or a b ≠ EmptyString.
Proof. unfold cmp_Or. by case_decide. Qed.

Ltac by_decide P := apply (bool_decide_unpack P); by_compute.

Lemma zerofsPod_ok cm ns v node owners : pod_ok ns v node (zerofsPod cm ns v node owners).
Proof.
  split; [done|done|done|..].
  - by_decide (NoDup ["zerofs-config"; "pod-mount-dir"; "plugin-dir"]).
  - by_decide (NoDup ["zerofs"]).
  - constructor; [by apply cmp_Or_nonempty|done].
  - constructor; [|done]. split.
    + by_decide (NoDup ["/etc/zerofs"; "/var/lib/kubelet/plugins/zerofs.csi.driver"; "/var/lib/kubelet/pods"]).
    + repeat constructor; by_decide (_ ∈ ["zerofs-config"; "pod-mount-dir"; "plugin-dir"]).
  - exists (zerofsContainer cm v), (mkVolumeMount "zerofs-config" "/etc/zerofs" true None),
      (mkVolume "zerofs-config" (VSSecret (secretName v))).
    split_and!; [by left|by left|by left|by_compute|done|done].
Qed.

Lemma set_resources_ok r ns v node p : pod_ok ns v node p → pod_ok ns v node (set_resources r p).
Proof.
  intros [H1 H2 H3 H4 H5 H6 H7 H8]. destruct p as [meta [nn tg ru rg ic cs vs] cond].
  unfold containers, volume_names in *. cbn in *. destruct cs as [|c cs].
  { split; [done..|]. exact H8. }
  assert (∀ d, d ∈ c :: cs → ∃ d', d' ∈ ps_containers (pod_spec (set_resources r (mkPod meta (mkPodSpec nn tg ru rg ic (c :: cs) vs) cond))) ∧
    ct_mounts d' = ct_mounts d ∧ ct_args d' = ct_args d) as Hsame.
  { intros d [->|Hd]%elem_of_cons; cbn; [eexists; split; [by left|done]|exists d; split; [by right|done]]. }
  apply Forall_app in H6 as [H6a H6b], H7 as [H7a H7b]. apply Forall_cons in H6b as [H6b H6c], H7b as [H7b H7c].
  split; unfold containers, volume_names; cbn; [done|done|done|done| | | |].
  - by rewrite fmap_app in *.
  - apply Forall_app_2; [done|]. by constructor.
  - apply Forall_app_2; [done|]. by constructor.
  - destruct H8 as (d & m & vol & Hd & Hm & Hvol & Ha & Hn & Hs). destruct (Hsame d Hd) as (d' & Hd' & Hmm & Haa).
    exists d', m, vol. split_and!; [done|by rewrite Hmm|done|by rewrite Haa|done|done].
Qed.

(** The names the envoy sidecar adds are not there yet. *)
Lemma add_envoy_ok cm ns v node p :
  "envoy-config" ∉ volume_names p → "envoy" ∉ (ct_name <$> containers p) →
  pod_ok ns v node p → pod_ok ns v node (add_envoy cm p).
Proof.
  unfold add_envoy. destruct (EqualFold _ _); [|done]. intros Hvol Hct [H1 H2 H3 H4 H5 H6 H7 H8].
  destruct p as [meta [nn tg ru rg ic cs vs] cond]. unfold containers, volume_names in *. cbn in *.
  apply Forall_app in H6 as [H6a H6b], H7 as [H7a H7b].
  assert (∀ c, mounts_ok (vol_name <$> vs) c →
    mounts_ok (vol_name <$> vs ++ [mkVolume "envoy-config" (VSConfigMap (cmp_Or (go_get cm "envoyConfigMapRef") "envoy-config"))]) c) as Hmono.
  { intros c [Hn Hm]. split; [done|]. eapply Forall_impl; [exact Hm|]. intros m [? ?]. split; [|done].
    rewrite fmap_app, elem_of_app. by left. }
  split; unfold containers, volume_names; cbn; [done|done|done|..].
  - rewrite fmap_app. apply NoDup_app. split; [done|]. split; [|apply NoDup_singleton].
    intros x Hx Hin. apply list_elem_of_singleton in Hin. cbn in Hin. by subst.
  - rewrite <- (assoc_L app), (Permutation_app_comm [_] cs), (assoc_L app), fmap_app. apply NoDup_app.
    split; [done|]. split; [|apply NoDup_singleton]. intros x Hx Hin. apply list_elem_of_singleton in Hin. cbn in Hin. by subst.
  - repeat apply Forall_app_2; [done| |done]. constructor; [by apply cmp_Or_nonempty|done].
  - repeat apply Forall_app_2.
    + eapply Forall_impl; [exact H7a|]. apply Hmono.
    + constructor; [|done]. split; [apply NoDup_singleton|]. constructor; [|done]. split; [|done].
      rewrite fmap_app, elem_of_app. right. by left.
    + eapply Forall_impl; [exact H7b|]. apply Hmono.
  - destruct H8 as (d & m & vol & Hd & Hm & Hv' & Hrest). exists d, m, vol. split_and!; [done|done| |apply Hrest..].
    apply elem_of_app. by left.
Qed.

(** ** Requests *)

(** A request [CreatePod] may make for a volume on a node. *)
Definition may_request (ns v node : string) {A} (op : kube_op A) : Prop :=
  match op with
  | CreatePodOp p => pod_ok ns v node p
  | CreateSecret s | UpdateSecret s =>
      om_name (sec_meta s) = secretName v ∧ om_namespace (sec_meta s) = ns ∧
      ∃ config, sec_data s = {[ "config.toml" := config ]}
  | DeletePod ns' n _ _ => ns' = ns ∧ n = podName v
  | DeleteSecret _ _ => False
  | _ => True
  end.

Section requests.
Context `{E : !Environment, Q : !QuantityParser} (m : zerofsMounter) (v node : string).

Definition same {A} (m1 m2 : Go A) : Prop := ∀ w, m1 w = m2 w.

Lemma same_refl {A} (a : Go A) : same a a.
Proof. done. Qed.

Lemma same_bind {A B} (m1 m2 : Go A) (f1 f2 : A → Go B) :
  same m1 m2 → (∀ a, same (f1 a) (f2 a)) → same (bind m1 f1) (bind m2 f2).
Proof. intros Hm Hf w. unfold bind. cbv zeta. rewrite Hm. apply Hf. Qed.

Lemma same_bindE {X A B} (m1 m2 : Go (X + A)) (f1 f2 : A → Go (X + B)) :
  same m1 m2 → (∀ a, same (f1 a) (f2 a)) → same (bindE m1 f1) (bindE m2 f2).
Proof. intros Hm Hf. apply same_bind; [done|]. intros []; [done|apply Hf]. Qed.

(** Two API servers that answer the requests of the volume alike. *)
Definition agree (k1 k2 : KubeClient) : Prop :=
  ∀ A (op : kube_op (string + A)) s, may_request (zm_namespace m) v node op → k1 A op s = k2 A op s.

Context (k1 k2 : KubeClient) (Hk : agree k1 k2).

Lemma same_kube {A} (op : kube_op (string + A)) :
  may_request (zm_namespace m) v node op → same (kube (C:=k1) op) (kube (C:=k2) op).
Proof.
  intros Hop. apply same_bind; [|intros; apply same_refl]. intros w. unfold sys_step, kube_do.
  by rewrite (Hk A op (w_sys w) Hop).
Qed.

Ltac same_step :=
  intros;
  lazymatch goal with
  | |- same (bindE _ _) (bindE _ _) => apply same_bindE
  | |- same (bind _ _) (bind _ _) => apply same_bind
  | |- same (wrapE _ _) (wrapE _ _) => apply same_bind
  | |- same (kube _) (kube _) => apply same_kube
  | |- same (match ?x with _ => _ end) _ => destruct x
  | |- may_request _ _ _ _ => cbn; first [exact I | assumption | split_and!; eauto]
  end.

Ltac solve_same :=
  intros; cbv zeta;
  first [match goal with |- same ?x ?y => constr_eq x y; apply same_refl end
        | same_step; solve_same | solve [auto] | idtac].

Lemma same_readyLoop n i dl st name ns :
  same (readyLoop (C:=k1) n i dl st name ns) (readyLoop (C:=k2) n i dl st name ns).
Proof. revert i. induction n as [|n IH]; intros i; cbn [readyLoop]; solve_same. Qed.

Lemma same_deletionLoop n i dl st name ns :
  same (deletionLoop (C:=k1) n i dl st name ns) (deletionLoop (C:=k2) n i dl st name ns).
Proof. revert i. induction n as [|n IH]; intros i; cbn [deletionLoop]; solve_same. Qed.

Lemma same_waitForPodReady name ns timeout :
  same (waitForPodReady (C:=k1) name ns timeout) (waitForPodReady (C:=k2) name ns timeout).
Proof. apply same_bind; [apply same_refl|]. intros start. apply same_readyLoop. Qed.

Lemma same_waitForPodDeletion name ns timeout :
  same (waitForPodDeletion (C:=k1) name ns timeout) (waitForPodDeletion (C:=k2) name ns timeout).
Proof. apply same_bind; [apply same_refl|]. intros start. apply same_deletionLoop. Qed.

Lemma same_applyPod pod timeout :
  pod_ok (zm_namespace m) v node pod →
  same (applyPod (C:=k1) m pod (podName v) node timeout) (applyPod (C:=k2) m pod (podName v) node timeout).
Proof.
  intros Hp. pose proof same_waitForPodReady. pose proof same_waitForPodDeletion. unfold applyPod. solve_same.
Qed.

Lemma same_applySecret config :
  same (applySecret (C:=k1) (configSecret (zm_namespace m) v config))
    (applySecret (C:=k2) (configSecret (zm_namespace m) v config)).
Proof. unfold applySecret. solve_same. Qed.

(** The pod that CreatePod builds. *)
Lemma built_pod_ok cm owners (r : option ResourceRequirements) :
  let pod := zerofsPod cm (zm_namespace m) v node owners in
  pod_ok (zm_namespace m) v node (add_envoy cm (match r with Some r => set_resources r pod | None => pod end)).
Proof.
  cbv zeta. destruct r as [r|]; apply add_envoy_ok; auto using set_resources_ok, zerofsPod_ok;
    cbn; [by_decide ("envoy-config" ∉ ["zerofs-config"; "pod-mount-dir"; "plugin-dir"])|by_decide ("envoy" ∉ ["zerofs"])|
          by_decide ("envoy-config" ∉ ["zerofs-config"; "pod-mount-dir"; "plugin-dir"])|by_decide ("envoy" ∉ ["zerofs"])].
Qed.

(** C16: CreatePod makes no request to the API server but reads, the create or update of
    the volume's own configuration secret, the deletion of the volume's own pod, and
    the creation of a well-formed pod: named for the volume, on the node, with
    distinct volumes and containers, every mount of a declared volume at a distinct
    absolute path, and the configuration file in the mounted secret. Two API servers
    that agree on those requests give it the same run. *)
Theorem create_requests configMapName w :
  CreatePod (C:=k1) m v node configMapName w = CreatePod (C:=k2) m v node configMapName w.
Proof.
  revert w. change (same (CreatePod (C:=k1) m v node configMapName) (CreatePod (C:=k2) m v node configMapName)).
  pose proof same_applySecret. unfold CreatePod, getDaemonSetUID. solve_same.
  apply same_applyPod, built_pod_ok.
Qed.

End requests.

(** ** On the concrete node *)

Section witnesses.
Import SimRun.

(** An API server that refuses to delete secrets. *)
Definition keep_secrets : KubeClient := λ A op s,
  if String.eqb (op_label op).1.1.1 "delete" && String.eqb (op_label op).1.1.2 "Secret"
  then (inl "forbidden", s) else sim_client A op s.

Lemma keep_secrets_agree : agree (mkMounter "zerofs") "pvc-1" "node-a" sim_client keep_secrets.
Proof.
  intros A op s Hop. unfold keep_secrets. destruct (_ && _) eqn:Hl; [|done]. exfalso.
  revert Hop Hl. generalize (string + A)%type op. intros T op'. by destruct op' as [| | | | | | |? ? []| | | | |].
Qed.

Lemma create_requests_witness :
  CreatePod (C:=sim_client) (mkMounter "zerofs") "pvc-1" "node-a" "zerofs-config" world0 =
  CreatePod (C:=keep_secrets) (mkMounter "zerofs") "pvc-1" "node-a" "zerofs-config" world0.
Proof.
  pose proof (create_requests (mkMounter "zerofs") "pvc-1" "node-a" sim_client keep_secrets keep_secrets_agree
    "zerofs-config" world0) as Hthm.
  exact Hthm.
Defined.

End witnesses.

End PodProps.
