(* ===== verification/S3Props.v ===== *)
(** * Deleting a prefix (pkg/csi/s3_cleanup.go): correctness

    What S3 documents about listing and deleting, as the class [S3Store], and the
    theorem that under it [deleteS3Prefix] ends and removes exactly the objects
    under the prefix, page by page.  Locations and prefixes are related to the URL
    that the ZeroFS configuration uses. *)

From S2P Require Import Prelude GoStrings GoPath GoUrl World Kube S3 Controller Zerofs SimNode.

Module S3Props.

(** ** A store *)

Definition after (token : option string) (k : string) : Prop :=
  match token with None => True | Some t => String.le t k ∧ k ≠ t end.

#[global] Instance after_dec token k : Decision (after token k).
Proof. destruct token; simpl; apply _. Defined.

(** The largest number of keys in a page and in a batch. *)
Definition page_size : nat := 1000.

(** The page that starts a listing of [ks], and the token for the next one. *)
Definition page_of (ks : list string) : Page :=
  mkPage (Some <$> take page_size ks)
    (if decide (page_size < length ks)%nat then last (take page_size ks) else None).

(** S3 lists the keys with a prefix in lexicographic order, at most a thousand to a
    page, and a listing goes on after the last key of the page before; deleting a
    batch of at most a thousand keys removes them and nothing else. *)
Class S3Store `{E : !Environment, SC : !S3Client} (objects : string → Sys ext → list string) := {
  objects_sorted b s : StronglySorted String.le (objects b s);
  objects_NoDup b s : NoDup (objects b s);
  objects_named b s k : k ∈ objects b s → k ≠ EmptyString;
  load_law cfg x : s3_load cfg x = None;
  list_law cfg b p token s :
    s3_list cfg b p token s =
      (inr (page_of (filter (λ k, HasPrefix k p = true ∧ after token k) (objects b s))), s);
  delete_law cfg b ks s : (length ks ≤ page_size)%nat →
    ∃ s', s3_delete cfg b ks s = (inr [], s') ∧ sys_fs s' = sys_fs s ∧
      objects b s' = filter (λ k, k ∉ ks) (objects b s) ∧
      ∀ b', b' ≠ b → objects b' s' = objects b' s;
}.

(** Filters that agree on the elements of a list. *)
Lemma filter_agree {A} (P1 P2 : A → Prop) `{!∀ x, Decision (P1 x), !∀ x, Decision (P2 x)} (l : list A) :
  (∀ x, x ∈ l → (P1 x ↔ P2 x)) → filter P1 l = filter P2 l.
Proof.
  induction l as [|x l IH]; intros Hall; [done|]. rewrite !filter_cons.
  rewrite IH by (intros; apply Hall; by right). destruct (Hall x) as [H1 H2]; [by left|].
  repeat case_decide; tauto || done.
Qed.

Lemma filter_true {A} (P : A → Prop) `{!∀ x, Decision (P x)} (l : list A) :
  (∀ x, x ∈ l → P x) → filter P l = l.
Proof.
  induction l as [|x l IH]; intros Hall; [done|]. rewrite filter_cons, decide_True by (apply Hall; by left).
  f_equal. apply IH. intros y Hy. apply Hall. by right.
Qed.

Lemma filter_none {A} (P : A → Prop) `{!∀ x, Decision (P x)} (l : list A) :
  (∀ x, x ∈ l → ¬ P x) → filter P l = [].
Proof.
  induction l as [|x l IH]; intros Hall; [done|]. rewrite filter_cons, decide_False by (apply Hall; by left).
  apply IH. intros y Hy. apply Hall. by right.
Qed.

Lemma filter_sorted {A} (R : relation A) (P : A → Prop) `{!∀ x, Decision (P x)} (l : list A) :
  StronglySorted R l → StronglySorted R (filter P l).
Proof.
  induction 1 as [|x l Hl IH Hx]; [constructor|]. rewrite filter_cons. case_decide; [|done].
  constructor; [done|]. apply Forall_forall. intros y Hy. apply list_elem_of_filter in Hy as [_ Hy].
  rewrite Forall_forall in Hx. by apply Hx.
Qed.

Lemma filter_drop_prefix {A} `{!EqDecision A} (l k : list A) :
  NoDup (l ++ k) → filter (λ x, x ∉ l) (l ++ k) = k.
Proof.
  intros (Hl & Hd & Hk)%NoDup_app. rewrite filter_app, filter_none, filter_true; [done| |].
  - intros x Hx Hin. by apply (Hd x).
  - intros x Hx Hn. done.
Qed.

Section store.
Context `{E : !Environment, SC : !S3Client} (objects : string → Sys ext → list string) `{ST : !S3Store objects}.

(** The keys of a bucket outside a prefix. *)
Definition outside (p : string) (ks : list string) : list string := filter (λ k, HasPrefix k p = false) ks.

(** What a deletion leaves: nothing under the prefix, everything else. *)
Definition deleted (b p : string) (s s' : Sys ext) : Prop :=
  sys_fs s' = sys_fs s ∧ objects b s' = outside p (objects b s) ∧
  ∀ b', b' ≠ b → objects b' s' = objects b' s.

Lemma page_keys_of ks : Forall (λ k, k ≠ EmptyString) ks → page_keys (page_of ks) = take page_size ks.
Proof.
  intros Hks. unfold page_keys, page_of. cbn [pg_contents].
  apply (Forall_take _ page_size) in Hks. induction Hks as [|k l Hk Hl IH]; [done|].
  cbn. rewrite decide_False by done. by f_equal.
Qed.

(** All that is left to delete is still to be listed. *)
Definition pending (b p : string) (token : option string) (s : Sys ext) : Prop :=
  ∀ k, k ∈ objects b s → HasPrefix k p = true → after token k.

Definition under (b p : string) (s : Sys ext) : list string := filter (λ k, HasPrefix k p = true) (objects b s).

Lemma pending_listing b p token s :
  pending b p token s →
  filter (λ k, HasPrefix k p = true ∧ after token k) (objects b s) = under b p s.
Proof.
  intros Hp. unfold under. apply filter_agree. intros k Hk. split; [by intros [? _]|].
  intros H. split; [done|]. by apply Hp.
Qed.

Lemma under_NoDup b p s : NoDup (under b p s).
Proof. apply NoDup_filter, objects_NoDup. Qed.

Lemma under_sorted b p s : StronglySorted String.le (under b p s).
Proof. apply filter_sorted, objects_sorted. Qed.

(** After a page is deleted the rest of the listing is left. *)
Lemma under_delete b p s s1 :
  objects b s1 = filter (λ k, k ∉ take page_size (under b p s)) (objects b s) →
  under b p s1 = drop page_size (under b p s).
Proof.
  intros Hs1. unfold under at 1. rewrite Hs1, list_filter_filter.
  set (pk := take page_size (under b p s)).
  transitivity (filter (λ k, k ∉ pk) (under b p s)).
  - unfold under. rewrite list_filter_filter. apply filter_agree. tauto.
  - rewrite <- (take_drop page_size (under b p s)) at 1. apply filter_drop_prefix.
    rewrite take_drop. apply under_NoDup.
Qed.

Lemma outside_agree b p s s1 :
  objects b s1 = filter (λ k, k ∉ take page_size (under b p s)) (objects b s) →
  outside p (objects b s1) = outside p (objects b s).
Proof.
  intros ->. unfold outside. rewrite list_filter_filter. apply filter_agree.
  intros k Hk. split; [by intros [? _]|]. intros Hf. split; [done|]. intros Hin.
  apply elem_of_take in Hin as (i & Hi & _). apply list_elem_of_lookup_2, list_elem_of_filter in Hi as [Ht _].
  congruence.
Qed.

Lemma outside_all b p s : under b p s = [] → outside p (objects b s) = objects b s.
Proof.
  intros Hu. apply filter_true. intros k Hk. apply not_true_iff_false. intros Hp.
  assert (k ∈ under b p s) as Hin by (by apply list_elem_of_filter). rewrite Hu in Hin. by apply elem_of_nil in Hin.
Qed.

Lemma take_all {A} n (l : list A) : (length l ≤ n)%nat → take n l = l.
Proof. apply take_ge. Qed.

(** The keys of the last page come before the rest. *)
Lemma pending_next b p s s1 t :
  objects b s1 = filter (λ k, k ∉ take page_size (under b p s)) (objects b s) →
  last (take page_size (under b p s)) = Some t → pending b p (Some t) s1.
Proof.
  intros Hs1 Ht k Hk Hp.
  assert (k ∈ drop page_size (under b p s)) as Hd.
  { rewrite <- (under_delete b p s s1 Hs1). by apply list_elem_of_filter. }
  apply last_Some_elem_of in Ht as Hin.
  pose proof (under_sorted b p s) as Hs. pose proof (under_NoDup b p s) as Hn.
  rewrite <- (take_drop page_size (under b p s)) in Hs, Hn.
  split; [by eapply StronglySorted_app_1_elem_of|].
  apply NoDup_app in Hn as (_ & Hdis & _). intros ->. by apply (Hdis t).
Qed.

Lemma deletePages_runs fuel cfg b p token s :
  pending b p token s → (length (under b p s) < fuel)%nat →
  ∃ s', runs (deletePages fuel cfg b p token) s (Some (inr tt)) s' ∧ deleted b p s s'.
Proof.
  revert token s. induction fuel as [|fuel IH]; intros token s Hpend Hfuel; [lia|].
  cbn [deletePages]. pose proof (list_law cfg b p token s) as Hlist.
  rewrite pending_listing in Hlist by done. set (ks := under b p s) in *.
  assert (runs (NextPage cfg b p token) s (inr (page_of ks)) s) as Hnext.
  { eapply runs_bind; [by apply runs_step|]. eapply runs_bind; [apply runs_emit|apply runs_ret]. }
  destruct (decide (ks = [])) as [Hnil|Hnil].
  { exists s. split.
    - eapply runs_bind; [exact Hnext|]. rewrite Hnil. apply runs_ret.
    - split; [done|]. split; [|done]. symmetry. by apply outside_all. }
  assert (∃ x l, pg_contents (page_of ks) = x :: l) as (x & l & Hcont).
  { destruct ks as [|k ks']; [done|]. cbn. eauto. }
  assert (page_keys (page_of ks) = take page_size ks) as Hkeys.
  { apply page_keys_of, Forall_forall. intros k Hk. apply list_elem_of_filter in Hk as [_ Hk].
    by eapply objects_named. }
  destruct (delete_law cfg b (take page_size ks) s) as (s1 & Hdel & Hfs & Hobj & Hother).
  { rewrite length_take. lia. }
  assert (runs (DeleteObjects cfg b (page_keys (page_of ks))) s (inr []) s1) as Hrun.
  { rewrite Hkeys. eapply runs_bind; [by apply runs_step|]. eapply runs_bind; [apply runs_emit|apply runs_ret]. }
  assert (∀ s', runs match pg_next (page_of ks) with
        | None => ret (Some (inr tt))
        | Some t => deletePages fuel cfg b p (Some t)
        end s1 (Some (inr tt)) s' → runs (deletePages (S fuel) cfg b p token) s (Some (inr tt)) s') as Hwhole.
  { intros s' Hs'. cbn [deletePages]. eapply runs_bind; [exact Hnext|]. cbv beta iota zeta.
    rewrite Hcont. eapply runs_bind; [exact Hrun|]. exact Hs'. }
  cbn [pg_next page_of] in Hwhole. case_decide as Hmore.
  - destruct (last (take page_size ks)) as [t|] eqn:Ht; [|exfalso].
    2: { apply last_None in Ht. by destruct ks. }
    destruct (IH (Some t) s1) as (s' & Hs' & Hd1 & Hd2 & Hd3).
    + by eapply pending_next.
    + rewrite (under_delete b p s s1 Hobj), length_drop. fold ks. unfold page_size in *. lia.
    + exists s'. split; [by apply Hwhole|]. split; [congruence|]. split.
      * rewrite Hd2. by apply outside_agree.
      * intros b' Hb'. rewrite Hd3, Hother by done. done.
  - exists s1. split; [apply Hwhole, runs_ret|]. split; [done|]. split; [|done].
    rewrite <- (outside_agree b p s s1 Hobj), outside_all; [done|].
    rewrite (under_delete b p s s1 Hobj). apply drop_ge. fold ks. lia.
Qed.

Lemma deleteS3Prefix_runs fuel cfg loc s :
  sc_Endpoint cfg ≠ EmptyString → sl_Bucket loc ≠ EmptyString → TrimSpace (sl_Prefix loc) ≠ EmptyString →
  sc_AllowHTTP cfg = true ∨ HasPrefix (sc_Endpoint cfg) "http://" = false →
  (length (objects (sl_Bucket loc) s) < fuel)%nat →
  ∃ s', runs (deleteS3Prefix fuel cfg loc) s (Some (inr tt)) s' ∧
    deleted (sl_Bucket loc) (TrimSpace (sl_Prefix loc)) s s'.
Proof.
  intros He Hb Hp Hh Hfuel. unfold deleteS3Prefix. rewrite decide_False by done. cbv zeta.
  cbn [sc_AllowHTTP sc_Endpoint].
  assert (negb (sc_AllowHTTP cfg) && HasPrefix (sc_Endpoint cfg) "http://" = false) as ->.
  { destruct Hh as [-> | ->]; [done|apply andb_false_r]. }
  rewrite !decide_False by done. set (cfg' := mkS3Config _ _ _ _ _ _).
  destruct (deletePages_runs fuel cfg' (sl_Bucket loc) (TrimSpace (sl_Prefix loc)) None s) as (s' & Hs' & Hd).
  - by intros k.
  - eapply Nat.le_lt_trans; [apply length_filter|done].
  - exists s'. split; [|done]. eapply runs_bind; [by apply runs_read|]. rewrite load_law. exact Hs'.
Qed.

(** C13: With an accepted configuration and a store that honours the listing and
    deletion contract, the paginated loop of deleteS3Prefix ends (fuel above the
    number of objects suffices) with success, after which the bucket holds exactly
    the objects that do not have the prefix and every other bucket is unchanged. *)
Theorem deleteS3Prefix_exact fuel cfg loc w :
  let b := sl_Bucket loc in
  let p := TrimSpace (sl_Prefix loc) in
  sc_Endpoint cfg ≠ EmptyString → b ≠ EmptyString → p ≠ EmptyString →
  sc_AllowHTTP cfg = true ∨ HasPrefix (sc_Endpoint cfg) "http://" = false →
  (length (objects b (w_sys w)) < fuel)%nat →
  (deleteS3Prefix fuel cfg loc w).1 = Some (inr tt) ∧
  objects b (w_sys (deleteS3Prefix fuel cfg loc w).2) =
    filter (λ k, HasPrefix k p = false) (objects b (w_sys w)) ∧
  ∀ b', b' ≠ b → objects b' (w_sys (deleteS3Prefix fuel cfg loc w).2) = objects b' (w_sys w).
Proof.
  cbv zeta. intros He Hb Hp Hh Hfuel.
  destruct (deleteS3Prefix_runs fuel cfg loc (w_sys w)) as (s' & Hm & Hd); [done..|].
  rewrite (runs_sys _ _ _ _ Hm). split; [by apply runs_result in Hm|]. apply Hd.
Qed.

End store.

(** ** Locations *)

Definition bucket_ok (b : string) : bool := bool_decide (b ≠ EmptyString) && forallb host_safe (bytes b).

(** A prefix in the form a storage URL should have it: nothing to trim or clean. *)
Definition prefix_ok (x : string) : bool :=
  bool_decide (x = EmptyString) ||
  (forallb path_safe (bytes x) && negb (is_rooted x) &&
   bool_decide (Clean x = x ∧ x ≠ "." ∧ TrimSpace x = x ∧ TrimByte slash x = x)).

Definition volume_ok (v : string) : bool :=
  plain v && forallb path_safe (bytes v) && bool_decide (TrimSpace v = v ∧ TrimByte slash v = v).

(** The storage URL of a bucket and a prefix. *)
Definition s3_url (b x : string) : string :=
  "s3://" +:+ b +:+ (if decide (x = EmptyString) then EmptyString else slash_s +:+ x).

Lemma forallb_safe f l : forallb f l = true → Forall (λ c : ascii, f c = true) l.
Proof. rewrite forallb_forall, Forall_forall. intros H x Hx. apply H. by apply list_elem_of_In. Qed.

Lemma parse_s3_url b p :
  bucket_ok b = true → Forall (λ c, path_safe c = true) (bytes p) → abs_or_empty (bytes p) →
  parseS3Location ("s3://" +:+ b +:+ p) = inr (mkLocation b (TrimPrefix p slash_s)).
Proof.
  unfold bucket_ok. intros [Hb%bool_decide_eq_true Hs%forallb_safe]%andb_prop Hp Habs.
  unfold parseS3Location. rewrite Parse_url_s3 by done. cbn [u_scheme u_host u_path].
  rewrite decide_False by (intros H; by apply H). by rewrite decide_False by done.
Qed.

Lemma join_prefix x v :
  prefix_ok x = true → volume_ok v = true →
  joinS3Prefix x v = if decide (x = EmptyString) then v else x +:+ slash_s +:+ v.
Proof.
  unfold prefix_ok, volume_ok. intros Hx [[Hv _]%andb_prop [Ht Hb]%bool_decide_eq_true]%andb_prop.
  unfold joinS3Prefix. rewrite Ht, Hb. apply orb_true_iff in Hx as [Hx%bool_decide_eq_true|Hx].
  - by rewrite Hx.
  - apply andb_prop in Hx as [[_ Hr%negb_true_iff]%andb_prop (Hc & Hd & Hs & Htb)%bool_decide_eq_true].
    rewrite Hs, Htb. case_decide; [done|]. by apply PathJoin_plain_rel.
Qed.

(** C23: For a storage URL s3://bucket/prefix already in normal form (a bucket of plain
    host characters; a prefix, perhaps empty, of plain path characters without
    leading, trailing or doubled slashes, dot segments or surrounding space; a
    volume name that is such a path component), the location that DeleteVolume
    deletes is the bucket and path of the storage URL the volume's ZeroFS server was
    configured with. (For other URLs they can differ: unclean_url_differs.) *)
Theorem delete_matches_config cm b x v :
  bucket_ok b = true → prefix_ok x = true → volume_ok v = true →
  go_get cm "storageURL" = s3_url b x →
  parseS3Location (go_get cm "storageURL") = inr (mkLocation b x) ∧
  parseS3Location (storageURL cm v) = inr (mkLocation b (joinS3Prefix x v)).
Proof.
  intros Hb Hx Hv Hcm. rewrite join_prefix by done.
  assert (Forall (λ c, path_safe c = true) (bytes x)) as Hxs.
  { unfold prefix_ok in Hx. apply orb_true_iff in Hx as [->%bool_decide_eq_true|Hx]; [done|].
    apply andb_prop in Hx as [[Hx _]%andb_prop _]. by apply forallb_safe. }
  assert (Forall (λ c, path_safe c = true) (bytes v)) as Hvs.
  { unfold volume_ok in Hv. apply andb_prop in Hv as [[_ Hv]%andb_prop _]. by apply forallb_safe. }
  assert (storageURL cm v = s3_url b x +:+ slash_s +:+ v) as ->.
  { unfold storageURL, cmp_Or. rewrite Hcm, decide_False; [done|]. by unfold s3_url. }
  rewrite Hcm. unfold s3_url. rewrite <- !(assoc_L String.append).
  assert (∀ p, Forall (λ c, path_safe c = true) (bytes p) →
    parseS3Location ("s3://" +:+ b +:+ slash_s +:+ p) = inr (mkLocation b p)) as Habs.
  { intros p Hp. rewrite parse_s3_url; [by rewrite TrimPrefix_app|done| |right; by eexists].
    rewrite bytes_app. apply Forall_app_2; [by repeat constructor|done]. }
  case_decide as Hx0.
  - subst x. split; [by apply (parse_s3_url b EmptyString); [..|left]|]. rewrite append_nil. by apply Habs.
  - split; [by apply Habs|]. rewrite <- (assoc_L String.append). apply Habs.
    rewrite !bytes_app. repeat apply Forall_app_2; [done|by repeat constructor|done].
Qed.

(** Without a URL in that form the two differ: with a trailing slash the server's path has
    a doubled slash, which the deleted prefix has not. *)
Theorem unclean_url_differs :
  let cm := {[ "storageURL" := "s3://zerofs/data/" ]} in
  parseS3Location (storageURL cm "pvc-1") = inr (mkLocation "zerofs" "data//pvc-1") ∧
  parseS3Location (go_get cm "storageURL") = inr (mkLocation "zerofs" "data/") ∧
  joinS3Prefix "data/" "pvc-1" = "data/pvc-1".
Proof. repeat split; by_compute. Qed.

(** A config map without a storage URL makes CreatePod use s3://zerofs, but
    deleteVolumeDataIfEnabled parses the missing URL itself and fails. *)
Theorem default_url_not_deletable :
  storageURL ∅ "pvc-1" = "s3://zerofs/pvc-1" ∧
  parseS3Location (go_get ∅ "storageURL") = inl (ErrScheme EmptyString).
Proof. split; by_compute. Qed.

(** ** A concrete store *)

Section simulation.
Import SimNode.

(** The keys of a bucket, sorted and without duplicates. *)
Definition sim_objects (b : string) (s : Sys ext) : list string :=
  merge_sort String.le (remove_dups (filter (λ k, k ≠ EmptyString)
    (snd <$> filter (λ o, o.1 = b) (nd_objects (sys_ext s))))).

(** A store in which the keys of [locked] cannot be deleted. *)
Definition sim_s3 (locked : list string) : S3Client := {|
  s3_load _ _ := None;
  s3_list _ b p token s :=
    (inr (page_of (filter (λ k, HasPrefix k p = true ∧ after token k) (sim_objects b s))), s);
  s3_delete _ b ks s :=
    (inr (filter (λ k, k ∈ locked) ks),
     with_node (λ n, set_objects (filter (λ o, ¬ (o.1 = b ∧ o.2 ∈ ks ∧ o.2 ∉ locked)) (nd_objects n)) n) s)
|}.

Lemma elem_of_sim_objects b s k :
  k ∈ sim_objects b s ↔ (b, k) ∈ nd_objects (sys_ext s) ∧ k ≠ EmptyString.
Proof.
  unfold sim_objects. rewrite merge_sort_Permutation, elem_of_remove_dups, list_elem_of_filter, list_elem_of_fmap.
  split.
  - intros (Hk & [b' k'] & -> & Hin). apply list_elem_of_filter in Hin as [<- Hin]. done.
  - intros [Hin Hk]. split; [done|]. exists (b, k). split; [done|]. by apply list_elem_of_filter.
Qed.

Lemma sim_sorted b s : StronglySorted String.le (sim_objects b s).
Proof. apply (StronglySorted_merge_sort String.le). Qed.

Lemma sim_NoDup b s : NoDup (sim_objects b s).
Proof. unfold sim_objects. rewrite merge_sort_Permutation. apply NoDup_remove_dups. Qed.

(** Sorted lists without duplicates and with the same elements are equal. *)
Lemma sorted_same (l k : list string) :
  StronglySorted String.le l → StronglySorted String.le k → NoDup l → NoDup k →
  (∀ x, x ∈ l ↔ x ∈ k) → l = k.
Proof.
  intros Hl Hk Hnl Hnk Hx. apply (StronglySorted_unique String.le); [done..|].
  by apply NoDup_Permutation.
Qed.

#[local] Instance sim_s3_client : S3Client := sim_s3 [].

#[local] Instance sim_store : S3Store sim_objects.
Proof.
  split.
  - apply sim_sorted.
  - apply sim_NoDup.
  - intros b s k Hk. by apply elem_of_sim_objects in Hk as [_ ?].
  - done.
  - done.
  - intros cfg b ks s _. eexists. split.
    { cbn. f_equal. f_equal. apply filter_none. intros k _ Hk. by apply elem_of_nil in Hk. }
    split; [done|]. split.
    + apply sorted_same; [apply sim_sorted|apply filter_sorted, sim_sorted|apply sim_NoDup|apply NoDup_filter, sim_NoDup|].
      intros k. rewrite list_elem_of_filter, !elem_of_sim_objects. cbn. rewrite list_elem_of_filter. cbn.
      split; [|naive_solver]. intros [[Hn Hin] Hk]. split; [|done]. intros Hks. apply Hn.
      split; [done|]. split; [done|]. apply not_elem_of_nil.
    + intros b' Hb'. apply sorted_same; [apply sim_sorted..|apply sim_NoDup|apply sim_NoDup|].
      intros k. rewrite !elem_of_sim_objects. cbn. rewrite list_elem_of_filter. cbn. naive_solver.
Qed.

(** Two volumes whose names share a prefix, and an object outside. *)
Definition objects0 : list (string * string) :=
  [("zerofs", "pvc-1/wal/1"); ("zerofs", "pvc-1/manifest"); ("zerofs", "pvc-10/manifest");
   ("zerofs", "other"); ("backup", "pvc-1/manifest")].

Definition s3_world : World := world_of fs0 (set_objects objects0 node0).

Definition s3_config0 : s3DeleteConfig := mkS3Config "http://minio:9000" EmptyString true "minio" "miniosecret" true.

Lemma deleteS3Prefix_exact_witness :
  (deleteS3Prefix 10 s3_config0 (mkLocation "zerofs" "pvc-1/") s3_world).1 = Some (inr tt) ∧
  sim_objects "zerofs" (w_sys (deleteS3Prefix 10 s3_config0 (mkLocation "zerofs" "pvc-1/") s3_world).2) =
    filter (λ k, HasPrefix k (TrimSpace "pvc-1/") = false) (sim_objects "zerofs" (w_sys s3_world)) ∧
  ∀ b', b' ≠ "zerofs" →
    sim_objects b' (w_sys (deleteS3Prefix 10 s3_config0 (mkLocation "zerofs" "pvc-1/") s3_world).2) =
    sim_objects b' (w_sys s3_world).
Proof.
  pose proof (deleteS3Prefix_exact sim_objects 10 s3_config0 (mkLocation "zerofs" "pvc-1/") s3_world) as Hthm.
  apply Hthm; [done|done|by intros [=]|by left|].
  apply (bool_decide_unpack (_ < 10)%nat). by_compute.
Defined.

(** C39: The prefix of pvc-1 has no trailing slash, so deleting pvc-1's data also
    deletes the objects of pvc-10. *)
Theorem sibling_volume_deleted :
  let p := joinS3Prefix EmptyString "pvc-1" in
  let r := deleteS3Prefix 10 s3_config0 (mkLocation "zerofs" p) s3_world in
  p = "pvc-1" ∧ r.1 = Some (inr tt) ∧
  "pvc-10/manifest" ∈ sim_objects "zerofs" (w_sys s3_world) ∧
  sim_objects "zerofs" (w_sys r.2) = ["other"].
Proof.
  split; [by_compute|]. split; [by_compute|]. split; [|by_compute].
  apply (bool_decide_unpack (_ ∈ _)). by_compute.
Qed.

(** C40: deleteS3Prefix reports success although the store refused to delete one of the
    objects: the error entries of the answer are not looked at. *)
Theorem refused_delete_ignored :
  let r := @deleteS3Prefix _ (sim_s3 ["pvc-1/manifest"]) 10 s3_config0 (mkLocation "zerofs" "pvc-1/") s3_world in
  r.1 = Some (inr tt) ∧ sim_objects "zerofs" (w_sys r.2) = ["other"; "pvc-1/manifest"; "pvc-10/manifest"].
Proof. split; by_compute. Qed.

Lemma delete_matches_config_witness :
  parseS3Location (go_get {[ "storageURL" := "s3://zerofs/data/prod" ]} "storageURL") =
    inr (mkLocation "zerofs" "data/prod") ∧
  parseS3Location (storageURL {[ "storageURL" := "s3://zerofs/data/prod" ]} "pvc-1") =
    inr (mkLocation "zerofs" (joinS3Prefix "data/prod" "pvc-1")).
Proof.
  pose proof (delete_matches_config {[ "storageURL" := "s3://zerofs/data/prod" ]} "zerofs" "data/prod" "pvc-1") as Hthm.
  apply Hthm; by_compute.
Defined.

End simulation.

End S3Props.
