(* ===== verification/ControllerProps.v ===== *)
(** * Correctness of the controller service (pkg/csi/controller.go, controller_delete.go)

    A created volume carries the storage class's parameters and its capacity to the
    node; deleting a volume touches object storage only when its storage class asks
    for it, and then only under the volume's own prefix. *)

From S2P Require Import Prelude GoStrings GoPath GoUrl World Metrics Kube Zerofs S3 Controller Nbd Node NodeFrame.
From S2P Require Import NodeTrace SimRun ZerofsProps S3Props.

Import NodeTrace ZerofsProps S3Props.

Local Open Scope Z_scope.

Module ControllerProps.

(** ** Creating *)

(** C29: CreateVolume rejects an empty name and missing capabilities without touching
    the parameters; otherwise the volume has the request's name and capacity, its
    context is the parameters plus a capacity_bytes entry that parses back to the
    capacity, and a parameters map of the request is that same shared map. *)
Theorem createVolume_spec req :
  match CreateVolume req with
  | (inl e, params) =>
      params = cr_parameters req ∧
      (e = EmptyName ∧ cr_name req = EmptyString ∨
       e = NoCapabilities ∧ cr_name req ≠ EmptyString ∧ cr_capabilities req = None)
  | (inr vol, params) =>
      cr_name req ≠ EmptyString ∧ is_Some (cr_capabilities req) ∧
      cv_id vol = cr_name req ∧ cv_capacity vol = GetRequiredBytes req ∧
      (min_int64 ≤ GetRequiredBytes req ≤ max_int64 →
         ∃ s, cv_context vol !! "capacity_bytes" = Some s ∧ ParseInt s = (GetRequiredBytes req, None)) ∧
      (∀ k, k ≠ "capacity_bytes" → cv_context vol !! k = default ∅ (cr_parameters req) !! k) ∧
      (∀ m, params = Some m → m = cv_context vol)
  end.
Proof.
  unfold CreateVolume. case_decide as Hn; [by auto|].
  destruct (cr_capabilities req) eqn:Hc; [|by auto]. cbn [cv_id cv_capacity cv_context].
  split; [done|]. split; [by eexists|]. split; [done|]. split; [done|]. split.
  - intros Hr. exists (Sprint_d (GetRequiredBytes req)). rewrite lookup_insert_eq. split; [done|].
    by apply ParseInt_Sprint_d.
  - split; [intros k Hk; by rewrite lookup_insert_ne|]. intros m. by destruct (cr_parameters req); intros [= <-].
Qed.

(** ** Deleting *)

Section delete.
Context `{E : !Environment, C : !KubeClient, SC : !S3Client}.

Definition is_s3 (e : event) : bool := match e with EvS3 _ _ _ _ => true | _ => false end.

Definition no_s3 : list event → Prop := Forall (λ e, is_s3 e = false).

#[local] Instance no_s3_benign : Benign no_s3.
Proof. split; try (unfold no_s3; apply _); intros; repeat constructor; try done. by destruct e. Qed.

(** An event of the deletion of the prefix [p] of the bucket [b]. *)
Definition s3_within (b p : string) (e : event) : Prop :=
  match e with
  | EvS3 call b' ks _ => b' = b ∧ (call = "list" ∧ ks = [p] ∨ call = "delete")
  | _ => True
  end.

(** The deletion of the data of [v] for the storage class [sc], from [w] to [w']: the
    location is the one of the class's config map, and what follows stays within it. *)
Definition data_deleted (m : zerofsMounter) (v : string) (sc : StorageClass) (w w' : World) : Prop :=
  ∃ cfg w1 loc,
    let b := sl_Bucket loc in
    let p := TrimSpace (joinS3Prefix (sl_Prefix loc) v) in
    kube (GetConfigMap (zm_namespace m) (TrimSpace (go_get (sc_parameters sc) "configMapName"))) w =
      (inr cfg, w1) ∧
    parseS3Location (go_get (cm_data cfg) "storageURL") = inr loc ∧
    b ≠ EmptyString ∧ p ≠ EmptyString ∧ emits (Forall (s3_within b p)) w1 w'.

(** The deletion was enabled: from [w], where the pod is gone, the persistent volume
    is found, its storage class is read, and that class asks for the deletion. *)
Definition deletion_enabled (m : zerofsMounter) (v : string) (w w' : World) : Prop :=
  ∃ pv w1 name w2 sc w3,
    findPersistentVolume v w = (inr (Some pv), w1) ∧
    storageClassName pv w1 = (name, w2) ∧ name ≠ EmptyString ∧
    kube (GetStorageClass name) w2 = (inr sc, w3) ∧
    EqualFold (TrimSpace (go_get (sc_parameters sc) "deleteDataOnPVCDelete")) "true" = true ∧
    emits no_s3 w w3 ∧ data_deleted m v sc w3 w'.

Lemma within_no_s3 b p evs : no_s3 evs → Forall (s3_within b p) evs.
Proof. intros Hn. eapply Forall_impl; [exact Hn|]. by intros []. Qed.

Lemma deletePages_within fuel cfg b p token :
  respects (emits (Forall (s3_within b p))) (deletePages fuel cfg b p token).
Proof.
  assert (∀ tok, respects (emits (Forall (s3_within b p))) (NextPage cfg b p tok)).
  { intros tok. unfold NextPage. solve_respects. apply emits_emit. constructor; [|done]. split; [done|by left]. }
  assert (∀ ks, respects (emits (Forall (s3_within b p))) (DeleteObjects cfg b ks)).
  { intros ks. unfold DeleteObjects. solve_respects. apply emits_emit. constructor; [|done]. split; [done|by right]. }
  revert token. induction fuel as [|fuel IH]; intros token; cbn [deletePages]; solve_respects.
Qed.

Lemma deleteS3Prefix_within fuel cfg loc :
  respects (emits (λ evs, evs = [] ∨
      sl_Bucket loc ≠ EmptyString ∧ TrimSpace (sl_Prefix loc) ≠ EmptyString ∧
      Forall (s3_within (sl_Bucket loc) (TrimSpace (sl_Prefix loc))) evs))
    (deleteS3Prefix fuel cfg loc).
Proof.
  unfold deleteS3Prefix. cbv zeta.
  case_decide; [by apply emits_ret; left|].
  set (cfg' := mkS3Config _ _ _ _ _ _). clearbody cfg'. case_match; [by apply emits_ret; left|].
  case_decide; [by apply emits_ret; left|]. case_decide; [by apply emits_ret; left|].
  apply emits_quiet; [intros w; exists []; by rewrite app_nil_r|]. intros [err|]; [by apply emits_ret; left|].
  eapply emits_mono; [|apply deletePages_within]. by right.
Qed.

Lemma quiet_kube {A} (op : kube_op (string + A)) w r w' : kube op w = (r, w') → emits no_s3 w w'.
Proof. intros Hk. pose proof (frame_kube (R:=emits no_s3) A op w) as Hq. by rewrite Hk in Hq. Qed.

(** The deletion proper, once enabled. *)
Lemma deleteVolumeData_run fuel m v scName sc w :
  wp (deleteVolumeData fuel m v scName sc) (λ _ w', emits no_s3 w w' ∨ data_deleted m v sc w w') w.
Proof.
  unfold deleteVolumeData. cbv zeta. case_decide; [apply wp_ret; left; reflexivity|]. wp_step; unfold wp at 1.
  destruct (kube _ w) as [[err|cfg] w1] eqn:Hcfg; cbn [fst snd]; [apply wp_ret; left; by eapply quiet_kube|].
  destruct (parseS3Location _) as [err|loc] eqn:Hloc; [apply wp_ret; left; by eapply quiet_kube|].
  case_decide; [apply wp_ret; left; by eapply quiet_kube|]. wp_step; unfold wp at 1.
  destruct (kube _ w1) as [[err|creds] w2] eqn:Hsec; cbn [fst snd];
    pose proof (quiet_kube _ _ _ _ Hcfg) as H1; pose proof (quiet_kube _ _ _ _ Hsec) as H2;
    [apply wp_ret; left; by etrans|].
  case_decide; [apply wp_ret; left; by etrans|]. wp_step; unfold wp at 1; apply wp_ret.
  match goal with |- context [deleteS3Prefix fuel ?c ?l w2] =>
    destruct (deleteS3Prefix_within fuel c l w2) as (evs & Hevs & [->|(Hb & Hp & Hf)]) end; cbn [sl_Bucket sl_Prefix] in *.
  - left. etrans; [exact H1|]. etrans; [exact H2|]. exists []. by split; [|constructor].
  - right. exists cfg, w1, loc. cbv zeta. repeat (split; [done|]).
    destruct H2 as (l & Hl & Hn). exists (l ++ evs). split; [etrans; [exact Hevs|by rewrite Hl, app_assoc]|].
    apply Forall_app_2; [by apply within_no_s3|done].
Qed.

Lemma deleteVolumeDataIfEnabled_run fuel m v w :
  wp (deleteVolumeDataIfEnabled fuel (mkController (Some m)) v)
    (λ _ w', emits no_s3 w w' ∨ deletion_enabled m v w w') w.
Proof.
  unfold deleteVolumeDataIfEnabled. cbn [cs_mounter]. wp_step; unfold wp at 1.
  assert (respects (emits no_s3) (findPersistentVolume v)) as Hpv by (unfold findPersistentVolume; solve_respects).
  specialize (Hpv w). destruct (findPersistentVolume v w) as [[e|[pv|]] w1] eqn:Hfind; cbn [fst snd] in *;
    [by apply wp_ret; left| |by apply wp_ret; left]. wp_step; unfold wp at 1.
  assert (respects (emits no_s3) (storageClassName pv)) as Hsc by (unfold storageClassName; solve_respects).
  specialize (Hsc w1). destruct (storageClassName pv w1) as [name w2] eqn:Hname; cbn [fst snd] in *.
  case_decide; [apply wp_ret; left; by etrans|]. wp_step; unfold wp at 1.
  destruct (kube (GetStorageClass name) w2) as [[e|sc] w3] eqn:Hget; cbn [fst snd];
    (assert (emits no_s3 w w3) as Hq by
      (etrans; [exact Hpv|]; etrans; [exact Hsc|by eapply quiet_kube])); [by apply wp_ret; left|].
  destruct (EqualFold _ "true") eqn:Hflag; [|by apply wp_ret; left].
  eapply wp_mono; [apply deleteVolumeData_run|]. intros _ w' [Hd|Hd]; [left; by etrans|].
  right. exists pv, w1, name, w2, sc, w3. by repeat (split; [done|]).
Qed.

(** A read of the cluster, or a call to object storage. *)
Definition reads_or_s3 (e : event) : Prop :=
  match e with EvKube verb _ _ _ _ => verb ∈ ["get"; "list"] | EvS3 _ _ _ _ => True | _ => False end.

Lemma reads_kube {A} (op : kube_op (string + A)) :
  (op_label op).1.1.1 ∈ ["get"; "list"] → respects (emits (Forall reads_or_s3)) (kube op).
Proof. intros Hop. apply emits_kube; [apply _|]. intros r. apply Forall_cons_2; [exact Hop|apply Forall_nil_2]. Qed.

Lemma reads_deletePages fuel cfg b p token : respects (emits (Forall reads_or_s3)) (deletePages fuel cfg b p token).
Proof.
  revert token. induction fuel as [|fuel IH]; intros token; cbn [deletePages];
    unfold NextPage, DeleteObjects; solve_respects; apply emits_emit; by repeat constructor.
Qed.

Lemma deleteVolumeDataIfEnabled_reads fuel cs v :
  respects (emits (Forall reads_or_s3)) (deleteVolumeDataIfEnabled fuel cs v).
Proof.
  pose proof reads_deletePages. unfold deleteVolumeDataIfEnabled, findPersistentVolume, storageClassName,
    deleteVolumeData, deleteS3Prefix.
  solve_respects; apply reads_kube; set_solver.
Qed.

(** C14: DeleteVolume makes no S3 call, in any environment, unless after the pod is
    removed it finds the persistent volume, reads its storage class, and that class
    has deleteDataOnPVCDelete true; then every S3 call is on the bucket of the
    storage URL of the class's config map, and every listing is of the volume's own
    non-empty prefix there. *)
Theorem deleteVolume_guarded fuel cs v w :
  emits no_s3 w (DeleteVolume fuel cs v w).2 ∨
  ∃ m, cs_mounter cs = Some m ∧ emits no_s3 w (RemovePod m v w).2 ∧
    deletion_enabled m v (RemovePod m v w).2 (DeleteVolume fuel cs v w).2.
Proof.
  unfold DeleteVolume. case_decide; [left; reflexivity|].
  destruct cs as [[m|]]; cbn [cs_mounter]; [|left; exists []; by rewrite app_nil_r; split; [|constructor]].
  assert (respects (emits no_s3) (RemovePod m v)) as Hr by solve_respects. specialize (Hr w).
  destruct (deleteVolumeDataIfEnabled_run fuel m v (RemovePod m v w).2) as [Hd|Hd]; [left; by etrans|].
  right. by exists m.
Qed.

End delete.

(** ** Deleting, end to end *)

Section removal.
Context `{E : !Environment, C : !KubeClient, SC : !S3Client} (objects : string → Sys ext → list string).
Context `{ST : !S3Store objects}.

(** The API calls that removing the pod of a volume makes, and reads. *)
Definition harmless (v : string) {A} (op : kube_op A) : bool :=
  match op with
  | CreateSecret _ | UpdateSecret _ | CreatePodOp _ => false
  | DeleteSecret _ n => bool_decide (n = secretName v)
  | _ => true
  end.

(** [I] is not disturbed by them, nor by the passing of time. *)
Class Steady (v : string) (I : Sys ext → Prop) := {
  steady_kube A (op : kube_op (string + A)) s : harmless v op = true → I s → I (kube_do op s).2;
  steady_select deadline start i s : I s → I (env_select deadline start i s).2;
}.

(** What the cluster holds for a volume whose storage class asks for the deletion: the
    objects the controller looks up, and a configuration it accepts. *)
Record Deletable (m : zerofsMounter) (v : string) (I : Sys ext → Prop) (loc : s3Location) := {
  dl_pv : PersistentVolume; dl_sc : StorageClass; dl_cfg : ConfigMap; dl_creds : Secret;
  dl_class : string; dl_map : string; dl_secret : string;
  dl_get_pv s : I s → (kube_do (GetPV v) s).1 = inr dl_pv;
  dl_class_eq : TrimSpace (pv_storageClassName dl_pv) = dl_class;
  dl_class_named : dl_class ≠ EmptyString;
  dl_get_sc s : I s → (kube_do (GetStorageClass dl_class) s).1 = inr dl_sc;
  dl_asked : EqualFold (TrimSpace (go_get (sc_parameters dl_sc) "deleteDataOnPVCDelete")) "true" = true;
  dl_map_eq : TrimSpace (go_get (sc_parameters dl_sc) "configMapName") = dl_map;
  dl_map_named : dl_map ≠ EmptyString;
  dl_get_cfg s : I s → (kube_do (GetConfigMap (zm_namespace m) dl_map) s).1 = inr dl_cfg;
  dl_url : parseS3Location (go_get (cm_data dl_cfg) "storageURL") = inr loc;
  dl_secret_eq : TrimSpace (go_get (cm_data dl_cfg) "awsCredentialsSecretName") = dl_secret;
  dl_secret_named : dl_secret ≠ EmptyString;
  dl_get_creds s : I s → (kube_do (GetSecret (zm_namespace m) dl_secret) s).1 = inr dl_creds;
  dl_access : credentialKey (sec_data dl_creds) "AWS_ACCESS_KEY_ID" "username" ≠ EmptyString;
  dl_key : credentialKey (sec_data dl_creds) "AWS_SECRET_ACCESS_KEY" "password" ≠ EmptyString;
  dl_endpoint : TrimSpace (go_get (cm_data dl_cfg) "awsEndpoint") ≠ EmptyString;
  dl_scheme : EqualFold (TrimSpace (go_get (cm_data dl_cfg) "awsAllowHTTP")) "true" = true ∨
    HasPrefix (TrimSpace (go_get (cm_data dl_cfg) "awsEndpoint")) "http://" = false;
}.

Section volume.
Context (m : zerofsMounter) (v : string) (I : Sys ext → Prop) `{SI : !Steady v I} (loc : s3Location).

Definition steadily (w w' : World) : Prop := I (w_sys w) → I (w_sys w').

#[local] Instance steadily_preorder : PreOrder steadily.
Proof. split; [by intros w H|]. intros w1 w2 w3 H1 H2 H. by apply H2, H1. Qed.

Lemma steadily_kube {A} (op : kube_op (string + A)) : harmless v op = true → respects steadily (kube op).
Proof. intros Hop w Hw. by apply steady_kube. Qed.

Lemma steadily_select deadline start i : respects steadily (select deadline start i).
Proof. intros w Hw. by apply steady_select. Qed.

Lemma steadily_RemovePod : respects steadily (RemovePod m v).
Proof.
  pose proof steadily_select as Ht.
  assert (∀ n ns, respects steadily (kube (GetPod ns n))) as H1 by (intros; by apply steadily_kube).
  assert (∀ n ns g p, respects steadily (kube (DeletePod ns n g p))) as H2 by (intros; by apply steadily_kube).
  assert (∀ ns, respects steadily (kube (DeleteSecret ns (secretName v)))) as H3.
  { intros. apply steadily_kube. cbn. by apply bool_decide_eq_true. }
  assert (∀ n i dl st name ns, respects steadily (deletionLoop n i dl st name ns)).
  { induction n as [|n IH]; intros; cbn [deletionLoop]; unfold fail; solve_respects. }
  unfold RemovePod, removePodObject, forceDelete, waitForPodDeletion, time_Now, fail. solve_respects.
Qed.

(** A lookup the cluster answers. *)
Lemma lookup_runs {A} (op : kube_op (string + A)) a s :
  harmless v op = true → I s → (kube_do op s).1 = inr a → ∃ s', runs (kube op) s (inr a) s' ∧ I s'.
Proof.
  intros Hop Hs Ha. pose proof (steady_kube A op s Hop Hs) as Hs'.
  destruct (kube_do op s) as [r s'] eqn:Hk. cbn [fst snd] in *. subst r. exists s'. split; [|done].
  eapply runs_bind; [by apply runs_step|]. eapply runs_bind; [apply runs_emit|apply runs_ret].
Qed.

Context (D : Deletable m v I loc).

Abbreviation target := (mkLocation (sl_Bucket loc) (joinS3Prefix (sl_Prefix loc) v)).

Lemma deleteVolumeData_runs fuel s :
  I s → sl_Bucket loc ≠ EmptyString → TrimSpace (joinS3Prefix (sl_Prefix loc) v) ≠ EmptyString →
  (∀ s', I s' → (length (objects (sl_Bucket loc) s') < fuel)%nat) →
  ∃ s1 s', I s1 ∧ runs (deleteVolumeData fuel m v (dl_class _ _ _ _ D) (dl_sc _ _ _ _ D)) s (Some (inr tt)) s' ∧
    deleted objects (sl_Bucket loc) (TrimSpace (joinS3Prefix (sl_Prefix loc) v)) s1 s'.
Proof.
  intros Hs Hb Hp Hfuel. destruct D as [pv sc cfg creds cl mp sec Hpv Hcl Hcln Hsc Hask Hmp Hmpn Hcfg Hurl Hsec
    Hsecn Hcreds Hak Hsk Hep Hsch]. cbn [dl_class dl_sc].
  destruct (lookup_runs (GetConfigMap (zm_namespace m) mp) cfg s) as (s1 & H1 & Hs1); [done|done|by apply Hcfg|].
  destruct (lookup_runs (GetSecret (zm_namespace m) sec) creds s1) as (s2 & H2 & Hs2); [done|done|by apply Hcreds|].
  destruct (deleteS3Prefix_runs objects fuel (deleteConfig (cm_data cfg)
      (credentialKey (sec_data creds) "AWS_ACCESS_KEY_ID" "username")
      (credentialKey (sec_data creds) "AWS_SECRET_ACCESS_KEY" "password")) target s2)
    as (s' & Hdel & Hd); [done|done|done|done|by apply Hfuel|].
  exists s2, s'. split; [done|]. split; [|done]. unfold deleteVolumeData. cbv zeta. rewrite Hmp, decide_False by done.
  eapply runs_bind; [exact H1|]. cbv beta iota. rewrite Hurl. cbv beta iota. rewrite Hsec, decide_False by done.
  eapply runs_bind; [exact H2|]. cbv beta iota. rewrite decide_False by tauto.
  eapply runs_bind; [exact Hdel|apply runs_ret].
Qed.

Lemma deleteIfEnabled_runs fuel s :
  I s → sl_Bucket loc ≠ EmptyString → TrimSpace (joinS3Prefix (sl_Prefix loc) v) ≠ EmptyString →
  (∀ s', I s' → (length (objects (sl_Bucket loc) s') < fuel)%nat) →
  ∃ s1 s', I s1 ∧ runs (deleteVolumeDataIfEnabled fuel (mkController (Some m)) v) s (Some (inr tt)) s' ∧
    deleted objects (sl_Bucket loc) (TrimSpace (joinS3Prefix (sl_Prefix loc) v)) s1 s'.
Proof.
  intros Hs Hb Hp Hfuel. pose proof (deleteVolumeData_runs fuel) as Hdata.
  destruct D as [pv sc cfg creds cl mp sec Hpv Hcl Hcln Hsc Hask]. cbn [dl_class dl_sc] in Hdata.
  destruct (lookup_runs (GetPV v) pv s) as (s1 & H1 & Hs1); [done|done|by apply Hpv|].
  destruct (lookup_runs (GetStorageClass cl) sc s1) as (s2 & H2 & Hs2); [done|done|by apply Hsc|].
  destruct (Hdata s2 Hs2 Hb Hp Hfuel) as (s3 & s' & Hs3 & Hrun & Hd). exists s3, s'. split; [done|]. split; [|done].
  unfold deleteVolumeDataIfEnabled. cbn [cs_mounter].
  eapply runs_bind; [unfold findPersistentVolume; eapply runs_bind; [exact H1|apply runs_ret]|].
  eapply (runs_bind _ _ _ cl s1).
  { unfold storageClassName. cbv zeta. rewrite Hcl. destruct (pv_claimRef pv) as [[ns n]|]; [|apply runs_ret].
    rewrite decide_False by done. apply runs_ret. }
  cbv beta iota. rewrite decide_False by done. eapply runs_bind; [exact H2|]. cbv beta iota. rewrite Hask. exact Hrun.
Qed.

(** C12: DeleteVolume end to end: for a volume whose persistent volume, storage class
    with the opt-in, config map and credentials the cluster holds, and whose objects
    the API calls and the passing of time leave alone, with a store that honours the
    S3 contract, DeleteVolume first makes the calls of RemovePod for the volume
    (read, deletion, wait and escalation for the pod, then the secret), then only
    reads the cluster and calls S3, succeeds (fuel above the number of objects
    suffices), and afterwards exactly the objects under the volume's prefix in the
    bucket of the storage URL are gone. *)
Theorem deleteVolume_deletes fuel w :
  I (w_sys w) → v ≠ EmptyString → sl_Bucket loc ≠ EmptyString →
  TrimSpace (joinS3Prefix (sl_Prefix loc) v) ≠ EmptyString →
  (∀ b s, I s → objects b s = objects b (w_sys w)) →
  (length (objects (sl_Bucket loc) (w_sys w)) < fuel)%nat →
  (DeleteVolume fuel (mkController (Some m)) v w).1 = Some (inr tt) ∧
  (∃ r removal rest, w_trace (DeleteVolume fuel (mkController (Some m)) v w).2 = w_trace w ++ removal ++ rest ∧
     removed v (zm_namespace m) r removal ∧ Forall reads_or_s3 rest) ∧
  ∀ b, objects b (w_sys (DeleteVolume fuel (mkController (Some m)) v w).2) =
    filter (λ k, ¬ (b = sl_Bucket loc ∧ HasPrefix k (TrimSpace (joinS3Prefix (sl_Prefix loc) v)) = true))
      (objects b (w_sys w)).
Proof.
  intros Hw Hv Hb Hp Hobj Hfuel. set (w1 := (RemovePod m v w).2).
  assert (I (w_sys w1)) as Hw1 by (by apply steadily_RemovePod).
  destruct (deleteIfEnabled_runs fuel (w_sys w1) Hw1 Hb Hp) as (s1 & s' & Hs1 & Hrun & _ & Hin & Hout).
  { intros s Hs. by rewrite Hobj. }
  assert (DeleteVolume fuel (mkController (Some m)) v w =
    (let r := deleteVolumeDataIfEnabled fuel (mkController (Some m)) v w1 in
     (match r.1 with None => None | Some (inl err) => Some (inl (DataError err)) | Some (inr _) => Some (inr tt) end, r.2))) as ->.
  { unfold DeleteVolume. by rewrite decide_False. }
  cbv zeta. cbn [fst snd]. rewrite (runs_result _ _ _ _ Hrun), (runs_sys _ _ _ _ Hrun). split; [done|].
  split.
  { destruct (RemovePod_yields m v w) as (removal & Hrem & Hr).
    destruct (deleteVolumeDataIfEnabled_reads fuel (mkController (Some m)) v w1) as (rest & Hrest & Hf).
    exists (RemovePod m v w).1, removal, rest. split; [|done]. by rewrite Hrest, app_assoc, <- Hrem. }
  intros b. destruct (decide (b = sl_Bucket loc)) as [->|Hne].
  - rewrite Hin, (Hobj _ s1 Hs1). apply filter_agree. intros k _.
    split; [intros Hk [_ Hk']; congruence|]. intros Hk. apply not_true_iff_false. tauto.
  - rewrite (Hout b Hne), (Hobj _ s1 Hs1). symmetry. apply filter_true. by intros k _ [? _].
Qed.

End volume.

End removal.

(** ** On the concrete node *)

Section witnesses.
Import SimRun.

#[local] Existing Instances sim_s3_client sim_store.

Definition class0 : StorageClass :=
  mkSC (list_to_map [("deleteDataOnPVCDelete", "True"); ("configMapName", "zerofs-config")]).

Definition creds0 : Secret := secret0 [("username", "minio"); ("password", "miniosecret")].

Definition config1 : ConfigMap :=
  mkConfigMap (<["storageURL" := "s3://zerofs/data"]> (<["awsAllowHTTP" := "true"]> config0)).

(** Two volumes with data under the prefix of the storage URL. *)
Definition keys1 : list (string * string) :=
  [("zerofs", "data/pvc-1/wal/1"); ("zerofs", "data/pvc-1/manifest"); ("zerofs", "data/pvc-2/manifest");
   ("backup", "data/pvc-1/manifest")].

Definition cluster1 : Cluster := mkCluster ∅ (cl_secrets cluster0)
  (list_to_map [(("zerofs", "zerofs-config"), config1)]) (cl_daemonsets cluster0)
  [("pvc-1", mkPV "zerofs-class" None (Some "pvc-1"))] ∅ {[ "zerofs-class" := class0 ]}.

Definition delete_world : World := world_of fs0 (set_objects keys1 (set_cluster cluster1 node0)).

(** The part of the cluster that the deletion reads is as it was. *)
Definition intact (s : sys) : Prop :=
  let c := nd_cluster (sys_ext s) in
  cl_pvs c = cl_pvs cluster1 ∧ cl_scs c = cl_scs cluster1 ∧ cl_configmaps c = cl_configmaps cluster1 ∧
  cl_secrets c !! ("zerofs", "minio-zerofs-credentials") = Some creds0 ∧ nd_objects (sys_ext s) = keys1.

#[local] Instance intact_steady : Steady "pvc-1" intact.
Proof.
  split; [|intros deadline start i s Hs; simpl; by case_match]. intros A op s. unfold kube_do, sim_client.
  cut (∀ T (op : kube_op T) (s : sys), harmless "pvc-1" op = true → intact s → intact (sim_kube op s).2); [auto|].
  clear A op s. intros T op s Hop Hs. destruct op; cbn in Hop; try done; cbn; try (repeat case_match; done).
  apply bool_decide_eq_true in Hop as ->. case_match; [|done].
  destruct Hs as (H1 & H2 & H3 & H4 & H5). split_and!; [done|done|done| |done]. cbn.
  rewrite lookup_delete_ne; [done|]. intros [= _ Hn].
Qed.

Lemma intact_deletable : Deletable (mkMounter "zerofs") "pvc-1" intact (mkLocation "zerofs" "data").
Proof.
  refine {| dl_pv := mkPV "zerofs-class" None (Some "pvc-1"); dl_sc := class0; dl_cfg := config1;
    dl_creds := creds0; dl_class := "zerofs-class"; dl_map := "zerofs-config";
    dl_secret := "minio-zerofs-credentials" |}.
  - intros s (H & _). cbn. by rewrite H.
  - by_compute.
  - done.
  - intros s (_ & H & _). cbn. by rewrite H.
  - by_compute.
  - by_compute.
  - done.
  - intros s (_ & _ & H & _). cbn. by rewrite H.
  - by_compute.
  - by_compute.
  - done.
  - intros s (_ & _ & _ & H & _). cbn. by rewrite H.
  - apply (bool_decide_unpack (_ ≠ EmptyString)). by_compute.
  - apply (bool_decide_unpack (_ ≠ EmptyString)). by_compute.
  - apply (bool_decide_unpack (_ ≠ EmptyString)). by_compute.
  - left. by_compute.
Qed.

Lemma deleteVolume_deletes_witness :
  (DeleteVolume 10 (mkController (Some (mkMounter "zerofs"))) "pvc-1" delete_world).1 = Some (inr tt) ∧
  (∃ r removal rest,
     w_trace (DeleteVolume 10 (mkController (Some (mkMounter "zerofs"))) "pvc-1" delete_world).2 =
       w_trace delete_world ++ removal ++ rest ∧
     removed "pvc-1" "zerofs" r removal ∧ Forall reads_or_s3 rest) ∧
  ∀ b, sim_objects b (w_sys (DeleteVolume 10 (mkController (Some (mkMounter "zerofs"))) "pvc-1" delete_world).2) =
    filter (λ k, ¬ (b = "zerofs" ∧ HasPrefix k (TrimSpace (joinS3Prefix "data" "pvc-1")) = true))
      (sim_objects b (w_sys delete_world)).
Proof.
  pose proof (deleteVolume_deletes sim_objects (mkMounter "zerofs") "pvc-1" intact (mkLocation "zerofs" "data")
    intact_deletable 10 delete_world) as Hthm.
  cbn [sl_Bucket sl_Prefix] in Hthm. apply Hthm; clear Hthm.
  - split_and!; reflexivity.
  - done.
  - done.
  - apply (bool_decide_unpack (_ ≠ EmptyString)). by_compute.
  - intros b s (_ & _ & _ & _ & Ho). unfold sim_objects.
    change (nd_objects (sys_ext s)) with (@nd_objects (@sys_ext Node s)). by rewrite Ho.
  - apply (bool_decide_unpack (_ < 10)%nat). by_compute.
Defined.

End witnesses.

End ControllerProps.
