(* ===== verification/StatsProps.v ===== *)
(** * Volume statistics and file system commands (pkg/csi/node.go)

    [NodeGetVolumeStats] reads the numbers that [df -B1] prints, whatever the
    padding of its columns; [mkfsCommand] always formats the device it was given. *)

From S2P Require Import Prelude GoStrings GoPath World Metrics Kube Zerofs Nbd Node SimRun.
From stdpp Require Import pretty.

Local Open Scope Z_scope.

Module StatsProps.

(** ** Fields *)

Definition visible_all (s : string) : bool := forallb visible (bytes s).

Fixpoint pad (k : nat) : string := match k with O => EmptyString | S k' => String (byte 32) (pad k') end.

Lemma fields_word n word w r :
  forallb visible w = true →
  fields_fuel (length w + n) word (w ++ r) = fields_fuel n (reverse w ++ word) r.
Proof.
  revert word. induction w as [|c w IH]; intros word Hw; [done|].
  simpl in Hw. apply andb_prop in Hw as [Hc Hw]. cbn [length app Nat.add fields_fuel].
  rewrite cut_space_visible by (done || by_compute). rewrite IH by done.
  by rewrite reverse_cons, <- app_assoc.
Qed.

Lemma Fields_word w rest :
  visible_all w = true → w ≠ EmptyString → Fields (w +:+ String (byte 32) rest) = w :: Fields rest.
Proof.
  intros Hw Hne. unfold Fields. rewrite bytes_app. cbn [bytes String.list_ascii_of_string].
  fold (bytes rest). rewrite length_app. cbn [length].
  replace (S (length (bytes w) + S (length (bytes rest))))%nat
    with (length (bytes w) + S (S (length (bytes rest))))%nat by lia.
  rewrite fields_word by done. rewrite app_nil_r. cbn [fields_fuel].
  change (cut_space wide_spaces (byte 32 :: bytes rest)) with (Some (bytes rest)). cbv iota.
  destruct (reverse (bytes w)) as [|c l] eqn:Hr.
  - apply (f_equal reverse) in Hr. rewrite reverse_involutive in Hr. by destruct w.
  - rewrite <- Hr, reverse_involutive. cbn [app fmap list_fmap]. by rewrite of_bytes_bytes.
Qed.

Lemma Fields_pad k rest : Fields (pad k +:+ rest) = Fields rest.
Proof. induction k as [|k IH]; [done|]. cbn [pad]. rewrite append_cons. exact IH. Qed.

(** ** Numbers *)

Lemma pretty_go_digits (x : N) s : all_digits s = true → all_digits (pretty_N_go x s) = true.
Proof.
  revert s. induction (N.lt_wf_0 x) as [x _ IH]. intros s Hs.
  destruct (decide (0 < x)%N) as [Hx|Hx].
  - rewrite pretty_N_go_step by done. apply IH; [apply N.div_lt; lia|]. simpl. rewrite Hs, andb_true_r.
    assert (x `mod` 10 < 10)%N as Hm by (apply N.mod_lt; lia).
    pose proof (digit_pretty (x `mod` 10) Hm) as Hd. unfold digit in Hd. unfold is_digit.
    by case_decide; [apply bool_decide_eq_true|].
  - assert (x = 0%N) as -> by lia. by rewrite pretty_N_go_0.
Qed.

Lemma Sprint_d_visible z : 0 ≤ z → visible_all (Sprint_d z) = true ∧ Sprint_d z ≠ EmptyString.
Proof.
  intros Hz. assert (∃ n : N, Sprint_d z = pretty n) as [n ->].
  { destruct z as [|p|p]; [by exists 0%N|by exists (N.pos p)|lia]. }
  destruct (pretty_N_head n) as (c & s & Hs & Hc). split; [|by rewrite Hs].
  assert (all_digits (pretty n) = true) as Hd.
  { unfold pretty, pretty_N. case_decide; [done|]. by apply pretty_go_digits. }
  unfold visible_all. apply forallb_forall. intros x Hx. apply list_elem_of_In in Hx.
  apply all_digits_bytes in Hd. rewrite Forall_forall in Hd. by apply visible_digit, Hd.
Qed.

(** ** Lines *)

Lemma split_first c l r : c ∉ l → split_bytes c (l ++ c :: r) = l :: split_bytes c r.
Proof.
  induction l as [|x l IH]; simpl; [by rewrite decide_True|]. intros [Hx Hl]%not_elem_of_cons.
  rewrite decide_False by congruence. by rewrite IH.
Qed.

Definition one_line (s : string) : bool := bool_decide (byte 10 ∉ bytes s).

Lemma Split_line s r : one_line s = true → Split (s +:+ newline +:+ r) (byte 10) = s :: Split r (byte 10).
Proof.
  intros Hs. apply bool_decide_eq_true in Hs. unfold Split. rewrite !bytes_app. cbn [bytes newline].
  change (bytes newline ++ bytes r) with (byte 10 :: bytes r). rewrite split_first by done.
  cbn [fmap list_fmap]. by rewrite of_bytes_bytes.
Qed.

(** A line of df: a source, three padded numbers and the rest. *)
Definition df_line (source : string) (k1 k2 k3 : nat) (total used available : Z) (rest : string) : string :=
  source +:+ String (byte 32) (pad k1 +:+ Sprint_d total +:+ String (byte 32) (pad k2 +:+
    Sprint_d used +:+ String (byte 32) (pad k3 +:+ Sprint_d available +:+ String (byte 32) rest))).

(** C30: From what df -B1 prints for a file system, NodeGetVolumeStats reads back
    exactly the total, used and available bytes, for every padding of the columns
    and every 64-bit size. *)
Theorem parseDf_roundtrip header source k1 k2 k3 total used available rest more :
  one_line header = true → visible_all source = true → source ≠ EmptyString →
  one_line (df_line source k1 k2 k3 total used available rest) = true →
  0 ≤ total ≤ max_int64 → 0 ≤ used ≤ max_int64 → 0 ≤ available ≤ max_int64 →
  parseDf (header +:+ newline +:+ df_line source k1 k2 k3 total used available rest +:+ newline +:+ more) =
    inr (mkUsage total used available).
Proof.
  intros Hh Hs Hne Hl Ht Hu Ha. unfold parseDf. cbv zeta. rewrite !Split_line by done.
  unfold df_line. rewrite Fields_word by done.
  destruct (Sprint_d_visible total), (Sprint_d_visible used), (Sprint_d_visible available); try lia.
  rewrite !Fields_pad, Fields_word by done. rewrite !Fields_pad, Fields_word by done.
  rewrite !Fields_pad, Fields_word by done.
  rewrite !ParseInt_Sprint_d by (unfold min_int64, max_int64 in *; lia). done.
Qed.

(** ** mkfs *)

(** mkfsCommand names the device last; for the five known file systems, in any case and
    with surrounding space, it is the file system's own mkfs with its force flag,
    and otherwise mkfs -t with the normalised name and no force flag. *)
Theorem mkfsCommand_spec fs dev :
  let name := ToLower (TrimSpace fs) in
  last (mkfsCommand fs dev).2 = Some dev ∧
  (if decide (name ∈ ["btrfs"; "xfs"; "ext2"; "ext3"; "ext4"])
   then (mkfsCommand fs dev).1 = "mkfs." +:+ name ∧
        (mkfsCommand fs dev).2 = [if decide (name = "btrfs" ∨ name = "xfs") then "-f" else "-F"; dev]
   else mkfsCommand fs dev = ("mkfs", ["-t"; name; dev])).
Proof.
  cbv zeta. unfold mkfsCommand. set (name := ToLower (TrimSpace fs)). clearbody name.
  split; [by repeat case_decide|].
  destruct (decide (name ∈ _)) as [Hin|Hin].
  - rewrite !elem_of_cons, elem_of_nil in Hin. by destruct_or! Hin; subst name.
  - rewrite !not_elem_of_cons in Hin. destruct Hin as (? & ? & ? & ? & ? & _).
    rewrite !decide_False by tauto. done.
Qed.

(** ** On the concrete node *)

Section witnesses.
Import SimRun.

Lemma parseDf_roundtrip_witness :
  parseDf ("Filesystem 1B-blocks Used Available Use% Mounted on" +:+ newline +:+
           df_line "/dev/nbd0" 3 0 2 1000 400 600 "40% /mnt" +:+ newline +:+ EmptyString) =
    inr (mkUsage 1000 400 600).
Proof.
  pose proof (parseDf_roundtrip "Filesystem 1B-blocks Used Available Use% Mounted on" "/dev/nbd0" 3 0 2
    1000 400 600 "40% /mnt" EmptyString) as Hthm.
  apply Hthm; try by_compute; try done; unfold max_int64; lia.
Defined.

(** mkfsCommand normalises the case of the file system, the mount does not: a volume of
    file system EXT4 is formatted as ext4 and then not mounted. *)
Theorem mixed_case_filesystem_fails :
  let req := mkPublish "pvc-1" target0 (Some (mkCapability (Some [])))
               (<["filesystem" := "EXT4"]> context0) in
  mkfsCommand "EXT4" "/dev/nbd0" = mkfsCommand "ext4" "/dev/nbd0" ∧
  mountArgs "EXT4" "/dev/nbd0" target0 [] = ["-t"; "EXT4"; "/dev/nbd0"; target0] ∧
  (NodePublishVolume ns0 req world0).1 =
    inl (mkStatus Internal "failed to mount NBD device: exit status 32").
Proof. split; [by_compute|]. split; by_compute. Qed.

End witnesses.

End StatsProps.
