(* ===== verification/Driver.v ===== *)
(** * The driver process (pkg/csi/driver.go)

    Start-up, registration of the services, shutdown, and the identity service.
    The gRPC server and the unix listener are parameters; a goroutine the driver
    starts is recorded, not run here: [NodeConc] interleaves the reconciler with the
    handlers. *)

From S2P Require Import Prelude GoStrings GoPath World Kube Zerofs Controller Nbd Node.

Module Driver.

Definition driverName : string := "zerofs.csi.driver".
Definition version : string := "0.1.0".

(** A registered service. *)
Inductive service :=
| IdentityService
| ControllerService (nodeID : string) (m : zerofsMounter)
| NodeService (ns : nodeService).

(** A goroutine. *)
Inductive goroutine := Reconcile (ns : nodeService) | Serve.

Record zeroFSDriver := mkDriver {
  dr_name : string; dr_version : string; dr_nodeID : string;
  dr_enableController : bool; dr_enableNode : bool; dr_namespace : string;
  dr_mounter : option zerofsMounter;
  dr_server : option (list service);   (** the gRPC server with its services *)
  dr_goroutines : list goroutine;
  dr_stopped : bool }.

Definition NewZeroFSDriver (enableController enableNode : bool) (namespace : string) : zeroFSDriver :=
  mkDriver driverName version EmptyString enableController enableNode namespace None None [] false.

(** [filepath.Join("/var/lib/kubelet/plugins", driverName, "csi.sock")] *)
Definition socketPath : string := PathJoin ["/var/lib/kubelet/plugins"; driverName; "csi.sock"].

(** [Stop]: the graceful stop of a server that is there. *)
Definition Stop (d : zeroFSDriver) : zeroFSDriver :=
  match dr_server d with
  | Some _ =>
      mkDriver (dr_name d) (dr_version d) (dr_nodeID d) (dr_enableController d) (dr_enableNode d)
        (dr_namespace d) (dr_mounter d) (dr_server d) (dr_goroutines d) true
  | None => d
  end.

(** The driver with its server, its services and the goroutines started so far. *)
Definition register (d : zeroFSDriver) (nodeID : string) : zeroFSDriver :=
  let m := NewZeroFSMounter (dr_namespace d) in
  let ns := mkNodeService nodeID m in
  mkDriver (dr_name d) (dr_version d) nodeID (dr_enableController d) (dr_enableNode d) (dr_namespace d)
    (Some m)
    (Some ([IdentityService] ++
       (if dr_enableController d then [ControllerService nodeID m] else []) ++
       (if dr_enableNode d then [NodeService ns] else [])))
    (dr_goroutines d ++ (if dr_enableNode d then [Reconcile ns] else []))
    (dr_stopped d).

Definition serve (d : zeroFSDriver) : zeroFSDriver :=
  mkDriver (dr_name d) (dr_version d) (dr_nodeID d) (dr_enableController d) (dr_enableNode d)
    (dr_namespace d) (dr_mounter d) (dr_server d) (dr_goroutines d ++ [Serve]) (dr_stopped d).

(** What the process needs from the system: environment variables, [net.Listen] on a
    unix socket, and the wait for the end of the context, with its error. *)
Class Process `{E : !Environment} := {
  os_Getenv : string → ext → string;
  net_Listen : string → Sys ext → option string * Sys ext;
  ctx_Wait : Sys ext → string * Sys ext;
}.

Section driver.
Context `{E : !Environment, PR : !Process}.

(** The part of [Start] from [net.Listen] on. *)
Definition listenAndServe (d : zeroFSDriver) : Go (string * zeroFSDriver) :=
  do lerr <- sys_step (net_Listen socketPath);
  match lerr with
  | Some e => ret ("failed to listen on socket: " +:+ e, d)
  | None =>
      do cerr <- sys_step ctx_Wait;
      ret (cerr, Stop (serve d))
  end.

(** [Start]: the error it returns and the driver it leaves. *)
Definition Start (d : zeroFSDriver) : Go (string * zeroFSDriver) :=
  do nodeID <- sys_read (λ s, os_Getenv "NODE_ID" (sys_ext s));
  let d := register d nodeID in
  do err <- os_MkdirAll (Dir socketPath);
  match err with
  | Some e => ret ("failed to create directory for socket: " +:+ pe_error e, d)
  | None =>
      do err <- os_Remove socketPath;
      match err with
      | Some e =>
          if IsNotExist e then listenAndServe d
          else ret ("failed to remove existing socket: " +:+ pe_error e, d)
      | None => listenAndServe d
      end
  end.

(** ** Laws *)

(** The outcome of [Start], apart from the system: it failed before it served, or it
    served until the end of the context. *)
Definition started (d : zeroFSDriver) (nodeID : string) (r : string * zeroFSDriver) : Prop :=
  (∃ p e, p ∈ ["failed to create directory for socket: "; "failed to remove existing socket: ";
       "failed to listen on socket: "] ∧ r = (p +:+ e, register d nodeID)) ∨
  (∃ s, r = ((ctx_Wait s).1, Stop (serve (register d nodeID)))).

Lemma Start_started d w :
  started d (os_Getenv "NODE_ID" (sys_ext (w_sys w))) (Start d w).1.
Proof.
  set (P := λ (r : string * zeroFSDriver) (_ : World), started d (os_Getenv "NODE_ID" (sys_ext (w_sys w))) r).
  change (wp (Start d) P w). unfold Start. wp_step. unfold wp at 1, sys_read. cbn [fst snd]. cbv zeta.
  assert (∀ w', wp (listenAndServe (register d (os_Getenv "NODE_ID" (sys_ext (w_sys w))))) P w') as Hl.
  { intros w'. unfold listenAndServe. wp_skip w3. destruct a as [e|].
    - apply wp_ret. left. exists "failed to listen on socket: ", e. split; [set_solver|done].
    - wp_step. unfold wp at 1, sys_step. cbn [fst snd]. apply wp_ret. right. by eexists. }
  wp_skip w1. destruct a as [e|].
  { apply wp_ret. left. exists "failed to create directory for socket: ", (pe_error e). split; [set_solver|done]. }
  wp_skip w2. destruct a as [e|]; [|apply Hl].
  destruct (IsNotExist e); [apply Hl|]. apply wp_ret. left.
  exists "failed to remove existing socket: ", (pe_error e). split; [set_solver|done].
Qed.

(** C34: On every path, Start leaves a server with the identity service, the controller
    service exactly when enabled and the node service exactly when enabled, both
    with the NODE_ID of the environment and a mounter for the namespace, each
    registered once; the reconciler is started exactly for a registered node
    service, and once. Start either fails before it serves, with one of three
    errors, or serves once, and then it returns the error of the ended context with
    the server stopped. *)
Theorem start_registers enableController enableNode namespace w :
  let d := NewZeroFSDriver enableController enableNode namespace in
  let err := (Start d w).1.1 in
  let r := (Start d w).1.2 in
  let nodeID := os_Getenv "NODE_ID" (sys_ext (w_sys w)) in
  ∃ services, dr_server r = Some services ∧
    NoDup services ∧ NoDup (dr_goroutines r) ∧
    IdentityService ∈ services ∧
    (∀ n m, ControllerService n m ∈ services ↔ enableController = true ∧ n = nodeID ∧ m = mkMounter namespace) ∧
    (∀ ns, NodeService ns ∈ services ↔ enableNode = true ∧ ns = mkNodeService nodeID (mkMounter namespace)) ∧
    (∀ ns, Reconcile ns ∈ dr_goroutines r ↔ NodeService ns ∈ services) ∧
    (Serve ∈ dr_goroutines r ↔ dr_stopped r = true) ∧
    (if dr_stopped r then ∃ s, err = (ctx_Wait s).1
     else ∃ p e, p ∈ ["failed to create directory for socket: "; "failed to remove existing socket: ";
            "failed to listen on socket: "] ∧ err = p +:+ e).
Proof.
  cbv zeta. pose proof (Start_started (NewZeroFSDriver enableController enableNode namespace) w) as Hs.
  destruct Hs as [(p & e & Hp & ->)|[s ->]]; unfold register, serve, Stop, NewZeroFSDriver, NewZeroFSMounter;
    cbn [fst snd dr_server dr_goroutines dr_stopped dr_enableController dr_enableNode dr_namespace dr_name dr_version
         dr_nodeID dr_mounter];
    (eexists; split; [done|]); destruct enableController, enableNode; cbn [app];
    (split; [by repeat (apply NoDup_cons; split; [set_solver|]); apply NoDup_nil|]);
    (split; [by repeat (apply NoDup_cons; split; [set_solver|]); apply NoDup_nil|]);
    (repeat (split; [set_solver|])); eauto.
Qed.

End driver.

(** ** The identity service *)

Inductive plugin_capability := CONTROLLER_SERVICE | VOLUME_ACCESSIBILITY_CONSTRAINTS.

Definition GetPluginInfo : string * string := (driverName, version).
Definition GetPluginCapabilities : list plugin_capability := [CONTROLLER_SERVICE; VOLUME_ACCESSIBILITY_CONSTRAINTS].
Definition Probe : bool := true.

(** The driver's own socket is in the plugin directory of the name it reports, which is
    the directory of the volumes' sockets, and differs from each of them. *)
Theorem csi_socket_apart v :
  Dir socketPath = ZeroFSBaseDir ∧ ZeroFSBaseDir = PathJoin ["/var/lib/kubelet/plugins"; GetPluginInfo.1] ∧
  (no_slash v = true → socketPath ≠ socket9p v ∧ socketPath ≠ socketNbd v).
Proof.
  split; [by_compute|]. split; [by_compute|]. intros Hv.
  assert (∀ s, no_slash (v +:+ s) = true → socketPath ≠ PathJoin [ZeroFSBaseDir; "zerofs-" +:+ v +:+ s]) as Hne.
  { intros s Hs Heq. assert (plain ("zerofs-" +:+ v +:+ s) = true) as Hp.
    { unfold plain. apply andb_true_intro. split; [|by apply bool_decide_eq_true].
      unfold no_slash in *. apply bool_decide_eq_true in Hs. apply bool_decide_eq_true.
      rewrite bytes_app, elem_of_app. intros [H|H]; [|done]. revert H.
      by apply (bool_decide_unpack (slash ∉ bytes "zerofs-")). }
    apply (f_equal Base) in Heq. rewrite PathJoin_plain, Base_join in Heq by done. done. }
  assert (∀ s, no_slash s = true → no_slash (v +:+ s) = true) as Hns.
  { intros s Hs. unfold no_slash in *. apply bool_decide_eq_true in Hs, Hv. apply bool_decide_eq_true.
    rewrite bytes_app, elem_of_app. tauto. }
  split; apply Hne; by apply Hns.
Qed.

End Driver.
Export Driver.
