(* ===== verification/CmdLine.v ===== *)
(** * The command line (cmd/driver/main.go)

    [main]: the flags it declares, parsed as Go's [flag] package does, the metrics
    address, and the way from there to a running manager or an exit code.  The manager is
    controller-runtime's and a parameter; so are the flags that imported packages
    register (controller-runtime adds one for the kubeconfig). *)

From S2P Require Import Prelude GoStrings GoPath World Kube Zerofs Controller Nbd Node Driver.

Module CmdLine.

(** ** The flag package *)

Definition minus : ascii := byte 45.
Definition equals : ascii := byte 61.

(** [strconv.ParseBool]. *)
Definition ParseBool (s : string) : option bool :=
  if bool_decide (s ∈ ["1"; "t"; "T"; "true"; "TRUE"; "True"]) then Some true
  else if bool_decide (s ∈ ["0"; "f"; "F"; "false"; "FALSE"; "False"]) then Some false
  else None.

(** The part before the first equals sign, and the part after it if there is one. *)
Fixpoint cut_equals (s : string) : string * option string :=
  match s with
  | EmptyString => (EmptyString, None)
  | String c r =>
      if decide (c = equals) then (EmptyString, Some r)
      else let (n, v) := cut_equals r in (String c n, v)
  end.

(** What an argument is: no flag, the end of the flags, ill-formed, or a flag with its
    name and perhaps a value. *)
Inductive argument := NotFlag | Terminator | BadSyntax | FlagArg (name : string) (value : option string).

Definition classify (s : string) : argument :=
  match s with
  | String c0 (String c1 r) =>
      if decide (c0 = minus) then
        if bool_decide (c1 = minus ∧ r = EmptyString) then Terminator
        else
          match (if decide (c1 = minus) then r else String c1 r) with
          | EmptyString => BadSyntax
          | String h t =>
              if decide (h = minus ∨ h = equals) then BadSyntax
              else let (n, v) := cut_equals t in FlagArg (String h n) v
          end
      else NotFlag
  | _ => NotFlag
  end.

(** The variables of the driver's own flags. *)
Record Flags := mkFlags {
  fl_controller : bool; fl_node : bool; fl_namespace : string; fl_metricsAddr : string }.

(** The flags of imported packages: whether a name is one, and then whether it is
    boolean; whether a value for it is accepted. *)
Class ImportedFlags := {
  imported_kind : string → option bool;
  imported_set : string → string → bool;
}.

Inductive flag_error :=
| ErrHelp
| ErrSyntax (arg : string)
| ErrUndefined (name : string)
| ErrValue (name value : string)
| ErrMissing (name : string).

Section flags.
Context `{IF : !ImportedFlags}.

(** Whether the name is a flag, and a boolean one. *)
Definition flag_kind (name : string) : option bool :=
  if bool_decide (name ∈ ["controller"; "node"]) then Some true
  else if bool_decide (name ∈ ["namespace"; "metrics-bind-address"]) then Some false
  else imported_kind name.

(** The [Set] method of the flag's value. *)
Definition set_flag (name value : string) (f : Flags) : option Flags :=
  if decide (name = "controller") then
    (λ b, mkFlags b (fl_node f) (fl_namespace f) (fl_metricsAddr f)) <$> ParseBool value
  else if decide (name = "node") then
    (λ b, mkFlags (fl_controller f) b (fl_namespace f) (fl_metricsAddr f)) <$> ParseBool value
  else if decide (name = "namespace") then
    Some (mkFlags (fl_controller f) (fl_node f) value (fl_metricsAddr f))
  else if decide (name = "metrics-bind-address") then
    Some (mkFlags (fl_controller f) (fl_node f) (fl_namespace f) value)
  else if imported_set name value then Some f else None.

(** [flag.Parse]: the variables and the remaining arguments. *)
Fixpoint flag_Parse (f : Flags) (args : list string) : flag_error + (Flags * list string) :=
  match args with
  | [] => inr (f, [])
  | s :: rest =>
      match classify s with
      | NotFlag => inr (f, args)
      | Terminator => inr (f, rest)
      | BadSyntax => inl (ErrSyntax s)
      | FlagArg name value =>
          match flag_kind name with
          | None => inl (if bool_decide (name ∈ ["help"; "h"]) then ErrHelp else ErrUndefined name)
          | Some true =>
              let v := default "true" value in
              match set_flag name v f with
              | Some f' => flag_Parse f' rest
              | None => inl (ErrValue name v)
              end
          | Some false =>
              match value, rest with
              | Some v, _ =>
                  match set_flag name v f with
                  | Some f' => flag_Parse f' rest
                  | None => inl (ErrValue name v)
                  end
              | None, v :: rest' =>
                  match set_flag name v f with
                  | Some f' => flag_Parse f' rest'
                  | None => inl (ErrValue name v)
                  end
              | None, [] => inl (ErrMissing name)
              end
          end
      end
  end.

(** ** main *)

(** The default of the metrics address, from METRICS_BIND_ADDRESS. *)
Definition defaultMetricsAddr (env : string) : string := if decide (env = EmptyString) then ":8080" else env.

(** The variables before the command line is looked at. *)
Definition flagDefaults (env : string) : Flags := mkFlags false false "zerofs" (defaultMetricsAddr env).

(** The options of the manager: the metrics address and the namespaces of the cache. *)
Record mgrOptions := mkOptions { mo_bindAddress : string; mo_namespaces : gset string }.

(** How the process ends: [os.Exit] with a code, after a line on standard error or
    the usage, or the end of main. *)
Inductive outcome := Exit (code : nat) (message : string) | Returned.

(** The calls on controller-runtime, with their errors; the manager runs the driver's
    [Start]. *)
Class Manager `{E : !Environment} := {
  ctrl_GetConfig : Sys ext → option string * Sys ext;
  ctrl_NewManager : mgrOptions → Sys ext → option string * Sys ext;
  mgr_Add : zeroFSDriver → Sys ext → option string * Sys ext;
  mgr_Start : Go (string * zeroFSDriver) → Go (option string);
}.

Context `{E : !Environment, PR : !Process, MG : !Manager}.

(** The part of main after the flags. *)
Definition runManager (f : Flags) : Go outcome :=
  do cerr <- sys_step ctrl_GetConfig;
  match cerr with
  | Some e => ret (Exit 1 e)
  | None =>
      do merr <- sys_step (ctrl_NewManager (mkOptions (fl_metricsAddr f) {[ fl_namespace f ]}));
      match merr with
      | Some e => ret (Exit 1 ("Failed to create manager: " +:+ e))
      | None =>
          let driver := NewZeroFSDriver (fl_controller f) (fl_node f) (fl_namespace f) in
          do aerr <- sys_step (mgr_Add driver);
          match aerr with
          | Some e => ret (Exit 1 ("Failed to add controller: " +:+ e))
          | None =>
              do serr <- mgr_Start (Start driver);
              match serr with
              | Some e => ret (Exit 1 ("Failed to start manager: " +:+ e))
              | None => ret Returned
              end
          end
      end
  end.

Definition main (args : list string) : Go outcome :=
  do v <- sys_read (λ s, os_Getenv "METRICS_BIND_ADDRESS" (sys_ext s));
  match flag_Parse (flagDefaults v) args with
  | inl ErrHelp => ret (Exit 0 "usage")
  | inl _ => ret (Exit 2 "usage")
  | inr (f, _) => runManager f
  end.

(** ** Command lines *)

Inductive setting := SController (b : bool) | SNode (b : bool) | SNamespace (s : string) | SMetrics (s : string).

Definition apply_setting (f : Flags) (x : setting) : Flags :=
  match x with
  | SController b => mkFlags b (fl_node f) (fl_namespace f) (fl_metricsAddr f)
  | SNode b => mkFlags (fl_controller f) b (fl_namespace f) (fl_metricsAddr f)
  | SNamespace s => mkFlags (fl_controller f) (fl_node f) s (fl_metricsAddr f)
  | SMetrics s => mkFlags (fl_controller f) (fl_node f) (fl_namespace f) s
  end.

(** A setting as arguments: with one dash or two, and with the value after an equals
    sign or apart (for a boolean: left out when it is true). *)
Definition spell_bool (dash name : string) (joined b : bool) : list string :=
  if b && negb joined then [dash +:+ name] else [dash +:+ name +:+ "=" +:+ (if b then "true" else "false")].

Definition spell_string (dash name : string) (joined : bool) (s : string) : list string :=
  if joined then [dash +:+ name +:+ "=" +:+ s] else [dash +:+ name; s].

Definition spell (y : bool * bool * setting) : list string :=
  let '(two, joined, x) := y in
  let dash := if two then "--" else "-" in
  match x with
  | SController b => spell_bool dash "controller" joined b
  | SNode b => spell_bool dash "node" joined b
  | SNamespace s => spell_string dash "namespace" joined s
  | SMetrics s => spell_string dash "metrics-bind-address" joined s
  end.

Lemma parse_spelled f y rest : flag_Parse f (spell y ++ rest) = flag_Parse (apply_setting f y.2) rest.
Proof. destruct y as [[[] []] [[]|[]|s|s]]; reflexivity. Qed.

(** Whatever settings are on the command line, in any order, number and spelling, parsing
    gives back exactly those, the last one of each flag winning. *)
Lemma flags_roundtrip f ys :
  flag_Parse f (mjoin (spell <$> ys)) = inr (foldl apply_setting f ys.*2, []).
Proof.
  revert f. induction ys as [|y ys IH]; intros f; [done|]. cbn [fmap list_fmap mjoin list_join foldl].
  by rewrite parse_spelled, IH.
Qed.

(** What a command line says of each flag. *)
Definition as_controller (x : setting) : option bool := match x with SController b => Some b | _ => None end.
Definition as_node (x : setting) : option bool := match x with SNode b => Some b | _ => None end.
Definition as_namespace (x : setting) : option string := match x with SNamespace s => Some s | _ => None end.
Definition as_metrics (x : setting) : option string := match x with SMetrics s => Some s | _ => None end.

(** The last setting of a flag, or else its default. *)
Definition chosen {A} (as_flag : setting → option A) (dflt : A) (xs : list setting) : A :=
  default dflt (last (omap as_flag xs)).

Lemma chosen_cons {A} (as_flag : setting → option A) dflt x xs :
  chosen as_flag dflt (x :: xs) = chosen as_flag (default dflt (as_flag x)) xs.
Proof.
  unfold chosen. cbn [omap list_omap]. destruct (as_flag x) as [a|]; [|done]. cbn [default].
  change (last (a :: omap as_flag xs)) with (last ([a] ++ omap as_flag xs)). rewrite last_app.
  by destruct (last (omap as_flag xs)).
Qed.

Lemma settings_chosen f xs :
  foldl apply_setting f xs =
    mkFlags (chosen as_controller (fl_controller f) xs) (chosen as_node (fl_node f) xs)
      (chosen as_namespace (fl_namespace f) xs) (chosen as_metrics (fl_metricsAddr f) xs).
Proof.
  revert f. induction xs as [|x xs IH]; intros f; [by destruct f|]. cbn [foldl]. rewrite IH.
  rewrite !chosen_cons. by destruct x.
Qed.

(** C33: main with any of its flags on the command line, in any order, number and
    spelling: it builds a manager whose metrics address is the last -metrics-bind-
    address, else METRICS_BIND_ADDRESS, else :8080, and whose cache is of the
    namespace of the last -namespace, else zerofs; it adds and runs exactly the
    driver with that namespace and the services of the last -controller and -node
    (off by default). It returns only when getting the configuration, making the
    manager, adding the driver and running it all succeeded, in this order;
    otherwise the process exits with code 1 at the first that failed, with that
    one's error. *)
Theorem main_starts (ys : list (bool * bool * setting)) w :
  let env := os_Getenv "METRICS_BIND_ADDRESS" (sys_ext (w_sys w)) in
  let xs := ys.*2 in
  let ns := chosen as_namespace "zerofs" xs in
  let addr := chosen as_metrics (if decide (env = EmptyString) then ":8080" else env) xs in
  let driver := NewZeroFSDriver (chosen as_controller false xs) (chosen as_node false xs) ns in
  let r := main (mjoin (spell <$> ys)) w in
  match ctrl_GetConfig (w_sys w) with
  | (Some e, s1) => r = (Exit 1 e, mkWorld s1 (w_trace w))
  | (None, s1) =>
      match ctrl_NewManager (mkOptions addr {[ ns ]}) s1 with
      | (Some e, s2) => r = (Exit 1 ("Failed to create manager: " +:+ e), mkWorld s2 (w_trace w))
      | (None, s2) =>
          match mgr_Add driver s2 with
          | (Some e, s3) => r = (Exit 1 ("Failed to add controller: " +:+ e), mkWorld s3 (w_trace w))
          | (None, s3) =>
              match mgr_Start (Start driver) (mkWorld s3 (w_trace w)) with
              | (Some e, w') => r = (Exit 1 ("Failed to start manager: " +:+ e), w')
              | (None, w') => r = (Returned, w')
              end
          end
      end
  end.
Proof.
  cbv zeta.
  assert (∀ f, (let env := os_Getenv "METRICS_BIND_ADDRESS" (sys_ext (w_sys w)) in
     foldl apply_setting (flagDefaults env) ys.*2 = f) → main (mjoin (spell <$> ys)) w = runManager f w) as Hmain.
  { intros f <-. unfold main, bind at 1, sys_read. cbn [fst snd]. by rewrite flags_roundtrip. }
  rewrite (Hmain _ (settings_chosen _ _)). clear Hmain.
  unfold flagDefaults, defaultMetricsAddr, runManager, bind, sys_step, ret.
  cbn [fl_controller fl_node fl_namespace fl_metricsAddr]. cbv zeta.
  destruct (ctrl_GetConfig _) as [[e|] s1]; [done|]. cbn [fst snd w_sys w_trace].
  destruct (ctrl_NewManager _ s1) as [[e|] s2]; [done|]. cbn [fst snd w_sys w_trace].
  destruct (mgr_Add _ s2) as [[e|] s3]; [done|]. cbn [fst snd w_sys w_trace].
  by destruct (mgr_Start _ _) as [[e|] w'].
Qed.

(** A command line that does not parse ends the process with code 2 (0 for -h) before
    anything else happens; otherwise main goes on to the manager, and every later
    exit has code 1. *)
Theorem main_usage args w :
  let v := os_Getenv "METRICS_BIND_ADDRESS" (sys_ext (w_sys w)) in
  match flag_Parse (flagDefaults v) args with
  | inl ErrHelp => main args w = (Exit 0 "usage", w)
  | inl _ => main args w = (Exit 2 "usage", w)
  | inr (f, _) => main args w = runManager f w ∧ ∀ code msg, (main args w).1 = Exit code msg → code = 1
  end.
Proof.
  cbv zeta. assert (main args w = match flag_Parse (flagDefaults (os_Getenv "METRICS_BIND_ADDRESS" (sys_ext (w_sys w)))) args with
    | inl ErrHelp => (Exit 0 "usage", w) | inl _ => (Exit 2 "usage", w) | inr (f, _) => runManager f w end) as ->.
  { unfold main, bind, sys_read. cbn [fst snd]. by destruct (flag_Parse _ args) as [[]|[f r]]. }
  destruct (flag_Parse _ args) as [[]|[f r]]; [done..|]. split; [done|]. intros code msg.
  unfold runManager, bind, ret. cbv zeta. repeat case_match; cbn [fst]; intros [=]; done.
Qed.

End flags.

End CmdLine.
Export CmdLine.
